(* ===== verification/_CoqProject ===== *)
-Q . S2P
Prelude.v
Capability.v
Boot.v
Timer.v
Sanctum.v
Buddy.v
Console.v
Scheduler.v
VirtualMemory.v
Processes.v
Ipc.v
Spsc.v
RingOrderings.v
UnitTests.v
Host.v
BuildScript.v
ImageBuilder.v
Paging.v
AddressSpace.v
Context.v
Tasks.v
Interrupts.v
TickLocks.v
SerialLock.v
DemoTasks.v
PagingGlobals.v
KernelHeap.v
Syscall.v
Topology.v
PciPorts.v
AcpiHandler.v
Smp.v
SelfTest.v
KernelMain.v
