(* ===== verification/Prelude.v ===== *)
(** * UOSC: the kernel core and its x86-64 kernel

    A verification library for the Rust sources of the repository: the portable
    core [src/reference-rs] (capabilities, memory, scheduling, messages, vaults,
    timers, console, boot order) and the kernel [src/kernel-x86_64] that runs it on
    hardware (paging, context switches, tasks, system calls, PCI and ACPI).

    ** How the parts interact

    The capability broker decides who may send to a port and who may allocate
    memory.  The buddy allocator hands out physical pages; process address spaces
    map them, and so does the kernel, through the page tables of the [x86_64]
    crate.  The run queue orders tasks; the kernel's task pool spawns them on
    guarded stacks, picks one at each timer tick and switches stacks and page
    tables.  The tick comes through a gate and the interrupt controller, whose end of
    interrupt must precede it; the demo tasks run between ticks.  An address space is a
    clone of the active page tables with one page of its own, and a task can be bound
    to one.  A system call leaves ring 3 through a stub that dispatches on a table.  The
    other processor is started with three interrupts and a trampoline, and answers
    through shared flags.  The boot runs a check of each part and exits with a code.

    ** Files, in dependency order

    - [Prelude]: outcomes (return, panic, out of fuel), [Result], build profiles,
      machine integers, vectors, [BTreeMap] iteration, loops, shared tactics.
    - [Capability] ([reference-rs/src/capability.rs]): [CapabilityBroker] with
      [issue], [revoke], [verify], [check_access], [delegate]; the source's private
      [decide] is [decide_access] here.
    - [Boot] ([boot.rs]): [BootSequencer].  [Timer] ([timer.rs], [pit.rs]): the
      conversions and the bytes programmed into the PIT.  [Sanctum] ([sanctum.rs]):
      [VaultManager] and the attestation hash.
    - [Buddy] ([memory.rs], first half): [PhysicalAllocator].  [VirtualMemory]
      ([memory.rs], second half): [PageTable] and [ProcessMemoryContext].  [Processes]:
      histories of many contexts over one allocator.
    - [Console] ([console.rs]): newline translation, format scanner, cursor.
    - [Scheduler] ([scheduler.rs]): [RunQueue].
    - [Ipc] ([ipc.rs]): [RingBuffer] and [PortTable] used one call at a time.
      [Spsc]: the ring's two calls cut into atomic accesses and interleaved.
      [RingOrderings]: the same under the acquire, release and relaxed orderings of the
      source, with stale loads, views and data races.
    - [UnitTests]: the tests that the files of the core carry, each a definition with the
      test's name, run on the models.
    - [Paging] ([kernel-x86_64/src/paging.rs], [allocator.rs], [interrupts.rs], the
      memory part of [main.rs]): frame sources, mapping, heap bootstrap, demand
      paging; the interface [Mapper] with its laws, and a concrete instance.
    - [Context] ([context.rs]): instruction lists of [switch_to] and of the
      trampoline on a machine with byte memory, and [init_stack].
    - [Tasks] ([task_stack.rs], [scheduler_bridge.rs]): the statics as one record
      [kernel], and the handlers [spawn_task_impl], [exit_current_task],
      [on_timer_tick], [task_a_poll], [init].
    - [AddressSpace] ([address_space.rs]): page tables as words of memory, the walk of
      the hardware, [AddressSpace::new] and the switches of CR3.
    - [Interrupts] ([gdt.rs], [interrupts.rs], [cpu_features.rs]): segment tables and
      task states as the registers of a core get them, gates, the interrupt lines and
      the timer's handler, the protections of EFER and CR4.
    - [TickLocks]: the spin locks that the timer's handler takes on each of its ways, the
      default page table's and the heap's among them, and what an interrupt between two
      accesses of other code does.  [SerialLock] ([serial.rs]): the port's lock, which
      [_print] takes with interrupts off, among processors and the threads that a timer
      switches on each.
    - [DemoTasks] ([scheduler_bridge.rs]): the five task bodies as threads with a point
      and counters, [task_step] and [tick_step] in any order, and the read-backs.  A
      thread starts with the body that is at the entry address in its new stack; [code],
      which says what code is at an address, is a parameter.
    - [PagingGlobals] ([paging.rs]): the statics behind their spin locks, [with_phys] and
      [with_mapper_and_phys] with closures that a page fault or the timer interrupts.
      [KernelHeap] ([allocator.rs], [main.rs]): the bring-up of memory through them, with
      the global allocator as the interface [Heap].
    - [Syscall] ([syscall.rs]): table, stub, the ring-3 program from its machine
      code, [enter_ring3] and the exit path, [run_demo_syscall].
    - [Topology] ([acpi_topology.rs]): configuration-space accesses and the list of
      processors.  [AcpiHandler] (same file): the window on physical memory that the
      ACPI parser reads through.  [PciPorts] (same file): single ports, and the
      configuration accesses as the two port accesses each consists of ([HostBridge]).
    - [Host]: programs of the build machine, with environment, files, commands and output.
      [BuildScript] ([kernel-x86_64/build.rs]): the build script, from the assembler's map
      to the file of the trampoline's constants.  [ImageBuilder]
      ([kernel-x86_64-builder/src/main.rs]): the program that makes the disk images.
    - [Smp] ([smp.rs], [smp/ap_trampoline.asm]): [bring_up_ap] against schedules of
      timer ticks and of steps of the other processor, which runs the trampoline and
      the instructions of [ap_entry64].  The lock of [TICKS] is held across the read of
      the count, and both processors print through the lock of [SERIAL1].
    - [SelfTest] ([main.rs], [qemu_exit.rs]): the choice of the memory region, the
      checks that are not in the other files, their order and tally, the exit code.
      [KernelMain] ([main.rs]): [kernel_main] from the bootloader's state to the exit code,
      the parts above one after the other over the same page tables and allocator, with
      the tasks and the timer between the readings.

    ** How code becomes definitions

    A function keeps its name and threads the state it mutates; [Result] is
    [result], [?] is the notation [let?] of this file, which returns the state as
    it is at that point.  Integers are [Z]; every operator that can leave its width
    goes through [arith], which panics or wraps according to the build [Profile]
    (overflow checks on in the dev profile, off in release), so theorems hold for
    both.  Indexing, [unwrap], [expect] and assertions are [Panic].  A [BTreeMap]
    is a [gmap] with an ordered iteration, a [Vec] a list.  Code outside the
    repository is a parameter: the page-table walker and [VirtAddr::new] of the
    [x86_64] crate are the class [Mapper] (with [ViewLaws] for tables in memory), its
    descriptor table is [GdtOps], the interrupt controllers of the [pic8259] crate are
    [PicOps], each with laws and a concrete instance; the ACPI parser is an argument of
    [discover], what a callee leaves in caller-saved registers an argument of the
    system-call stub.  Critical sections that run with interrupts disabled are one
    step; the ring buffer, which has none, is interleaved access by access, and so is
    the boot processor with the other one in [Smp], and printing in [SerialLock].  In
    [DemoTasks] a read of the run queue is one step; [TickLocks] looks inside it.  The
    timer's handler is the list of its calls in [Interrupts]: a call of the tick that
    switches leaves the rest of the list for when its context is resumed.

    ** Fuel

    Loops with a bound in the code are structural.  [while_loop] takes fuel and
    answers [Diverge] without it: seeding an arena uses one turn per top-order
    block and at most 21 more, searching for a source order and merging buddies at
    most one turn per order, the format scanner one turn per byte.  The
    specifications of these operations state that they return, so the fuel is
    enough.  [run_user] runs the ring-3 program for 14 instructions, its length
    up to the exit trap.  The waits of [bring_up_ap] take their fuel from the schedule,
    one slice per turn; [bring_up_ap_terminates] gives the length of schedule, 415
    slices with a tick each, as many for the lock of the tick count and 44 waits for the
    lock of the port, after which it has returned.  An access that page-faults is
    tried once more, which is enough because the handler maps the page or panics.

    ** What the theorems show

    - Capabilities: delegation in any history only passes on what a token of the
      initial table allowed; revocation is final; the exact meaning of each answer
      of [check_access] and of each failure of [delegate]; the audit log.
    - Memory: in every history the free and the live blocks tile the arena and no
      two free buddies coexist; allocation fails only for want of space; freeing
      everything restores the initial arena.  Virtual allocation, release, lookup
      and faults, every branch, the partial ones included; no history of many processes
      gives two of them, or two addresses of one, the same frame.
    - Scheduling: earliest deadline, then least virtual runtime; every task runs
      within a bound; on the kernel, ticks and exits never panic, every loaded
      stack pointer is the one at which its task was last suspended (a log kept beside
      the history), on its own guarded stack, in the right page tables; a spawn takes
      the lowest free slot, and a freed slot is reused without mapping anything.
    - Bring-up: every byte of the heap is mapped; the locks of the paging globals are never
      waited for, whatever tick or task interrupts a closure, but a page fault inside one
      would hang.
    - The demo: under every interleaving no task or tick panics, no counter wraps, the
      bound task reads only through its own tables, every pid runs the body whose entry
      it was spawned with, the read-backs mean what they say and never turn false again.
    - Address spaces: a new one differs from the active one in the private page and in
      nothing else, and stays so.
    - Interrupts: a double fault and a trap from ring 3 start on the right stack of
      their own core, whose data segments are all null; the timer can interrupt again at
      every point of its handler where the tick may switch away; a tick amid code that
      holds one of its locks never ends; texts on the serial port are never mixed, and its
      lock is only waited for while another processor prints, unless a write fails.
    - The build: the constants of the trampoline are the addresses of the map, printed
      numbers read back, and nothing else is written however the script ends; the
      image builder stops at the first step that fails.
    - The other processor: what each answer of [bring_up_ap] says; that it comes within
      a bound unless a tick falls into the lock of the tick count or the other processor
      stops while it prints, and never when one does; that the check passes when that
      processor is given its steps and can load the kernel's tables.
    - The boot: the demand-paging checks pass or panic, the allocator's check restores
      it, and the exit code is success exactly when every check passed; of the checks,
      four cannot fail a boot, and from the bootloader's state to the end no tick and no
      step of a task panics and no guard page is mapped.
    - Switching: registers, stack pointer and return address survive a round trip
      through another context and through ring 3; a new task starts aligned, at its
      entry point, with interrupts enabled; the demo program reports 1249.
    - Messages: ports refine bounded queues behind the capability check; the ring
      is free of slot races and loses, repeats and reorders nothing under every
      interleaving of one producer and one consumer, whatever stale values the weak
      orderings let its loads return; and no weaker orderings would do.
    - The core library's own tests pass, for all inputs where they draw some.
    - PCI: an access through the two ports is the access to the space of registers, unless
      something selects another register in between.
    - Vaults, boot order, timers, console, PCI: attestation detects one changed
      field, phases complete in order, programmed divisors, what a format string
      prints, cursor bounds, byte accesses through 32-bit registers, physical memory
      written and read back at four widths.

    Where the code does not do what it says, the theorem states what it does:
    [Paging.bootstrap_frames_owned_twice], [Paging.map_unmap_page],
    [VirtualMemory.allocate_virtual_spec], [VirtualMemory.handle_page_fault_spec],
    [Scheduler.readd_leaves_stale_key], [Sanctum.attest_two_field_collision],
    [Console.cursor_row_overrun], [Console.format_splits_multibyte],
    [Smp.bring_up_ap_answer], [Smp.bring_up_ap_terminates], [TickLocks.tick_needs_its_locks],
    [SelfTest.phys_alloc_check], [KernelHeap.small_machine_heap_aliases].

    ** What is not modelled

    The texts of log lines, and the lines themselves outside [SerialLock] and [Smp]; weak
    memory outside the ring buffer (every other atomic access of the kernel asks for
    sequential consistency); the translation buffers of the processor; the heap allocator,
    page-table walker, ACPI parser and serial-port driver, which are other crates; the
    handler of double faults, which panics; the runs of the assembler and of the bootloader crate;
    the Titan, axiom and Lean sources. *)
From Stdlib Require Export ZArith Lia Ascii.
From stdpp Require Export base tactics numbers list gmap sorting strings pretty.

#[global] Open Scope Z_scope.

Declare Scope rust_scope.
Delimit Scope rust_scope with rust.
#[global] Open Scope rust_scope.

(** ** Outcomes, results and build profiles *)

(** The outcome of running a Rust function: it returns, it panics, or it is not finished
    (a loop that is given too little fuel, a lock that nobody gives back). *)
Inductive outcome (A : Type) : Type :=
| Ret (a : A)
| Panic
| Diverge.
Arguments Ret {A} a.
Arguments Panic {A}.
Arguments Diverge {A}.

#[export] Instance outcome_ret : MRet outcome := @Ret.
#[export] Instance outcome_bind : MBind outcome := λ A B f m,
  match m with
  | Ret a => f a
  | Panic => Panic
  | Diverge => Diverge
  end.

#[export] Instance outcome_fmap : FMap outcome := λ A B f m,
  match m with
  | Ret a => Ret (f a)
  | Panic => Panic
  | Diverge => Diverge
  end.

(** [core::result::Result]. *)
Inductive result (T E : Type) : Type :=
| Ok (t : T)
| Err (e : E).
Arguments Ok {T E} t.
Arguments Err {T E} e.

#[export] Instance result_eq_dec `{EqDecision T, EqDecision E} :
  EqDecision (result T E).
Proof. solve_decision. Defined.

Definition ok_or {A E} (o : option A) (e : E) : result A E :=
  match o with
  | Some a => Ok a
  | None => Err e
  end.

Definition is_ok {T E} (r : result T E) : bool :=
  match r with
  | Ok _ => true
  | Err _ => false
  end.

(** The [?] operator in a method that threads the state [s]: on [Err] the method
    returns at once, with the state as it is at that point. *)
Notation "'let?' x := r 'with' s 'in' k" :=
  (match r with
   | Ok x => k
   | Err e => Ret (s, Err e)
   end)
  (at level 10, x binder, r at level 100, s at level 100, k at level 200,
   only parsing) : rust_scope.

(** The build profile: rustc inserts overflow checks in the dev profile
    ([true]) and wraps around in the release profile ([false]).  Every theorem
    that does not fix the profile holds for both. *)
Class Profile := overflow_checks : bool.

Definition u32_max : Z := 2 ^ 32 - 1.
Definition u64_max : Z := 2 ^ 64 - 1.

Definition in_width (w x : Z) : bool := (0 <=? x) && (x <? 2 ^ w).

(** The value of a w-bit arithmetic operator whose mathematical result is [x]. *)
Definition arith `{Profile} (w x : Z) : outcome Z :=
  if in_width w x then Ret x
  else if overflow_checks then Panic
  else Ret (x mod 2 ^ w).

Definition u64_add `{Profile} (a b : Z) : outcome Z := arith 64 (a + b).
Definition u64_sub `{Profile} (a b : Z) : outcome Z := arith 64 (a - b).
Definition u64_mul `{Profile} (a b : Z) : outcome Z := arith 64 (a * b).
Definition u32_add `{Profile} (a b : Z) : outcome Z := arith 32 (a + b).
Definition u32_sub `{Profile} (a b : Z) : outcome Z := arith 32 (a - b).

(** [1u64 << n]: the shift amount is checked in the dev profile and reduced
    modulo the width in the release profile. *)
Definition u64_shl `{Profile} (a n : Z) : outcome Z :=
  if (0 <=? n) && (n <? 64) then Ret (Z.shiftl a n mod 2 ^ 64)
  else if overflow_checks then Panic
  else Ret (Z.shiftl a (n mod 64) mod 2 ^ 64).

(** [u64::div_ceil] for a nonzero divisor. *)
Definition div_ceil (a b : Z) : Z := (a + b - 1) / b.

(** [u64::saturating_sub] / [u32::saturating_sub]. *)
Definition saturating_sub (a b : Z) : Z := Z.max 0 (a - b).

(** [ilog2] of a nonzero word. *)
Definition ilog2 (x : Z) : Z := Z.log2 x.

(** [trailing_zeros] of a w-bit word. *)
Fixpoint pos_trailing_zeros (p : positive) : Z :=
  match p with
  | xO q => 1 + pos_trailing_zeros q
  | _ => 0
  end.

Definition trailing_zeros (w x : Z) : Z :=
  match x with
  | Zpos p => pos_trailing_zeros p
  | _ => w
  end.

(** ** Strings *)

(** A string literal of the source, as its bytes (all of them are ASCII). *)
Definition lit (s : string) : list Z :=
  (λ a, Z.of_N (Ascii.N_of_ascii a)) <$> String.list_ascii_of_string s.

(** ** Vec, slices and loops *)

(** Indexing panics out of range. *)
Definition vec_get {A} (l : list A) (i : Z) : outcome A :=
  if 0 <=? i then
    match l !! Z.to_nat i with
    | Some x => Ret x
    | None => Panic
    end
  else Panic.

Definition vec_set {A} (l : list A) (i : Z) (x : A) : outcome (list A) :=
  if (0 <=? i) && (i <? Z.of_nat (length l))
  then Ret (<[Z.to_nat i := x]> l)
  else Panic.

Definition vec_push {A} (l : list A) (x : A) : list A := l ++ [x].

(** [Vec::pop]: the shorter vector and the last element. *)
Fixpoint vec_pop {A} (l : list A) : option (list A * A) :=
  match l with
  | [] => None
  | x :: l' =>
      match vec_pop l' with
      | None => Some ([], x)
      | Some (r, y) => Some (x :: r, y)
      end
  end.

(** [iter().position(f)]. *)
Fixpoint position {A} (f : A → bool) (l : list A) : option nat :=
  match l with
  | [] => None
  | x :: l' => if f x then Some O else S <$> position f l'
  end.

(** [while cond { body }], with fuel. *)
Fixpoint while_loop {S : Type} (fuel : nat) (cond : S → bool)
    (body : S → outcome S) (s : S) : outcome S :=
  if cond s then
    match fuel with
    | O => Diverge
    | Datatypes.S n => body s ≫= while_loop n cond body
    end
  else Ret s.

(** [for x in xs { body?; }]: stops at the first [Err]. *)
Fixpoint for_each {X S E : Type} (body : X → S → outcome (S * result unit E))
    (xs : list X) (s : S) : outcome (S * result unit E) :=
  match xs with
  | [] => Ret (s, Ok tt)
  | x :: xs' =>
      r ← body x s;
      match r with
      | (s', Ok _) => for_each body xs' s'
      | (s', Err e) => Ret (s', Err e)
      end
  end.

(** ** BTreeMap

    A [BTreeMap] is a finite map that is iterated in ascending key order. *)
Section btree.
Context {K : Type} `{Countable K} (R : relation K) `{!RelDecision R}.

Definition btree_entry_le {A} (p q : K * A) : Prop := R p.1 q.1.

#[export] Instance btree_entry_le_dec {A} :
  RelDecision (@btree_entry_le A).
Proof. intros p q. unfold btree_entry_le. apply _. Defined.

Definition btree_iter {A} (m : gmap K A) : list (K * A) :=
  merge_sort btree_entry_le (map_to_list m).

Definition btree_values {A} (m : gmap K A) : list A := (btree_iter m).*2.

Definition btree_first {A} (m : gmap K A) : option (K * A) :=
  head (btree_iter m).
End btree.

(** ** Lemmas and automation *)

(** [uosc]: preservation of the invariants; [uosc_arith]: operators in range. *)
Create HintDb uosc.
Create Rewrite HintDb uosc_arith.

(** Case analysis on every [match] and [if] of a hypothesis or the goal. *)
Ltac destruct_matches_in H :=
  repeat (simpl in H;
          match type of H with
          | context [match ?x with _ => _ end] =>
              lazymatch x with
              | context [match _ with _ => _ end] => fail
              | _ => let E := fresh "E" in destruct x eqn:E; try discriminate H
              end
          end).

Ltac destruct_matches :=
  repeat (simpl;
          match goal with
          | |- context [match ?x with _ => _ end] =>
              lazymatch x with
              | context [match _ with _ => _ end] => fail
              | _ => let E := fresh "E" in destruct x eqn:E
              end
          end).

(** Boolean tests as propositions, in every hypothesis and in the goal. *)
Ltac reflect_bools :=
  repeat match goal with
    | H : context [(_ && _)%bool = true] |- _ => rewrite andb_true_iff in H
    | H : context [(_ || _)%bool = true] |- _ => rewrite orb_true_iff in H
    | H : context [(_ && _)%bool = false] |- _ => rewrite andb_false_iff in H
    | H : context [(_ || _)%bool = false] |- _ => rewrite orb_false_iff in H
    | H : context [negb _ = true] |- _ => rewrite negb_true_iff in H
    | H : context [negb _ = false] |- _ => rewrite negb_false_iff in H
    | H : context [Z.eqb _ _ = true] |- _ => rewrite Z.eqb_eq in H
    | H : context [Z.eqb _ _ = false] |- _ => rewrite Z.eqb_neq in H
    | H : context [Z.ltb _ _ = true] |- _ => rewrite Z.ltb_lt in H
    | H : context [Z.ltb _ _ = false] |- _ => rewrite Z.ltb_ge in H
    | H : context [Z.leb _ _ = true] |- _ => rewrite Z.leb_le in H
    | H : context [Z.leb _ _ = false] |- _ => rewrite Z.leb_gt in H
    | H : bool_decide _ = true |- _ => apply bool_decide_eq_true_1 in H
    | H : bool_decide _ = false |- _ => apply bool_decide_eq_false_1 in H
    | |- context [(_ && _)%bool = true] => rewrite andb_true_iff
    | |- context [(_ || _)%bool = true] => rewrite orb_true_iff
    | |- context [negb _ = true] => rewrite negb_true_iff
    | |- context [Z.eqb _ _ = true] => rewrite Z.eqb_eq
    | |- context [Z.eqb _ _ = false] => rewrite Z.eqb_neq
    | |- context [Z.ltb _ _ = true] => rewrite Z.ltb_lt
    | |- context [Z.leb _ _ = true] => rewrite Z.leb_le
    | |- context [Z.ltb _ _ = false] => rewrite Z.ltb_ge
    | |- context [Z.leb _ _ = false] => rewrite Z.leb_gt
    end.

(** *** Machine arithmetic *)

Lemma in_width_spec w x : in_width w x = true ↔ 0 <= x < 2 ^ w.
Proof. unfold in_width. rewrite andb_true_iff, Z.leb_le, Z.ltb_lt. done. Qed.

Section arithmetic.
Context `{Profile}.

(** In range, an operator returns the mathematical result. *)
Lemma arith_ret w x : 0 <= x < 2 ^ w → arith w x = Ret x.
Proof. intros Hx. unfold arith. by rewrite (proj2 (in_width_spec w x) Hx). Qed.

(** Any value an operator returns is a w-bit word. *)
Lemma arith_inv w x y : 0 <= w → arith w x = Ret y → 0 <= y < 2 ^ w.
Proof.
  unfold arith. intros Hw Hy.
  destruct (in_width w x) eqn:E.
  - injection Hy as <-. by apply in_width_spec.
  - destruct overflow_checks; [discriminate|]. injection Hy as <-.
    apply Z.mod_pos_bound. lia.
Qed.

Lemma u64_add_ret a b : 0 <= a + b < 2 ^ 64 → u64_add a b = Ret (a + b).
Proof. apply arith_ret. Qed.
Lemma u64_sub_ret a b : 0 <= a - b < 2 ^ 64 → u64_sub a b = Ret (a - b).
Proof. apply arith_ret. Qed.
Lemma u64_mul_ret a b : 0 <= a * b < 2 ^ 64 → u64_mul a b = Ret (a * b).
Proof. apply arith_ret. Qed.
Lemma u32_add_ret a b : 0 <= a + b < 2 ^ 32 → u32_add a b = Ret (a + b).
Proof. apply arith_ret. Qed.
Lemma u32_sub_ret a b : 0 <= a - b < 2 ^ 32 → u32_sub a b = Ret (a - b).
Proof. apply arith_ret. Qed.

Lemma u64_shl_ret a n :
  0 <= n < 64 → 0 <= a → a * 2 ^ n < 2 ^ 64 → u64_shl a n = Ret (a * 2 ^ n).
Proof.
  intros Hn Ha Hb. unfold u64_shl.
  replace ((0 <=? n) && (n <? 64)) with true
    by (symmetry; reflect_bools; lia).
  rewrite Z.shiftl_mul_pow2 by lia.
  rewrite Z.mod_small; [done|]. split; [|done].
  apply Z.mul_nonneg_nonneg; [done|]. apply Z.pow_nonneg. lia.
Qed.
End arithmetic.

(** Rewrite machine operators whose result is in range. *)
#[export] Hint Rewrite @u64_add_ret @u64_sub_ret @u64_mul_ret @u32_add_ret @u32_sub_ret
  using lia : uosc_arith.
Ltac run_arith := autorewrite with uosc_arith.

Lemma outcome_bind_ret {A B} (m : outcome A) (f : A → outcome B) b :
  m ≫= f = Ret b ↔ ∃ a, m = Ret a ∧ f a = Ret b.
Proof. destruct m; cbn; naive_solver. Qed.

Lemma outcome_fmap_ret {A B} (f : A → B) (m : outcome A) b :
  f <$> m = Ret b ↔ ∃ a, m = Ret a ∧ b = f a.
Proof. destruct m; cbn; naive_solver. Qed.

(** *** Trailing zeros and powers of two *)

Lemma pos_trailing_zeros_nonneg p : 0 <= pos_trailing_zeros p.
Proof. induction p; simpl; lia. Qed.

Lemma trailing_zeros_divide w x : 0 < x → (2 ^ trailing_zeros w x | x).
Proof.
  destruct x as [|p|p]; [lia| |lia]. intros _. simpl.
  induction p as [p IH|p IH|]; simpl; [by apply Z.divide_1_l| |by apply Z.divide_1_l].
  pose proof (pos_trailing_zeros_nonneg p).
  rewrite Z.pow_add_r by lia. rewrite (Pos2Z.inj_xO p).
  by apply Z.mul_divide_mono_l.
Qed.

(** [trailing_zeros] is the exponent of the largest power of two dividing [x]. *)
Lemma trailing_zeros_ge w x k :
  0 < x → 0 <= k → (2 ^ k | x) → k <= trailing_zeros w x.
Proof.
  destruct x as [|p|p]; [lia| |lia]. intros _. simpl. revert k.
  induction p as [p IH|p IH|]; intros k Hk Hd; simpl.
  - destruct (Z.eq_dec k 0); [lia|]. exfalso.
    assert (2 | Z.pos p~1) as [z Hz]; [|lia].
    etransitivity; [|exact Hd]. exists (2 ^ (k - 1)).
    rewrite Z.mul_comm, <- Z.pow_succ_r by lia. f_equal. lia.
  - destruct (Z.eq_dec k 0); [pose proof (pos_trailing_zeros_nonneg p); lia|].
    enough (k - 1 <= pos_trailing_zeros p) by lia.
    apply IH; [lia|]. rewrite (Pos2Z.inj_xO p) in Hd.
    replace k with (Z.succ (k - 1)) in Hd by lia.
    rewrite Z.pow_succ_r in Hd by lia.
    by apply Z.mul_divide_cancel_l in Hd; [|lia].
  - destruct (Z.eq_dec k 0); [lia|]. exfalso.
    apply Z.divide_1_r_nonneg in Hd; [|apply Z.pow_nonneg; lia].
    assert (1 < 2 ^ k) by (apply Z.pow_gt_1; lia). lia.
Qed.

Lemma pow2_divide j k : 0 <= j <= k → (2 ^ j | 2 ^ k).
Proof.
  intros. exists (2 ^ (k - j)). rewrite <- Z.pow_add_r by lia. f_equal. lia.
Qed.

Lemma pow2_pos k : 0 <= k → 0 < 2 ^ k.
Proof. intros. apply Z.pow_pos_nonneg; lia. Qed.

Lemma pow2_succ k : 0 <= k → 2 ^ (k + 1) = 2 * 2 ^ k.
Proof. intros. by rewrite Z.add_1_r, Z.pow_succ_r. Qed.

Lemma lxor_even_one z : Z.lxor (2 * z) 1 = 2 * z + 1.
Proof.
  symmetry. apply Z.add_nocarry_lxor.
  change 1 with (Z.ones 1). rewrite Z.land_ones by lia.
  change (2 ^ 1) with 2. by rewrite Z.mul_comm, Z_mod_mult.
Qed.

(** Toggling bit [k] of a multiple of [2 ^ k] adds or subtracts [2 ^ k], whichever
    keeps the number a multiple of [2 ^ (k + 1)] at its lower end. *)
Lemma lxor_pow2 x k :
  0 <= x → 0 <= k → (2 ^ k | x) →
  ((2 ^ (k + 1) | x) ∧ Z.lxor x (2 ^ k) = x + 2 ^ k) ∨
  ((2 ^ (k + 1) | x - 2 ^ k) ∧ 0 <= x - 2 ^ k ∧ Z.lxor x (2 ^ k) = x - 2 ^ k).
Proof.
  intros Hx Hk [q ->]. pose proof (pow2_pos k Hk) as Hp.
  assert (0 <= q) as Hq by nia.
  assert (Z.lxor (q * 2 ^ k) (2 ^ k) = Z.lxor q 1 * 2 ^ k) as ->.
  { rewrite <- (Z.mul_1_l (2 ^ k)) at 2.
    by rewrite <- !Z.shiftl_mul_pow2, <- Z.shiftl_lxor by lia. }
  rewrite pow2_succ by done.
  destruct (Z.Even_or_Odd q) as [[z ->]|[z ->]].
  - left. rewrite lxor_even_one. split; [exists z; ring|ring].
  - right. rewrite <- (lxor_even_one z), Z.lxor_assoc, Z.lxor_nilpotent, Z.lxor_0_r.
    rewrite lxor_even_one. split_and!; [exists z; ring|nia|ring].
Qed.

(** *** Vectors *)

Lemma vec_pop_app {A} (l : list A) x : vec_pop (l ++ [x]) = Some (l, x).
Proof. induction l as [|y l IH]; simpl; [done|]. by rewrite IH. Qed.

Lemma vec_pop_None {A} (l : list A) : vec_pop l = None ↔ l = [].
Proof.
  split; [|by intros ->]. destruct l as [|x l _] using rev_ind; [done|].
  by rewrite vec_pop_app.
Qed.

Lemma vec_pop_Some {A} (l r : list A) x : vec_pop l = Some (r, x) ↔ l = r ++ [x].
Proof.
  split; [|intros ->; apply vec_pop_app].
  destruct l as [|y l _] using rev_ind; [done|].
  rewrite vec_pop_app. by intros [= <- <-].
Qed.

Lemma vec_get_ret {A} (l : list A) i x :
  vec_get l i = Ret x ↔ 0 <= i ∧ l !! Z.to_nat i = Some x.
Proof.
  unfold vec_get. destruct (0 <=? i) eqn:E; reflect_bools.
  - destruct (l !! Z.to_nat i) as [y|]; split; [by intros [= ->]|by intros [_ [= ->]]|done|by intros [_ ?]].
  - split; [discriminate|]. lia.
Qed.

Lemma vec_get_in_range {A} (l : list A) i :
  0 <= i < Z.of_nat (length l) → ∃ x, vec_get l i = Ret x ∧ l !! Z.to_nat i = Some x.
Proof.
  intros Hi. destruct (lookup_lt_is_Some_2 l (Z.to_nat i)) as [x Hx]; [lia|].
  exists x. split; [|done]. apply vec_get_ret. lia || (split; [lia|done]).
Qed.

Lemma vec_set_ret {A} (l : list A) i x :
  0 <= i < Z.of_nat (length l) → vec_set l i x = Ret (<[Z.to_nat i := x]> l).
Proof.
  intros Hi. unfold vec_set.
  replace ((0 <=? i) && (i <? Z.of_nat (length l))) with true; [done|].
  symmetry. reflect_bools. lia.
Qed.

Lemma position_Some {A} (f : A → bool) l i :
  position f l = Some i →
  ∃ x, l !! i = Some x ∧ f x = true ∧
       ∀ j y, (j < i)%nat → l !! j = Some y → f y = false.
Proof.
  revert i. induction l as [|x l IH]; intros i Hp; simpl in Hp; [done|].
  destruct (f x) eqn:Ef.
  - injection Hp as <-. exists x. split_and!; [done|done|lia].
  - destruct (position f l) as [j|]; [|done]. injection Hp as <-.
    destruct (IH j eq_refl) as (y & ? & ? & Hlt). exists y. split_and!; [done..|].
    intros [|k] z Hk Hz; [naive_solver|]. apply (Hlt k z); [lia|done].
Qed.

Lemma position_None {A} (f : A → bool) l :
  position f l = None ↔ ∀ x, x ∈ l → f x = false.
Proof.
  induction l as [|x l IH]; simpl.
  - split; [set_solver|done].
  - destruct (f x) eqn:Ef.
    + split; [done|]. intros Hx. rewrite (Hx x) in Ef by set_solver. done.
    + rewrite fmap_None, IH. set_solver.
Qed.

(** *** Loops *)

(** Total correctness of a [while] loop: an invariant and a decreasing measure. *)
Lemma while_loop_total {S} (I : S → Prop) (m : S → nat) cond body fuel s :
  (∀ s, I s → cond s = true →
        ∃ s', body s = Ret s' ∧ I s' ∧ (m s' < m s)%nat) →
  I s → (m s <= fuel)%nat →
  ∃ s', while_loop fuel cond body s = Ret s' ∧ I s' ∧ cond s' = false.
Proof.
  intros Hstep. revert s. induction fuel as [|n IH]; intros s Hs Hm; simpl.
  - destruct (cond s) eqn:E; [|eauto]. destruct (Hstep s Hs E) as (?&?&?&?). lia.
  - destruct (cond s) eqn:E; [|eauto].
    destruct (Hstep s Hs E) as (s'&->&?&?). apply IH; [done|lia].
Qed.

(** *** BTreeMap iteration *)

#[export] Instance Z_le_TotalOrder : TotalOrder Z.le.
Proof.
  split; [apply _|]. intros x y. unfold strict.
  destruct (Z.lt_trichotomy x y) as [|[|]]; lia.
Qed.

Section btree_lemmas.
Context {K : Type} `{Countable K} (R : relation K) `{!RelDecision R, !TotalOrder R}.

#[local] Instance btree_entry_le_total {A} : Total (@btree_entry_le K R A).
Proof. intros p q. unfold btree_entry_le. apply (total R). Qed.
#[local] Instance btree_entry_le_trans {A} : Transitive (@btree_entry_le K R A).
Proof. intros p q r. unfold btree_entry_le. apply transitivity. Qed.

Lemma btree_iter_Permutation {A} (m : gmap K A) : btree_iter R m ≡ₚ map_to_list m.
Proof. apply merge_sort_Permutation. Qed.

Lemma elem_of_btree_iter {A} (m : gmap K A) k x :
  (k, x) ∈ btree_iter R m ↔ m !! k = Some x.
Proof. by rewrite btree_iter_Permutation, elem_of_map_to_list. Qed.

Lemma elem_of_btree_values {A} (m : gmap K A) x :
  x ∈ btree_values R m ↔ ∃ k, m !! k = Some x.
Proof.
  unfold btree_values. rewrite list_elem_of_fmap. split.
  - intros [[k y] [-> Hk%elem_of_btree_iter]]. eauto.
  - intros [k Hk%elem_of_btree_iter]. by exists (k, x).
Qed.

Lemma btree_first_None {A} (m : gmap K A) : btree_first R m = None ↔ m = ∅.
Proof.
  unfold btree_first. rewrite head_None. split.
  - intros Hm. apply map_to_list_empty_iff, Permutation_nil_r.
    by rewrite <- btree_iter_Permutation, Hm.
  - intros ->. unfold btree_iter. by rewrite map_to_list_empty.
Qed.

(** The first entry is the one with the least key. *)
Lemma btree_first_Some {A} (m : gmap K A) k x :
  btree_first R m = Some (k, x) ↔
  m !! k = Some x ∧ ∀ k', is_Some (m !! k') → R k k'.
Proof.
  unfold btree_first.
  assert (StronglySorted (btree_entry_le R) (btree_iter R m)) as Hsort.
  { apply (StronglySorted_merge_sort _). }
  pose proof (elem_of_btree_iter m) as Hin.
  destruct (btree_iter R m) as [|[k0 x0] l] eqn:E; simpl.
  - split; [done|]. intros [Hk _]. apply Hin in Hk. set_solver.
  - assert (∀ k', is_Some (m !! k') → R k0 k') as Hmin.
    { intros k' [y Hy]. apply Hin in Hy. apply elem_of_cons in Hy as [[= -> ->]|Hy].
      - reflexivity.
      - apply StronglySorted_inv in Hsort as [_ Hf].
        rewrite Forall_forall in Hf. apply (Hf (k', y) Hy). }
    split.
    + intros [= -> ->]. split; [apply Hin; set_solver|done].
    + intros [Hk Hle]. assert (k0 = k) as ->.
      { apply (anti_symm R); [apply Hmin; eauto|apply Hle].
        exists x0. apply Hin. set_solver. }
      assert (m !! k = Some x0) by (apply Hin; set_solver). naive_solver.
Qed.
End btree_lemmas.
