(* ===== verification/Capability.v ===== *)
(** * The capability broker

    Model of [src/reference-rs/src/capability.rs]: permissions, tokens, the
    token table with its audit log, and the operations [issue], [revoke],
    [verify], [check_access] and [delegate].  [BTreeMap<TokenId, _>] is a
    [gmap Z] iterated in ascending key order; [u64] ids and timestamps are [Z];
    paths are byte strings.  [broker_run] runs sequences of operations. *)
From S2P Require Import Prelude.

(** ** Data *)

Inductive ResourceType :=
| FileSystem | Network | Gpu | Usb | Audio | Input | Hardware | System
| ResIpc | ResMemory.

#[export] Instance ResourceType_eq_dec : EqDecision ResourceType.
Proof. solve_decision. Defined.

Record Permissions := mkPermissions {
  perm_read : bool;
  perm_write : bool;
  perm_execute : bool;
  perm_list : bool;
  perm_create : bool;
  perm_delete : bool;
  perm_modify : bool;
  perm_delegate : bool;
}.

#[export] Instance Permissions_eq_dec : EqDecision Permissions.
Proof. solve_decision. Defined.

Definition Permissions_NONE : Permissions :=
  mkPermissions false false false false false false false false.

Definition covers (self other : Permissions) : bool :=
  (negb other.(perm_read) || self.(perm_read))
  && (negb other.(perm_write) || self.(perm_write))
  && (negb other.(perm_execute) || self.(perm_execute))
  && (negb other.(perm_list) || self.(perm_list))
  && (negb other.(perm_create) || self.(perm_create))
  && (negb other.(perm_delete) || self.(perm_delete))
  && (negb other.(perm_modify) || self.(perm_modify))
  && (negb other.(perm_delegate) || self.(perm_delegate)).

Definition intersect (self other : Permissions) : Permissions := {|
  perm_read := self.(perm_read) && other.(perm_read);
  perm_write := self.(perm_write) && other.(perm_write);
  perm_execute := self.(perm_execute) && other.(perm_execute);
  perm_list := self.(perm_list) && other.(perm_list);
  perm_create := self.(perm_create) && other.(perm_create);
  perm_delete := self.(perm_delete) && other.(perm_delete);
  perm_modify := self.(perm_modify) && other.(perm_modify);
  perm_delegate := self.(perm_delegate) && other.(perm_delegate);
|}.

Record CapabilityToken := mkToken {
  token_id : Z;
  issuer : Z;
  subject : Z;
  resource_type : ResourceType;
  resource_path : string;
  permissions : Permissions;
  issued_at : Z;
  expires_at : Z;
  revoked : bool;
}.

Definition is_live (t : CapabilityToken) (now : Z) : bool :=
  negb t.(revoked) && (now <? t.(expires_at)).

Inductive EnforcementDecision := Allowed | Denied | Revoked | Expired.

#[export] Instance EnforcementDecision_eq_dec : EqDecision EnforcementDecision.
Proof. solve_decision. Defined.

Record AuditEntry := mkAuditEntry {
  ae_timestamp : Z;
  ae_subject : Z;
  ae_resource_type : ResourceType;
  ae_resource_path : string;
  ae_decision : EnforcementDecision;
}.

Inductive CapabilityError :=
| NotFound
| NotDelegatable
| ExceedsSourcePermissions
| IssuerLacksPermissions
| PathNotWithinSourceScope.

#[export] Instance CapabilityError_eq_dec : EqDecision CapabilityError.
Proof. solve_decision. Defined.

Record CapabilityBroker := mkBroker {
  tokens : gmap Z CapabilityToken;
  audit_log : list AuditEntry;
  next_token_id : Z;
}.

Definition CapabilityBroker_new : CapabilityBroker := mkBroker ∅ [] 1.

(** ** Paths *)

(** [str::strip_suffix('*')]. *)
Fixpoint strip_suffix_star (s : string) : option string :=
  match s with
  | EmptyString => None
  | String c EmptyString =>
      if bool_decide (c = "*"%char) then Some EmptyString else None
  | String c s' => String c <$> strip_suffix_star s'
  end.

Definition path_covers (granted requested : string) : bool :=
  match strip_suffix_star granted with
  | Some prefix => String.prefix prefix requested
  | None => bool_decide (granted = requested)
  end.

(** ** Operations *)

Section operations.
Context `{Profile}.

Definition issue (self : CapabilityBroker) (issuer subject : Z)
    (resource_type : ResourceType) (resource_path : string)
    (permissions : Permissions) (now expires_at : Z) :
    outcome (CapabilityBroker * Z) :=
  let token_id := self.(next_token_id) in
  next ← u64_add self.(next_token_id) 1;
  let token := mkToken token_id issuer subject resource_type resource_path
                 permissions now expires_at false in
  Ret (mkBroker (<[token_id := token]> self.(tokens)) self.(audit_log) next,
       token_id).

Definition set_revoked (t : CapabilityToken) : CapabilityToken :=
  mkToken t.(token_id) t.(issuer) t.(subject) t.(resource_type)
    t.(resource_path) t.(permissions) t.(issued_at) t.(expires_at) true.

Definition revoke (self : CapabilityBroker) (token_id : Z) :
    CapabilityBroker * result unit CapabilityError :=
  match self.(tokens) !! token_id with
  | None => (self, Err NotFound)
  | Some token =>
      (mkBroker (<[token_id := set_revoked token]> self.(tokens))
         self.(audit_log) self.(next_token_id), Ok tt)
  end.

Definition verify (self : CapabilityBroker) (token_id now : Z) : bool :=
  match self.(tokens) !! token_id with
  | Some t => is_live t now
  | None => false
  end.

(** The loop of [decide], with its two flags; the source's function is
    [decide_access] here because stdpp owns the name [decide]. *)
Fixpoint decide_loop (ts : list CapabilityToken) (subject0 : Z)
    (rt : ResourceType) (path : string) (needs : Permissions) (now : Z)
    (saw_revoked saw_expired : bool) : EnforcementDecision :=
  match ts with
  | [] =>
      if saw_revoked then Revoked
      else if saw_expired then Expired
      else Denied
  | token :: ts' =>
      if negb (token.(subject) =? subject0)
         || negb (bool_decide (token.(resource_type) = rt))
         || negb (path_covers token.(resource_path) path)
      then decide_loop ts' subject0 rt path needs now saw_revoked saw_expired
      else if token.(revoked)
      then decide_loop ts' subject0 rt path needs now true saw_expired
      else if token.(expires_at) <=? now
      then decide_loop ts' subject0 rt path needs now saw_revoked true
      else if covers token.(permissions) needs then Allowed
      else decide_loop ts' subject0 rt path needs now saw_revoked saw_expired
  end.

Definition decide_access (self : CapabilityBroker) (subject0 : Z)
    (rt : ResourceType) (path : string) (needs : Permissions) (now : Z) :
    EnforcementDecision :=
  decide_loop (btree_values Z.le self.(tokens)) subject0 rt path needs now
    false false.

Definition check_access (self : CapabilityBroker) (subject0 : Z)
    (rt : ResourceType) (path : string) (needs : Permissions) (now : Z) :
    CapabilityBroker * EnforcementDecision :=
  let decision := decide_access self subject0 rt path needs now in
  (mkBroker self.(tokens)
     (vec_push self.(audit_log) (mkAuditEntry now subject0 rt path decision))
     self.(next_token_id),
   decision).

Definition delegate (self : CapabilityBroker) (source_token_id delegatee : Z)
    (requested : Permissions) (now : Z) :
    outcome (CapabilityBroker * result Z CapabilityError) :=
  let? source := ok_or (self.(tokens) !! source_token_id) NotFound
    with self in
  if negb (is_live source now) then Ret (self, Err NotFound)
  else if negb source.(permissions).(perm_delegate)
  then Ret (self, Err NotDelegatable)
  else
    let granted := intersect source.(permissions) requested in
    if negb (bool_decide (granted = requested))
    then Ret (self, Err ExceedsSourcePermissions)
    else
      r ← issue self source.(subject) delegatee source.(resource_type)
            source.(resource_path) granted now source.(expires_at);
      Ret (r.1, Ok r.2).
End operations.

(** ** Sequences of operations *)

Inductive broker_op :=
| OpIssue (issuer0 subject0 : Z) (rt : ResourceType) (path : string)
    (perms : Permissions) (now expires : Z)
| OpRevoke (id : Z)
| OpCheck (subject0 : Z) (rt : ResourceType) (path : string)
    (needs : Permissions) (now : Z)
| OpDelegate (source delegatee : Z) (requested : Permissions) (now : Z).

Definition broker_step `{Profile} (op : broker_op) (b : CapabilityBroker) :
    outcome CapabilityBroker :=
  match op with
  | OpIssue i s rt p perms now e => fst <$> issue b i s rt p perms now e
  | OpRevoke id => Ret (revoke b id).1
  | OpCheck s rt p needs now => Ret (check_access b s rt p needs now).1
  | OpDelegate src d req now => fst <$> delegate b src d req now
  end.

Fixpoint broker_run `{Profile} (ops : list broker_op) (b : CapabilityBroker) :
    outcome CapabilityBroker :=
  match ops with
  | [] => Ret b
  | op :: ops' => b' ← broker_step op b; broker_run ops' b'
  end.

(** ** Paths: lemmas *)

Lemma strip_suffix_star_spec s p :
  strip_suffix_star s = Some p ↔ s = p +:+ "*".
Proof.
  revert p. induction s as [|c s IH]; intros p; simpl.
  - split; [done|]. by destruct p.
  - destruct s as [|c' s'].
    + case_bool_decide as Hc.
      * subst. split; [by intros [= <-]|]. destruct p as [|? [|??]]; by intros [=].
      * split; [done|]. destruct p as [|? [|??]]; by intros [=].
    + rewrite fmap_Some. split.
      * intros (p' & Hp'%IH & ->). by rewrite Hp'.
      * destruct p as [|c0 p']; intros [= -> Hs]. exists p'. split; [|done].
        by apply IH.
Qed.

Lemma string_prefix_spec p s : String.prefix p s = true ↔ ∃ r, s = p +:+ r.
Proof.
  revert s. induction p as [|c p IH]; intros s; simpl.
  - split; [by exists s|by destruct s].
  - destruct s as [|c' s]; [split; [done|by intros [r [=]]]|].
    change (String.prefix (String c p) (String c' s))
      with (if ascii_dec c c' then String.prefix p s else false).
    destruct (ascii_dec c c') as [->|Hne].
    + rewrite IH. split; intros [r Hr]; exists r; [by rewrite Hr|by injection Hr].
    + split; [done|]. intros [r [= ? ?]]. congruence.
Qed.

(** A pattern [p ++ "*"] covers exactly the extensions of [p]; any other path
    covers itself only. *)
Lemma path_covers_spec granted requested :
  path_covers granted requested = true ↔
  (∃ p r, granted = p +:+ "*" ∧ requested = p +:+ r) ∨
  ((∀ p, granted ≠ p +:+ "*") ∧ granted = requested).
Proof.
  unfold path_covers. destruct (strip_suffix_star granted) as [p|] eqn:E.
  - apply strip_suffix_star_spec in E. rewrite string_prefix_spec. split.
    + intros [r Hr]. left. eauto.
    + intros [(p' & r & Hg & Hr)|[Hno _]]; [|by destruct (Hno p)].
      exists r. rewrite Hr. f_equal.
      assert (strip_suffix_star granted = Some p) by by apply strip_suffix_star_spec.
      assert (strip_suffix_star granted = Some p') by by apply strip_suffix_star_spec.
      congruence.
  - assert (∀ p, granted ≠ p +:+ "*") as Hno.
    { intros p Hp%strip_suffix_star_spec. congruence. }
    rewrite bool_decide_eq_true. split; [intros ->; right; done|].
    intros [(p & r & Hg & _)|[_ Hg]]; [by destruct (Hno p)|done].
Qed.

(** ** Permissions: lemmas *)

Ltac destruct_permissions :=
  repeat match goal with p : Permissions |- _ => destruct p end;
  repeat match goal with b : bool |- _ => destruct b end.

(** One permission bit: [needed] implies [held]. *)
Lemma bit_trans a b c :
  negb b || a = true → negb c || b = true → negb c || a = true.
Proof. by destruct a, b, c. Qed.
Lemma bit_meet a b c :
  negb c || (a && b) = true ↔ negb c || a = true ∧ negb c || b = true.
Proof. destruct a, b, c; naive_solver. Qed.
Lemma bit_absorb a b : a && b = b ↔ negb b || a = true.
Proof. destruct a, b; naive_solver. Qed.

Lemma covers_refl p : covers p p = true.
Proof. destruct_permissions; reflexivity. Qed.

Lemma covers_trans p q r :
  covers p q = true → covers q r = true → covers p r = true.
Proof.
  unfold covers. rewrite !andb_true_iff. intros. destruct_and!.
  repeat split; eauto using bit_trans.
Qed.

(** The meet of two permission sets: the largest set both of them cover. *)
Lemma intersect_glb p q r :
  covers (intersect p q) r = true ↔ covers p r = true ∧ covers q r = true.
Proof.
  unfold covers, intersect; simpl. rewrite !andb_true_iff, !bit_meet. tauto.
Qed.

Lemma intersect_eq_covers p q : intersect p q = q ↔ covers p q = true.
Proof.
  unfold covers. rewrite !andb_true_iff, <- !bit_absorb.
  destruct p, q; unfold intersect; simpl. split; [by intros [= ]|].
  intros. destruct_and!. congruence.
Qed.

Lemma covers_delegate p q :
  covers p q = true → perm_delegate q = true → perm_delegate p = true.
Proof.
  unfold covers. rewrite !andb_true_iff. intros (_ & Hb) Hq. by rewrite Hq in Hb.
Qed.

(** ** The decision procedure *)

Definition token_matches (t : CapabilityToken) (s : Z) (rt : ResourceType)
    (path : string) : bool :=
  (t.(subject) =? s) && bool_decide (t.(resource_type) = rt)
  && path_covers t.(resource_path) path.

Definition grants (t : CapabilityToken) (s : Z) (rt : ResourceType)
    (path : string) (needs : Permissions) (now : Z) : bool :=
  token_matches t s rt path && is_live t now && covers t.(permissions) needs.

Definition matches_expired (t : CapabilityToken) (s : Z) (rt : ResourceType)
    (path : string) (now : Z) : bool :=
  token_matches t s rt path && negb t.(revoked) && (t.(expires_at) <=? now).

(** The loop with its early return and two flags is three order-independent
    searches. *)
Lemma decide_loop_existsb ts s rt path needs now sr se :
  decide_loop ts s rt path needs now sr se =
  if existsb (λ t, grants t s rt path needs now) ts then Allowed
  else if sr || existsb (λ t, token_matches t s rt path && t.(revoked)) ts
  then Revoked
  else if se || existsb (λ t, matches_expired t s rt path now) ts
  then Expired
  else Denied.
Proof.
  revert sr se. induction ts as [|t ts IH]; intros sr se; simpl.
  { by rewrite !orb_false_r. }
  unfold grants at 1, matches_expired at 1, is_live.
  rewrite <- !negb_andb. fold (token_matches t s rt path).
  destruct (token_matches t s rt path); simpl; [|apply IH].
  destruct (revoked t); simpl; [by rewrite IH, orb_true_r|].
  rewrite Z.ltb_antisym. destruct (expires_at t <=? now); simpl.
  { by rewrite IH, orb_true_r. }
  destruct (covers _ needs); [done|apply IH].
Qed.

Lemma existsb_btree (f : CapabilityToken → bool) (m : gmap Z CapabilityToken) :
  existsb f (btree_values Z.le m) = true ↔ ∃ id t, m !! id = Some t ∧ f t = true.
Proof.
  rewrite existsb_exists. setoid_rewrite <- list_elem_of_In.
  setoid_rewrite (elem_of_btree_values Z.le). naive_solver.
Qed.

Lemma existsb_btree_false (f : CapabilityToken → bool) (m : gmap Z CapabilityToken) :
  existsb f (btree_values Z.le m) = false ↔
  ∀ id t, m !! id = Some t → f t = false.
Proof.
  rewrite <- not_true_iff_false, existsb_btree. split.
  - intros Hno id t Ht. apply not_true_iff_false. intros Hf. apply Hno. eauto.
  - intros Hall (id & t & Ht & Hf). by rewrite (Hall id t Ht) in Hf.
Qed.

Lemma decide_access_allowed b s rt path needs now :
  decide_access b s rt path needs now = Allowed ↔
  ∃ id t, tokens b !! id = Some t ∧ grants t s rt path needs now = true.
Proof.
  unfold decide_access. rewrite decide_loop_existsb, <- existsb_btree.
  split; [|by intros ->]. by repeat case_match.
Qed.

Lemma grants_spec t s rt path needs now :
  grants t s rt path needs now = true ↔
  subject t = s ∧ resource_type t = rt ∧ path_covers (resource_path t) path = true ∧
  revoked t = false ∧ now < expires_at t ∧ covers (permissions t) needs = true.
Proof.
  unfold grants, token_matches, is_live.
  rewrite !andb_true_iff, negb_true_iff, Z.eqb_eq, Z.ltb_lt, bool_decide_eq_true.
  tauto.
Qed.

(** Some token of [b] matches the request and satisfies [P]. *)
Definition some_match (b : CapabilityBroker) (s : Z) (rt : ResourceType)
    (path : string) (P : CapabilityToken → Prop) : Prop :=
  ∃ id t, tokens b !! id = Some t ∧ subject t = s ∧ resource_type t = rt ∧
    path_covers (resource_path t) path = true ∧ P t.

Lemma existsb_some_match b s rt path (f : CapabilityToken → bool)
    (P : CapabilityToken → Prop) :
  (∀ t, f t = true ↔ subject t = s ∧ resource_type t = rt ∧
                     path_covers (resource_path t) path = true ∧ P t) →
  existsb f (btree_values Z.le (tokens b)) = true ↔ some_match b s rt path P.
Proof. intros Hf. rewrite existsb_btree. unfold some_match. by setoid_rewrite Hf. Qed.

(** ** Well-formedness and steps *)

(** Every token is stored under its own id, and ids are below the counter. *)
Record broker_wf (b : CapabilityBroker) : Prop := {
  wf_ids : ∀ id t, tokens b !! id = Some t → token_id t = id ∧ 0 < id < next_token_id b;
  wf_next : 0 < next_token_id b <= u64_max;
}.

Lemma broker_wf_new : broker_wf CapabilityBroker_new.
Proof. split; simpl; [|by vm_compute]. intros id t. by rewrite lookup_empty. Qed.

Section steps.
Context `{Profile}.

(** [issue] with room in the id counter. *)
Lemma issue_ret b i s rt p perms now e :
  0 <= next_token_id b < u64_max →
  issue b i s rt p perms now e =
  Ret (mkBroker (<[next_token_id b :=
                    mkToken (next_token_id b) i s rt p perms now e false]> (tokens b))
         (audit_log b) (next_token_id b + 1), next_token_id b).
Proof. intros Hn. unfold issue, u64_max in *. by run_arith. Qed.

(** What a successful [issue] leaves: one new entry under the old counter. *)
Lemma issue_inv b i s rt p perms now e b' id :
  issue b i s rt p perms now e = Ret (b', id) →
  id = next_token_id b ∧ audit_log b' = audit_log b ∧
  tokens b' = <[id := mkToken id i s rt p perms now e false]> (tokens b) ∧
  (0 <= next_token_id b < u64_max → next_token_id b' = next_token_id b + 1).
Proof.
  intros Hi. pose proof Hi as Hi'. unfold issue in Hi.
  apply outcome_bind_ret in Hi as (n & _ & [= <- <-]). split_and!; [done..|].
  intros Hn. rewrite issue_ret in Hi' by done. by injection Hi' as <-.
Qed.

(** The complete case analysis of [delegate]. *)
Lemma delegate_cases b src d req now b' r :
  delegate b src d req now = Ret (b', r) →
  (∃ e, r = Err e ∧ b' = b) ∨
  (∃ s id, r = Ok id ∧ tokens b !! src = Some s ∧ is_live s now = true ∧
     perm_delegate (permissions s) = true ∧ covers (permissions s) req = true ∧
     issue b (subject s) d (resource_type s) (resource_path s) req now
       (expires_at s) = Ret (b', id)).
Proof.
  unfold delegate. destruct (tokens b !! src) as [s|]; simpl; [|naive_solver].
  destruct (is_live s now) eqn:El; simpl; [|naive_solver].
  destruct (perm_delegate (permissions s)) eqn:Ed; simpl; [|naive_solver].
  case_bool_decide as Hc; simpl; [|naive_solver].
  intros Hi. apply outcome_bind_ret in Hi as ([b1 id] & Hi & [= <- <-]).
  right. exists s, id. rewrite Hc in Hi. apply intersect_eq_covers in Hc. done.
Qed.

(** A step leaves the token table alone, sets one [revoked] flag, or adds one
    live entry under the counter's value. *)
Inductive token_change (b b' : CapabilityBroker) : Prop :=
| change_none :
    tokens b' = tokens b → next_token_id b' = next_token_id b → token_change b b'
| change_revoke id t :
    tokens b !! id = Some t → tokens b' = <[id := set_revoked t]> (tokens b) →
    next_token_id b' = next_token_id b → token_change b b'
| change_add t :
    revoked t = false → token_id t = next_token_id b →
    tokens b' = <[next_token_id b := t]> (tokens b) →
    (0 <= next_token_id b < u64_max → next_token_id b' = next_token_id b + 1) →
    token_change b b'.

Lemma step_change op b b' : broker_step op b = Ret b' → token_change b b'.
Proof.
  destruct op as [i s rt p perms now e|id|s rt p needs now|src d req now]; simpl.
  - destruct (issue _ _ _ _ _ _ _ _) as [[b1 id]| |] eqn:E; [|done..]. intros [= <-].
    apply issue_inv in E as (-> & _ & ? & ?).
    eapply change_add; [| |eassumption|done]; done.
  - unfold revoke. destruct (tokens b !! id) as [t|] eqn:E; intros [= <-].
    + by eapply change_revoke.
    + by apply change_none.
  - intros [= <-]. by apply change_none.
  - destruct (delegate _ _ _ _ _) as [[b1 r]| |] eqn:E; [|done..]. intros [= <-].
    apply delegate_cases in E as [(e & -> & ->)|(s & id & -> & _ & _ & _ & _ & Hi)].
    + by apply change_none.
    + apply issue_inv in Hi as (-> & _ & ? & ?).
    eapply change_add; [| |eassumption|done]; done.
Qed.

Lemma step_wf op b b' :
  broker_wf b → next_token_id b < u64_max → broker_step op b = Ret b' →
  broker_wf b' ∧ next_token_id b' <= next_token_id b + 1.
Proof.
  intros [Hids Hnext] Hn Hs.
  destruct (step_change op b b' Hs) as [Ht Hx|id t Ht Heq Hx|t Hr Hid Heq Hx].
  - split; [|lia]. split; [rewrite Ht, Hx; apply Hids|lia].
  - split; [|lia]. split; [|lia]. rewrite Heq, Hx. intros id' t' Hid'.
    apply lookup_insert_Some in Hid' as [[<- <-]|[_ Hid']]; [|by apply Hids].
    apply (Hids id t Ht).
  - assert (next_token_id b' = next_token_id b + 1) as Hx' by (apply Hx; lia).
    split; [|lia]. split; [|lia]. rewrite Heq, Hx'. intros id' t' Hid'.
    apply lookup_insert_Some in Hid' as [[<- <-]|[_ Hid']]; [split; [done|lia]|].
    destruct (Hids id' t' Hid'). lia.
Qed.

(** An invariant of single steps is an invariant of runs, as long as the id
    counter cannot run out. *)
Lemma broker_run_invariant (I : CapabilityBroker → Prop) ops b b' :
  (∀ op b b', broker_wf b → I b → op ∈ ops → next_token_id b < u64_max →
              broker_step op b = Ret b' → I b') →
  broker_wf b → I b → next_token_id b + Z.of_nat (length ops) <= u64_max →
  broker_run ops b = Ret b' → broker_wf b' ∧ I b'.
Proof.
  revert b. induction ops as [|op ops IH]; intros b Hstep Hwf HI Hlen; simpl.
  { by intros [= <-]. }
  intros Hr. apply outcome_bind_ret in Hr as (b1 & Hs & Hr). simpl in Hlen.
  assert (next_token_id b < u64_max) by lia.
  destruct (step_wf op b b1) as [Hwf1 Hn1]; [done..|].
  apply (IH b1); [|done| |lia|done].
  - intros op' c c' ? ? ?. apply Hstep; [done..|set_solver].
  - apply (Hstep op b b1); [done..|set_solver|done|done].
Qed.
End steps.

(** ** Delegation chains *)

Definition op_is_issue (op : broker_op) : bool :=
  match op with
  | OpIssue _ _ _ _ _ _ _ => true
  | _ => false
  end.

(** [t]'s authority stems from a live token of [b0]: same resource type, path
    and expiry, at least its permissions, and, unless [t] belongs to the same
    subject, the right to delegate. *)
Definition stems_from (b0 : CapabilityBroker) (t : CapabilityToken) : Prop :=
  ∃ id0 t0, tokens b0 !! id0 = Some t0 ∧ revoked t0 = false ∧
    resource_type t0 = resource_type t ∧ resource_path t0 = resource_path t ∧
    covers (permissions t0) (permissions t) = true ∧ expires_at t0 = expires_at t ∧
    (subject t0 = subject t ∨ perm_delegate (permissions t0) = true).

Definition all_stem_from (b0 b : CapabilityBroker) : Prop :=
  ∀ id t, tokens b !! id = Some t → revoked t = false → stems_from b0 t.

Lemma all_stem_from_refl b : all_stem_from b b.
Proof.
  intros id t Ht Hr. exists id, t. rewrite covers_refl. by split_and!; auto.
Qed.

Lemma stems_from_delegate b0 s id i d req now e :
  stems_from b0 s → perm_delegate (permissions s) = true →
  covers (permissions s) req = true → e = expires_at s →
  stems_from b0 (mkToken id i d (resource_type s) (resource_path s) req now e false).
Proof.
  intros (id0 & t0 & ? & ? & ? & ? & Hc & ? & _) Hd Hreq ->.
  exists id0, t0; simpl. split_and!; [done..| |done|].
  - by eapply covers_trans.
  - right. by eapply covers_delegate.
Qed.

Section delegation.
Context `{Profile}.

Lemma step_all_stem_from b0 op b b' :
  op_is_issue op = false → all_stem_from b0 b → broker_step op b = Ret b' →
  all_stem_from b0 b'.
Proof.
  intros Hop Hall Hs. destruct op as [|id|s rt p needs now|src d req now]; simpl in *; [done|..].
  - unfold revoke in Hs. destruct (tokens b !! id) as [t|]; injection Hs as <-; [|done].
    intros id' t' Ht' Hr. simpl in Ht'.
    apply lookup_insert_Some in Ht' as [[_ <-]|[_ Ht']]; [done|eauto].
  - injection Hs as <-. exact Hall.
  - destruct (delegate _ _ _ _ _) as [[b1 r]| |] eqn:E; [|done..]. injection Hs as <-.
    apply delegate_cases in E as [(e & -> & ->)|(s & id & -> & Hsrc & Hl & Hd & Hc & Hi)];
      [done|].
    apply issue_inv in Hi as (-> & _ & Ht & _). simpl. intros id' t' Ht' Hr.
    rewrite Ht in Ht'. apply lookup_insert_Some in Ht' as [[_ <-]|[_ Ht']]; [|eauto].
    unfold is_live in Hl. reflect_bools. destruct Hl as [Hl _].
    apply stems_from_delegate; eauto.
Qed.

Lemma run_all_stem_from b0 ops b b' :
  Forall (λ op, op_is_issue op = false) ops → all_stem_from b0 b →
  broker_run ops b = Ret b' → all_stem_from b0 b'.
Proof.
  intros Hops. revert b. induction Hops as [|op ops Hop _ IH]; intros b Hall; simpl.
  { by intros [= <-]. }
  intros Hr. apply outcome_bind_ret in Hr as (b1 & Hs & Hr).
  eapply IH; [|done]. by eapply step_all_stem_from.
Qed.

(** *** Revocation *)

Definition is_revoked_as (id : Z) (t : CapabilityToken) (b : CapabilityBroker) : Prop :=
  tokens b !! id = Some t ∧ revoked t = true.

Lemma step_keeps_revoked id t op b b' :
  broker_wf b → is_revoked_as id t b → broker_step op b = Ret b' →
  is_revoked_as id t b'.
Proof.
  intros [Hids _] [Ht Hr] Hs. split; [|done].
  destruct (step_change op b b' Hs) as [->|id' t' Ht' -> _|t' _ _ -> _]; [done|..].
  - apply lookup_insert_Some. destruct (decide (id' = id)) as [->|]; [left|right; done].
    split; [done|]. rewrite Ht in Ht'. injection Ht' as <-.
    unfold set_revoked. rewrite <- Hr. by destruct t.
  - apply lookup_insert_Some. right. split; [|done].
    destruct (Hids id t Ht). lia.
Qed.

(** *** The audit log *)

Definition op_audit_key (op : broker_op) : option (Z * Z * ResourceType * string) :=
  match op with
  | OpCheck s rt p _ now => Some (now, s, rt, p)
  | _ => None
  end.

Definition entry_key (e : AuditEntry) : Z * Z * ResourceType * string :=
  (ae_timestamp e, ae_subject e, ae_resource_type e, ae_resource_path e).

Lemma step_audit op b b' :
  broker_step op b = Ret b' →
  ∃ es, audit_log b' = audit_log b ++ es ∧
        entry_key <$> es = option_list (op_audit_key op).
Proof.
  destruct op as [i s rt p perms now e|id|s rt p needs now|src d req now]; simpl.
  - destruct (issue _ _ _ _ _ _ _ _) as [[b1 id]| |] eqn:E; [|done..]. intros [= <-].
    apply issue_inv in E as (_ & -> & _). exists []. by rewrite app_nil_r.
  - intros [= <-]. exists []. unfold revoke.
    destruct (tokens b !! id); by rewrite app_nil_r.
  - intros [= <-]. by eexists [_].
  - destruct (delegate _ _ _ _ _) as [[b1 r]| |] eqn:E; [|done..]. intros [= <-].
    exists []. rewrite app_nil_r. split; [|done].
    apply delegate_cases in E as [(e & -> & ->)|(s & id & -> & _ & _ & _ & _ & Hi)]; [done|].
    by apply issue_inv in Hi as (_ & -> & _).
Qed.
End delegation.

(** ** Properties *)

Section properties.
Context `{Profile}.

(** [C30] Confinement, and the exact meaning of every decision: [check_access]
    allows a request iff some unrevoked, unexpired token of that very subject
    and resource type, with a covering path, carries every requested
    permission; it answers [Revoked] iff no token grants and a matching token
    is revoked, [Expired] iff no token grants, none that matches is revoked and
    one is past its expiry, [Denied] otherwise.  It appends exactly one audit
    entry, holding the decision, and changes no token. *)
Theorem check_access_spec b s rt path needs now :
  let '(b', d) := check_access b s rt path needs now in
  let granting := some_match b s rt path
    (λ t, revoked t = false ∧ now < expires_at t ∧ covers (permissions t) needs = true) in
  let any_revoked := some_match b s rt path (λ t, revoked t = true) in
  let any_expired := some_match b s rt path
    (λ t, revoked t = false ∧ expires_at t <= now) in
  tokens b' = tokens b ∧ next_token_id b' = next_token_id b ∧
  audit_log b' = audit_log b ++ [mkAuditEntry now s rt path d] ∧
  (d = Allowed ↔ granting) ∧
  (d = Revoked ↔ ¬ granting ∧ any_revoked) ∧
  (d = Expired ↔ ¬ granting ∧ ¬ any_revoked ∧ any_expired) ∧
  (d = Denied ↔ ¬ granting ∧ ¬ any_revoked ∧ ¬ any_expired).
Proof.
  unfold check_access. cbn zeta beta iota. do 3 (split; [done|]).
  rewrite <- (existsb_some_match b s rt path (λ t, grants t s rt path needs now)),
          <- (existsb_some_match b s rt path (λ t, token_matches t s rt path && revoked t)),
          <- (existsb_some_match b s rt path (λ t, matches_expired t s rt path now)).
  - unfold decide_access. rewrite decide_loop_existsb. simpl.
    repeat case_match; intuition congruence.
  - intros t. unfold matches_expired, token_matches.
    rewrite !andb_true_iff, negb_true_iff, Z.eqb_eq, Z.leb_le, bool_decide_eq_true. tauto.
  - intros t. unfold token_matches.
    rewrite !andb_true_iff, Z.eqb_eq, bool_decide_eq_true. tauto.
  - intros t. by rewrite grants_spec.
Qed.

(** [C29] Delegation attenuates and is complete: it succeeds iff the source token
    exists, is live, carries the delegate bit and covers every requested
    permission; the new token then has a fresh id, belongs to the delegatee, is
    issued by the source's subject, has exactly the requested permissions and
    the source's type, path and expiry, every other token is untouched, and the
    delegatee's requests for what was delegated are allowed at once.  Every
    failure leaves the broker as it was. *)
Theorem delegate_spec b src d req now
    (Hwf : broker_wf b) (Hroom : next_token_id b < u64_max) :
  ∃ b' r, delegate b src d req now = Ret (b', r) ∧
  ((∃ id, r = Ok id) ↔
   ∃ s, tokens b !! src = Some s ∧ revoked s = false ∧ now < expires_at s ∧
     perm_delegate (permissions s) = true ∧ covers (permissions s) req = true) ∧
  (∀ e, r = Err e → b' = b) ∧
  (∀ id, r = Ok id → ∃ s, tokens b !! src = Some s ∧
     tokens b !! id = None ∧
     tokens b' = <[id := mkToken id (subject s) d (resource_type s) (resource_path s)
                           req now (expires_at s) false]> (tokens b) ∧
     ∀ path, path_covers (resource_path s) path = true →
       (check_access b' d (resource_type s) path req now).2 = Allowed).
Proof.
  destruct Hwf as [Hids Hnext].
  destruct (delegate b src d req now) as [[b' r]| |] eqn:E.
  2,3: exfalso; revert E; unfold delegate; repeat (case_match; simpl; try done);
       rewrite issue_ret by lia; done.
  exists b', r. split; [done|].
  pose proof E as Hc. apply delegate_cases in Hc as
    [(e & -> & ->)|(s & id & -> & Hsrc & Hl & Hd & Hc & Hi)].
  - split_and!; [|done|done]. split; [by intros [? [=]]|].
    intros (s & Hs & Hr & Hn & Hd & Hc). exfalso. revert E. unfold delegate. rewrite Hs.
    simpl. unfold is_live. rewrite Hr, (proj2 (Z.ltb_lt _ _) Hn), Hd. simpl.
    rewrite bool_decide_eq_true_2 by by apply intersect_eq_covers.
    rewrite issue_ret by lia. done.
  - pose proof (issue_inv _ _ _ _ _ _ _ _ _ _ Hi) as (-> & _ & Ht & _).
    unfold is_live in Hl. reflect_bools. destruct Hl as [Hr Hn].
    split_and!; [split; eauto 10|done|]. intros id [= <-]. exists s.
    split_and!; [done| |done|].
    + apply eq_None_not_Some. intros [t Ht']. destruct (Hids _ _ Ht'). lia.
    + intros path Hp. simpl. apply decide_access_allowed.
      eexists _, _. rewrite Ht. split; [apply lookup_insert_eq|].
      apply grants_spec. rewrite covers_refl. done.
Qed.

(** [C1] No amplification of authority: whatever sequence of revocations, checks
    and (chains of) delegations is run, every access that is then allowed is
    backed by a live token of the initial table with the same resource type, a
    covering path, covering permissions and an expiry still ahead; and if that
    token belongs to another subject, it carried the delegate bit. *)
Theorem delegation_never_amplifies ops b0 b s rt path needs now
    (Hops : Forall (λ op, op_is_issue op = false) ops)
    (Hrun : broker_run ops b0 = Ret b)
    (Hok : decide_access b s rt path needs now = Allowed) :
  ∃ id0 t0, tokens b0 !! id0 = Some t0 ∧ revoked t0 = false ∧
    resource_type t0 = rt ∧ path_covers (resource_path t0) path = true ∧
    covers (permissions t0) needs = true ∧ now < expires_at t0 ∧
    (subject t0 = s ∨ perm_delegate (permissions t0) = true).
Proof.
  apply decide_access_allowed in Hok as (id & t & Ht & Hg).
  apply grants_spec in Hg as (<- & <- & Hp & Hr & Hn & Hc).
  destruct (run_all_stem_from b0 ops b0 b Hops (all_stem_from_refl b0) Hrun id t Ht Hr)
    as (id0 & t0 & H0 & Hr0 & Hrt & Hpath & Hc0 & He & Hs).
  exists id0, t0. rewrite Hpath, He. split_and!; eauto using covers_trans.
Qed.

(** [C31] Revocation is final: after a successful [revoke id], no sequence of
    operations of any length the id counter allows (new issues and delegations
    included) makes token [id] valid again at any time; its entry stays in the
    table with the flag set and every other field as it was. *)
Theorem revocation_is_final id t ops b b1 b2 now
    (Hwf : broker_wf b) (Ht : tokens b !! id = Some t)
    (Hrev : revoke b id = (b1, Ok tt))
    (Hroom : next_token_id b + Z.of_nat (length ops) < u64_max)
    (Hrun : broker_run ops b1 = Ret b2) :
  verify b2 id now = false ∧ tokens b2 !! id = Some (set_revoked t).
Proof.
  assert (broker_step (OpRevoke id) b = Ret b1) as Hs by (simpl; by rewrite Hrev).
  destruct (step_wf _ _ _ Hwf ltac:(lia) Hs) as [Hwf1 _].
  unfold revoke in Hrev. rewrite Ht in Hrev. injection Hrev as <-.
  edestruct (broker_run_invariant (is_revoked_as id (set_revoked t)) ops) as [_ [Hid _]];
    [|exact Hwf1| |simpl; lia|exact Hrun|].
  - intros op c c' Hc Hi _ _. by apply step_keeps_revoked.
  - split; [apply lookup_insert_eq|done].
  - unfold verify. by rewrite Hid.
Qed.

(** The audit log is append-only and complete: a run appends exactly one
    entry per access check, in order, with the time, subject, resource type and
    path that were asked for, and nothing else. *)
Theorem audit_log_complete ops b b' (Hrun : broker_run ops b = Ret b') :
  ∃ es, audit_log b' = audit_log b ++ es ∧ entry_key <$> es = omap op_audit_key ops.
Proof.
  revert b Hrun. induction ops as [|op ops IH]; intros b Hr; simpl in Hr.
  { injection Hr as <-. exists []. by rewrite app_nil_r. }
  apply outcome_bind_ret in Hr as (b1 & Hs & Hr).
  destruct (step_audit _ _ _ Hs) as (es1 & Ha1 & Hk1).
  destruct (IH _ Hr) as (es2 & Ha2 & Hk2).
  exists (es1 ++ es2). split; [by rewrite Ha2, Ha1, app_assoc|].
  rewrite fmap_app, Hk1, Hk2. simpl. by destruct (op_audit_key op).
Qed.
End properties.

(** ** Witnesses *)

Module demo.
(** The broker of the source's delegation test: one file-system token, held by
    subject 1, with read, write and delegate. *)
Definition perms_rwd : Permissions :=
  mkPermissions true true false false false false false true.
Definition perms_r : Permissions :=
  mkPermissions true false false false false false false false.
Definition source : CapabilityToken :=
  mkToken 1 0 1 FileSystem "/home/user/*" perms_rwd 0 1000 false.
Definition broker : CapabilityBroker := mkBroker {[ 1 := source ]} [] 2.
Definition dev : Profile := true.

Example broker_issued :
  @issue dev CapabilityBroker_new 0 1 FileSystem "/home/user/*" perms_rwd 0 1000
  = Ret (broker, 1).
Proof. reflexivity. Qed.

Lemma broker_ok : broker_wf broker.
Proof.
  split; [|by vm_compute]. intros id t Ht.
  unfold broker in Ht; simpl in Ht. apply lookup_singleton_Some in Ht as [<- <-].
  by vm_compute.
Qed.

Definition chain : list broker_op :=
  [OpDelegate 1 2 perms_r 5; OpRevoke 1; OpCheck 2 FileSystem "/home/user/x" perms_r 6].
End demo.

Lemma delegate_spec_witness :
  broker_wf demo.broker ∧
  ∃ b' r, @delegate demo.dev demo.broker 1 2 demo.perms_r 5 = Ret (b', r).
Proof.
  split; [exact demo.broker_ok|].
  destruct (@delegate_spec demo.dev demo.broker 1 2 demo.perms_r 5 demo.broker_ok
              ltac:(reflexivity)) as (b' & r & E & _).
  by exists b', r.
Defined.

Lemma delegation_never_amplifies_witness :
  ∃ id0 t0, tokens demo.broker !! id0 = Some t0 ∧ revoked t0 = false ∧
    resource_type t0 = FileSystem ∧ path_covers (resource_path t0) "/home/user/x" = true ∧
    covers (permissions t0) demo.perms_r = true ∧ 6 < expires_at t0 ∧
    (subject t0 = 2 ∨ perm_delegate (permissions t0) = true).
Proof.
  destruct (@broker_run demo.dev demo.chain demo.broker) as [b| |] eqn:E;
    [|vm_compute in E; discriminate E..].
  apply (@delegation_never_amplifies demo.dev demo.chain demo.broker b).
  - unfold demo.chain. repeat constructor.
  - exact E.
  - vm_compute in E. injection E as <-. vm_compute. reflexivity.
Defined.

Lemma revocation_is_final_witness :
  ∃ b2, @broker_run demo.dev [OpDelegate 1 2 demo.perms_r 5; OpCheck 1 FileSystem "/home/user/x" demo.perms_r 6]
          (revoke demo.broker 1).1 = Ret b2 ∧ verify b2 1 6 = false.
Proof.
  eexists. split; [vm_compute; reflexivity|].
  eapply (@revocation_is_final demo.dev 1 demo.source
    [OpDelegate 1 2 demo.perms_r 5; OpCheck 1 FileSystem "/home/user/x" demo.perms_r 6]
    demo.broker (revoke demo.broker 1).1).
  - exact demo.broker_ok.
  - reflexivity.
  - reflexivity.
  - vm_compute. reflexivity.
  - vm_compute. reflexivity.
Defined.

Lemma audit_log_complete_witness :
  ∃ b es, @broker_run demo.dev demo.chain demo.broker = Ret b ∧
    audit_log b = [] ++ es ∧ entry_key <$> es = [(6, 2, FileSystem, "/home/user/x")].
Proof.
  destruct (@broker_run demo.dev demo.chain demo.broker) as [b| |] eqn:E;
    [|vm_compute in E; discriminate E..].
  destruct (@audit_log_complete demo.dev demo.chain demo.broker b E) as (es & Hes & Hk).
  exists b, es. split; [reflexivity|]. split; [exact Hes|exact Hk].
Defined.
