(* ===== verification/Boot.v ===== *)
(** * Boot-phase ordering

    Model of [src/reference-rs/src/boot.rs]: the six boot phases, the sequencer
    that refuses to complete a phase before its predecessors, and its own
    run-time check of the ordering invariant.  Array indexing and [expect] are
    explicit panics, so that their absence is a theorem. *)
From S2P Require Import Prelude.

Inductive BootPhase :=
| EarlyBoot | LateBoot | SchedulerBoot | SanctumBoot | IpcBoot | SyscallBoot.

#[export] Instance BootPhase_eq_dec : EqDecision BootPhase.
Proof. solve_decision. Defined.

Definition ORDER : list BootPhase :=
  [EarlyBoot; LateBoot; SchedulerBoot; SanctumBoot; IpcBoot; SyscallBoot].

(** [BootPhase::index]. *)
Definition phase_index (self : BootPhase) : outcome Z :=
  match position (λ p, bool_decide (p = self)) ORDER with
  | Some i => Ret (Z.of_nat i)
  | None => Panic
  end.

Inductive BootError :=
| OutOfOrder (attempted missing : BootPhase)
| AlreadyComplete (phase : BootPhase).

Record BootSequencer := mkSequencer { completed : list bool }.

Definition BootSequencer_new : BootSequencer := mkSequencer (replicate 6 false).

(** The [for earlier in &ORDER[..idx]] loop: the first phase not completed. *)
Fixpoint first_missing (self : BootSequencer) (earlier : list BootPhase) :
    outcome (option BootPhase) :=
  match earlier with
  | [] => Ret None
  | p :: ps =>
      i ← phase_index p;
      c ← vec_get self.(completed) i;
      if negb c then Ret (Some p) else first_missing self ps
  end.

Definition complete (self : BootSequencer) (phase : BootPhase) :
    outcome (BootSequencer * result unit BootError) :=
  idx ← phase_index phase;
  done ← vec_get self.(completed) idx;
  if (done : bool) then Ret (self, Err (AlreadyComplete phase))
  else
    m ← first_missing self (take (Z.to_nat idx) ORDER);
    match m with
    | Some earlier => Ret (self, Err (OutOfOrder phase earlier))
    | None =>
        c ← vec_set self.(completed) idx true;
        Ret (mkSequencer c, Ok tt)
    end.

Definition is_complete (self : BootSequencer) (phase : BootPhase) : outcome bool :=
  idx ← phase_index phase;
  vec_get self.(completed) idx.

(** [Iterator::all] with a closure that may panic. *)
Fixpoint all_outcome {A} (f : A → outcome bool) (l : list A) : outcome bool :=
  match l with
  | [] => Ret true
  | x :: l' => b ← f x; if (b : bool) then all_outcome f l' else Ret false
  end.

Definition satisfies_ordering_invariant (self : BootSequencer) : outcome bool :=
  all_outcome
    (λ idx : Z,
      c ← vec_get self.(completed) idx;
      if negb c then Ret true
      else all_outcome (λ earlier, i ← phase_index earlier; vec_get self.(completed) i)
             (take (Z.to_nat idx) ORDER))
    (seqZ 0 6).

(** A sequence of completion attempts, their answers dropped. *)
Fixpoint attempt_all (phases : list BootPhase) (seq : BootSequencer) :
    outcome BootSequencer :=
  match phases with
  | [] => Ret seq
  | p :: ps => r ← complete seq p; attempt_all ps r.1
  end.

(** ** The abstract state: how many phases are complete *)

Definition seq_at (k : nat) : BootSequencer :=
  mkSequencer (replicate k true ++ replicate (6 - k) false).

Definition phase_nat (p : BootPhase) : nat :=
  match p with
  | EarlyBoot => 0 | LateBoot => 1 | SchedulerBoot => 2
  | SanctumBoot => 3 | IpcBoot => 4 | SyscallBoot => 5
  end.

(** What [complete] does, seen from the number [k] of completed phases. *)
Definition complete_spec_at (k : nat) (p : BootPhase) :
    nat * result unit BootError :=
  match Nat.compare (phase_nat p) k with
  | Lt => (k, Err (AlreadyComplete p))
  | Eq => (S k, Ok tt)
  | Gt => (k, Err (OutOfOrder p (nth k ORDER SyscallBoot)))
  end.

Lemma complete_at k p :
  (k <= 6)%nat →
  complete (seq_at k) p =
  Ret (seq_at (complete_spec_at k p).1, (complete_spec_at k p).2).
Proof.
  intros Hk. do 7 (destruct k as [|k]; [destruct p; vm_compute; reflexivity|]). lia.
Qed.

Lemma complete_spec_at_le k p : (k <= 6)%nat → ((complete_spec_at k p).1 <= 6)%nat.
Proof.
  unfold complete_spec_at. destruct (Nat.compare_spec (phase_nat p) k); simpl; [|lia..].
  destruct p; simpl in *; lia.
Qed.

Lemma attempt_all_at phases k :
  (k <= 6)%nat → ∃ k', (k <= k' <= 6)%nat ∧ attempt_all phases (seq_at k) = Ret (seq_at k').
Proof.
  revert k. induction phases as [|p ps IH]; intros k Hk; simpl; [exists k; split; [lia|done]|].
  rewrite complete_at by done. simpl.
  destruct (IH (complete_spec_at k p).1) as (k' & ? & ->); [by apply complete_spec_at_le|].
  exists k'. split; [|done].
  enough (k <= (complete_spec_at k p).1)%nat by lia.
  unfold complete_spec_at. destruct (Nat.compare _ _); simpl; lia.
Qed.

(** ** Properties *)

(** Refinement: the array of six booleans implements the counter of completed
    phases.  From every state with the first [k] phases done, [complete] returns
    (never panics), accepts exactly the next phase, answers [AlreadyComplete] for
    an earlier one and, for a later one, [OutOfOrder] naming the first missing
    phase; a refused attempt changes nothing. *)
Theorem complete_refines_counter k p (Hk : (k <= 6)%nat) :
  complete (seq_at k) p =
  match Nat.compare (phase_nat p) k with
  | Lt => Ret (seq_at k, Err (AlreadyComplete p))
  | Eq => Ret (seq_at (S k), Ok tt)
  | Gt => Ret (seq_at k, Err (OutOfOrder p (nth k ORDER SyscallBoot)))
  end.
Proof.
  rewrite complete_at by done. unfold complete_spec_at. by destruct (Nat.compare _ _).
Qed.

Lemma complete_refines_counter_witness :
  complete (seq_at 2) IpcBoot = Ret (seq_at 2, Err (OutOfOrder IpcBoot SchedulerBoot)).
Proof. apply (complete_refines_counter 2 IpcBoot). repeat constructor. Defined.

(** [C38] Boot sequence integrity: after any sequence of attempts, in any order and
    with any repetitions, no call has panicked, a completed phase has all its
    predecessors completed, and the run-time check agrees. *)
Theorem boot_sequence_integrity phases :
  ∃ seq, attempt_all phases BootSequencer_new = Ret seq ∧
    satisfies_ordering_invariant seq = Ret true ∧
    ∀ p q, is_complete seq p = Ret true → (phase_nat q <= phase_nat p)%nat →
           is_complete seq q = Ret true.
Proof.
  destruct (attempt_all_at phases 0) as (k & Hk & Hrun); [lia|].
  exists (seq_at k). split; [exact Hrun|].
  assert (k <= 6)%nat as Hk6 by lia. clear Hrun Hk phases.
  do 7 (destruct k as [|k];
        [split; [vm_compute; reflexivity|];
         intros p q; destruct p, q; simpl; intros Hp Hq; vm_compute in Hp |- *;
         first [reflexivity | discriminate Hp | lia]|]).
  lia.
Qed.
