(* ===== verification/Timer.v ===== *)
(** * Timer arithmetic

    Model of [src/reference-rs/src/timer.rs] (PIT divisor, APIC initial count,
    tick and TSC conversions, at their machine widths) and of
    [src/kernel-x86_64/src/pit.rs], whose port writes are a list of
    (port, byte) pairs. *)
From S2P Require Import Prelude.

Inductive TimerError := ZeroFrequency | DivisorOutOfRange.

#[export] Instance TimerError_eq_dec : EqDecision TimerError.
Proof. solve_decision. Defined.

Definition PIT_BASE_FREQ_HZ : Z := 1193182.
Definition APIC_BUS_CLOCK_HZ : Z := 100000000.
Definition APIC_DIVISOR : Z := 16.
Definition u16_max : Z := 65535.

(** [u32::checked_mul]. *)
Definition u32_checked_mul (a b : Z) : option Z :=
  if in_width 32 (a * b) then Some (a * b) else None.

(** [u64::saturating_mul]. *)
Definition u64_saturating_mul (a b : Z) : Z := Z.min (a * b) u64_max.

Section timer.
Context `{Profile}.

Definition pit_divisor (freq_hz : Z) : outcome (result Z TimerError) :=
  if freq_hz =? 0 then Ret (Err ZeroFrequency)
  else
    n ← u32_add PIT_BASE_FREQ_HZ (freq_hz / 2);
    let divisor := n / freq_hz in
    if u16_max <? divisor then Ret (Err DivisorOutOfRange)
    else Ret (Ok (divisor mod 2 ^ 16)).

Definition apic_initial_count (freq_hz : Z) : result Z TimerError :=
  if freq_hz =? 0 then Err ZeroFrequency
  else
    match u32_checked_mul APIC_DIVISOR freq_hz with
    | None => Err DivisorOutOfRange
    | Some divisor_product => Ok (APIC_BUS_CLOCK_HZ / divisor_product)
    end.

Definition ticks_to_ns (tick_count freq_hz : Z) : result Z TimerError :=
  if freq_hz =? 0 then Err ZeroFrequency
  else
    let interval_ns := 1000000000 / freq_hz in
    Ok (u64_saturating_mul tick_count interval_ns).

Definition tsc_to_ns (tsc tsc_frequency_hz : Z) : outcome (result Z TimerError) :=
  if tsc_frequency_hz =? 0 then Ret (Err ZeroFrequency)
  else
    p ← arith 128 (tsc * 1000000000);
    Ret (Ok ((p / tsc_frequency_hz) mod 2 ^ 64)).

Definition PIT_CONTROL_PORT : Z := 0x43.
Definition PIT_CHANNEL0_PORT : Z := 0x40.
Definition PIT_CHANNEL0_SQUARE_WAVE : Z := 0x36.

(** [pit::set_frequency]: the bytes written, in order; [expect] panics when
    the divisor is refused. *)
Definition set_frequency (freq_hz : Z) : outcome (list (Z * Z)) :=
  r ← pit_divisor freq_hz;
  match r with
  | Err _ => Panic
  | Ok divisor =>
      Ret [(PIT_CONTROL_PORT, PIT_CHANNEL0_SQUARE_WAVE);
           (PIT_CHANNEL0_PORT, Z.land divisor 0xFF mod 2 ^ 8);
           (PIT_CHANNEL0_PORT, Z.shiftr divisor 8 mod 2 ^ 8)]
  end.

(** The divisor before the range check: round-to-nearest division. *)
Definition nearest_div (a b : Z) : Z := (a + b / 2) / b.

Lemma pit_divisor_nonzero f :
  0 < f < 2 ^ 32 →
  pit_divisor f =
  Ret (if u16_max <? nearest_div PIT_BASE_FREQ_HZ f then Err DivisorOutOfRange
       else Ok (nearest_div PIT_BASE_FREQ_HZ f)).
Proof.
  intros Hf. unfold pit_divisor.
  rewrite (proj2 (Z.eqb_neq f 0)) by lia.
  assert (0 <= f / 2 < 2 ^ 31) by (split; [apply Z.div_pos|apply Z.div_lt_upper_bound]; lia).
  unfold PIT_BASE_FREQ_HZ at 1. rewrite u32_add_ret by lia. simpl.
  fold PIT_BASE_FREQ_HZ. fold (nearest_div PIT_BASE_FREQ_HZ f).
  case_match eqn:E; [done|]. reflect_bools. rewrite Z.mod_small; [done|].
  split; [|unfold u16_max in E; lia].
  apply Z.div_pos; [unfold PIT_BASE_FREQ_HZ|]; lia.
Qed.

Lemma nearest_div_spec a b :
  0 < b → 2 * nearest_div a b * b - b <= 2 * a < 2 * nearest_div a b * b + b.
Proof.
  intros Hb. unfold nearest_div.
  pose proof (Z.div_mod (a + b / 2) b ltac:(lia)) as E1.
  pose proof (Z.mod_pos_bound (a + b / 2) b Hb).
  pose proof (Z.div_mod b 2 ltac:(lia)). pose proof (Z.mod_pos_bound b 2 ltac:(lia)).
  set (q := (a + b / 2) / b) in *. set (r := (a + b / 2) mod b) in *. nia.
Qed.

(** The PIT divisor, for every [u32] frequency: no panic; 0 Hz is refused
    as such; exactly the frequencies 1 to 18 are refused as out of range; any
    other gets the 16-bit count nearest to 1193182 / f (off by at most half a
    unit), and that count is 0 for every frequency above twice the base
    frequency. *)
Theorem pit_divisor_spec f (Hf : 0 <= f < 2 ^ 32) :
  ∃ r, pit_divisor f = Ret r ∧
    (r = Err ZeroFrequency ↔ f = 0) ∧
    (r = Err DivisorOutOfRange ↔ 1 <= f <= 18) ∧
    (∀ d, r = Ok d → 19 <= f ∧ 0 <= d <= u16_max ∧
          - f <= 2 * PIT_BASE_FREQ_HZ - 2 * d * f < f ∧
          (d = 0 ↔ 2 * PIT_BASE_FREQ_HZ < f)).
Proof.
  destruct (decide (f = 0)) as [->|Hne].
  { exists (Err ZeroFrequency). split_and!; try split; intros; try discriminate; try done; lia. }
  rewrite pit_divisor_nonzero by lia. eexists. split; [done|].
  pose proof (nearest_div_spec PIT_BASE_FREQ_HZ f ltac:(lia)) as Hd.
  set (d := nearest_div PIT_BASE_FREQ_HZ f) in *. clearbody d.
  unfold PIT_BASE_FREQ_HZ, u16_max in *.
  assert (0 <= d).
  { destruct (Z.le_gt_cases 0 d); [done|].
    assert (d * f <= -1 * f) by (apply Z.mul_le_mono_nonneg_r; lia). lia. }
  assert (65535 < d ↔ f <= 18) as Hcut.
  { split; intros.
    - assert (65536 * f <= d * f) by (apply Z.mul_le_mono_nonneg_r; lia). lia.
    - destruct (Z.le_gt_cases d 65535); [|lia].
      assert (d * f <= 65535 * 18) by (apply Z.mul_le_mono_nonneg; lia). lia. }
  assert (d = 0 ↔ 2 * 1193182 < f) as Hz.
  { split; intros; [subst d; lia|]. destruct (Z.eq_dec d 0); [done|].
    assert (1 * f <= d * f) by (apply Z.mul_le_mono_nonneg_r; lia). lia. }
  case_match eqn:E; reflect_bools; split_and!; try split; intros; try discriminate; try done; try lia.
  all: try match goal with H : Ok _ = Ok _ |- _ => injection H as <- end.
  all: split_and!; lia.
Qed.
(** The two data bytes the PIT is loaded with reassemble to the divisor. *)
Lemma pit_bytes d :
  0 <= d <= u16_max →
  Z.land d 0xFF mod 2 ^ 8 + 256 * (Z.shiftr d 8 mod 2 ^ 8) = d.
Proof.
  intros Hd. unfold u16_max in Hd. change 0xFF with (Z.ones 8).
  rewrite Z.land_ones, Z.shiftr_div_pow2 by lia.
  rewrite Z.mod_mod by lia. rewrite (Z.mod_small (d / 2 ^ 8)).
  - pose proof (Z.div_mod d (2 ^ 8)). lia.
  - split; [apply Z.div_pos; lia|]. apply Z.div_lt_upper_bound; lia.
Qed.

(** [C40] Programming the PIT: [set_frequency] panics exactly for 0 to 18 Hz;
    otherwise it writes the mode byte 0x36 to port 0x43 and then, low byte
    first, two bytes to port 0x40 that reassemble to the nearest divisor. *)
Theorem set_frequency_programs f (Hf : 0 <= f < 2 ^ 32) :
  (f <= 18 → set_frequency f = Panic) ∧
  (19 <= f → ∃ lo hi,
     set_frequency f = Ret [(0x43, 0x36); (0x40, lo); (0x40, hi)] ∧
     0 <= lo < 256 ∧ 0 <= hi < 256 ∧ lo + 256 * hi = nearest_div PIT_BASE_FREQ_HZ f).
Proof.
  assert (f = 0 ∨ 0 < f) as [->|Hpos] by lia.
  { split; [done|lia]. }
  pose proof (nearest_div_spec PIT_BASE_FREQ_HZ f Hpos) as Hd.
  unfold set_frequency. rewrite pit_divisor_nonzero by lia. simpl.
  set (d := nearest_div PIT_BASE_FREQ_HZ f) in *. clearbody d.
  unfold PIT_BASE_FREQ_HZ in Hd.
  split; intros Hf'.
  - replace (u16_max <? d) with true; [done|]. symmetry. unfold u16_max. reflect_bools.
    destruct (Z.le_gt_cases d 65535); [|lia].
    assert (d * f <= 65535 * f) by (apply Z.mul_le_mono_nonneg_r; lia). lia.
  - assert (0 <= d <= u16_max) as Hr.
    { unfold u16_max. split.
      - destruct (Z.le_gt_cases 0 d); [done|].
        assert (d * f <= -1 * f) by (apply Z.mul_le_mono_nonneg_r; lia). lia.
      - destruct (Z.le_gt_cases d 65535); [done|].
        assert (65536 * f <= d * f) by (apply Z.mul_le_mono_nonneg_r; lia). lia. }
    replace (u16_max <? d) with false by (symmetry; reflect_bools; lia).
    eexists _, _. split; [reflexivity|].
    split_and!; [apply Z.mod_pos_bound; lia..|by apply pit_bytes].
Qed.

(** TSC conversion: for every pair of words the 128-bit product cannot
    overflow, so nothing panics; a zero frequency is refused; the answer is the
    exact number of whole nanoseconds whenever that fits a word, and otherwise
    it is that number modulo 2^64, strictly less than the true time. *)
Theorem tsc_to_ns_spec tsc f (Htsc : 0 <= tsc < 2 ^ 64) (Hf : 0 <= f < 2 ^ 64) :
  ∃ r, tsc_to_ns tsc f = Ret r ∧ (r = Err ZeroFrequency ↔ f = 0) ∧
    (∀ ns, r = Ok ns → 0 <= ns < 2 ^ 64 ∧ ns * f <= tsc * 1000000000 ∧
       (tsc * 1000000000 < (ns + 1) * f ↔ tsc * 1000000000 < 2 ^ 64 * f)).
Proof.
  unfold tsc_to_ns. destruct (f =? 0) eqn:E; reflect_bools.
  { exists (Err ZeroFrequency). split_and!; try split; intros; try discriminate; done. }
  rewrite arith_ret by lia. simpl. eexists. split; [done|].
  split; [split; intros; [discriminate|lia]|].
  intros ns [= <-]. set (q := tsc * 1000000000 / f).
  assert (0 <= q) by (apply Z.div_pos; lia).
  assert (q mod 2 ^ 64 <= q) by (apply Z.mod_le; lia).
  pose proof (Z.mod_pos_bound q (2 ^ 64) ltac:(lia)) as Hm.
  pose proof (Z.mul_div_le (tsc * 1000000000) f ltac:(lia)) as Hlo. fold q in Hlo.
  pose proof (Z.mul_succ_div_gt (tsc * 1000000000) f ltac:(lia)) as Hhi. fold q in Hhi.
  split_and!; [lia..|nia|]. split; intros Hx.
  - assert ((q mod 2 ^ 64 + 1) * f <= 2 ^ 64 * f) by (apply Z.mul_le_mono_nonneg_r; lia). lia.
  - assert (q < 2 ^ 64) by (apply Z.div_lt_upper_bound; lia).
    rewrite Z.mod_small by lia. lia.
Qed.
End timer.

Lemma pit_divisor_spec_witness :
  ∃ r, @pit_divisor true 5000000 = Ret r ∧ r = Ok 0.
Proof.
  destruct (@pit_divisor_spec true 5000000 ltac:(lia)) as (r & Hr & _).
  exists r. split; [exact Hr|]. vm_compute in Hr. by injection Hr as <-.
Defined.

Lemma set_frequency_programs_witness :
  ∃ lo hi, @set_frequency true 200 = Ret [(0x43, 0x36); (0x40, lo); (0x40, hi)] ∧
    lo + 256 * hi = 5966.
Proof.
  destruct (@set_frequency_programs true 200 ltac:(lia)) as [_ Hok].
  destruct (Hok ltac:(lia)) as (lo & hi & Hw & _ & _ & Hs).
  exists lo, hi. split; [exact Hw|exact Hs].
Defined.

Lemma tsc_to_ns_spec_witness :
  ∃ r, @tsc_to_ns true (3 * 10 ^ 9) (10 ^ 9) = Ret r ∧ r = Ok (3 * 10 ^ 9).
Proof.
  destruct (@tsc_to_ns_spec true (3 * 10 ^ 9) (10 ^ 9) ltac:(lia) ltac:(lia)) as (r & Hr & _).
  exists r. split; [exact Hr|]. vm_compute in Hr. by injection Hr as <-.
Defined.
