(* ===== verification/Sanctum.v ===== *)
(** * Sanctum vaults

    Model of [src/reference-rs/src/sanctum.rs]: the vault registry, the FNV-style
    attestation checksum over 64-bit words, the gate of [enter_vault] and the
    region check of [check_access]. *)
From S2P Require Import Prelude.

Inductive VaultType := Standard | Privileged | Isolated.

Inductive VaultError := VaultNotFound | AttestationFailed | OutsideVaultRegion.

#[export] Instance VaultError_eq_dec : EqDecision VaultError.
Proof. solve_decision. Defined.

Record VaultConfig := mkConfig {
  vault_id : Z;
  owner_pid : Z;
  vault_type : VaultType;
  memory_start : Z;
  memory_end : Z;
}.

(** [config.vault_type as u64]. *)
Definition vault_type_word (t : VaultType) : Z :=
  match t with
  | Standard => 0
  | Privileged => 1
  | Isolated => 2
  end.

Definition FNV_OFFSET_BASIS : Z := 0xcbf29ce484222325.
Definition FNV_PRIME : Z := 0x100000001b3.

(** One round: [h ^= word; h = h.wrapping_mul(prime)]. *)
Definition fnv_step (h word : Z) : Z := (Z.lxor h word * FNV_PRIME) mod 2 ^ 64.

Definition attest (config : VaultConfig) : Z :=
  foldl fnv_step FNV_OFFSET_BASIS
    [config.(vault_id); config.(owner_pid); vault_type_word config.(vault_type);
     config.(memory_start); config.(memory_end)].

Record VaultState := mkVault { config : VaultConfig; attestation_hash : Z }.

Record VaultManager := mkManager {
  vaults : gmap Z VaultState;
  next_vault_id : Z;
}.

Definition VaultManager_new : VaultManager := mkManager ∅ 1.

Definition create_vault `{Profile} (self : VaultManager) (owner_pid : Z)
    (vault_type : VaultType) (memory_start memory_end : Z) :
    outcome (VaultManager * Z) :=
  let vault_id := self.(next_vault_id) in
  next ← u64_add self.(next_vault_id) 1;
  let config := mkConfig vault_id owner_pid vault_type memory_start memory_end in
  let attestation_hash := attest config in
  Ret (mkManager (<[vault_id := mkVault config attestation_hash]> self.(vaults)) next,
       vault_id).

Definition enter_vault (self : VaultManager) (vault_id : Z) : result unit VaultError :=
  match self.(vaults) !! vault_id with
  | None => Err VaultNotFound
  | Some vault =>
      if negb (attest vault.(config) =? vault.(attestation_hash))
      then Err AttestationFailed
      else Ok tt
  end.

Definition attest_vault (self : VaultManager) (vault_id : Z) :
    VaultManager * result Z VaultError :=
  match self.(vaults) !! vault_id with
  | None => (self, Err VaultNotFound)
  | Some vault =>
      let h := attest vault.(config) in
      (mkManager (<[vault_id := mkVault vault.(config) h]> self.(vaults))
         self.(next_vault_id), Ok h)
  end.

(** The test hook that corrupts a stored attestation. *)
Definition corrupt_stored_attestation (self : VaultManager) (vault_id : Z) :
    VaultManager :=
  match self.(vaults) !! vault_id with
  | None => self
  | Some vault =>
      mkManager
        (<[vault_id := mkVault vault.(config)
             (Z.lxor vault.(attestation_hash) 0xFFFFFFFFFFFFFFFF)]> self.(vaults))
        self.(next_vault_id)
  end.

Definition vault_check_access (self : VaultManager) (vault_id vaddr : Z) :
    result unit VaultError :=
  match self.(vaults) !! vault_id with
  | None => Err VaultNotFound
  | Some vault =>
      if (vault.(config).(memory_start) <=? vaddr)
         && (vaddr <? vault.(config).(memory_end))
      then Ok tt
      else Err OutsideVaultRegion
  end.

Definition vault_config (self : VaultManager) (vault_id : Z) : option VaultConfig :=
  config <$> self.(vaults) !! vault_id.

(** Sequences of the operations that change the registry. *)
Inductive vault_op :=
| VCreate (owner : Z) (ty : VaultType) (start fin : Z)
| VAttest (id : Z)
| VCorrupt (id : Z).

Definition vault_step `{Profile} (op : vault_op) (m : VaultManager) :
    outcome VaultManager :=
  match op with
  | VCreate o ty s e => fst <$> create_vault m o ty s e
  | VAttest id => Ret (attest_vault m id).1
  | VCorrupt id => Ret (corrupt_stored_attestation m id)
  end.

Fixpoint vault_run `{Profile} (ops : list vault_op) (m : VaultManager) :
    outcome VaultManager :=
  match ops with
  | [] => Ret m
  | op :: ops' => m' ← vault_step op m; vault_run ops' m'
  end.

(** ** The checksum *)

Definition is_u64 (x : Z) : Prop := 0 <= x < 2 ^ 64.

Record config_u64 (c : VaultConfig) : Prop := {
  u64_vault_id : is_u64 (vault_id c);
  u64_owner : is_u64 (owner_pid c);
  u64_start : is_u64 (memory_start c);
  u64_end : is_u64 (memory_end c);
}.

Lemma lxor_u64 a b : is_u64 a → is_u64 b → is_u64 (Z.lxor a b).
Proof.
  unfold is_u64. intros [Ha Ha'] [Hb Hb'].
  assert (0 <= Z.lxor a b) by (apply Z.lxor_nonneg; lia). split; [done|].
  destruct (Z.eq_dec (Z.lxor a b) 0) as [->|Hne]; [lia|].
  apply Z.log2_lt_pow2; [lia|].
  eapply Z.le_lt_trans; [by apply Z.log2_lxor|].
  apply Z.max_lub_lt.
  - destruct (Z.eq_dec a 0) as [->|]; [done|]. apply Z.log2_lt_pow2; lia.
  - destruct (Z.eq_dec b 0) as [->|]; [done|]. apply Z.log2_lt_pow2; lia.
Qed.

Lemma lxor_inj_r a b c : Z.lxor a b = Z.lxor a c → b = c.
Proof.
  intros Hx. rewrite <- (Z.lxor_0_l b), <- (Z.lxor_0_l c), <- (Z.lxor_nilpotent a).
  by rewrite !Z.lxor_assoc, Hx.
Qed.

Lemma vault_type_word_u64 t : is_u64 (vault_type_word t).
Proof. by destruct t. Qed.

Lemma fnv_step_u64 h w : is_u64 (fnv_step h w).
Proof. apply Z.mod_pos_bound. lia. Qed.

(** Multiplication by the odd prime is a bijection of 64-bit words. *)
Lemma fnv_mul_inj a b :
  is_u64 a → is_u64 b →
  (a * FNV_PRIME) mod 2 ^ 64 = (b * FNV_PRIME) mod 2 ^ 64 → a = b.
Proof.
  unfold is_u64. intros Ha Hb Heq.
  assert ((2 ^ 64 | FNV_PRIME * (a - b))) as Hd.
  { apply Z.mod_divide; [lia|]. rewrite Z.mul_comm, Z.mul_sub_distr_r.
    rewrite Zminus_mod, Heq, Z.sub_diag. done. }
  apply Z.gauss in Hd; [|vm_compute; reflexivity].
  destruct Hd as [k Hk]. assert (k = 0) by nia. lia.
Qed.

Lemma fnv_step_inj_hash h h' w :
  is_u64 h → is_u64 h' → is_u64 w → fnv_step h w = fnv_step h' w → h = h'.
Proof.
  intros Hh Hh' Hw Heq. apply fnv_mul_inj in Heq; [|by apply lxor_u64..].
  rewrite (Z.lxor_comm h), (Z.lxor_comm h') in Heq. by apply lxor_inj_r in Heq.
Qed.

Lemma fnv_step_inj_word h w w' :
  is_u64 h → is_u64 w → is_u64 w' → fnv_step h w = fnv_step h w' → w = w'.
Proof.
  intros Hh Hw Hw' Heq. apply fnv_mul_inj in Heq; [|by apply lxor_u64..].
  by apply lxor_inj_r in Heq.
Qed.

(** The word that makes the round at [h'] end where the round at [h] with [w] ends. *)
Lemma fnv_step_cancel h h' w : fnv_step h' (Z.lxor h' (Z.lxor h w)) = fnv_step h w.
Proof. unfold fnv_step. by rewrite <- Z.lxor_assoc, Z.lxor_nilpotent, Z.lxor_0_l. Qed.

(** Running the same words from different hashes gives different hashes. *)
Lemma fnv_foldl_inj ws h h' :
  is_u64 h → is_u64 h' → Forall is_u64 ws →
  foldl fnv_step h ws = foldl fnv_step h' ws → h = h'.
Proof.
  intros Hh Hh' Hws. revert h h' Hh Hh'.
  induction Hws as [|w ws Hw _ IH]; intros h h' Hh Hh' Heq; simpl in *; [done|].
  apply (fnv_step_inj_hash h h' w); [done..|].
  apply IH; [apply fnv_step_u64..|done].
Qed.

(** One word changed, everything around it equal: the hashes differ. *)
Lemma fnv_single_word pre w w' post h :
  is_u64 h → Forall is_u64 pre → Forall is_u64 post → is_u64 w → is_u64 w' →
  foldl fnv_step h (pre ++ w :: post) = foldl fnv_step h (pre ++ w' :: post) →
  w = w'.
Proof.
  intros Hh Hpre Hpost Hw Hw'. rewrite !foldl_app. simpl.
  set (h1 := foldl fnv_step h pre). intros Heq.
  assert (is_u64 h1).
  { unfold h1. destruct pre as [|x pre _] using rev_ind; [done|].
    rewrite foldl_app. apply fnv_step_u64. }
  apply fnv_foldl_inj in Heq; [|apply fnv_step_u64..|done].
  by apply fnv_step_inj_word in Heq.
Qed.

(** ** The registry *)

Definition attested (m : VaultManager) : Prop :=
  ∀ id v, vaults m !! id = Some v → attestation_hash v = attest (config v).

Definition manager_wf (m : VaultManager) : Prop :=
  0 < next_vault_id m <= u64_max ∧
  ∀ id v, vaults m !! id = Some v → vault_id (config v) = id ∧ 0 < id < next_vault_id m.

Definition op_is_corrupt (op : vault_op) : bool :=
  match op with VCorrupt _ => true | _ => false end.

Lemma manager_wf_new : manager_wf VaultManager_new.
Proof. split; [by vm_compute|]. intros id v. simpl. by rewrite lookup_empty. Qed.

Section registry.
Context `{Profile}.

Lemma create_vault_inv m o ty s e m' id :
  create_vault m o ty s e = Ret (m', id) →
  id = next_vault_id m ∧
  vaults m' = <[id := mkVault (mkConfig id o ty s e)
                        (attest (mkConfig id o ty s e))]> (vaults m) ∧
  (0 <= next_vault_id m < u64_max → next_vault_id m' = next_vault_id m + 1).
Proof.
  intros Hc. pose proof Hc as Hc'. unfold create_vault in Hc.
  apply outcome_bind_ret in Hc as (n & _ & [= <- <-]). split_and!; [done..|].
  unfold u64_max. intros Hn. unfold create_vault in Hc'.
  rewrite u64_add_ret in Hc' by lia. by injection Hc' as <-.
Qed.

(** A step never changes the configuration of a vault that exists. *)
Lemma vault_step_keeps op m m' :
  manager_wf m → next_vault_id m < u64_max → vault_step op m = Ret m' →
  manager_wf m' ∧ next_vault_id m' <= next_vault_id m + 1 ∧
  ∀ id c, vault_config m id = Some c → vault_config m' id = Some c.
Proof.
  intros [Hn Hids] Hroom Hs. destruct op as [o ty s e|id|id]; simpl in Hs.
  - destruct (create_vault m o ty s e) as [[m1 id]| |] eqn:E; [|done..]. injection Hs as <-.
    apply create_vault_inv in E as (-> & Hv & Hx). rewrite Hx by lia.
    split_and!; [split|lia|].
    + rewrite Hx by lia. lia.
    + rewrite Hv, Hx by lia. intros id v Hid.
      apply lookup_insert_Some in Hid as [[<- <-]|[_ Hid]]; [simpl; lia|].
      destruct (Hids _ _ Hid). lia.
    + unfold vault_config. intros id c Hc. rewrite Hv, lookup_insert_ne; [done|].
      apply fmap_Some in Hc as (v & Hid & _). destruct (Hids _ _ Hid). lia.
  - injection Hs as <-. unfold attest_vault.
    destruct (vaults m !! id) as [v|] eqn:E; simpl; [|split_and!; [done|lia|done]].
    split_and!; [split; [done|]|lia|].
    + simpl. intros id' v' Hid'.
      apply lookup_insert_Some in Hid' as [[<- <-]|[_ Hid']]; simpl; eauto.
    + unfold vault_config; simpl. intros id' c. rewrite lookup_insert.
      case_decide as Hd; [|done]. subst. by rewrite E.
  - injection Hs as <-. unfold corrupt_stored_attestation.
    destruct (vaults m !! id) as [v|] eqn:E; simpl; [|split_and!; [done|lia|done]].
    split_and!; [split; [done|]|lia|].
    + simpl. intros id' v' Hid'.
      apply lookup_insert_Some in Hid' as [[<- <-]|[_ Hid']]; simpl; eauto.
    + unfold vault_config; simpl. intros id' c. rewrite lookup_insert.
      case_decide as Hd; [|done]. subst. by rewrite E.
Qed.

Lemma vault_run_keeps ops m m' :
  manager_wf m → next_vault_id m + Z.of_nat (length ops) <= u64_max →
  vault_run ops m = Ret m' →
  manager_wf m' ∧ ∀ id c, vault_config m id = Some c → vault_config m' id = Some c.
Proof.
  revert m. induction ops as [|op ops IH]; intros m Hwf Hroom; simpl; [by intros [= <-]|].
  simpl in Hroom. intros Hr. apply outcome_bind_ret in Hr as (m1 & Hs & Hr).
  destruct (vault_step_keeps _ _ _ Hwf ltac:(lia) Hs) as (Hwf1 & Hn & Hk).
  destruct (IH m1 Hwf1 ltac:(lia) Hr) as [? Hk']. split; [done|]. auto.
Qed.

Lemma vault_step_attested op m m' :
  op_is_corrupt op = false → attested m → vault_step op m = Ret m' → attested m'.
Proof.
  intros Hop Ha Hs. destruct op as [o ty s e|id|id]; simpl in *; [|..|done].
  - destruct (create_vault m o ty s e) as [[m1 id]| |] eqn:E; [|done..]. injection Hs as <-.
    apply create_vault_inv in E as (-> & Hv & _). intros id v. simpl. rewrite Hv.
    intros [[<- <-]|[_ Hid]]%lookup_insert_Some; [done|eauto].
  - injection Hs as <-. unfold attest_vault.
    destruct (vaults m !! id) as [v|] eqn:E; simpl; [|done].
    intros id' v'. simpl. intros [[<- <-]|[_ Hid]]%lookup_insert_Some; [done|eauto].
Qed.

Lemma vault_run_attested ops m m' :
  Forall (λ op, op_is_corrupt op = false) ops → attested m →
  vault_run ops m = Ret m' → attested m'.
Proof.
  intros Hops. revert m. induction Hops as [|op ops Hop _ IH]; intros m Ha; simpl;
    [by intros [= <-]|].
  intros Hr. apply outcome_bind_ret in Hr as (m1 & Hs & Hr).
  eapply IH; [|done]. by eapply vault_step_attested.
Qed.
End registry.

(** ** Properties *)

(** Two configurations that agree on all but at most one field. *)
Definition one_field_apart (c c' : VaultConfig) : Prop :=
  let '(mkConfig i o t s e) := c in
  (∃ x, c' = mkConfig x o t s e) ∨ (∃ x, c' = mkConfig i x t s e) ∨
  (∃ x, c' = mkConfig i o x s e) ∨ (∃ x, c' = mkConfig i o t x e) ∨
  (∃ x, c' = mkConfig i o t s x).

(** Tamper detection: changing any single field of a vault's configuration
    changes its attestation.  (Each round of the checksum is injective in the
    hash and in the word, the multiplier being odd.) *)
Theorem attest_detects_single_change c c'
    (Hc : config_u64 c) (Hc' : config_u64 c') (Hone : one_field_apart c c')
    (Hsame : attest c = attest c') : c = c'.
Proof.
  destruct c as [i o t s e]. destruct Hc as [Hi Ho Hs He]. simpl in *.
  pose proof (vault_type_word_u64 t) as Ht.
  assert (is_u64 FNV_OFFSET_BASIS) as Hb by by vm_compute.
  destruct Hone as [[x ->]|[[x ->]|[[x ->]|[[x ->]|[x ->]]]]];
    destruct Hc' as [Hi' Ho' Hs' He']; simpl in *; unfold attest in Hsame.
  - f_equal. apply (fnv_single_word [] i x [o; vault_type_word t; s; e] _ Hb); auto.
  - f_equal. apply (fnv_single_word [i] o x [vault_type_word t; s; e] _ Hb); auto.
  - f_equal. assert (vault_type_word t = vault_type_word x) as Hx.
    { apply (fnv_single_word [i; o] _ _ [s; e] _ Hb); auto using vault_type_word_u64. }
    by destruct t, x.
  - f_equal. apply (fnv_single_word [i; o; vault_type_word t] s x [e] _ Hb); auto.
  - f_equal. apply (fnv_single_word [i; o; vault_type_word t; s] e x [] _ Hb); auto.
Qed.

Lemma attest_detects_single_change_witness :
  mkConfig 1 7 Standard 0x1000 0x2000 = mkConfig 1 7 Standard 0x1000 0x2000.
Proof.
  apply attest_detects_single_change.
  - by split; vm_compute.
  - by split; vm_compute.
  - simpl. left. by exists 1.
  - reflexivity.
Defined.

(** The limit of the checksum: for every configuration and every other owner
    there is a region start for which the tampered configuration (new owner, new
    start) has the attestation of the original, so [enter_vault] would accept it. *)
Theorem attest_two_field_collision c owner'
    (Hc : config_u64 c) (Ho : is_u64 owner') :
  ∃ start', is_u64 start' ∧
    attest (mkConfig (vault_id c) owner' (vault_type c) start' (memory_end c)) = attest c.
Proof.
  set (h := foldl fnv_step FNV_OFFSET_BASIS
              [vault_id c; owner_pid c; vault_type_word (vault_type c)]).
  set (h' := foldl fnv_step FNV_OFFSET_BASIS
               [vault_id c; owner'; vault_type_word (vault_type c)]).
  assert (is_u64 h ∧ is_u64 h') as [Hh Hh'] by (split; apply fnv_step_u64).
  exists (Z.lxor h' (Z.lxor h (memory_start c))). split.
  - apply lxor_u64; [done|]. apply lxor_u64; [done|]. apply Hc.
  - change (fnv_step (fnv_step h' (Z.lxor h' (Z.lxor h (memory_start c)))) (memory_end c)
            = fnv_step (fnv_step h (memory_start c)) (memory_end c)).
    by rewrite fnv_step_cancel.
Qed.

Lemma attest_two_field_collision_witness :
  ∃ start', is_u64 start' ∧
    attest (mkConfig 1 666 Standard start' 0x2000) =
    attest (mkConfig 1 7 Standard 0x1000 0x2000).
Proof.
  apply (attest_two_field_collision (mkConfig 1 7 Standard 0x1000 0x2000) 666).
  - by split; vm_compute.
  - by vm_compute.
Defined.

(** Vault isolation for the life of the registry: once [create_vault] has
    returned [id], no later sequence of creations, attestations or attestation
    corruptions changes that vault's configuration, and an access through it
    succeeds exactly for the addresses of the region it was created with. *)
Theorem vault_isolation `{Profile} ops m owner ty start fin m1 id m2
    (Hwf : manager_wf m)
    (Hnew : create_vault m owner ty start fin = Ret (m1, id))
    (Hroom : next_vault_id m + Z.of_nat (length ops) < u64_max)
    (Hrun : vault_run ops m1 = Ret m2) :
  vaults m !! id = None ∧
  vault_config m2 id = Some (mkConfig id owner ty start fin) ∧
  ∀ vaddr, vault_check_access m2 id vaddr =
    if bool_decide (start <= vaddr < fin) then Ok tt else Err OutsideVaultRegion.
Proof.
  assert (vault_step (VCreate owner ty start fin) m = Ret m1) as Hs
    by (simpl; by rewrite Hnew).
  destruct (vault_step_keeps _ _ _ Hwf ltac:(lia) Hs) as (Hwf1 & Hn1 & _).
  apply create_vault_inv in Hnew as (-> & Hv & _).
  destruct (vault_run_keeps ops m1 m2 Hwf1 ltac:(lia) Hrun) as [_ Hk].
  assert (vault_config m2 (next_vault_id m) =
          Some (mkConfig (next_vault_id m) owner ty start fin)) as Hc.
  { apply Hk. unfold vault_config. by rewrite Hv, lookup_insert_eq. }
  split_and!; [|done|].
  - apply eq_None_not_Some. intros [v Hid]. destruct Hwf as [_ Hids].
    destruct (Hids _ _ Hid). lia.
  - intros vaddr. unfold vault_check_access, vault_config in *.
    destruct (vaults m2 !! next_vault_id m) as [v|]; [|done]. injection Hc as ->. simpl.
    case_bool_decide; case_match; reflect_bools; try done; lia.
Qed.

Lemma vault_isolation_witness :
  ∃ m2, @vault_run true [VCorrupt 1; VCreate 2 Isolated 0 10; VAttest 1]
          (mkManager {[ 1 := mkVault (mkConfig 1 7 Standard 0x1000 0x2000)
                               (attest (mkConfig 1 7 Standard 0x1000 0x2000)) ]} 2) = Ret m2 ∧
    vault_check_access m2 1 0x2000 = Err OutsideVaultRegion.
Proof.
  eexists. split; [vm_compute; reflexivity|].
  erewrite (proj2 (proj2 (@vault_isolation true
    [VCorrupt 1; VCreate 2 Isolated 0 10; VAttest 1] VaultManager_new 7 Standard 0x1000 0x2000
    _ 1 _ manager_wf_new ltac:(vm_compute; reflexivity) ltac:(vm_compute; reflexivity)
    ltac:(vm_compute; reflexivity)))).
  reflexivity.
Defined.

(** [C39] The attestation gate: as long as no stored hash is corrupted, entering
    succeeds for exactly the vaults that exist; a corrupted hash makes entry fail
    with [AttestationFailed], and attesting the vault again restores it. *)
Theorem attestation_gate `{Profile} ops m id
    (Hclean : Forall (λ op, op_is_corrupt op = false) ops)
    (Hrun : vault_run ops VaultManager_new = Ret m) :
  enter_vault m id = (if vaults m !! id is Some _ then Ok tt else Err VaultNotFound) ∧
  (is_Some (vaults m !! id) →
   let m' := corrupt_stored_attestation m id in
   enter_vault m' id = Err AttestationFailed ∧
   enter_vault (attest_vault m' id).1 id = Ok tt).
Proof.
  assert (attested m) as Ha.
  { eapply vault_run_attested; [done| |done]. intros i v. simpl. by rewrite lookup_empty. }
  unfold enter_vault at 1. split.
  - destruct (vaults m !! id) as [v|] eqn:E; [|done].
    by rewrite (Ha _ _ E), Z.eqb_refl.
  - intros [v Hv]. unfold corrupt_stored_attestation. rewrite Hv. simpl. split.
    + unfold enter_vault. simpl. rewrite lookup_insert_eq. simpl. rewrite (Ha _ _ Hv).
      rewrite (proj2 (Z.eqb_neq _ _)); [done|]. intros Hx.
      rewrite <- (Z.lxor_0_r (attest (config v))) in Hx at 1. by apply lxor_inj_r in Hx.
    + unfold attest_vault. simpl. rewrite lookup_insert_eq. simpl.
      unfold enter_vault. simpl. rewrite lookup_insert_eq. simpl. by rewrite Z.eqb_refl.
Qed.

Lemma attestation_gate_witness :
  ∃ m, @vault_run true [VCreate 1 Isolated 0x1000 0x2000] VaultManager_new = Ret m ∧
       enter_vault m 1 = Ok tt.
Proof.
  eexists. split; [vm_compute; reflexivity|].
  rewrite (proj1 (@attestation_gate true [VCreate 1 Isolated 0x1000 0x2000] _ 1
                    ltac:(repeat constructor) ltac:(vm_compute; reflexivity))).
  reflexivity.
Defined.
