(* ===== verification/Buddy.v ===== *)
(** * The physical page allocator

    Model of [PhysicalAllocator] of [src/reference-rs/src/memory.rs]: a buddy
    allocator over an arena of [total_pages] pages, with one free list per order
    and the orders of the live blocks keyed by address.  The invariant
    [phys_wf] says that the free and the live blocks tile the arena and that no
    two free buddies are left uncoalesced. *)
From S2P Require Import Prelude.

Definition PAGE_SIZE : Z := 0x1000.
Definition MAX_ORDER : Z := 20.

Inductive MemoryError :=
| OutOfMemory | InvalidOrder | RegionNotFound | CapabilityDenied | DoubleFree
| Unmapped | AccessViolation.

#[export] Instance MemoryError_eq_dec : EqDecision MemoryError.
Proof. solve_decision. Defined.

Record PhysicalAllocator := mkPhys {
  base : Z;
  total_pages : Z;
  free_lists : list (list Z);
  live_blocks : gmap Z Z;
}.

Definition set_free (self : PhysicalAllocator) (fl : list (list Z)) : PhysicalAllocator :=
  mkPhys self.(base) self.(total_pages) fl self.(live_blocks).

(** [self.free_lists\[order\].push(addr)]. *)
Definition push_free (self : PhysicalAllocator) (order addr : Z) :
    outcome PhysicalAllocator :=
  l ← vec_get self.(free_lists) order;
  fl ← vec_set self.(free_lists) order (vec_push l addr);
  Ret (set_free self fl).

(** [self.free_lists\[order\].pop()]. *)
Definition pop_free (self : PhysicalAllocator) (order : Z) :
    outcome (PhysicalAllocator * option Z) :=
  l ← vec_get self.(free_lists) order;
  match vec_pop l with
  | None => Ret (self, None)
  | Some (r, addr) =>
      fl ← vec_set self.(free_lists) order r;
      Ret (set_free self fl, Some addr)
  end.

(** The body of the seeding loop, on the loop's state [(self, addr, remaining)]. *)
Definition seed_step `{Profile} (st : PhysicalAllocator * Z * Z) :
    outcome (PhysicalAllocator * Z * Z) :=
  let '(self, addr, remaining) := st in
  let order := Z.min (ilog2 remaining) MAX_ORDER in
  off ← u64_sub addr self.(base);
  let page_index := off / PAGE_SIZE in
  let order :=
    if negb (page_index =? 0)
    then Z.min order (trailing_zeros 64 page_index)
    else order in
  block_pages ← u64_shl 1 order;
  self ← push_free self order addr;
  bytes ← u64_mul block_pages PAGE_SIZE;
  addr ← u64_add addr bytes;
  remaining ← u64_sub remaining block_pages;
  Ret (self, addr, remaining).

(** At most one block per order below the top one, and the top-order blocks. *)
Definition seed_fuel (total_pages : Z) : nat :=
  Z.to_nat (total_pages / 2 ^ MAX_ORDER + 21).

Definition seed_free_lists `{Profile} (self : PhysicalAllocator) :
    outcome PhysicalAllocator :=
  st ← while_loop (seed_fuel self.(total_pages)) (λ st, 0 <? st.2) seed_step
         (self, self.(base), self.(total_pages));
  Ret st.1.1.

Definition PhysicalAllocator_new `{Profile} (base total_pages : Z) :
    outcome PhysicalAllocator :=
  seed_free_lists
    (mkPhys base total_pages (replicate (Z.to_nat (MAX_ORDER + 1)) []) ∅).

Definition buddy_of `{Profile} (self : PhysicalAllocator) (addr order : Z) : outcome Z :=
  p ← u64_shl 1 order;
  block_bytes ← u64_mul p PAGE_SIZE;
  offset ← u64_sub addr self.(base);
  u64_add self.(base) (Z.lxor offset block_bytes).

Definition is_empty {A} (l : list A) : bool :=
  match l with
  | [] => true
  | _ => false
  end.

(** [while source_order <= MAX_ORDER && free_lists\[source_order\].is_empty()]. *)
Fixpoint find_source_order (fuel : nat) (self : PhysicalAllocator) (source_order : Z) :
    outcome Z :=
  if source_order <=? MAX_ORDER then
    l ← vec_get self.(free_lists) source_order;
    if is_empty l then
      match fuel with
      | O => Diverge
      | S n => find_source_order n self (source_order + 1)
      end
    else Ret source_order
  else Ret source_order.

(** One turn of the splitting loop. *)
Definition split_step `{Profile} (cur : Z) (self : PhysicalAllocator) :
    outcome (PhysicalAllocator * result unit MemoryError) :=
  popped ← pop_free self cur;
  let (self, top) := (popped : PhysicalAllocator * option Z) in
  let? block := ok_or top OutOfMemory with self in
  half ← u32_sub cur 1;
  p ← u64_shl 1 half;
  block_bytes ← u64_mul p PAGE_SIZE;
  self ← push_free self half block;
  upper ← u64_add block block_bytes;
  self ← push_free self half upper;
  Ret (self, Ok tt).

Definition ensure_free_block `{Profile} (self : PhysicalAllocator) (order : Z) :
    outcome (PhysicalAllocator * result unit MemoryError) :=
  if Z.of_nat (length self.(free_lists)) <=? order then Ret (self, Err InvalidOrder)
  else
    l ← vec_get self.(free_lists) order;
    if negb (is_empty l) then Ret (self, Ok tt)
    else
      source_order ←
        find_source_order (Z.to_nat (MAX_ORDER + 1 - order)) self (order + 1);
      if MAX_ORDER <? source_order then Ret (self, Err OutOfMemory)
      else for_each split_step (reverse (seqZ (order + 1) (source_order - order))) self.

Definition allocate `{Profile} (self : PhysicalAllocator) (order : Z) :
    outcome (PhysicalAllocator * result Z MemoryError) :=
  r ← ensure_free_block self order;
  let (self, r) := (r : PhysicalAllocator * result unit MemoryError) in
  let? _ := r with self in
  popped ← pop_free self order;
  let (self, top) := (popped : PhysicalAllocator * option Z) in
  let? addr := ok_or top OutOfMemory with self in
  Ret (mkPhys self.(base) self.(total_pages) self.(free_lists)
         (<[addr := order]> self.(live_blocks)), Ok addr).

(** The coalescing loop of [deallocate]. *)
Fixpoint coalesce `{Profile} (fuel : nat) (self : PhysicalAllocator) (block order : Z) :
    outcome (PhysicalAllocator * Z * Z) :=
  if order <? MAX_ORDER then
    match fuel with
    | O => Diverge
    | S n =>
        buddy ← buddy_of self block order;
        l ← vec_get self.(free_lists) order;
        match position (λ a, a =? buddy) l with
        | Some pos =>
            fl ← vec_set self.(free_lists) order (delete pos l);
            next ← u32_add order 1;
            coalesce n (set_free self fl) (Z.min block buddy) next
        | None => Ret (self, block, order)
        end
    end
  else Ret (self, block, order).

Definition deallocate `{Profile} (self : PhysicalAllocator) (addr : Z) :
    outcome (PhysicalAllocator * result unit MemoryError) :=
  let? order := ok_or (self.(live_blocks) !! addr) DoubleFree with self in
  let self := mkPhys self.(base) self.(total_pages) self.(free_lists)
                (delete addr self.(live_blocks)) in
  st ← coalesce (Z.to_nat MAX_ORDER) self addr order;
  let '(self, block, order) := (st : PhysicalAllocator * Z * Z) in
  self ← push_free self order block;
  Ret (self, Ok tt).

(** [iter().enumerate().map(len * (1 << order)).sum()], from [order] on. *)
Fixpoint count_from `{Profile} (order acc : Z) (fl : list (list Z)) : outcome Z :=
  match fl with
  | [] => Ret acc
  | l :: fl' =>
      p ← u64_shl 1 order;
      n ← u64_mul (Z.of_nat (length l)) p;
      acc ← u64_add acc n;
      count_from (order + 1) acc fl'
  end.

Definition free_page_count `{Profile} (self : PhysicalAllocator) : outcome Z :=
  count_from 0 0 self.(free_lists).

Inductive phys_op :=
| Allocate (order : Z)
| Deallocate (addr : Z).

Definition phys_step `{Profile} (op : phys_op) (s : PhysicalAllocator) :
    outcome PhysicalAllocator :=
  match op with
  | Allocate o => fst <$> allocate s o
  | Deallocate a => fst <$> deallocate s a
  end.

Fixpoint phys_run `{Profile} (ops : list phys_op) (s : PhysicalAllocator) :
    outcome PhysicalAllocator :=
  match ops with
  | [] => Ret s
  | op :: ops' => s' ← phys_step op s; phys_run ops' s'
  end.

Example seed_27437 :
  (s ← @PhysicalAllocator_new true 0x100000 27437; Ret (length <$> free_lists s))
  = Ret ([1;0;1;1;0;1;0;0;1;1;0;1;0;1;1;0;0;0;0;0;0]%nat).
Proof. vm_compute. reflexivity. Qed.

(** ** Blocks and the pages they cover *)

(** The blocks of the free lists, with their orders; the first list has order [k]. *)
Fixpoint free_from (k : Z) (fl : list (list Z)) : list (Z * Z) :=
  match fl with
  | [] => []
  | l :: fl' => ((λ a, (a, k)) <$> l) ++ free_from (k + 1) fl'
  end.

Definition free_blocks (s : PhysicalAllocator) : list (Z * Z) :=
  free_from 0 s.(free_lists).

Definition blocks (s : PhysicalAllocator) : list (Z * Z) :=
  free_blocks s ++ map_to_list s.(live_blocks).

(** The indices in the arena of the pages of a block. *)
Definition block_pages (base : Z) (b : Z * Z) : list Z :=
  seqZ ((b.1 - base) / PAGE_SIZE) (2 ^ b.2).

Definition block_aligned (base : Z) (b : Z * Z) : Prop :=
  0 <= b.2 <= MAX_ORDER ∧
  ∃ p, 0 <= p ∧ (2 ^ b.2 | p) ∧ b.1 = base + p * PAGE_SIZE.

Definition buddy_addr (base a o : Z) : Z :=
  base + Z.lxor (a - base) (2 ^ o * PAGE_SIZE).

(** No two of the blocks are buddies below the top order. *)
Definition coalesced (base : Z) (bs : list (Z * Z)) : Prop :=
  ∀ a o, o < MAX_ORDER → (a, o) ∈ bs → (buddy_addr base a o, o) ∉ bs.

Record arena_wf (s : PhysicalAllocator) : Prop := {
  wf_base : 0 <= base s;
  wf_total : 0 <= total_pages s;
  wf_fits : base s + total_pages s * PAGE_SIZE < 2 ^ 64;
  wf_len : length (free_lists s) = 21%nat;
}.

(** Aligned blocks that tile the arena: each page is in exactly one of them. *)
Record tiling (base total : Z) (bs : list (Z * Z)) : Prop := {
  tiling_aligned : Forall (block_aligned base) bs;
  tiling_pages : bs ≫= block_pages base ≡ₚ seqZ 0 total;
}.

Record phys_wf (s : PhysicalAllocator) : Prop := {
  wf_arena : arena_wf s;
  wf_tiled : tiling (base s) (total_pages s) (blocks s);
  wf_coalesced : coalesced (base s) (free_blocks s);
}.

(** *** The free lists as one list *)

Lemma elem_of_free_from fl k a o :
  (a, o) ∈ free_from k fl ↔ k <= o ∧ ∃ l, fl !! Z.to_nat (o - k) = Some l ∧ a ∈ l.
Proof.
  revert k. induction fl as [|l fl IH]; intros k; simpl.
  - split; [by intros ?%elem_of_nil|]. intros (_ & l & ? & _). done.
  - rewrite elem_of_app, list_elem_of_fmap, IH. split.
    + intros [(x & [= -> ->] & Hx)|(Hk & l' & Hl & Ha)].
      * split; [lia|]. rewrite Z.sub_diag. eauto.
      * split; [lia|]. exists l'. split; [|done].
        by replace (Z.to_nat (o - k)) with (S (Z.to_nat (o - (k + 1)))) by lia.
    + intros (Hk & l' & Hl & Ha). destruct (Z.eq_dec o k) as [->|Hne].
      * rewrite Z.sub_diag in Hl. injection Hl as ->. left. eauto.
      * right. split; [lia|]. exists l'. split; [|done].
        by replace (Z.to_nat (o - k)) with (S (Z.to_nat (o - (k + 1)))) in Hl by lia.
Qed.

(** Moving one address into (or, read from right to left, out of) a list. *)
Lemma free_from_insert fl k o l l' a :
  k <= o → fl !! Z.to_nat (o - k) = Some l → l ≡ₚ a :: l' →
  free_from k fl ≡ₚ (a, o) :: free_from k (<[Z.to_nat (o - k) := l']> fl).
Proof.
  revert k. induction fl as [|l0 fl IH]; intros k Hk Hl Hp; [done|].
  destruct (Z.eq_dec o k) as [->|Hne].
  - rewrite Z.sub_diag in *. injection Hl as ->. simpl. by rewrite Hp.
  - replace (Z.to_nat (o - k)) with (S (Z.to_nat (o - (k + 1)))) in * by lia.
    simpl in *. rewrite (IH (k + 1)) by (done || lia). by rewrite Permutation_middle.
Qed.

Lemma free_from_orders fl k a o :
  (a, o) ∈ free_from k fl → k <= o < k + Z.of_nat (length fl).
Proof.
  intros (Hk & l & Hl & _)%elem_of_free_from. apply lookup_lt_Some in Hl. lia.
Qed.


(** *** Pages *)

Lemma block_pages_at base p o :
  block_pages base (base + p * PAGE_SIZE, o) = seqZ p (2 ^ o).
Proof.
  unfold block_pages. simpl. f_equal. replace (base + p * PAGE_SIZE - base) with (p * PAGE_SIZE) by ring.
  apply Z.div_mul. done.
Qed.

Lemma block_pages_split base a o :
  0 <= o → block_pages base (a, o + 1) =
  block_pages base (a, o) ++ block_pages base (a + 2 ^ o * PAGE_SIZE, o).
Proof.
  intros Ho. unfold block_pages. simpl. pose proof (pow2_pos o Ho).
  replace (a + 2 ^ o * PAGE_SIZE - base) with (a - base + 2 ^ o * PAGE_SIZE) by ring.
  rewrite Z.div_add by done. rewrite pow2_succ by done.
  replace (2 * 2 ^ o) with (2 ^ o + 2 ^ o) by ring. by rewrite seqZ_app by lia.
Qed.

Lemma buddy_addr_at base p o :
  0 <= o → buddy_addr base (base + p * PAGE_SIZE) o = base + Z.lxor p (2 ^ o) * PAGE_SIZE.
Proof.
  intros Ho. unfold buddy_addr. f_equal.
  replace (base + p * PAGE_SIZE - base) with (p * PAGE_SIZE) by ring.
  change PAGE_SIZE with (2 ^ 12). rewrite <- !Z.shiftl_mul_pow2 by lia.
  by rewrite Z.shiftl_lxor.
Qed.

Lemma buddy_addr_involutive base a o : buddy_addr base (buddy_addr base a o) o = a.
Proof.
  unfold buddy_addr. rewrite Z.add_simpl_l, Z.lxor_assoc, Z.lxor_nilpotent, Z.lxor_0_r. ring.
Qed.

Lemma buddy_addr_ne base a o : 0 <= o → buddy_addr base a o ≠ a.
Proof.
  intros Ho Heq. unfold buddy_addr in Heq.
  assert (Z.lxor (a - base) (2 ^ o * PAGE_SIZE) = a - base) as Hx by lia.
  assert (2 ^ o * PAGE_SIZE = 0); [|pose proof (pow2_pos o Ho); unfold PAGE_SIZE in *; lia].
  rewrite <- (Z.lxor_0_l (2 ^ o * PAGE_SIZE)), <- (Z.lxor_nilpotent (a - base)).
  by rewrite Z.lxor_assoc, Hx.
Qed.

(** Multiples of [A] that are less than [A] apart from below are ordered. *)
Lemma multiples_le A u v : 0 < A → (A | u) → (A | v) → u < v + A → u <= v.
Proof. intros HA [i ->] [j ->] Hlt. assert (i < j + 1) by nia. nia. Qed.

(** Aligned power-of-two ranges that share a page are nested. *)
Lemma aligned_nested p o p' o' x :
  0 <= o <= o' → (2 ^ o | p) → (2 ^ o' | p') →
  x ∈ seqZ p (2 ^ o) → x ∈ seqZ p' (2 ^ o') →
  p' <= p ∧ p + 2 ^ o <= p' + 2 ^ o'.
Proof.
  intros Ho Hp Hp' [Hx1 Hx2]%elem_of_seqZ [Hx3 Hx4]%elem_of_seqZ.
  pose proof (pow2_pos o ltac:(lia)) as Hpos.
  assert ((2 ^ o | 2 ^ o')) as Hd by (by apply pow2_divide).
  assert ((2 ^ o | p')) as Hdp by (by etransitivity).
  split.
  - apply (multiples_le (2 ^ o)); [done..|lia].
  - enough (p <= p' + 2 ^ o' - 2 ^ o) by lia.
    apply (multiples_le (2 ^ o)); [done|done| |lia].
    apply Z.divide_sub_r; [by apply Z.divide_add_r|done].
Qed.

(** *** Consequences of the tiling *)

Lemma NoDup_bind_inj {A B} (f : A → list B) l :
  NoDup (l ≫= f) → (∀ a, a ∈ l → f a ≠ []) →
  NoDup l ∧ ∀ a b x, a ∈ l → b ∈ l → x ∈ f a → x ∈ f b → a = b.
Proof.
  induction l as [|a l IH]; simpl; intros Hnd Hne.
  { split; [constructor|]. by intros a b x ?%elem_of_nil. }
  apply NoDup_app in Hnd as (Ha & Hdis & Hl).
  destruct IH as [Hnd Huniq]; [done|set_solver|].
  assert (∀ b x, b ∈ l → x ∈ f a → x ∉ f b) as Hout.
  { intros b x Hb Hx Hx'. apply (Hdis x Hx). apply list_elem_of_bind. eauto. }
  split.
  - constructor; [|done]. intros Hin. destruct (f a) as [|x fa] eqn:E.
    + by apply (Hne a); [set_solver|].
    + apply (Hout a x Hin); rewrite ?E; set_solver.
  - intros b c x [->|Hb]%elem_of_cons [->|Hc]%elem_of_cons Hx Hx'; [done| | |eauto].
    + by destruct (Hout c x Hc Hx).
    + by destruct (Hout b x Hb Hx').
Qed.

Section tiling.
Context (base total : Z) (bs : list (Z * Z)) (Ht : tiling base total bs).

Lemma block_at a o :
  (a, o) ∈ bs → 0 <= o <= MAX_ORDER ∧
  ∃ p, a = base + p * PAGE_SIZE ∧ 0 <= p ∧ (2 ^ o | p) ∧ p + 2 ^ o <= total ∧
       block_pages base (a, o) = seqZ p (2 ^ o).
Proof.
  intros Hin. pose proof (tiling_aligned _ _ _ Ht) as Ha. rewrite Forall_forall in Ha.
  destruct (Ha _ Hin) as [Ho (p & Hp & Hd & Heq)]; simpl in *. subst a.
  split; [done|]. exists p. rewrite block_pages_at. split_and!; [done..| |done].
  pose proof (pow2_pos o ltac:(lia)).
  enough (p + 2 ^ o - 1 ∈ seqZ 0 total) as Hx by (apply elem_of_seqZ in Hx; lia).
  rewrite <- (tiling_pages _ _ _ Ht). apply list_elem_of_bind.
  exists (base + p * PAGE_SIZE, o).
  rewrite block_pages_at. split; [apply elem_of_seqZ; lia|done].
Qed.

Lemma block_pages_ne b : b ∈ bs → block_pages base b ≠ [].
Proof.
  destruct b as [a o]. intros (Ho & p & _ & _ & _ & _ & ->)%block_at Hnil.
  pose proof (pow2_pos o ltac:(lia)).
  assert (p ∈ seqZ p (2 ^ o)) as Hx by (apply elem_of_seqZ; lia).
  rewrite Hnil in Hx. by apply elem_of_nil in Hx.
Qed.

Lemma tiles_NoDup : NoDup (bs ≫= block_pages base).
Proof. rewrite (tiling_pages _ _ _ Ht). apply NoDup_seqZ. Qed.

Lemma blocks_NoDup : NoDup bs.
Proof. apply (NoDup_bind_inj _ _ tiles_NoDup), block_pages_ne. Qed.

Lemma blocks_disjoint b b' x :
  b ∈ bs → b' ∈ bs → x ∈ block_pages base b → x ∈ block_pages base b' → b = b'.
Proof.
  intros Hb Hb' Hx Hx'. destruct (NoDup_bind_inj _ _ tiles_NoDup block_pages_ne) as [_ Hu].
  exact (Hu b b' x Hb Hb' Hx Hx').
Qed.

Lemma tiles_cover x : 0 <= x < total → ∃ b, b ∈ bs ∧ x ∈ block_pages base b.
Proof.
  intros Hx. assert (x ∈ seqZ 0 total) as Hin by (apply elem_of_seqZ; lia).
  rewrite <- (tiling_pages _ _ _ Ht) in Hin.
  apply list_elem_of_bind in Hin as (b & ? & ?). eauto.
Qed.

(** Two blocks that start at the same address are the same block. *)
Lemma block_addr_inj a o o' : (a, o) ∈ bs → (a, o') ∈ bs → o = o'.
Proof.
  intros H1 H2. destruct (block_at _ _ H1) as (Ho & p & Hp & _ & _ & _ & Hpg).
  destruct (block_at _ _ H2) as (Ho' & p' & Hp' & _ & _ & _ & Hpg').
  assert (p' = p) as -> by (unfold PAGE_SIZE in *; lia).
  pose proof (pow2_pos o ltac:(lia)). pose proof (pow2_pos o' ltac:(lia)).
  assert ((a, o) = (a, o')) as [=]; [|done].
  apply (blocks_disjoint _ _ p); [done..| |].
  - rewrite Hpg. apply elem_of_seqZ. lia.
  - rewrite Hpg'. apply elem_of_seqZ. lia.
Qed.
End tiling.

Lemma tiling_Permutation base total bs bs' :
  bs ≡ₚ bs' → tiling base total bs → tiling base total bs'.
Proof. intros Hp [Ha Ht]. by split; rewrite <- Hp. Qed.

#[export] Instance tiling_Proper base total :
  Proper ((≡ₚ) ==> iff) (tiling base total).
Proof. intros bs bs' Hp. split; by apply tiling_Permutation. Qed.

Lemma elem_of_blocks_free s b : b ∈ free_blocks s → b ∈ blocks s.
Proof. unfold blocks. rewrite elem_of_app. by left. Qed.

Lemma elem_of_blocks_live s a o : live_blocks s !! a = Some o → (a, o) ∈ blocks s.
Proof. unfold blocks. rewrite elem_of_app, elem_of_map_to_list. by right. Qed.

(** A block is free or live, never both. *)
Lemma free_not_live s base total a o :
  tiling base total (blocks s) → (a, o) ∈ free_blocks s → live_blocks s !! a = None.
Proof.
  intros Ht Hf. apply eq_None_not_Some. intros [o' Hl].
  assert (o' = o) as ->.
  { apply (block_addr_inj _ _ _ Ht a); [by apply elem_of_blocks_live|by apply elem_of_blocks_free]. }
  pose proof (blocks_NoDup _ _ _ Ht) as Hnd. unfold blocks in Hnd.
  apply NoDup_app in Hnd as (_ & Hd & _). apply (Hd _ Hf). by apply elem_of_map_to_list.
Qed.

Lemma block_aligned_halves base a o :
  0 <= o → o + 1 <= MAX_ORDER →
  block_aligned base (a, o + 1) →
  block_aligned base (a, o) ∧ block_aligned base (a + 2 ^ o * PAGE_SIZE, o).
Proof.
  intros Ho Ho' [_ (p & Hp & Hd & Ha)]. simpl in *. pose proof (pow2_pos o Ho).
  assert ((2 ^ o | p)) as Hd' by (etransitivity; [apply (pow2_divide o (o + 1)); lia|done]).
  split; (split; [simpl; lia|]); simpl.
  - by exists p.
  - exists (p + 2 ^ o). split_and!; [lia| |unfold PAGE_SIZE in *; lia].
    by apply Z.divide_add_r.
Qed.

(** Splitting a block into its halves keeps the tiling. *)
Lemma tiling_split base total a o bs :
  0 <= o → o + 1 <= MAX_ORDER →
  tiling base total ((a, o + 1) :: bs) →
  tiling base total ((a, o) :: (a + 2 ^ o * PAGE_SIZE, o) :: bs).
Proof.
  intros Ho Ho' [[Ha Hbs]%Forall_cons Hp].
  apply block_aligned_halves in Ha as [Ha1 Ha2]; [|lia..]. split.
  - by apply Forall_cons_2; [|apply Forall_cons_2].
  - rewrite <- Hp. simpl. by rewrite block_pages_split, <- app_assoc by done.
Qed.

(** Merging a block with its buddy keeps the tiling. *)
Lemma tiling_merge base total a o bs :
  0 <= o < MAX_ORDER →
  tiling base total ((a, o) :: (buddy_addr base a o, o) :: bs) →
  tiling base total ((Z.min a (buddy_addr base a o), o + 1) :: bs).
Proof.
  intros Ho Ht. destruct (block_at _ _ _ Ht a o) as (_ & p & -> & Hp & Hd & _ & _); [set_solver|].
  pose proof (pow2_pos o ltac:(lia)) as Hpos. destruct Ht as [[_ Hbs]%Forall_cons Hpg].
  apply Forall_cons in Hbs as [_ Hbs]. rewrite buddy_addr_at in * by lia.
  destruct (lxor_pow2 p o Hp ltac:(lia) Hd) as [[Hd' Hx]|(Hd' & Hnn & Hx)]; rewrite Hx in *.
  - rewrite Z.min_l by (unfold PAGE_SIZE; lia). split.
    + apply Forall_cons_2; [|done]. split; [simpl; lia|]. by exists p.
    + rewrite <- Hpg. simpl. rewrite block_pages_split, <- app_assoc by lia.
      by replace (base + p * PAGE_SIZE + 2 ^ o * PAGE_SIZE)
        with (base + (p + 2 ^ o) * PAGE_SIZE) by ring.
  - rewrite Z.min_r by (unfold PAGE_SIZE; lia). split.
    + apply Forall_cons_2; [|done]. split; [simpl; lia|]. by exists (p - 2 ^ o).
    + rewrite <- Hpg. simpl. rewrite block_pages_split, <- app_assoc by lia.
      replace (base + (p - 2 ^ o) * PAGE_SIZE + 2 ^ o * PAGE_SIZE)
        with (base + p * PAGE_SIZE) by ring.
      rewrite !app_assoc. apply Permutation_app_tail, Permutation_app_comm.
Qed.

(** *** Coalesced lists of blocks *)

#[export] Instance coalesced_Proper base : Proper ((≡ₚ) ==> iff) (coalesced base).
Proof. intros bs bs' Hp. unfold coalesced. by setoid_rewrite Hp. Qed.

Lemma coalesced_tail base b bs : coalesced base (b :: bs) → coalesced base bs.
Proof. intros Hc a o Ho Hin Hb. apply (Hc a o Ho); set_solver. Qed.

Lemma coalesced_cons base a o bs :
  0 <= o → coalesced base bs → (o < MAX_ORDER → (buddy_addr base a o, o) ∉ bs) →
  coalesced base ((a, o) :: bs).
Proof.
  intros Ho Hc Hb a' o' Ho' [[= -> ->]|Ha]%elem_of_cons [Heq|Hin]%elem_of_cons.
  - injection Heq as Heq. by apply buddy_addr_ne in Heq.
  - by apply Hb.
  - injection Heq as Heq ->. apply Hb; [done|]. by rewrite <- Heq, buddy_addr_involutive.
  - by apply (Hc a' o').
Qed.

(** *** The operations on one free list *)

Definition order_list (s : PhysicalAllocator) (o : Z) : option (list Z) :=
  free_lists s !! Z.to_nat o.

(** The state with one list replaced. *)
Definition with_list (s : PhysicalAllocator) (o : Z) (l : list Z) : PhysicalAllocator :=
  set_free s (<[Z.to_nat o := l]> (free_lists s)).

Lemma order_list_lt s o l :
  0 <= o → order_list s o = Some l → o < Z.of_nat (length (free_lists s)).
Proof. unfold order_list. intros Ho Hl%lookup_lt_Some. lia. Qed.

Lemma order_list_some s o :
  arena_wf s → 0 <= o <= MAX_ORDER → ∃ l, order_list s o = Some l.
Proof.
  unfold MAX_ORDER. intros Hs Ho. apply lookup_lt_is_Some_2. rewrite (wf_len _ Hs). lia.
Qed.

Lemma order_list_with s o l o' :
  0 <= o → 0 <= o' → o < Z.of_nat (length (free_lists s)) →
  order_list (with_list s o l) o' = if decide (o' = o) then Some l else order_list s o'.
Proof.
  intros Ho Ho' Hlt. unfold order_list, with_list. simpl.
  case_decide as Hd; [subst; apply list_lookup_insert_eq; lia|].
  apply list_lookup_insert_ne. lia.
Qed.

Lemma with_list_with s o l l' : with_list (with_list s o l) o l' = with_list s o l'.
Proof. unfold with_list, set_free. simpl. by rewrite list_insert_insert_eq. Qed.

Lemma with_list_id s o l : order_list s o = Some l → with_list s o l = s.
Proof.
  unfold order_list, with_list, set_free. intros Hl. rewrite list_insert_id by done.
  by destruct s.
Qed.

Lemma arena_wf_with s o l : arena_wf s → arena_wf (with_list s o l).
Proof. intros []. split; simpl; try done. by rewrite length_insert. Qed.

Lemma free_blocks_with s o l l' a :
  0 <= o → order_list s o = Some l → l ≡ₚ a :: l' →
  free_blocks s ≡ₚ (a, o) :: free_blocks (with_list s o l').
Proof.
  intros Ho Hl Hp. unfold free_blocks, with_list, order_list in *. simpl.
  replace (Z.to_nat o) with (Z.to_nat (o - 0)) in * by (f_equal; lia).
  by apply free_from_insert with l.
Qed.

Lemma blocks_with s o l l' a :
  0 <= o → order_list s o = Some l → l ≡ₚ a :: l' →
  blocks s ≡ₚ (a, o) :: blocks (with_list s o l').
Proof. intros Ho Hl Hp. unfold blocks. by rewrite (free_blocks_with s o l l' a Ho Hl Hp). Qed.

(** Adding an address to a list. *)
Lemma free_blocks_push s o l a :
  0 <= o → order_list s o = Some l →
  free_blocks (with_list s o (l ++ [a])) ≡ₚ (a, o) :: free_blocks s.
Proof.
  intros Ho Hl. pose proof (order_list_lt _ _ _ Ho Hl) as Hlt.
  rewrite (free_blocks_with (with_list s o (l ++ [a])) o (l ++ [a]) l a Ho).
  - by rewrite with_list_with, with_list_id.
  - rewrite order_list_with by done. by rewrite decide_True.
  - by rewrite Permutation_app_comm.
Qed.

Lemma blocks_push s o l a :
  0 <= o → order_list s o = Some l →
  blocks (with_list s o (l ++ [a])) ≡ₚ (a, o) :: blocks s.
Proof. intros Ho Hl. unfold blocks. by rewrite (free_blocks_push s o l a Ho Hl). Qed.

Lemma elem_of_free_blocks s a o :
  (a, o) ∈ free_blocks s ↔ 0 <= o ∧ ∃ l, order_list s o = Some l ∧ a ∈ l.
Proof.
  unfold free_blocks, order_list. rewrite elem_of_free_from. by rewrite Z.sub_0_r.
Qed.

Lemma vec_get_list s o l :
  0 <= o → order_list s o = Some l → vec_get (free_lists s) o = Ret l.
Proof. intros. by apply vec_get_ret. Qed.

Lemma push_free_ret s o l a :
  0 <= o → order_list s o = Some l → push_free s o a = Ret (with_list s o (l ++ [a])).
Proof.
  intros Ho Hl. unfold push_free. rewrite (vec_get_list _ _ _ Ho Hl). simpl.
  by rewrite vec_set_ret by (split; [done|by apply order_list_lt with l]).
Qed.

Lemma pop_free_ret s o r a :
  0 <= o → order_list s o = Some (r ++ [a]) →
  pop_free s o = Ret (with_list s o r, Some a).
Proof.
  intros Ho Hl. unfold pop_free. rewrite (vec_get_list _ _ _ Ho Hl). simpl.
  rewrite vec_pop_app. by rewrite vec_set_ret by (split; [done|by eapply order_list_lt]).
Qed.

(** ** [ensure_free_block] and [allocate] *)

(** What [ensure_free_block] establishes: the last block of the order's list can
    be taken, and doing so leaves a coalesced set of free blocks. *)
Record ready (s : PhysicalAllocator) (order : Z) : Prop := {
  ready_arena : arena_wf s;
  ready_tiling : tiling (base s) (total_pages s) (blocks s);
  ready_top : ∃ r a, order_list s order = Some (r ++ [a]) ∧
                     coalesced (base s) (free_blocks (with_list s order r));
}.

Definition same_arena (s s' : PhysicalAllocator) : Prop :=
  base s' = base s ∧ total_pages s' = total_pages s ∧ live_blocks s' = live_blocks s.

Lemma same_arena_trans s1 s2 s3 :
  same_arena s1 s2 → same_arena s2 s3 → same_arena s1 s3.
Proof. unfold same_arena. intuition congruence. Qed.

Section ops.
Context `{Profile}.

Lemma shl_order o : 0 <= o <= MAX_ORDER → u64_shl 1 o = Ret (2 ^ o).
Proof.
  unfold MAX_ORDER. intros Ho. rewrite u64_shl_ret; [by rewrite Z.mul_1_l|lia..|].
  rewrite Z.mul_1_l. apply Z.pow_lt_mono_r; lia.
Qed.

Lemma order_pow_bound o : 0 <= o <= MAX_ORDER → 1 <= 2 ^ o <= 2 ^ 20.
Proof.
  unfold MAX_ORDER. intros Ho. pose proof (pow2_pos o ltac:(lia)).
  split; [lia|]. apply Z.pow_le_mono_r; lia.
Qed.

Lemma block_bytes_ret o : 0 <= o <= MAX_ORDER →
  u64_mul (2 ^ o) PAGE_SIZE = Ret (2 ^ o * PAGE_SIZE).
Proof.
  intros Ho. pose proof (order_pow_bound o Ho). apply u64_mul_ret. unfold PAGE_SIZE. lia.
Qed.

(** One split: the top block of [cur] is replaced by its halves, at [cur - 1]. *)
Lemma split_step_ret s cur :
  1 <= cur <= MAX_ORDER → ready s cur → order_list s (cur - 1) = Some [] →
  ∃ s', split_step cur s = Ret (s', Ok tt) ∧ same_arena s s' ∧ ready s' (cur - 1) ∧
    (∀ o, 0 <= o < cur - 1 → order_list s' o = order_list s o).
Proof.
  intros Hcur [Hs Ht (r & a & Hl & Hco)] Hempty.
  assert ((a, cur) ∈ blocks s) as Hin.
  { rewrite (blocks_with s cur (r ++ [a]) r a); [set_solver|lia|done|].
    by rewrite Permutation_app_comm. }
  destruct (block_at _ _ _ Ht a cur Hin) as (_ & p & Ha & Hp & _ & Hp' & _).
  pose proof (order_pow_bound (cur - 1) ltac:(unfold MAX_ORDER in *; lia)).
  assert (2 ^ cur = 2 * 2 ^ (cur - 1)) as Hpow
    by (rewrite <- pow2_succ by lia; f_equal; lia).
  pose proof (order_list_lt s cur _ ltac:(lia) Hl) as Hlt.
  unfold split_step. rewrite (pop_free_ret s cur r a) by (done || lia). simpl.
  rewrite u32_sub_ret by (unfold MAX_ORDER in *; lia). simpl.
  rewrite shl_order by lia. simpl. rewrite block_bytes_ret by lia. simpl.
  set (s1 := with_list s cur r).
  assert (order_list s1 (cur - 1) = Some []) as H1.
  { unfold s1. rewrite order_list_with by lia. by rewrite decide_False by lia. }
  rewrite (push_free_ret s1 _ []) by (done || lia). simpl.
  pose proof (order_list_lt s1 (cur - 1) _ ltac:(lia) H1) as Hlt1.
  assert (order_list (with_list s1 (cur - 1) [a]) (cur - 1) = Some [a]) as H2.
  { rewrite order_list_with by lia. by rewrite decide_True. }
  rewrite u64_add_ret.
  2:{ pose proof (wf_fits _ Hs). pose proof (wf_base _ Hs). unfold PAGE_SIZE in *. lia. }
  simpl. rewrite (push_free_ret _ _ [a]) by (done || lia). simpl.
  eexists. split; [reflexivity|]. rewrite with_list_with. split_and!.
  - done.
  - split.
    + by repeat apply arena_wf_with.
    + change (base (with_list s1 _ _)) with (base s).
      change (total_pages (with_list s1 _ _)) with (total_pages s).
      rewrite <- (with_list_with s1 _ [a]).
      rewrite (blocks_push (with_list s1 (cur - 1) [a]) (cur - 1) [a]
                 (a + 2 ^ (cur - 1) * PAGE_SIZE)) by (done || lia).
      rewrite (blocks_push s1 (cur - 1) [] a) by (done || lia).
      rewrite perm_swap. apply tiling_split; [lia..|].
      rewrite Z.sub_add. unfold s1. rewrite <- (blocks_with s cur (r ++ [a])); [done|lia|done|].
      by rewrite Permutation_app_comm.
    + exists [a], (a + 2 ^ (cur - 1) * PAGE_SIZE). split.
      * rewrite order_list_with by lia. by rewrite decide_True.
      * change (base (with_list s1 _ _)) with (base s). rewrite with_list_with.
        rewrite (free_blocks_push s1 (cur - 1) [] a) by (done || lia).
        apply coalesced_cons; [lia|done|]. intros _ Hb.
        apply elem_of_free_blocks in Hb as (_ & l & Hl' & Hin').
        rewrite H1 in Hl'. injection Hl' as <-. by apply elem_of_nil in Hin'.
  - intros o Ho. rewrite order_list_with by lia. rewrite decide_False by lia.
    unfold s1. rewrite order_list_with by lia. by rewrite decide_False by lia.
Qed.

(** The splitting loop, from [order + n] down to [order]. *)
Lemma split_loop_ret n s order :
  0 <= order → order + Z.of_nat n <= MAX_ORDER → ready s (order + Z.of_nat n) →
  (∀ o, order <= o < order + Z.of_nat n → order_list s o = Some []) →
  ∃ s', for_each split_step (reverse (seqZ (order + 1) (Z.of_nat n))) s = Ret (s', Ok tt) ∧
        same_arena s s' ∧ ready s' order.
Proof.
  revert s. induction n as [|n IH]; intros s Ho Hmax Hr Hempty.
  - exists s. rewrite Z.add_0_r in Hr. done.
  - rewrite seqZ_S, reverse_app, reverse_singleton. simpl.
    replace (order + 1 + Z.of_nat n) with (order + Z.of_nat (S n)) by lia.
    destruct (split_step_ret s (order + Z.of_nat (S n))) as (s' & -> & Hsame & Hr' & Hlow);
      [lia|done|apply Hempty; lia|]. simpl.
    replace (order + Z.of_nat (S n) - 1) with (order + Z.of_nat n) in * by lia.
    destruct (IH s') as (s'' & -> & Hsame' & Hr''); [done|lia|done| |].
    + intros o Ho'. rewrite Hlow by lia. apply Hempty. lia.
    + exists s''. split_and!; [done|by eapply same_arena_trans|done].
Qed.

Lemma find_source_order_ret fuel s k :
  arena_wf s → 0 <= k <= MAX_ORDER + 1 → (Z.to_nat (MAX_ORDER + 1 - k) <= fuel)%nat →
  ∃ k', find_source_order fuel s k = Ret k' ∧ k <= k' <= MAX_ORDER + 1 ∧
        (∀ o, k <= o < k' → order_list s o = Some []) ∧
        (k' <= MAX_ORDER → ∃ l, order_list s k' = Some l ∧ l ≠ []).
Proof.
  intros Hs. revert k. induction fuel as [|n IH]; intros k Hk Hf; simpl;
    (destruct (k <=? MAX_ORDER) eqn:E; reflect_bools;
     [|exists k; split_and!; [done|lia..]]); [lia|].
  destruct (order_list_some s k Hs ltac:(lia)) as [l Hl].
  rewrite (vec_get_list s k l) by (done || lia). simpl. destruct l as [|a l]; simpl.
  - destruct (IH (k + 1)) as (k' & -> & Hk' & Hbelow & Hat); [lia..|].
    exists k'. split_and!; [done|lia|lia| |done].
    intros o Ho. destruct (Z.eq_dec o k) as [->|]; [done|]. apply Hbelow. lia.
  - exists k. split_and!; [done|lia|lia|lia|eauto].
Qed.

Lemma ready_of_wf s o l :
  phys_wf s → 0 <= o → order_list s o = Some l → l ≠ [] → ready s o.
Proof.
  intros [Hs Ht Hc] Ho Hl Hne. split; [done..|].
  destruct l as [|a r _] using rev_ind; [done|]. exists r, a. split; [done|].
  apply coalesced_tail with (a, o).
  rewrite <- (free_blocks_with s o (r ++ [a])); [done..|by rewrite Permutation_app_comm].
Qed.

(** Either the order can be served, or no free block is large enough. *)
Lemma ensure_free_block_ret s order :
  phys_wf s → 0 <= order <= MAX_ORDER →
  (∃ s', ensure_free_block s order = Ret (s', Ok tt) ∧ same_arena s s' ∧ ready s' order) ∨
  (ensure_free_block s order = Ret (s, Err OutOfMemory) ∧
   ∀ a o, order <= o → (a, o) ∉ free_blocks s).
Proof.
  intros Hwf Ho. pose proof (wf_arena _ Hwf) as Hs.
  unfold ensure_free_block. rewrite (proj2 (Z.leb_gt _ _))
    by (rewrite (wf_len _ Hs); unfold MAX_ORDER in *; lia).
  destruct (order_list_some s order Hs Ho) as [l Hl].
  rewrite (vec_get_list s order l) by (done || lia). simpl.
  destruct l as [|a l0]; simpl.
  2:{ left. exists s. split_and!; [done..|]. apply ready_of_wf with (a :: l0); [done|lia|done..]. }
  destruct (find_source_order_ret (Z.to_nat (MAX_ORDER + 1 - order)) s (order + 1))
    as (k & -> & Hk & Hbelow & Hat); [done|lia|lia|]. simpl.
  assert (∀ o, order <= o < k → order_list s o = Some []) as Hempty.
  { intros o Ho'. destruct (Z.eq_dec o order) as [->|]; [done|]. apply Hbelow. lia. }
  destruct (MAX_ORDER <? k) eqn:E; reflect_bools.
  - right. split; [done|]. intros a o Ho' Hin.
    pose proof Hin as Hrange. apply free_from_orders in Hrange.
    rewrite (wf_len _ Hs) in Hrange. unfold MAX_ORDER in *.
    apply elem_of_free_blocks in Hin as (_ & l' & Hl' & Hin).
    rewrite Hempty in Hl' by lia. injection Hl' as <-. by apply elem_of_nil in Hin.
  - left. destruct (Hat E) as (l' & Hl' & Hne).
    replace (k - order) with (Z.of_nat (Z.to_nat (k - order))) by lia.
    apply split_loop_ret; [lia|lia| |].
    + replace (order + Z.of_nat (Z.to_nat (k - order))) with k by lia.
      apply ready_of_wf with l'; [done|lia|done..].
    + intros o Ho'. apply Hempty. lia.
Qed.

(** Taking the block that [ensure_free_block] made available. *)
Lemma allocate_take s r a order :
  ready s order → 0 <= order → order_list s order = Some (r ++ [a]) →
  let s' := mkPhys (base s) (total_pages s) (free_lists (with_list s order r))
              (<[a := order]> (live_blocks s)) in
  live_blocks s !! a = None ∧ (a, order) ∈ blocks s ∧ phys_wf s'.
Proof.
  intros [Hs Ht (r' & a' & Hl' & Hc)] Ho Hl. simpl.
  rewrite Hl in Hl'. injection Hl' as Happ. apply app_inj_tail in Happ as [<- <-].
  assert (free_blocks s ≡ₚ (a, order) :: free_blocks (with_list s order r)) as Hf
    by (apply (free_blocks_with s order (r ++ [a])); [done..|by rewrite Permutation_app_comm]).
  assert ((a, order) ∈ free_blocks s) as Hin by (rewrite Hf; set_solver).
  pose proof (free_not_live s _ _ a order Ht Hin) as Hnone.
  split_and!; [done|by apply elem_of_blocks_free|]. split; simpl.
  - pose proof (arena_wf_with s order r Hs) as []. by split.
  - unfold blocks in *. simpl. rewrite map_to_list_insert by done.
    rewrite <- Permutation_middle. change (free_blocks _) with (free_blocks (with_list s order r)).
    by rewrite Hf in Ht.
  - done.
Qed.
End ops.

(** ** Completeness of the free lists *)

(** In a coalesced set of free blocks, an aligned range of free pages lies inside
    one free block: the free memory is never fragmented below what the live
    blocks impose. *)
Lemma free_range_in_block base total bs fb k p :
  tiling base total bs → (∀ b, b ∈ fb → b ∈ bs) → coalesced base fb →
  0 <= k <= MAX_ORDER → 0 <= p → (2 ^ k | p) →
  (∀ x, p <= x < p + 2 ^ k → ∃ b, b ∈ fb ∧ x ∈ block_pages base b) →
  ∃ a o, (a, o) ∈ fb ∧ k <= o ∧ p ∈ block_pages base (a, o).
Proof.
  intros Ht Hsub Hc Hk. destruct Hk as [Hk Hkmax]. revert p Hkmax.
  pattern k. revert k Hk. apply natlike_ind.
  - intros p _ Hp _ Hfree. destruct (Hfree p ltac:(lia)) as ([a o] & Hin & Hx).
    exists a, o. split_and!; [done| |done]. by destruct (block_at _ _ _ Ht a o (Hsub _ Hin)) as [[? _] _].
  - intros k Hk IH p Hkmax Hp Hd Hfree.
    rewrite Z.pow_succ_r in Hd, Hfree by lia. pose proof (pow2_pos k Hk) as Hpos.
    assert ((2 ^ k | p)) as Hdk by (etransitivity; [|done]; exists 2; ring).
    destruct (IH p) as (a & o & Hin & Ho & Hx); [lia|done|done|intros; apply Hfree; lia|].
    destruct (Z.eq_dec o k) as [->|Hne]; [|exists a, o; split_and!; [done|lia|done]].
    destruct (IH (p + 2 ^ k)) as (a' & o' & Hin' & Ho' & Hx');
      [lia|lia|by apply Z.divide_add_r|intros; apply Hfree; lia|].
    destruct (block_at _ _ _ Ht a k (Hsub _ Hin)) as (_ & q & -> & Hq & Hqd & _ & Hpg).
    destruct (block_at _ _ _ Ht a' o' (Hsub _ Hin')) as (Hor & q' & -> & Hq' & Hqd' & _ & Hpg').
    rewrite Hpg in Hx. apply elem_of_seqZ in Hx.
    assert (q = p) as ->.
    { apply Z.le_antisymm; [lia|]. apply (multiples_le (2 ^ k)); [done..|lia]. }
    rewrite Hpg' in Hx'. destruct (Z.eq_dec o' k) as [->|Hne'].
    + exfalso. apply elem_of_seqZ in Hx'.
      assert (q' = p + 2 ^ k) as ->.
      { apply Z.le_antisymm; [lia|].
        apply (multiples_le (2 ^ k)); [done|by apply Z.divide_add_r|done|lia]. }
      apply (Hc (base + p * PAGE_SIZE) k); [lia|done|]. rewrite buddy_addr_at by done.
      destruct (lxor_pow2 p k Hp Hk Hdk) as [[_ Hx2]|(Hd2 & _ & _)]; [by rewrite Hx2|].
      rewrite pow2_succ in Hd2 by done. exfalso.
      assert ((2 * 2 ^ k | 2 ^ k)) as Hbad.
      { replace (2 ^ k) with (p - (p - 2 ^ k)) at 2 by ring. by apply Z.divide_sub_r. }
      apply Z.divide_pos_le in Hbad; lia.
    + exists (base + q' * PAGE_SIZE), o'. split_and!; [done|lia|]. rewrite Hpg'.
      assert ((2 ^ Z.succ k | q')) as Hqs
        by (etransitivity; [apply (pow2_divide (Z.succ k) o'); lia|done]).
      rewrite Z.pow_succ_r in Hqs by done. apply elem_of_seqZ in Hx'. apply elem_of_seqZ.
      split; [|lia]. apply (multiples_le (2 * 2 ^ k)); [lia|done|done|lia].
Qed.

(** Two coalesced tilings of the same arena are the same blocks. *)
Lemma coalesced_tilings_same base total bs bs' b :
  tiling base total bs → tiling base total bs' →
  coalesced base bs → coalesced base bs' → b ∈ bs → b ∈ bs'.
Proof.
  intros Ht Ht' Hc Hc' Hin. destruct b as [a o].
  assert (∀ cs cs' a o, tiling base total cs → tiling base total cs' → coalesced base cs' →
            (a, o) ∈ cs → ∃ a' o', (a', o') ∈ cs' ∧ o <= o' ∧
            ∀ x, x ∈ block_pages base (a, o) → x ∈ block_pages base (a', o')) as Hstep.
  { clear. intros cs cs' a o Ht Ht' Hc' Hin.
    destruct (block_at _ _ _ Ht a o Hin) as (Ho & p & -> & Hp & Hd & Hfit & Hpg).
    pose proof (pow2_pos o ltac:(lia)).
    destruct (free_range_in_block base total cs' cs' o p) as (a' & o' & Hin' & Ho' & Hx);
      [done..| |].
    { intros x Hx. apply (tiles_cover _ _ _ Ht'). lia. }
    exists a', o'. split_and!; [done..|]. intros x Hx2. rewrite Hpg in Hx2.
    destruct (block_at _ _ _ Ht' a' o' Hin') as (_ & p' & _ & _ & Hd' & _ & Hpg').
    rewrite Hpg' in *.
    destruct (aligned_nested p o p' o' p) as [H1 H2]; [lia|done..|apply elem_of_seqZ; lia|done|].
    apply elem_of_seqZ in Hx2. apply elem_of_seqZ. lia. }
  destruct (Hstep bs bs' a o Ht Ht' Hc' Hin) as (a1 & o1 & Hin1 & Ho1 & Hsub1).
  destruct (Hstep bs' bs a1 o1 Ht' Ht Hc Hin1) as (a2 & o2 & Hin2 & Ho2 & Hsub2).
  destruct (block_at _ _ _ Ht a o Hin) as (Ho & p & Ha & _ & _ & _ & Hpg).
  destruct (block_at _ _ _ Ht' a1 o1 Hin1) as (_ & p1 & Ha1 & _ & _ & _ & Hpg1).
  pose proof (pow2_pos o ltac:(lia)). pose proof (pow2_pos o1 ltac:(lia)).
  assert (p ∈ block_pages base (a, o)) as Hp by (rewrite Hpg; apply elem_of_seqZ; lia).
  assert ((a, o) = (a2, o2)) as [= <- <-]
    by (apply (blocks_disjoint _ _ _ Ht _ _ p); auto).
  assert (o1 = o) as -> by lia.
  assert (p1 ∈ block_pages base (a, o)) as Hp1 by (apply Hsub2; rewrite Hpg1; apply elem_of_seqZ; lia).
  specialize (Hsub1 _ Hp). rewrite Hpg1 in Hsub1. rewrite Hpg in Hp1.
  apply elem_of_seqZ in Hsub1, Hp1. assert (p1 = p) by lia. by subst.
Qed.

(** ** [deallocate] *)

Section dealloc.
Context `{Profile}.

Lemma buddy_of_ret s bs a o :
  arena_wf s → tiling (base s) (total_pages s) bs → (a, o) ∈ bs → o < MAX_ORDER →
  buddy_of s a o = Ret (buddy_addr (base s) a o).
Proof.
  intros Hs Ht Hin Hmax. destruct (block_at _ _ _ Ht a o Hin) as (Ho & p & -> & Hp & Hd & Hfit & _).
  pose proof (order_pow_bound o Ho). pose proof (wf_fits _ Hs). pose proof (wf_base _ Hs).
  unfold buddy_of. rewrite shl_order by lia. simpl. rewrite block_bytes_ret by lia. simpl.
  rewrite u64_sub_ret by (unfold PAGE_SIZE in *; lia). simpl.
  fold (buddy_addr (base s) (base s + p * PAGE_SIZE) o).
  change (base s + Z.lxor _ _) with (buddy_addr (base s) (base s + p * PAGE_SIZE) o).
  rewrite u64_add_ret; [done|].
  change (base s + Z.lxor _ _) with (buddy_addr (base s) (base s + p * PAGE_SIZE) o).
  rewrite buddy_addr_at by lia.
  destruct (lxor_pow2 p o Hp ltac:(lia) Hd) as [[_ ->]|(_ & ? & ->)]; unfold PAGE_SIZE in *; lia.
Qed.

Lemma coalesce_ret fuel s a o :
  arena_wf s → tiling (base s) (total_pages s) ((a, o) :: blocks s) →
  coalesced (base s) (free_blocks s) → (Z.to_nat (MAX_ORDER - o) <= fuel)%nat →
  ∃ s' a' o', coalesce fuel s a o = Ret (s', a', o') ∧ same_arena s s' ∧
    arena_wf s' ∧ tiling (base s) (total_pages s) ((a', o') :: blocks s') ∧
    coalesced (base s) ((a', o') :: free_blocks s').
Proof.
  revert s a o. induction fuel as [|n IH]; intros s a o Hs Ht Hc Hf;
    destruct (block_at _ _ _ Ht a o) as (Ho & _); [set_solver| |set_solver|];
    simpl; destruct (o <? MAX_ORDER) eqn:E; reflect_bools; [lia| | |].
  1,3: exists s, a, o; split_and!; try done; apply coalesced_cons; [lia|done|lia].
  rewrite (buddy_of_ret s _ a o Hs Ht) by (set_solver || lia). simpl.
  destruct (order_list_some s o Hs Ho) as [l Hl].
  rewrite (vec_get_list s o l) by (done || lia). simpl.
  destruct (position _ l) as [pos|] eqn:Epos.
  - apply position_Some in Epos as (b & Hpos & Hb & _). reflect_bools. subst b.
    pose proof (order_list_lt s o l ltac:(lia) Hl).
    rewrite vec_set_ret by lia. simpl. rewrite u32_add_ret by (unfold MAX_ORDER in *; lia). simpl.
    change (set_free s _) with (with_list s o (delete pos l)).
    assert (l ≡ₚ buddy_addr (base s) a o :: delete pos l) as Hperm by (by apply delete_Permutation).
    destruct (IH (with_list s o (delete pos l)) (Z.min a (buddy_addr (base s) a o)) (o + 1))
      as (s' & a' & o' & -> & Hsame & Hs' & Ht' & Hc'); [by apply arena_wf_with| | |lia|].
    + apply tiling_merge; [lia|]. change (base (with_list _ _ _)) with (base s).
      by rewrite <- (blocks_with s o l) by (done || lia).
    + apply coalesced_tail with (buddy_addr (base s) a o, o).
      change (base (with_list _ _ _)) with (base s).
      by rewrite <- (free_blocks_with s o l) by (done || lia).
    + exists s', a', o'. done.
  - exists s, a, o. split_and!; try done. apply coalesced_cons; [lia|done|].
    intros _ (_ & l' & Hl' & Hin)%elem_of_free_blocks. rewrite Hl in Hl'. injection Hl' as <-.
    rewrite position_None in Epos. specialize (Epos _ Hin). reflect_bools. done.
Qed.

Lemma deallocate_live s a o :
  live_blocks s !! a = Some o →
  deallocate s a =
    (st ← coalesce (Z.to_nat MAX_ORDER)
            (mkPhys (base s) (total_pages s) (free_lists s) (delete a (live_blocks s))) a o;
     s' ← push_free st.1.1 st.2 st.1.2; Ret (s', Ok tt)).
Proof.
  intros Hl. unfold deallocate. rewrite Hl. unfold ok_or.
  by destruct (coalesce _ _ a o) as [[[? ?] ?]| |].
Qed.

(** Giving back the block that completes the tiling. *)
Lemma push_back s a o :
  arena_wf s → tiling (base s) (total_pages s) ((a, o) :: blocks s) →
  coalesced (base s) ((a, o) :: free_blocks s) →
  ∃ s', push_free s o a = Ret s' ∧ phys_wf s' ∧ same_arena s s'.
Proof.
  intros Hs Ht Hc. destruct (block_at _ _ _ Ht a o) as (Ho & _); [set_solver|].
  destruct (order_list_some s o Hs Ho) as [l Hl].
  exists (with_list s o (l ++ [a])). split_and!; [apply push_free_ret; [lia|done]| |done].
  split; [by apply arena_wf_with| |].
  - change (tiling (base s) (total_pages s) (blocks (with_list s o (l ++ [a])))).
    by rewrite (blocks_push s o l) by (done || lia).
  - change (coalesced (base s) (free_blocks (with_list s o (l ++ [a])))).
    by rewrite (free_blocks_push s o l) by (done || lia).
Qed.

(** A live block goes back to the free lists and the invariant holds again. *)
Lemma deallocate_ret s a o :
  phys_wf s → live_blocks s !! a = Some o →
  ∃ s', deallocate s a = Ret (s', Ok tt) ∧ phys_wf s' ∧
        base s' = base s ∧ total_pages s' = total_pages s ∧
        live_blocks s' = delete a (live_blocks s).
Proof.
  intros [Hs Ht Hc] Hl. rewrite deallocate_live with (o := o) by done.
  set (s0 := mkPhys (base s) (total_pages s) (free_lists s) (delete a (live_blocks s))).
  assert (blocks s ≡ₚ (a, o) :: blocks s0) as Hb.
  { unfold blocks, s0. simpl. rewrite <- (map_to_list_delete _ _ _ Hl).
    by rewrite Permutation_middle. }
  assert (arena_wf s0) as Hs0 by (destruct Hs; by split).
  assert (0 <= o <= MAX_ORDER) as Ho.
  { destruct (block_at _ _ _ Ht a o) as (? & _); [by apply elem_of_blocks_live|done]. }
  rewrite Hb in Ht.
  destruct (coalesce_ret (Z.to_nat MAX_ORDER) s0 a o Hs0 Ht Hc ltac:(lia))
    as (s1 & a' & o' & -> & (Hbase & Htot & Hlive) & Hs' & Ht' & Hc'). cbn.
  rewrite <- Hbase in Ht', Hc'. rewrite <- Htot in Ht'.
  destruct (push_back s1 a' o' Hs' Ht' Hc') as (s2 & -> & Hwf2 & Hb2 & Ht2 & Hl2). cbn.
  exists s2. rewrite Hb2, Hbase, Ht2, Htot, Hl2, Hlive. done.
Qed.

(** [allocate], on a well-formed state. *)
Lemma allocate_ret s order :
  phys_wf s → 0 <= order <= MAX_ORDER →
  (∃ s' a, allocate s order = Ret (s', Ok a) ∧ phys_wf s' ∧
     base s' = base s ∧ total_pages s' = total_pages s ∧
     live_blocks s !! a = None ∧ live_blocks s' = <[a := order]> (live_blocks s)) ∨
  (allocate s order = Ret (s, Err OutOfMemory) ∧
   ∀ a o, order <= o → (a, o) ∉ free_blocks s).
Proof.
  intros Hwf Ho. destruct (ensure_free_block_ret s order Hwf Ho)
    as [(s' & He & (Hb & Htp & Hlive) & Hr)|[He Hnone]].
  - left. pose proof Hr as [_ _ (r & a & Hl & _)].
    destruct (allocate_take s' r a order Hr ltac:(lia) Hl) as (Hnew & _ & Hwf').
    unfold allocate. rewrite He. simpl. rewrite (pop_free_ret s' order r a) by (done || lia). simpl.
    eexists _, a. split; [reflexivity|]. simpl. rewrite Hlive in *. split_and!; done.
  - right. split; [|done]. unfold allocate. by rewrite He.
Qed.

Lemma allocate_invalid s order :
  arena_wf s → MAX_ORDER < order → allocate s order = Ret (s, Err InvalidOrder).
Proof.
  intros Hs Ho. unfold allocate, ensure_free_block.
  rewrite (proj2 (Z.leb_le _ _)); [done|]. rewrite (wf_len _ Hs). unfold MAX_ORDER in *. lia.
Qed.
End dealloc.

(** ** Seeding *)

(** The number of free blocks of an order. *)
Definition order_len (s : PhysicalAllocator) (o : Z) : Z :=
  match order_list s o with
  | Some l => Z.of_nat (length l)
  | None => 0
  end.

(** The order chosen for the next block, before the alignment bound. *)
Definition seed_order (remaining : Z) : Z := Z.min (Z.log2 remaining) MAX_ORDER.

Record seed_inv (b n : Z) (st : PhysicalAllocator * Z * Z) : Prop := {
  si_arena : arena_wf st.1.1;
  si_same : base st.1.1 = b ∧ total_pages st.1.1 = n ∧ live_blocks st.1.1 = ∅;
  si_addr : st.1.2 = b + (n - st.2) * PAGE_SIZE;
  si_rem : 0 <= st.2 <= n;
  si_tiling : tiling b (n - st.2) (free_blocks st.1.1);
  si_divide : 0 < st.2 → (2 ^ seed_order st.2 | n - st.2);
  si_bits : ∀ o, 0 <= o < MAX_ORDER →
    order_len st.1.1 o = Z.b2z (Z.testbit n o) - Z.b2z (Z.testbit st.2 o);
  si_top : order_len st.1.1 MAX_ORDER = n / 2 ^ MAX_ORDER - st.2 / 2 ^ MAX_ORDER;
}.

Lemma order_len_with s o l o' :
  0 <= o → 0 <= o' → o < Z.of_nat (length (free_lists s)) →
  order_len (with_list s o l) o' =
  if decide (o' = o) then Z.of_nat (length l) else order_len s o'.
Proof.
  intros. unfold order_len. rewrite order_list_with by done. by case_decide.
Qed.

(** Taking the seeding block off [r]: one bit below the top order, or one unit
    of the top order. *)
Lemma seed_order_bounds r : 0 < r → 0 <= seed_order r <= MAX_ORDER ∧ 2 ^ seed_order r <= r.
Proof.
  intros Hr. unfold seed_order, MAX_ORDER. pose proof (Z.log2_nonneg r).
  split; [lia|]. etransitivity; [|apply (Z.log2_spec r Hr)].
  apply Z.pow_le_mono_r; lia.
Qed.

Lemma seed_order_small r :
  0 < r → seed_order r < MAX_ORDER →
  seed_order r = Z.log2 r ∧ r < 2 * 2 ^ seed_order r ∧ r < 2 ^ MAX_ORDER.
Proof.
  unfold seed_order, MAX_ORDER. intros Hr Hs.
  assert (Z.min (Z.log2 r) 20 = Z.log2 r) as -> by lia.
  destruct (Z.log2_spec r Hr) as [_ Hlt]. rewrite Z.pow_succ_r in Hlt by apply Z.log2_nonneg.
  split_and!; [done..|]. apply Z.log2_lt_pow2; lia.
Qed.

Lemma testbit_sub_pow2_low r k o :
  0 <= o < k → Z.testbit (r - 2 ^ k) o = Z.testbit r o.
Proof.
  intros Ho. rewrite <- (Z.mod_pow2_bits_low (r - 2 ^ k) k), <- (Z.mod_pow2_bits_low r k) by lia.
  f_equal. replace (r - 2 ^ k) with (r + -1 * 2 ^ k) by ring. apply Z.mod_add.
  pose proof (pow2_pos k). lia.
Qed.

Lemma testbit_small r o : 0 <= r < 2 ^ o → 0 <= o → Z.testbit r o = false.
Proof.
  intros Hr Ho. destruct (Z.eq_dec r 0) as [->|]; [apply Z.testbit_0_l|].
  apply Z.bits_above_log2; [lia|]. apply Z.log2_lt_pow2; lia.
Qed.

Lemma seed_bits r o :
  0 < r → 0 <= o < MAX_ORDER →
  Z.b2z (Z.testbit (r - 2 ^ seed_order r) o) =
  Z.b2z (Z.testbit r o) - (if decide (o = seed_order r) then 1 else 0).
Proof.
  intros Hr Ho. destruct (seed_order_bounds r Hr) as [Hk Hle].
  destruct (decide (o < seed_order r)).
  { rewrite decide_False by lia. rewrite testbit_sub_pow2_low by lia. lia. }
  destruct (seed_order_small r Hr ltac:(lia)) as (Hlog & Hlt & _).
  rewrite (testbit_small (r - 2 ^ seed_order r) o); [| |lia].
  2:{ assert (2 ^ seed_order r <= 2 ^ o) by (apply Z.pow_le_mono_r; lia). lia. }
  case_decide as Hd.
  - rewrite Hd, Hlog, Z.bit_log2 by done. done.
  - rewrite testbit_small; [done| |lia].
    assert (2 ^ (seed_order r + 1) <= 2 ^ o) by (apply Z.pow_le_mono_r; lia).
    rewrite pow2_succ in * by lia. lia.
Qed.

Lemma seed_top r :
  0 < r → (r - 2 ^ seed_order r) / 2 ^ MAX_ORDER =
          r / 2 ^ MAX_ORDER - (if decide (seed_order r = MAX_ORDER) then 1 else 0).
Proof.
  intros Hr. destruct (seed_order_bounds r Hr) as [Hk Hle]. case_decide as Hd.
  - rewrite Hd. replace (r - 2 ^ MAX_ORDER) with (r + -1 * 2 ^ MAX_ORDER) by ring.
    rewrite Z.div_add by done. ring.
  - destruct (seed_order_small r Hr ltac:(lia)) as (_ & _ & Hlt).
    pose proof (pow2_pos (seed_order r) ltac:(lia)).
    rewrite !Z.div_small by lia. done.
Qed.

(** The alignment bound never binds: the next order still divides the offset. *)
Lemma seed_divide n r :
  0 < r <= n → (2 ^ seed_order r | n - r) → 0 < r - 2 ^ seed_order r →
  (2 ^ seed_order (r - 2 ^ seed_order r) | n - (r - 2 ^ seed_order r)).
Proof.
  intros Hr Hd Hr'. destruct (seed_order_bounds r ltac:(lia)) as [Hk Hle].
  destruct (seed_order_bounds _ Hr') as [Hk' Hle'].
  replace (n - (r - 2 ^ seed_order r)) with (n - r + 2 ^ seed_order r) by ring.
  assert (seed_order (r - 2 ^ seed_order r) <= seed_order r) as Hmono.
  { unfold seed_order at 1 3. apply Z.min_le_compat_r. apply Z.log2_le_mono.
    pose proof (pow2_pos (seed_order r)). lia. }
  apply Z.divide_add_r; [etransitivity; [|done]|]; apply pow2_divide; lia.
Qed.

Definition seed_measure (r : Z) : nat :=
  Z.to_nat (r / 2 ^ MAX_ORDER + Z.log2 (2 * (r mod 2 ^ MAX_ORDER) + 1)).

Lemma seed_measure_decreases r :
  0 < r → (seed_measure (r - 2 ^ seed_order r) < seed_measure r)%nat.
Proof.
  intros Hr. unfold seed_measure. rewrite seed_top by done.
  destruct (seed_order_bounds r Hr) as [Hk Hle].
  pose proof (Z.log2_nonneg (2 * (r mod 2 ^ MAX_ORDER) + 1)).
  pose proof (Z.log2_nonneg (2 * ((r - 2 ^ seed_order r) mod 2 ^ MAX_ORDER) + 1)).
  assert (0 <= r / 2 ^ MAX_ORDER) by (apply Z.div_pos; [lia|done]).
  case_decide as Hd.
  - rewrite Hd. replace (r - 2 ^ MAX_ORDER) with (r + -1 * 2 ^ MAX_ORDER) by ring.
    rewrite Z.mod_add by done.
    assert (1 <= r / 2 ^ MAX_ORDER); [|lia].
    apply Z.div_le_lower_bound; [done|]. rewrite Hd in Hle. lia.
  - destruct (seed_order_small r Hr ltac:(lia)) as (Hlog & Hlt & Hlt').
    pose proof (pow2_pos (seed_order r) ltac:(lia)).
    rewrite !(Z.mod_small _ (2 ^ MAX_ORDER)) by lia.
    rewrite (Z.log2_succ_double r) by done.
    assert (Z.log2 (2 * (r - 2 ^ seed_order r) + 1) <= Z.log2 r); [|lia].
    rewrite <- Hlog. assert (Z.log2 (2 * (r - 2 ^ seed_order r) + 1) < seed_order r + 1); [|lia].
    apply Z.log2_lt_pow2; [lia|]. rewrite pow2_succ by lia. lia.
Qed.

Lemma seed_measure_fuel n : 0 <= n → (seed_measure n <= seed_fuel n)%nat.
Proof.
  intros Hn. unfold seed_measure, seed_fuel.
  assert (0 <= n / 2 ^ MAX_ORDER) by (apply Z.div_pos; [lia|done]).
  assert (0 <= n mod 2 ^ MAX_ORDER < 2 ^ MAX_ORDER) as Hm by (by apply Z.mod_pos_bound).
  set (x := n mod 2 ^ MAX_ORDER) in *. clearbody x.
  assert (Z.log2 (2 * x + 1) < 21); [|lia].
  apply Z.log2_lt_pow2; [lia|]. unfold MAX_ORDER in *. lia.
Qed.

(** Growing a tiling at its end. *)
Lemma tiling_extend base n o bs :
  0 <= o <= MAX_ORDER → 0 <= n → (2 ^ o | n) → tiling base n bs →
  tiling base (n + 2 ^ o) ((base + n * PAGE_SIZE, o) :: bs).
Proof.
  intros Ho Hn Hd [Ha Hp]. split.
  - apply Forall_cons_2; [|done]. split; [done|]. by exists n.
  - simpl. rewrite block_pages_at, Hp. pose proof (pow2_pos o ltac:(lia)).
    rewrite seqZ_app by lia. by rewrite Z.add_0_l, Permutation_app_comm.
Qed.

Section seed.
Context `{Profile}.

Lemma seed_step_inv b n st :
  seed_inv b n st → 0 < st.2 →
  ∃ st', seed_step st = Ret st' ∧ seed_inv b n st' ∧
         (seed_measure st'.2 < seed_measure st.2)%nat.
Proof.
  destruct st as [[s addr] r]. intros [Hs (Hb & Hn & Hlive) Haddr Hr Ht Hdiv Hbits Htop] Hpos.
  simpl in *. specialize (Hdiv Hpos).
  destruct (seed_order_bounds r Hpos) as [Hk Hle].
  pose proof (order_pow_bound _ Hk). pose proof (wf_fits _ Hs). pose proof (wf_base _ Hs).
  destruct (order_list_some s _ Hs Hk) as [l Hl].
  rewrite Hb, Hn in *. unfold PAGE_SIZE in *.
  assert (n - r + 2 ^ seed_order r <= n) by lia.
  rewrite u64_sub_ret by lia. simpl.
  replace (addr - b) with ((n - r) * 4096) by lia. rewrite Z.div_mul by done.
  assert ((if negb (n - r =? 0)
           then Z.min (Z.min (ilog2 r) MAX_ORDER) (trailing_zeros 64 (n - r))
           else Z.min (ilog2 r) MAX_ORDER) = seed_order r) as ->.
  { fold (seed_order r). destruct (n - r =? 0) eqn:E; [done|]. simpl. reflect_bools.
    unfold ilog2. fold (seed_order r). apply Z.min_l.
    apply trailing_zeros_ge; [lia|lia|done]. }
  rewrite shl_order by done. simpl. rewrite (push_free_ret s _ l) by (done || lia). simpl.
  rewrite u64_mul_ret by lia. simpl. rewrite u64_add_ret by lia. simpl.
  rewrite u64_sub_ret by lia. simpl.
  pose proof (order_list_lt s (seed_order r) l ltac:(lia) Hl) as Hlt.
  eexists. split; [reflexivity|]. split; [|by apply seed_measure_decreases].
  assert (∀ o, 0 <= o → order_len (with_list s (seed_order r) (l ++ [addr])) o =
            order_len s o + (if decide (o = seed_order r) then 1 else 0)) as Hlen.
  { intros o Ho. rewrite order_len_with by lia. case_decide as Hd; [|lia].
    subst o. unfold order_len. rewrite Hl, length_app. simpl. lia. }
  split; simpl; try done.
  - by apply arena_wf_with.
  - unfold PAGE_SIZE. lia.
  - lia.
  - rewrite (free_blocks_push s _ l) by (done || lia). rewrite Haddr.
    replace (n - (r - 2 ^ seed_order r)) with (n - r + 2 ^ seed_order r) by ring.
    change 4096 with PAGE_SIZE. apply tiling_extend; [done|lia|done|done].
  - intros. apply seed_divide; [lia|done|done].
  - intros o Ho. rewrite Hlen, Hbits, seed_bits by lia. lia.
  - rewrite Hlen, Htop, seed_top by (unfold MAX_ORDER; lia).
    repeat case_decide; lia.
Qed.

Lemma coalesced_short s :
  arena_wf s → (∀ o, 0 <= o < MAX_ORDER → order_len s o <= 1) →
  coalesced (base s) (free_blocks s).
Proof.
  intros Hs Hlen a o Ho Ha Hb.
  apply elem_of_free_blocks in Ha as (Ho' & l & Hl & Ha).
  apply elem_of_free_blocks in Hb as (_ & l' & Hl' & Hb).
  rewrite Hl in Hl'. injection Hl' as <-. specialize (Hlen o ltac:(lia)).
  unfold order_len in Hlen. rewrite Hl in Hlen.
  destruct l as [|x [|y l]]; simpl in Hlen; [by apply elem_of_nil in Ha| |lia].
  apply list_elem_of_singleton in Ha, Hb. apply (buddy_addr_ne (base s) a o); congruence.
Qed.

Lemma PhysicalAllocator_new_ret b n :
  0 <= b → 0 <= n → b + n * PAGE_SIZE < 2 ^ 64 →
  ∃ s, PhysicalAllocator_new b n = Ret s ∧ phys_wf s ∧
       base s = b ∧ total_pages s = n ∧ live_blocks s = ∅ ∧
       (∀ o, 0 <= o < MAX_ORDER → order_len s o = Z.b2z (Z.testbit n o)) ∧
       order_len s MAX_ORDER = n / 2 ^ MAX_ORDER.
Proof.
  intros Hb Hn Hfit. unfold PhysicalAllocator_new, seed_free_lists.
  set (s0 := mkPhys b n _ ∅).
  change (total_pages s0) with n. change (base s0) with b.
  assert (seed_inv b n (s0, b, n)) as Hinit.
  { assert (∀ o, 0 <= o <= MAX_ORDER → order_list s0 o = Some []) as Hl.
    { intros o Ho. unfold order_list, s0. cbn [free_lists]. apply lookup_replicate_2.
      unfold MAX_ORDER in *. lia. }
    assert (free_blocks s0 = []) as Hf by done.
    split; simpl; try done.
    - rewrite Z.sub_diag. lia.
    - by rewrite Z.sub_diag, Hf.
    - intros _. rewrite Z.sub_diag. apply Z.divide_0_r.
    - intros o Ho. unfold order_len. rewrite Hl by lia. simpl. lia.
    - unfold order_len. rewrite Hl by (unfold MAX_ORDER; lia). simpl. lia. }
  destruct (while_loop_total (seed_inv b n) (λ st, seed_measure st.2)
              (λ st, 0 <? st.2) seed_step (seed_fuel n) (s0, b, n))
    as ([[s a] r] & -> & [Hs (Hbs & Hns & Hlive) _ Hr Ht _ Hbits Htop] & Hexit);
    [|done|by apply seed_measure_fuel|].
  { intros st Hst Hc. apply seed_step_inv; [done|]. by reflect_bools. }
  simpl in *. reflect_bools. assert (r = 0) as -> by lia.
  rewrite Z.sub_0_r in Ht. exists s.
  assert (∀ o, 0 <= o < MAX_ORDER → order_len s o = Z.b2z (Z.testbit n o)) as Hlen.
  { intros o Ho. rewrite Hbits, Z.testbit_0_l by done. simpl. lia. }
  split_and!; try done.
  - split; [done| |].
    + rewrite Hbs, Hns. unfold blocks. by rewrite Hlive, map_to_list_empty, app_nil_r.
    + apply coalesced_short; [done|]. intros o Ho. rewrite Hlen by done.
      by destruct (Z.testbit n o).
  - by rewrite Htop, Z.sub_0_r.
Qed.
End seed.

(** ** Counting pages *)

Definition pages_in (bs : list (Z * Z)) : Z := foldr (λ b acc, 2 ^ b.2 + acc) 0 bs.

(** The pages of the live blocks. *)
Definition live_pages (s : PhysicalAllocator) : Z := pages_in (map_to_list s.(live_blocks)).

#[export] Instance pages_in_Proper : Proper ((≡ₚ) ==> eq) pages_in.
Proof. unfold pages_in. intros bs bs' Hp. induction Hp; simpl; lia. Qed.

Lemma pages_in_app bs bs' : pages_in (bs ++ bs') = pages_in bs + pages_in bs'.
Proof. induction bs as [|b bs IH]; simpl; [done|]. unfold pages_in in *. simpl. lia. Qed.

Lemma pages_in_nonneg bs : 0 <= pages_in bs.
Proof.
  induction bs as [|b bs IH]; [done|]. unfold pages_in in *. simpl.
  pose proof (Z.pow_nonneg 2 b.2 ltac:(lia)). lia.
Qed.

Lemma pages_in_tiling base n bs : 0 <= n → tiling base n bs → pages_in bs = n.
Proof.
  intros Hn [Ha Hp]. apply Permutation_length in Hp as Hlen.
  rewrite length_seqZ in Hlen.
  enough (Z.of_nat (length (bs ≫= block_pages base)) = pages_in bs) by lia.
  clear Hp Hlen. induction Ha as [|[a o] bs [Ho _] _ IH]; [done|]. simpl in Ho.
  rewrite bind_cons, length_app, Nat2Z.inj_add, IH. unfold block_pages. rewrite length_seqZ. simpl.
  pose proof (pow2_pos o ltac:(lia)). unfold pages_in. simpl. lia.
Qed.

Section count.
Context `{Profile}.

Lemma count_from_ret fl k acc :
  0 <= k → k + Z.of_nat (length fl) <= 64 → 0 <= acc →
  acc + pages_in (free_from k fl) < 2 ^ 64 →
  count_from k acc fl = Ret (acc + pages_in (free_from k fl)).
Proof.
  revert k acc. induction fl as [|l fl IH]; intros k acc Hk Hlen Hacc Hsum; simpl in *.
  - unfold pages_in. simpl. f_equal. lia.
  - rewrite pages_in_app in *.
    assert (pages_in ((λ a : Z, (a, k)) <$> l) = Z.of_nat (length l) * 2 ^ k) as Hl.
    { clear. induction l as [|a l IH]; [done|]. unfold pages_in in *.
      rewrite fmap_cons. simpl foldr. rewrite IH. simpl length. lia. }
    rewrite Hl in *. pose proof (pages_in_nonneg (free_from (k + 1) fl)).
    pose proof (pow2_pos k Hk).
    assert (2 ^ k < 2 ^ 64) by (apply Z.pow_lt_mono_r; lia).
    assert (0 <= Z.of_nat (length l) * 2 ^ k) by (apply Z.mul_nonneg_nonneg; lia).
    rewrite u64_shl_ret by lia. simpl. rewrite Z.mul_1_l.
    rewrite u64_mul_ret by lia. simpl. rewrite u64_add_ret by lia. simpl.
    rewrite IH by lia. f_equal. lia.
Qed.

Lemma free_page_count_ret s :
  phys_wf s → free_page_count s = Ret (total_pages s - live_pages s).
Proof.
  intros [Hs Ht _]. pose proof (wf_fits _ Hs). pose proof (wf_base _ Hs).
  pose proof (wf_total _ Hs) as Hn. pose proof (pages_in_tiling _ _ _ Hn Ht) as Hsum.
  unfold blocks in Hsum. rewrite pages_in_app in Hsum. fold (live_pages s) in Hsum.
  pose proof (pages_in_nonneg (map_to_list (live_blocks s))) as Hl. fold (live_pages s) in Hl.
  unfold free_page_count. rewrite count_from_ret.
  - fold (free_blocks s). f_equal. lia.
  - done.
  - rewrite (wf_len _ Hs). lia.
  - done.
  - fold (free_blocks s). unfold PAGE_SIZE in *. lia.
Qed.
End count.

(** ** Runs *)

Definition op_valid (op : phys_op) : Prop :=
  match op with
  | Allocate o => 0 <= o
  | Deallocate _ => True
  end.

Section runs.
Context `{Profile}.

Lemma phys_step_ret s op :
  phys_wf s → op_valid op →
  ∃ s', phys_step op s = Ret s' ∧ phys_wf s' ∧
        base s' = base s ∧ total_pages s' = total_pages s.
Proof.
  intros Hwf Hop. destruct op as [o|a]; simpl in *.
  - destruct (Z.le_gt_cases o MAX_ORDER) as [Ho|Ho].
    + destruct (allocate_ret s o Hwf ltac:(lia)) as [(s' & a & -> & ? & ? & ? & _)|[-> _]];
        eexists; by split_and!.
    + rewrite allocate_invalid by (done || apply Hwf). by exists s.
  - destruct (live_blocks s !! a) as [o|] eqn:E.
    + destruct (deallocate_ret s a o Hwf E) as (s' & -> & ? & ? & ? & _). by exists s'.
    + unfold deallocate. rewrite E. by exists s.
Qed.

Lemma phys_run_ret ops s :
  phys_wf s → Forall op_valid ops →
  ∃ s', phys_run ops s = Ret s' ∧ phys_wf s' ∧
        base s' = base s ∧ total_pages s' = total_pages s.
Proof.
  intros Hwf Hops. revert s Hwf. induction Hops as [|op ops Hop _ IH]; intros s Hwf; simpl.
  - by exists s.
  - destruct (phys_step_ret s op Hwf Hop) as (s1 & -> & Hwf1 & Hb1 & Ht1). simpl.
    destruct (IH s1 Hwf1) as (s' & -> & ? & ? & ?). exists s'. split_and!; congruence || done.
Qed.
End runs.

(** Different blocks of a tiling occupy disjoint address ranges. *)
Lemma blocks_apart base n bs a o a' o' :
  tiling base n bs → (a, o) ∈ bs → (a', o') ∈ bs → (a, o) ≠ (a', o') →
  a + 2 ^ o * PAGE_SIZE <= a' ∨ a' + 2 ^ o' * PAGE_SIZE <= a.
Proof.
  intros Ht Hin Hin' Hne.
  destruct (block_at _ _ _ Ht a o Hin) as (Ho & p & Ha & _ & _ & _ & Hpg).
  destruct (block_at _ _ _ Ht a' o' Hin') as (Ho' & p' & Ha' & _ & _ & _ & Hpg').
  pose proof (pow2_pos o ltac:(lia)). pose proof (pow2_pos o' ltac:(lia)).
  destruct (Z.le_gt_cases (p + 2 ^ o) p'); [left; unfold PAGE_SIZE in *; lia|].
  destruct (Z.le_gt_cases (p' + 2 ^ o') p); [right; unfold PAGE_SIZE in *; lia|].
  exfalso. apply Hne. apply (blocks_disjoint _ _ _ Ht _ _ (Z.max p p')); [done..| |].
  - rewrite Hpg. apply elem_of_seqZ. lia.
  - rewrite Hpg'. apply elem_of_seqZ. lia.
Qed.

(** ** Single frames *)

Lemma live_pages_insert s s' f o :
  live_blocks s !! f = None → live_blocks s' = <[f := o]> (live_blocks s) →
  live_pages s' = live_pages s + 2 ^ o.
Proof.
  intros Hf Hl. unfold live_pages. rewrite Hl, map_to_list_insert by done.
  unfold pages_in. simpl. lia.
Qed.

Lemma live_pages_le s : phys_wf s → live_pages s + pages_in (free_blocks s) = total_pages s.
Proof.
  intros [Hs Ht _]. pose proof (pages_in_tiling _ _ _ (wf_total _ Hs) Ht) as Hsum.
  unfold blocks in Hsum. rewrite pages_in_app in Hsum. unfold live_pages. lia.
Qed.

Definition same_frames (s s' : PhysicalAllocator) : Prop :=
  phys_wf s' ∧ base s' = base s ∧ total_pages s' = total_pages s.

Lemma same_frames_trans s1 s2 s3 :
  same_frames s1 s2 → same_frames s2 s3 → same_frames s1 s3.
Proof. unfold same_frames. intuition congruence. Qed.

Section frames.
Context `{Profile}.

Lemma allocate_frame s :
  phys_wf s → live_pages s < total_pages s →
  ∃ s' f, allocate s 0 = Ret (s', Ok f) ∧ same_frames s s' ∧
    live_blocks s !! f = None ∧ live_blocks s' = <[f := 0]> (live_blocks s).
Proof.
  intros Hs Hlt. destruct (allocate_ret s 0 Hs ltac:(unfold MAX_ORDER; lia))
    as [(s' & f & -> & Hwf & Hb & Ht & Hf & Hl)|[_ Hno]].
  - exists s', f. done.
  - exfalso. pose proof (live_pages_le s Hs) as Hle.
    destruct (free_blocks s) as [|[a o] fb] eqn:E; [unfold pages_in in Hle; simpl in Hle; lia|].
    apply (Hno a o); [|set_solver].
    destruct (block_at _ _ _ (wf_tiled _ Hs) a o) as ([? _] & _); [|done].
    apply elem_of_blocks_free. rewrite E. set_solver.
Qed.

Lemma allocate_exhausted s :
  phys_wf s → live_pages s = total_pages s → allocate s 0 = Ret (s, Err OutOfMemory).
Proof.
  intros Hs Hfull. destruct (allocate_ret s 0 Hs ltac:(unfold MAX_ORDER; lia))
    as [(s' & f & Ha & Hwf & Hb & Ht & Hf & Hl)|[-> _]]; [|done].
  exfalso. pose proof (live_pages_le s' Hwf) as Hle.
  rewrite (live_pages_insert s s' f 0 Hf Hl) in Hle.
  pose proof (pages_in_nonneg (free_blocks s')). change (2 ^ 0) with 1 in Hle. lia.
Qed.
End frames.

(** ** Properties *)

(** Seeding: a fresh allocator over an arena that fits in the address space
    is well formed, everything is free, and it holds the least number of blocks:
    one block of order [o] below the top exactly when bit [o] of the page count is
    set, and [total_pages / 2^20] blocks of the top order. *)
Theorem new_arena_spec `{Profile} (b n : Z)
    (Hb : 0 <= b) (Hn : 0 <= n) (Hfit : b + n * PAGE_SIZE < 2 ^ 64) :
  ∃ s, PhysicalAllocator_new b n = Ret s ∧ phys_wf s ∧
    base s = b ∧ total_pages s = n ∧ live_blocks s = ∅ ∧
    free_page_count s = Ret n ∧
    (∀ o, 0 <= o < MAX_ORDER → order_len s o = Z.b2z (Z.testbit n o)) ∧
    order_len s MAX_ORDER = n / 2 ^ MAX_ORDER.
Proof.
  destruct (PhysicalAllocator_new_ret b n Hb Hn Hfit) as (s & -> & Hwf & Hbs & Hns & Hl & Hlen).
  exists s. split_and!; try done; [|apply Hlen..].
  rewrite free_page_count_ret by done. unfold live_pages.
  rewrite Hl, map_to_list_empty, Hns. simpl. by rewrite Z.sub_0_r.
Qed.

Lemma new_arena_spec_witness :
  ∃ s, @PhysicalAllocator_new false 0x100000 27437 = Ret s ∧
       order_len s 14 = 1 ∧ order_len s 1 = 0.
Proof.
  destruct (@new_arena_spec false 0x100000 27437)
    as (s & -> & _ & _ & _ & _ & _ & Hlen & _); [done|done|by vm_compute|].
  exists s. by rewrite !Hlen by done.
Defined.

(** [C34] Allocation, in full: on success the block is new, aligned to its size,
    inside the arena and disjoint from every live block; an order above the
    maximum is refused; and [OutOfMemory] is reported only when no aligned range
    of the requested size is entirely free.  No path panics. *)
Theorem allocate_spec `{Profile} s order (Hwf : phys_wf s) (Ho : 0 <= order) :
  match allocate s order with
  | Ret (s', Ok a) =>
      order <= MAX_ORDER ∧ phys_wf s' ∧ live_blocks s !! a = None ∧
      s' = mkPhys (base s) (total_pages s) (free_lists s')
             (<[a := order]> (live_blocks s)) ∧
      base s <= a ∧ a + 2 ^ order * PAGE_SIZE <= base s + total_pages s * PAGE_SIZE ∧
      (2 ^ order * PAGE_SIZE | a - base s) ∧
      ∀ a' o', live_blocks s !! a' = Some o' →
        a + 2 ^ order * PAGE_SIZE <= a' ∨ a' + 2 ^ o' * PAGE_SIZE <= a
  | Ret (s', Err e) =>
      s' = s ∧
      ((e = InvalidOrder ∧ MAX_ORDER < order) ∨
       (e = OutOfMemory ∧ order <= MAX_ORDER ∧
        ∀ p, 0 <= p → p + 2 ^ order <= total_pages s → (2 ^ order | p) →
          ∃ x a o, p <= x < p + 2 ^ order ∧ live_blocks s !! a = Some o ∧
                   x ∈ block_pages (base s) (a, o)))
  | _ => False
  end.
Proof.
  destruct (Z.le_gt_cases order MAX_ORDER) as [Hmax|Hmax].
  2:{ rewrite allocate_invalid by (done || apply Hwf). split; [done|]. left. done. }
  destruct (allocate_ret s order Hwf ltac:(lia)) as [(s' & a & -> & Hwf' & Hb & Ht & Hnew & Hl)|[-> Hno]].
  - assert ((a, order) ∈ blocks s') as Hin
      by (apply elem_of_blocks_live; rewrite Hl; apply lookup_insert_eq).
    destruct (block_at _ _ _ (wf_tiled _ Hwf') a order Hin) as (_ & p & Ha & Hp & Hd & Hfit & _).
    rewrite Hb in Ha. rewrite Ht in Hfit. split_and!; try done.
    + destruct s'. simpl in *. by subst.
    + unfold PAGE_SIZE in *. lia.
    + unfold PAGE_SIZE in *. lia.
    + rewrite Ha, Z.add_simpl_l. by apply Z.mul_divide_mono_r.
    + intros a' o' Hl'. assert (a' ≠ a) by congruence.
      apply (blocks_apart _ _ _ _ _ _ _ (wf_tiled _ Hwf') Hin); [|congruence].
      apply elem_of_blocks_live. by rewrite Hl, lookup_insert_ne.
  - split; [done|]. right. split_and!; [done..|]. intros p Hp Hfit Hd.
    destruct (decide (Exists (λ x, Exists (λ b, x ∈ block_pages (base s) b)
                                     (map_to_list (live_blocks s)))
                        (seqZ p (2 ^ order)))) as [He|He].
    + apply Exists_exists in He as (x & Hx%elem_of_seqZ & He).
      apply Exists_exists in He as ([a o] & Hl%elem_of_map_to_list & Hpg).
      exists x, a, o. done.
    + exfalso. apply not_Exists_Forall in He; [|apply _]. rewrite Forall_forall in He.
      destruct (free_range_in_block (base s) _ _ (free_blocks s) order p (wf_tiled _ Hwf))
        as (a & o & Hin & Hle & _); [by apply elem_of_blocks_free|apply Hwf|lia|done|done| |by eapply Hno].
      intros x Hx. destruct (tiles_cover _ _ _ (wf_tiled _ Hwf) x ltac:(lia)) as (b & Hb & Hpg).
      exists b. split; [|done]. unfold blocks in Hb. apply elem_of_app in Hb as [|Hb]; [done|].
      destruct (He x); [apply elem_of_seqZ; lia|]. apply Exists_exists. eauto.
Qed.

(** A small arena for the witnesses: 5 pages, blocks of orders 2 and 0. *)
Definition demo_arena : PhysicalAllocator :=
  mkPhys 0x1000 5 ([[0x5000]; []; [0x1000]] ++ replicate 18 []) ∅.

Lemma demo_arena_new : @PhysicalAllocator_new true 0x1000 5 = Ret demo_arena.
Proof. vm_compute. reflexivity. Qed.

Lemma demo_arena_wf : phys_wf demo_arena.
Proof.
  destruct (@PhysicalAllocator_new_ret true 0x1000 5) as (s & Hs & Hwf & _); [done..|].
  rewrite demo_arena_new in Hs. by injection Hs as ->.
Qed.

Lemma allocate_spec_witness :
  match @allocate true demo_arena 1 with
  | Ret (s', Ok a) => phys_wf s' ∧ (2 ^ 1 * PAGE_SIZE | a - 0x1000)
  | _ => False
  end.
Proof.
  pose proof (@allocate_spec true demo_arena 1 demo_arena_wf ltac:(lia)) as Hspec.
  destruct (@allocate true demo_arena 1) as [[s' [a|e]]| |] eqn:E; try done.
  destruct Hspec as (_ & Hwf & _ & _ & _ & _ & Hd & _). done.
Defined.

(** [C33] Deallocation, in full: a live block is returned, its entry is removed and
    the invariant (the tiling and the absence of free buddies) holds again, with
    the block's pages free; an address that is not live is a [DoubleFree] and
    changes nothing. *)
Theorem deallocate_spec `{Profile} s a (Hwf : phys_wf s) :
  match live_blocks s !! a with
  | Some o =>
      ∃ s', deallocate s a = Ret (s', Ok tt) ∧ phys_wf s' ∧
        base s' = base s ∧ total_pages s' = total_pages s ∧
        live_blocks s' = delete a (live_blocks s) ∧
        free_page_count s' = (n ← free_page_count s; Ret (n + 2 ^ o))
  | None => deallocate s a = Ret (s, Err DoubleFree)
  end.
Proof.
  destruct (live_blocks s !! a) as [o|] eqn:E; [|unfold deallocate; by rewrite E].
  destruct (deallocate_ret s a o Hwf E) as (s' & -> & Hwf' & Hb & Ht & Hl).
  exists s'. split_and!; try done.
  rewrite !free_page_count_ret by done. cbn. f_equal. rewrite Ht. unfold live_pages.
  rewrite <- (map_to_list_delete _ _ _ E), Hl. unfold pages_in at 2. simpl.
  fold (pages_in (map_to_list (delete a (live_blocks s)))). lia.
Qed.

Lemma deallocate_spec_witness :
  @deallocate true demo_arena 0x1000 = Ret (demo_arena, Err DoubleFree).
Proof. exact (@deallocate_spec true demo_arena 0x1000 demo_arena_wf). Defined.

(** [C3] The arena through any history: no sequence of allocations and
    deallocations (failing ones included) panics or breaks the invariant, and the
    free page count is always the arena less the live blocks. *)
Theorem arena_history `{Profile} b n ops
    (Hb : 0 <= b) (Hn : 0 <= n) (Hfit : b + n * PAGE_SIZE < 2 ^ 64)
    (Hops : Forall op_valid ops) :
  ∃ s, (s0 ← PhysicalAllocator_new b n; phys_run ops s0) = Ret s ∧ phys_wf s ∧
       base s = b ∧ total_pages s = n ∧ free_page_count s = Ret (n - live_pages s).
Proof.
  destruct (PhysicalAllocator_new_ret b n Hb Hn Hfit) as (s0 & -> & Hwf & Hbs & Hns & _).
  cbn. destruct (phys_run_ret ops s0 Hwf Hops) as (s & -> & Hwf' & Hb' & Hn').
  exists s. rewrite free_page_count_ret by done. split_and!; congruence || done.
Qed.

Lemma arena_history_witness :
  ∃ s, (s0 ← @PhysicalAllocator_new true 0x1000 5;
        @phys_run true [Allocate 0; Allocate 1; Deallocate 0x5000; Allocate 21] s0) = Ret s ∧
       phys_wf s.
Proof.
  destruct (@arena_history true 0x1000 5
              [Allocate 0; Allocate 1; Deallocate 0x5000; Allocate 21])
    as (s & Hs & Hwf & _); [done|done|by vm_compute| |exists s; exact (conj Hs Hwf)].
  repeat constructor; done.
Defined.

(** [C35] Coalescing is complete: whatever was allocated and freed in between and
    in whatever order, once nothing is live the free blocks are those of the
    fresh arena. *)
Theorem freeing_everything_restores_seed `{Profile} b n ops s0 s
    (Hb : 0 <= b) (Hn : 0 <= n) (Hfit : b + n * PAGE_SIZE < 2 ^ 64)
    (Hnew : PhysicalAllocator_new b n = Ret s0)
    (Hops : Forall op_valid ops) (Hrun : phys_run ops s0 = Ret s)
    (Hnone : live_blocks s = ∅) :
  free_blocks s ≡ₚ free_blocks s0.
Proof.
  destruct (PhysicalAllocator_new_ret b n Hb Hn Hfit) as (s0' & Hnew' & Hwf & Hbs & Hns & Hl & _).
  rewrite Hnew in Hnew'. injection Hnew' as <-.
  destruct (phys_run_ret ops s0 Hwf Hops) as (s' & Hrun' & Hwf' & Hb' & Hn').
  rewrite Hrun in Hrun'. injection Hrun' as <-.
  assert (∀ t, live_blocks t = ∅ → blocks t = free_blocks t) as Hfree.
  { intros t Ht. unfold blocks. by rewrite Ht, map_to_list_empty, app_nil_r. }
  pose proof (wf_tiled _ Hwf) as Ht. pose proof (wf_tiled _ Hwf') as Ht'.
  pose proof (wf_coalesced _ Hwf) as Hc. pose proof (wf_coalesced _ Hwf') as Hc'.
  rewrite Hfree in Ht, Ht' by done. rewrite Hb', Hn' in Ht'. rewrite Hb' in Hc'.
  apply NoDup_Permutation; [by eapply blocks_NoDup..|].
  intros x. split; by eapply coalesced_tilings_same.
Qed.

Lemma freeing_everything_restores_seed_witness :
  ∃ s, @phys_run true [Allocate 0; Allocate 0; Deallocate 0x5000; Allocate 0;
                       Deallocate 0x1000; Deallocate 0x5000; Deallocate 0x2000;
                       Deallocate 0x4000] demo_arena = Ret s ∧
       free_blocks s ≡ₚ free_blocks demo_arena.
Proof.
  eexists. split; [vm_compute; reflexivity|].
  eapply (@freeing_everything_restores_seed true 0x1000 5
    [Allocate 0; Allocate 0; Deallocate 0x5000; Allocate 0;
     Deallocate 0x1000; Deallocate 0x5000; Deallocate 0x2000; Deallocate 0x4000]).
  - done.
  - done.
  - by vm_compute.
  - exact demo_arena_new.
  - repeat constructor; done.
  - vm_compute. reflexivity.
  - reflexivity.
Defined.
