(* ===== verification/Console.v ===== *)
(** * The console's portable logic

    Model of [src/reference-rs/src/console.rs]: the newline translation, the
    format scanner and the cursor arithmetic.  Strings are their UTF-8 bytes. *)
From S2P Require Import Prelude.

Definition is_byte (b : Z) : Prop := 0 <= b < 256.

(** ** Newline translation *)

Definition translate_byte (byte : Z) : list Z :=
  if byte =? 10 then [13; 10] else [byte].

Definition translate_write (s : list Z) : list Z :=
  foldl (λ out byte, out ++ translate_byte byte) [] s.

(** ** The format scanner *)

(** [out.push(c as char)] for a byte: the UTF-8 encoding of U+0000 to U+00FF. *)
Definition push_char (c : Z) : list Z :=
  if c <? 128 then [c] else [192 + c / 64; 128 + c mod 64].

(** The loop state: the output, the index of the next argument, the position. *)
Record scan := mkScan { out : list Z; arg_index : nat; pos : nat }.

Definition is_specifier (b : Z) : bool := (b =? 100) || (b =? 117) || (b =? 115).

(** One turn of the loop; an argument is the bytes its [Display] prints. *)
Definition format_step (bytes : list Z) (args : list (list Z)) (s : scan) : outcome scan :=
  b ← vec_get bytes (Z.of_nat s.(pos));
  if (b =? 37) && (s.(pos) + 1 <? length bytes)%nat then
    c ← vec_get bytes (Z.of_nat (s.(pos) + 1));
    if is_specifier c then
      Ret (mkScan (s.(out) ++ default [] (args !! s.(arg_index)))
             (s.(arg_index) + 1) (s.(pos) + 2))
    else if c =? 37 then Ret (mkScan (s.(out) ++ [37]) s.(arg_index) (s.(pos) + 2))
    else Ret (mkScan (s.(out) ++ [37]) s.(arg_index) (s.(pos) + 1))
  else Ret (mkScan (s.(out) ++ push_char b) s.(arg_index) (s.(pos) + 1)).

Definition format (fmt : list Z) (args : list (list Z)) : outcome (list Z) :=
  s ← while_loop (length fmt) (λ s, (s.(pos) <? length fmt)%nat) (format_step fmt args)
        (mkScan [] 0 0);
  Ret s.(out).

(** ** The cursor *)

Record CursorState := mkCursor { x : Z; y : Z }.

Record FramebufferGeometry := mkGeometry {
  width : Z;
  height : Z;
  char_width : Z;
  char_height : Z;
}.

Definition advance_cursor `{Profile} (state : CursorState) (geom : FramebufferGeometry)
    (ch : Z) : outcome (CursorState * bool) :=
  if ch =? 10 then
    y ← u32_add state.(y) geom.(char_height);
    if geom.(height) <=? y
    then Ret (mkCursor 0 (saturating_sub geom.(height) geom.(char_height)), true)
    else Ret (mkCursor 0 y, false)
  else if ch =? 13 then Ret (mkCursor 0 state.(y), false)
  else
    x ← u32_add state.(x) geom.(char_width);
    if geom.(width) <=? x then
      y ← u32_add state.(y) geom.(char_height);
      if geom.(height) <=? y
      then Ret (mkCursor 0 (saturating_sub geom.(height) geom.(char_height)), true)
      else Ret (mkCursor 0 y, false)
    else Ret (mkCursor x state.(y), false).

(** Writing a sequence of bytes. *)
Fixpoint advance_all `{Profile} (state : CursorState) (geom : FramebufferGeometry)
    (bytes : list Z) : outcome CursorState :=
  match bytes with
  | [] => Ret state
  | b :: bytes' =>
      r ← advance_cursor state geom b;
      advance_all r.1 geom bytes'
  end.

(** ** Newline translation: lemmas *)

Lemma translate_write_concat s : translate_write s = s ≫= translate_byte.
Proof.
  unfold translate_write.
  assert (∀ acc, foldl (λ out byte, out ++ translate_byte byte) acc s = acc ++ (s ≫= translate_byte))
    as Hgen; [|apply Hgen].
  induction s as [|b s IH]; intros acc; [by rewrite app_nil_r|].
  cbn [foldl]. by rewrite IH, bind_cons, app_assoc.
Qed.

(** Dropping each carriage return that is followed by a line feed. *)
Fixpoint untranslate (s : list Z) : list Z :=
  match s with
  | [] => []
  | b :: s' =>
      if (b =? 13) && (if s' is c :: _ then c =? 10 else false)
      then untranslate s' else b :: untranslate s'
  end.

Lemma untranslate_cons b s :
  untranslate (b :: s) =
  if (b =? 13) && (if s is c :: _ then c =? 10 else false)
  then untranslate s else b :: untranslate s.
Proof. done. Qed.

(** A translated string never starts with a line feed. *)
Lemma translated_head s : (if s ≫= translate_byte is c :: _ then c =? 10 else false) = false.
Proof.
  destruct s as [|b s]; [done|]. rewrite bind_cons. unfold translate_byte at 1.
  by destruct (b =? 10) eqn:E.
Qed.

Lemma untranslate_bind s : untranslate (s ≫= translate_byte) = s.
Proof.
  induction s as [|b s IH]; [done|]. rewrite bind_cons. unfold translate_byte at 1.
  destruct (b =? 10) eqn:E; cbn [app]; reflect_bools.
  - rewrite !untranslate_cons. cbn [Z.eqb Pos.eqb andb]. by subst b; rewrite IH.
  - by rewrite untranslate_cons, translated_head, andb_false_r, IH.
Qed.

(** ** The format scanner: a structural reference *)

Fixpoint format_ref (bytes : list Z) (args : list (list Z)) : list Z :=
  match bytes with
  | [] => []
  | b :: rest =>
      if b =? 37 then
        match rest with
        | [] => [37]
        | c :: rest' =>
            if is_specifier c then default [] (head args) ++ format_ref rest' (tail args)
            else if c =? 37 then 37 :: format_ref rest' args
            else 37 :: format_ref rest args
        end
      else push_char b ++ format_ref rest args
  end.

Lemma drop_cons_lookup {A} (l : list A) n a :
  l !! n = Some a → drop n l = a :: drop (n + 1) l.
Proof. intros Hl. rewrite Nat.add_1_r. by apply drop_S. Qed.

Lemma tail_drop_eq {A} (l : list A) n : tail (drop n l) = drop (n + 1) l.
Proof. rewrite Nat.add_comm. revert n. induction l as [|a l IH]; intros [|n]; [done..|apply IH]. Qed.

Lemma vec_get_nat {A} (l : list A) n a : l !! n = Some a → vec_get l (Z.of_nat n) = Ret a.
Proof. intros Hl. apply vec_get_ret. split; [lia|]. by rewrite Nat2Z.id. Qed.

(** What one turn does to the rest of the reference output. *)
Lemma format_step_ref bytes args s :
  (pos s < length bytes)%nat →
  ∃ s', format_step bytes args s = Ret s' ∧
    (length bytes - pos s' < length bytes - pos s)%nat ∧
    out s ++ format_ref (drop (pos s) bytes) (drop (arg_index s) args) =
    out s' ++ format_ref (drop (pos s') bytes) (drop (arg_index s') args).
Proof.
  intros Hlt. destruct (lookup_lt_is_Some_2 bytes (pos s) Hlt) as [b Hb].
  rewrite (drop_cons_lookup _ _ _ Hb). unfold format_step. rewrite (vec_get_nat _ _ _ Hb).
  cbn [mbind outcome_bind format_ref]. destruct (b =? 37) eqn:E37; cbn [andb].
  2:{ eexists. split; [done|]. cbn [out pos arg_index]. split; [lia|]. by rewrite app_assoc. }
  destruct (pos s + 1 <? length bytes)%nat eqn:En.
  - apply Nat.ltb_lt in En. destruct (lookup_lt_is_Some_2 bytes (pos s + 1) En) as [c Hc].
    rewrite (drop_cons_lookup _ _ _ Hc), (vec_get_nat _ _ _ Hc). cbn [mbind outcome_bind].
    destruct (is_specifier c); [|destruct (c =? 37)];
      (eexists; split; [done|]; cbn [out pos arg_index]; split; [lia|]; rewrite <- app_assoc).
    + f_equal. replace (pos s + 1 + 1)%nat with (pos s + 2)%nat by lia. f_equal.
      * f_equal. by rewrite head_lookup, lookup_drop, Nat.add_0_r.
      * f_equal. by rewrite tail_drop_eq.
    + by replace (pos s + 1 + 1)%nat with (pos s + 2)%nat by lia.
    + by rewrite (drop_cons_lookup _ _ _ Hc).
  - apply Nat.ltb_ge in En. rewrite drop_ge by done. reflect_bools. subst b.
    eexists. split; [done|]. cbn [out pos arg_index]. split; [lia|].
    rewrite drop_ge by done. simpl. by rewrite app_nil_r.
Qed.

Lemma format_is_ref fmt args : format fmt args = Ret (format_ref fmt args).
Proof.
  unfold format.
  destruct (while_loop_total
    (λ s, out s ++ format_ref (drop (pos s) fmt) (drop (arg_index s) args) = format_ref fmt args)
    (λ s, (length fmt - pos s)%nat) (λ s, (pos s <? length fmt)%nat) (format_step fmt args)
    (length fmt) (mkScan [] 0 0)) as (s & -> & Hout & Hexit).
  - intros s Hs Hc. apply Nat.ltb_lt in Hc.
    destruct (format_step_ref fmt args s Hc) as (s' & ? & ? & Heq). exists s'.
    split_and!; [done|by rewrite <- Heq|done].
  - done.
  - simpl. lia.
  - cbn [mbind outcome_bind]. apply Nat.ltb_ge in Hexit.
    rewrite drop_ge in Hout by done. simpl in Hout. by rewrite app_nil_r in Hout; rewrite Hout.
Qed.

(** A format string as its intended parts. *)
Inductive piece :=
| Lit (c : Z)
| Arg (spec : Z)
| Percent.

Definition piece_ok (p : piece) : Prop :=
  match p with
  | Lit c => c ≠ 37
  | Arg spec => is_specifier spec = true
  | Percent => True
  end.

Definition piece_bytes (p : piece) : list Z :=
  match p with
  | Lit c => [c]
  | Arg spec => [37; spec]
  | Percent => [37; 37]
  end.

(** What a format string of these parts is meant to print. *)
Fixpoint render (ps : list piece) (args : list (list Z)) : list Z :=
  match ps with
  | [] => []
  | Lit c :: ps' => push_char c ++ render ps' args
  | Percent :: ps' => 37 :: render ps' args
  | Arg _ :: ps' => default [] (head args) ++ render ps' (tail args)
  end.

Lemma format_ref_pieces ps args :
  Forall piece_ok ps → format_ref (ps ≫= piece_bytes) args = render ps args.
Proof.
  intros Hps. revert args. induction Hps as [|p ps Hp _ IH]; intros args; [done|].
  rewrite bind_cons. destruct p as [c|spec|]; cbn [piece_bytes app format_ref render] in *.
  - rewrite (proj2 (Z.eqb_neq _ _)) by done. by rewrite IH.
  - rewrite Z.eqb_refl, Hp. by rewrite IH.
  - rewrite Z.eqb_refl. simpl. by rewrite IH.
Qed.

(** ** The cursor: lemmas *)

(** Everything fits in 32 bits, a character fits in the frame. *)
Record geometry_ok (g : FramebufferGeometry) : Prop := {
  go_char_width : 0 < char_width g <= width g;
  go_char_height : 0 < char_height g <= height g;
  go_width : width g + char_width g <= 2 ^ 32;
  go_height : height g + char_height g <= 2 ^ 32;
}.

Record on_frame (g : FramebufferGeometry) (c : CursorState) : Prop := {
  of_x : 0 <= x c < width g;
  of_y : 0 <= y c < height g;
}.

(** The grid of whole characters. *)
Record on_grid (g : FramebufferGeometry) (c : CursorState) : Prop := {
  og_x : (char_width g | x c);
  og_y : (char_height g | y c);
}.

Section cursor.
Context `{Profile} (g : FramebufferGeometry) (Hg : geometry_ok g).

Lemma advance_cursor_frame c ch :
  on_frame g c →
  ∃ c' sc, advance_cursor c g ch = Ret (c', sc) ∧ on_frame g c' ∧
    ((char_height g | height g) → on_grid g c → on_grid g c').
Proof.
  intros [Hx Hy]. destruct Hg as [Hw Hh Hw' Hh'].
  assert (saturating_sub (height g) (char_height g) = height g - char_height g) as Hsat
    by (unfold saturating_sub; lia).
  assert (on_frame g (mkCursor 0 (height g - char_height g)) ∧
          ((char_height g | height g) →
           on_grid g (mkCursor 0 (height g - char_height g)))) as [Hlast Hlastg].
  { split; [split; simpl; lia|]. intros Hd. split; simpl; [apply Z.divide_0_r|].
    by apply Z.divide_sub_r. }
  unfold advance_cursor. rewrite Hsat.
  destruct (ch =? 10); [|destruct (ch =? 13)].
  - rewrite u32_add_ret by lia. cbn. destruct (height g <=? y c + char_height g) eqn:E; reflect_bools.
    + eexists _, _. split_and!; [done|done|auto].
    + eexists _, _. split_and!; [done|split; simpl; lia|]. intros _ [_ ?].
      split; simpl; [apply Z.divide_0_r|by apply Z.divide_add_r].
  - eexists _, _. split_and!; [done|split; simpl; lia|]. intros _ [_ ?].
    split; simpl; [apply Z.divide_0_r|done].
  - rewrite (u32_add_ret (x c)) by lia. cbn. destruct (width g <=? x c + char_width g) eqn:Ex; reflect_bools.
    + rewrite u32_add_ret by lia. cbn.
      destruct (height g <=? y c + char_height g) eqn:E; reflect_bools.
      * eexists _, _. split_and!; [done|done|auto].
      * eexists _, _. split_and!; [done|split; simpl; lia|]. intros _ [_ ?].
        split; simpl; [apply Z.divide_0_r|by apply Z.divide_add_r].
    + eexists _, _. split_and!; [done|split; simpl; lia|]. intros _ [? ?].
      split; simpl; [by apply Z.divide_add_r|done].
Qed.

Lemma advance_all_frame bytes c :
  on_frame g c →
  ∃ c', advance_all c g bytes = Ret c' ∧ on_frame g c' ∧
    ((char_height g | height g) → on_grid g c → on_grid g c').
Proof.
  revert c. induction bytes as [|b bytes IH]; intros c Hc.
  - exists c. done.
  - destruct (advance_cursor_frame c b Hc) as (c1 & sc & Hs & Hc1 & Hg1).
    destruct (IH c1 Hc1) as (c' & Hr & Hc' & Hg').
    exists c'. cbn [advance_all]. rewrite Hs. cbn. auto.
Qed.
End cursor.

(** ** Properties *)

(** The newline translation loses nothing: dropping each carriage return that
    precedes a line feed gives the input back, whatever it contained, and every
    line feed of the output follows a carriage return that was inserted for it. *)
Theorem translate_write_roundtrip s :
  untranslate (translate_write s) = s ∧
  length (translate_write s) = (length s + length (filter (λ b : Z, b = 10%Z) s))%nat.
Proof.
  rewrite translate_write_concat. split; [apply untranslate_bind|].
  induction s as [|b s IH]; [done|].
  rewrite bind_cons, filter_cons, length_app, IH. unfold translate_byte at 1.
  destruct (b =? 10) eqn:E; reflect_bools; case_decide; simpl; done || lia.
Qed.

(** The format scanner terminates without an index out of range on every
    format string, and on a string built from literals, specifiers and doubled
    percents it prints the literals, the arguments in order (nothing where they
    run out) and one percent each. *)
Theorem format_prints_pieces ps args (Hps : Forall piece_ok ps) :
  format (ps ≫= piece_bytes) args = Ret (render ps args).
Proof. by rewrite format_is_ref, format_ref_pieces. Qed.

(** ["%d/%s 100%%"] with one argument. *)
Lemma format_prints_pieces_witness :
  format [37; 100; 47; 37; 115; 32; 49; 48; 48; 37; 37] [[53]] =
  Ret [53; 47; 32; 49; 48; 48; 37].
Proof.
  refine (format_prints_pieces
    [Arg 100; Lit 47; Arg 115; Lit 32; Lit 49; Lit 48; Lit 48; Percent] [[53]] _).
  repeat constructor; discriminate.
Defined.

(** The cursor stays on the frame: from a position on it, no sequence of bytes
    overflows or moves the cursor outside, and when the height is a whole number
    of rows and the cursor starts on the grid of characters, the whole row of the
    cursor stays visible. *)
Theorem cursor_stays_on_frame `{Profile} g c bytes
    (Hg : geometry_ok g) (Hc : on_frame g c) :
  ∃ c', advance_all c g bytes = Ret c' ∧ on_frame g c' ∧
    ((char_height g | height g) → on_grid g c → y c' + char_height g <= height g).
Proof.
  destruct (advance_all_frame g Hg bytes c Hc) as (c' & -> & Hc' & Hgrid).
  exists c'. split_and!; [done..|]. intros Hd Hgr.
  destruct (Hgrid Hd Hgr) as [_ [k Hk]]. destruct Hd as [n Hn], (of_y _ _ Hc').
  pose proof (go_char_height _ Hg). assert (k < n) by nia. nia.
Qed.

Definition demo_geometry : FramebufferGeometry := mkGeometry 800 600 8 16.

Lemma cursor_stays_on_frame_witness :
  ∃ c', @advance_all true (mkCursor 0 0) demo_geometry (replicate 37 10) = Ret c' ∧
        on_frame demo_geometry c'.
Proof.
  destruct (@cursor_stays_on_frame true demo_geometry (mkCursor 0 0) (replicate 37 10))
    as (c' & Hr & Hf & _).
  - split; vm_compute; try split; (reflexivity || discriminate).
  - split; vm_compute; try split; (reflexivity || discriminate).
  - exists c'. exact (conj Hr Hf).
Defined.

(** On a 600-pixel frame with 16-pixel rows, which is not a whole number of rows, the cursor
    reaches a row that ends below the frame: [y] is not bounded by the height
    minus one row. *)
Lemma cursor_row_overrun :
  @advance_all true (mkCursor 0 0) demo_geometry (replicate 37 10) = Ret (mkCursor 0 592) ∧
  height demo_geometry - char_height demo_geometry < 592.
Proof. split; reflexivity. Qed.

(** A byte of a multi-byte character is printed as a character of its own: the
    two bytes of U+00E9 come out as the four bytes of U+00C3 U+00A9. *)
Lemma format_splits_multibyte :
  format [195; 169] [] = Ret [195; 131; 194; 169].
Proof. reflexivity. Qed.
