(* ===== verification/Scheduler.v ===== *)
(** * The run queue

    Model of [src/reference-rs/src/scheduler.rs]: the process table and its two
    ordering indices (earliest deadline, smallest virtual runtime), and the
    pick-and-charge loop the kernel runs on it. *)
From S2P Require Import Prelude.

Inductive PriorityClass :=
| RealTime (deadline : Z)
| Normal
| Idle.

#[export] Instance PriorityClass_eq_dec : EqDecision PriorityClass.
Proof. solve_decision. Defined.

Inductive ProcessState := Ready | Running | Sleeping | Zombie.

Record Process := mkProcess {
  pid : Z;
  class : PriorityClass;
  state : ProcessState;
  vruntime : Z;
}.

Record RunQueue := mkRunQueue {
  processes : gmap Z Process;
  real_time_order : gmap (Z * Z) unit;
  normal_order : gmap (Z * Z) unit;
}.

(** The order of [(u64, Pid)] keys. *)
Definition key_le (p q : Z * Z) : Prop := p.1 < q.1 ∨ (p.1 = q.1 ∧ p.2 <= q.2).

#[export] Instance key_le_dec : RelDecision key_le.
Proof. intros p q. unfold key_le. apply _. Defined.

Definition RunQueue_new : RunQueue := mkRunQueue ∅ ∅ ∅.

Definition add_process (self : RunQueue) (process : Process) : RunQueue :=
  let procs := <[process.(pid) := process]> self.(processes) in
  match process.(class) with
  | RealTime deadline =>
      mkRunQueue procs (<[(deadline, process.(pid)) := tt]> self.(real_time_order))
        self.(normal_order)
  | Normal =>
      mkRunQueue procs self.(real_time_order)
        (<[(process.(vruntime), process.(pid)) := tt]> self.(normal_order))
  | Idle => mkRunQueue procs self.(real_time_order) self.(normal_order)
  end.

Definition remove_process (self : RunQueue) (pid : Z) : RunQueue * option Process :=
  match self.(processes) !! pid with
  | None => (self, None)
  | Some process =>
      let procs := delete pid self.(processes) in
      (match process.(class) with
       | RealTime deadline =>
           mkRunQueue procs (delete (deadline, pid) self.(real_time_order))
             self.(normal_order)
       | Normal =>
           mkRunQueue procs self.(real_time_order)
             (delete (process.(vruntime), pid) self.(normal_order))
       | Idle => mkRunQueue procs self.(real_time_order) self.(normal_order)
       end, Some process)
  end.

Definition pick_next_task (self : RunQueue) : option Z :=
  match btree_first key_le self.(real_time_order) with
  | Some ((_, pid), _) => Some pid
  | None => (λ e, e.1.2) <$> btree_first key_le self.(normal_order)
  end.

Definition set_vruntime (p : Process) (v : Z) : Process :=
  mkProcess p.(pid) p.(class) p.(state) v.

Definition update_vruntime `{Profile} (self : RunQueue) (pid time_used : Z) :
    outcome RunQueue :=
  match self.(processes) !! pid with
  | None => Ret self
  | Some process =>
      if negb (bool_decide (process.(class) = Normal)) then Ret self
      else
        let old_key := (process.(vruntime), pid) in
        v ← u64_add process.(vruntime) time_used;
        let new_key := (v, pid) in
        Ret (mkRunQueue (<[pid := set_vruntime process v]> self.(processes))
               self.(real_time_order)
               (<[new_key := tt]> (delete old_key self.(normal_order))))
  end.

Definition get (self : RunQueue) (pid : Z) : option Process := self.(processes) !! pid.

Definition ready_count (self : RunQueue) : Z := Z.of_nat (size self.(processes)).

(** Sequences of the operations that change the queue. *)
Inductive rq_op :=
| RqAdd (p : Process)
| RqRemove (pid : Z)
| RqUpdate (pid time_used : Z).

Definition rq_step `{Profile} (op : rq_op) (rq : RunQueue) : outcome RunQueue :=
  match op with
  | RqAdd p => Ret (add_process rq p)
  | RqRemove i => Ret (remove_process rq i).1
  | RqUpdate i t => update_vruntime rq i t
  end.

(** The scheduling loop: pick the next task and charge it the time it ran; the
    times are given, the picks are recorded. *)
Fixpoint dispatch `{Profile} (times : list Z) (rq : RunQueue) :
    outcome (RunQueue * list Z) :=
  match times with
  | [] => Ret (rq, [])
  | t :: times' =>
      match pick_next_task rq with
      | None => Ret (rq, [])
      | Some pid =>
          rq' ← update_vruntime rq pid t;
          r ← dispatch times' rq';
          Ret (r.1, pid :: r.2)
      end
  end.

(** ** The invariant *)

#[export] Instance key_le_total_order : TotalOrder key_le.
Proof.
  split; [split; [split|]|].
  - intros [a b]. right. simpl. lia.
  - intros [a b] [c d] [e f]. unfold key_le. simpl. lia.
  - intros [a b] [c d]. unfold key_le. simpl. intros. f_equal; lia.
  - intros [a b] [c d]. unfold strict, key_le. simpl.
    destruct (Z.lt_trichotomy a c) as [|[->|]]; [left; lia| |right; right; lia].
    destruct (Z.lt_trichotomy b d) as [|[->|]];
      [left; lia|right; left; done|right; right; lia].
Qed.

(** The indices hold exactly the keys of the processes in the table. *)
Record rq_wf (rq : RunQueue) : Prop := {
  rq_pids : ∀ i p, processes rq !! i = Some p → pid p = i;
  rq_rt : ∀ d i, real_time_order rq !! (d, i) = Some tt ↔
    ∃ p, processes rq !! i = Some p ∧ class p = RealTime d;
  rq_normal : ∀ v i, normal_order rq !! (v, i) = Some tt ↔
    ∃ p, processes rq !! i = Some p ∧ class p = Normal ∧ vruntime p = v;
}.

Lemma rq_wf_new : rq_wf RunQueue_new.
Proof.
  split; simpl.
  - intros i p. by rewrite lookup_empty.
  - intros d i. rewrite lookup_empty. split; [done|]. intros (p & Hp & _).
    by rewrite lookup_empty in Hp.
  - intros v i. rewrite lookup_empty. split; [done|]. intros (p & Hp & _).
    by rewrite lookup_empty in Hp.
Qed.

(** Replacing the table entry of [i] and adding or deleting keys of [i] only
    concerns the keys of [i]. *)
Ltac rq_lookup :=
  repeat match goal with
    | |- context [<[_ := _]> _ !! _] => rewrite lookup_insert
    | |- context [delete _ _ !! _] => rewrite lookup_delete
    | |- context [decide (_ = _)] => case_decide
    end.

Lemma add_process_wf rq p :
  rq_wf rq → processes rq !! pid p = None → rq_wf (add_process rq p).
Proof.
  intros [Hp Hr Hn] Hnew.
  assert (∀ d, real_time_order rq !! (d, pid p) ≠ Some tt) as Hr0
    by (intros d (q & Hq & _)%Hr; congruence).
  assert (∀ v, normal_order rq !! (v, pid p) ≠ Some tt) as Hn0
    by (intros v (q & Hq & _)%Hn; congruence).
  unfold add_process. destruct p as [i c st v]. simpl in *.
  split; destruct c; simpl; intros; rq_lookup; simplify_eq;
    rewrite ?lookup_insert in *; repeat case_decide; naive_solver.
Qed.

Lemma remove_process_wf rq i : rq_wf rq → rq_wf (remove_process rq i).1.
Proof.
  intros [Hp Hr Hn]. unfold remove_process.
  destruct (processes rq !! i) as [[i' c st v]|] eqn:E; [|by split].
  pose proof (Hp _ _ E) as Hi. simpl in Hi. subst i'. simpl.
  split; destruct c; simpl; intros; rq_lookup; simplify_eq;
    rewrite ?lookup_delete in *; repeat case_decide; naive_solver.
Qed.

Section run_queue.
Context `{Profile}.

Lemma update_vruntime_inv rq i t rq' :
  update_vruntime rq i t = Ret rq' →
  rq' = rq ∨
  ∃ p v, processes rq !! i = Some p ∧ class p = Normal ∧ u64_add (vruntime p) t = Ret v ∧
    rq' = mkRunQueue (<[i := set_vruntime p v]> (processes rq)) (real_time_order rq)
            (<[(v, i) := tt]> (delete (vruntime p, i) (normal_order rq))).
Proof.
  unfold update_vruntime. destruct (processes rq !! i) as [p|]; [|intros [= <-]; by left].
  case_bool_decide; simpl; [|intros [= <-]; by left].
  intros Hu. apply outcome_bind_ret in Hu as (v & Hv & [= <-]). right. by exists p, v.
Qed.

Lemma update_vruntime_wf rq i t rq' :
  rq_wf rq → update_vruntime rq i t = Ret rq' → rq_wf rq'.
Proof.
  intros Hwf Hu. apply update_vruntime_inv in Hu as [->|(p & v & Hi & Hc & Hv & ->)]; [done|].
  destruct Hwf as [Hp Hr Hn]. split; simpl.
  - intros j q [[<- <-]|[_ Hj]]%lookup_insert_Some; [exact (Hp _ _ Hi)|by apply Hp].
  - intros d j. rewrite Hr. destruct (decide (i = j)) as [<-|Hne].
    + rewrite lookup_insert_eq, Hi. split; intros (q & [= <-] & Hq); simpl in *; congruence.
    + by rewrite lookup_insert_ne.
  - intros w j. destruct (decide (i = j)) as [<-|Hne].
    + rewrite lookup_insert_eq. destruct (decide (v = w)) as [<-|Hw].
      * rewrite lookup_insert_eq. split; [|done]. intros _. by eexists.
      * rewrite lookup_insert_ne by congruence. split; [|by intros (q & [= <-] & _ & ?)].
        intros [Hk Hx]%lookup_delete_Some. apply Hn in Hx as (q & Hq & _ & Hw').
        congruence.
    + rewrite !lookup_insert_ne by congruence. rewrite lookup_delete_ne by congruence.
      apply Hn.
Qed.

#[local] Hint Resolve add_process_wf remove_process_wf update_vruntime_wf : uosc.

Lemma rq_step_wf rq op rq' :
  rq_wf rq → match op with RqAdd p => processes rq !! pid p = None | _ => True end →
  rq_step op rq = Ret rq' → rq_wf rq'.
Proof.
  intros Hwf Hop Hs. destruct op as [p|i|i t]; simpl in *.
  - injection Hs as <-. eauto with uosc.
  - injection Hs as <-. eauto with uosc.
  - eauto with uosc.
Qed.
End run_queue.

#[export] Hint Resolve rq_wf_new add_process_wf remove_process_wf update_vruntime_wf : uosc.

(** *** The first key of an index *)

Lemma pick_next_task_cases rq :
  rq_wf rq →
  (∃ d i p, pick_next_task rq = Some i ∧ processes rq !! i = Some p ∧ class p = RealTime d ∧
     ∀ j q d', processes rq !! j = Some q → class q = RealTime d' → key_le (d, i) (d', j)) ∨
  ((∀ j q d', processes rq !! j = Some q → class q ≠ RealTime d') ∧
   ((∃ i p, pick_next_task rq = Some i ∧ processes rq !! i = Some p ∧ class p = Normal ∧
       ∀ j q, processes rq !! j = Some q → class q = Normal →
              key_le (vruntime p, i) (vruntime q, j)) ∨
    (pick_next_task rq = None ∧ ∀ j q, processes rq !! j = Some q → class q = Idle))).
Proof.
  intros [Hp Hr Hn]. unfold pick_next_task.
  destruct (btree_first key_le (real_time_order rq)) as [[[d i] []]|] eqn:E.
  - left. apply btree_first_Some in E as [Hd Hmin]; [|apply _].
    destruct (proj1 (Hr d i) Hd) as (p & Hi & Hc). exists d, i, p. split_and!; [done..|].
    intros j q d' Hj Hq. apply Hmin. exists tt. apply Hr. eauto.
  - right. apply btree_first_None in E.
    assert (∀ j q d', processes rq !! j = Some q → class q ≠ RealTime d') as Hno.
    { intros j q d' Hj Hq. assert (real_time_order rq !! (d', j) = Some tt) as Hx
        by (apply Hr; eauto). by rewrite E, lookup_empty in Hx. }
    split; [done|].
    destruct (btree_first key_le (normal_order rq)) as [[[v i] []]|] eqn:En.
    + left. apply btree_first_Some in En as [Hv Hmin]; [|apply _].
      destruct (proj1 (Hn v i) Hv) as (p & Hi & Hc & <-). exists i, p. split_and!; [done..|].
      intros j q Hj Hq. apply Hmin. exists tt. apply Hn. eauto.
    + right. split; [done|]. apply btree_first_None in En. intros j q Hj.
      destruct (class q) as [d'| |] eqn:Hq; [by destruct (Hno j q d' Hj)| |done].
      assert (normal_order rq !! (vruntime q, j) = Some tt) as Hx by (apply Hn; eauto).
      by rewrite En, lookup_empty in Hx.
Qed.

(** ** Progress of the scheduling loop *)

(** The picks that a process with runtime [v] may still lose to [q], when each
    run is charged at least [tmin]. *)
Definition lag (v tmin : Z) (q : Process) : Z :=
  if bool_decide (class q = Normal) && (vruntime q <=? v)
  then (v - vruntime q) / tmin + 1 else 0.

Definition total_lag (v tmin : Z) (m : gmap Z Process) : Z :=
  foldr (λ e acc, lag v tmin e.2 + acc) 0 (map_to_list m).

Lemma total_lag_Permutation v tmin (l l' : list (Z * Process)) :
  l ≡ₚ l' → foldr (λ e acc, lag v tmin e.2 + acc) 0 l =
            foldr (λ e acc, lag v tmin e.2 + acc) 0 l'.
Proof. intros Hp. induction Hp; simpl; lia. Qed.

Lemma total_lag_delete v tmin m i q :
  m !! i = Some q → total_lag v tmin m = lag v tmin q + total_lag v tmin (delete i m).
Proof.
  intros Hi. unfold total_lag.
  by rewrite <- (total_lag_Permutation _ _ _ _ (map_to_list_delete m i q Hi)).
Qed.

Lemma total_lag_update v tmin m i q q' :
  m !! i = Some q →
  total_lag v tmin (<[i := q']> m) = total_lag v tmin m - lag v tmin q + lag v tmin q'.
Proof.
  intros Hi. rewrite (total_lag_delete v tmin m i q Hi).
  rewrite (total_lag_delete v tmin (<[i := q']> m) i q') by apply lookup_insert_eq.
  rewrite delete_insert_eq. lia.
Qed.

Lemma lag_nonneg v tmin q : 0 < tmin → 0 <= lag v tmin q.
Proof.
  intros Ht. unfold lag. destruct (_ && _) eqn:E; [|done]. reflect_bools.
  assert (0 <= (v - vruntime q) / tmin) by (apply Z.div_pos; lia). lia.
Qed.

Lemma total_lag_nonneg v tmin m : 0 < tmin → 0 <= total_lag v tmin m.
Proof.
  intros Ht. unfold total_lag. induction (map_to_list m) as [|e l IH]; simpl; [done|].
  pose proof (lag_nonneg v tmin e.2 Ht). lia.
Qed.

(** Running a process with no more runtime than [v] uses up one unit of its lag. *)
Lemma lag_decreases v tmin q t :
  0 < tmin → tmin <= t → class q = Normal → vruntime q <= v →
  lag v tmin (set_vruntime q (vruntime q + t)) + 1 <= lag v tmin q.
Proof.
  intros Ht Htt Hc Hv. unfold lag. simpl. rewrite Hc. simpl.
  rewrite (proj2 (Z.leb_le (vruntime q) v)) by done.
  destruct (vruntime q + t <=? v) eqn:E; reflect_bools.
  - assert ((v - (vruntime q + t)) / tmin + 1 <= (v - vruntime q) / tmin); [|lia].
    rewrite <- Z.div_add by lia. apply Z.div_le_mono; lia.
  - assert (0 <= (v - vruntime q) / tmin) by (apply Z.div_pos; lia). lia.
Qed.

Definition no_real_time (rq : RunQueue) : Prop :=
  ∀ i p d, processes rq !! i = Some p → class p ≠ RealTime d.

Section progress.
Context `{Profile}.

Lemma update_vruntime_normal rq i p t :
  processes rq !! i = Some p → class p = Normal → 0 <= vruntime p + t < 2 ^ 64 →
  update_vruntime rq i t =
    Ret (mkRunQueue (<[i := set_vruntime p (vruntime p + t)]> (processes rq))
           (real_time_order rq)
           (<[(vruntime p + t, i) := tt]> (delete (vruntime p, i) (normal_order rq)))).
Proof.
  intros Hi Hc Hv. unfold update_vruntime. rewrite Hi, Hc. simpl.
  by rewrite u64_add_ret by done.
Qed.

(** A process waits for at most [total_lag] dispatches, and no dispatch before
    its turn overflows. *)
Lemma dispatch_reaches times rq i p tmin :
  rq_wf rq → no_real_time rq → processes rq !! i = Some p → class p = Normal →
  0 < tmin → Forall (λ t, tmin <= t ∧ vruntime p + t < 2 ^ 64) times →
  (∀ j q, processes rq !! j = Some q → 0 <= vruntime q) →
  total_lag (vruntime p) tmin (delete i (processes rq)) < Z.of_nat (length times) →
  ∃ n rq' picks, dispatch (take n times) rq = Ret (rq', picks ++ [i]) ∧ (i ∉ picks) ∧
    Z.of_nat (length picks) <= total_lag (vruntime p) tmin (delete i (processes rq)).
Proof.
  intros Hwf Hno Hi Hc Ht Htimes. revert rq Hwf Hno Hi.
  induction Htimes as [|t times [Htt Hov] _ IH]; intros rq Hwf Hno Hi Hnn Hlag.
  { pose proof (total_lag_nonneg (vruntime p) tmin (delete i (processes rq)) Ht).
    simpl in Hlag. lia. }
  destruct (pick_next_task_cases rq Hwf) as [(d & j & q & _ & Hj & Hq & _)|[_ [Hpick|[_ Hidle]]]].
  { by destruct (Hno j q d Hj). }
  2:{ rewrite (Hidle i p Hi) in Hc. done. }
  destruct Hpick as (j & q & Hpick & Hj & Hq & Hmin).
  pose proof (Hmin i p Hi Hc) as Hle. unfold key_le in Hle. simpl in Hle.
  pose proof (Hnn j q Hj) as Hq0.
  pose proof (update_vruntime_normal rq j q t Hj Hq ltac:(lia)) as Hupd.
  destruct (decide (j = i)) as [->|Hne].
  { eexists 1%nat, _, []. cbn [take dispatch]. rewrite Hpick, Hupd. cbn.
    split_and!; [done|set_solver|by apply total_lag_nonneg]. }
  set (rq1 := mkRunQueue _ _ _) in Hupd.
  assert (processes rq1 = <[j := set_vruntime q (vruntime q + t)]> (processes rq)) as Hp1 by done.
  assert (delete i (processes rq1) =
          <[j := set_vruntime q (vruntime q + t)]> (delete i (processes rq))) as Hdel
    by (rewrite Hp1; by rewrite delete_insert_ne).
  assert (total_lag (vruntime p) tmin (delete i (processes rq1)) + 1 <=
          total_lag (vruntime p) tmin (delete i (processes rq))) as Hdec.
  { rewrite Hdel, (total_lag_update _ _ _ j q) by (by rewrite lookup_delete_ne).
    pose proof (lag_decreases (vruntime p) tmin q t Ht Htt Hq ltac:(lia)). lia. }
  destruct (IH rq1) as (n & rq' & picks & Hd & Hnin & Hlen).
  - by eapply update_vruntime_wf.
  - intros k r d. rewrite Hp1. intros [[<- <-]|[_ Hk]]%lookup_insert_Some; [|by eapply Hno].
    simpl. congruence.
  - by rewrite Hp1, lookup_insert_ne.
  - intros k r. rewrite Hp1. intros [[<- <-]|[_ Hk]]%lookup_insert_Some; [|by eapply Hnn].
    simpl. lia.
  - simpl in Hlag. lia.
  - exists (S n), rq', (j :: picks). cbn [take dispatch]. rewrite Hpick, Hupd. cbn.
    rewrite Hd. cbn. split_and!; [done|set_solver|lia].
Qed.
End progress.

(** ** Reachable queues *)

Definition op_ok (rq : RunQueue) (op : rq_op) : Prop :=
  match op with
  | RqAdd p => processes rq !! pid p = None
  | _ => True
  end.

(** Runs in which a process is only added when its pid is not in the queue, as
    the kernel's never-reused pids guarantee. *)
Inductive rq_steps `{Profile} : RunQueue → list rq_op → RunQueue → Prop :=
| rq_steps_nil rq : rq_steps rq [] rq
| rq_steps_cons rq op rq1 ops rq2 :
    op_ok rq op → rq_step op rq = Ret rq1 → rq_steps rq1 ops rq2 →
    rq_steps rq (op :: ops) rq2.

(** Runs computed, for concrete queues. *)
Fixpoint rq_exec `{Profile} (ops : list rq_op) (rq : RunQueue) : option RunQueue :=
  match ops with
  | [] => Some rq
  | op :: ops' =>
      if match op with RqAdd p => bool_decide (processes rq !! pid p = None) | _ => true end
      then match rq_step op rq with
           | Ret rq1 => rq_exec ops' rq1
           | _ => None
           end
      else None
  end.

Lemma rq_exec_steps `{Profile} ops rq rq' : rq_exec ops rq = Some rq' → rq_steps rq ops rq'.
Proof.
  revert rq. induction ops as [|op ops IH]; intros rq; simpl.
  - intros [= <-]. apply rq_steps_nil.
  - destruct (rq_step op rq) as [rq1| |] eqn:E; intros Hx; [|by destruct op; repeat case_match..].
    apply rq_steps_cons with rq1; [|done|].
    + destruct op; [|done..]. simpl. by case_bool_decide.
    + apply IH. by destruct op; repeat case_match.
Qed.

Definition adds_pid (i : Z) (op : rq_op) : Prop :=
  match op with
  | RqAdd p => pid p = i
  | _ => False
  end.

Section reachable.
Context `{Profile}.

Lemma rq_steps_wf rq ops rq' : rq_wf rq → rq_steps rq ops rq' → rq_wf rq'.
Proof.
  intros Hwf Hs. induction Hs as [|rq op rq1 ops rq2 Hop Hstep _ IH]; [done|].
  apply IH. by eapply rq_step_wf.
Qed.

(** Only an addition puts a pid into the table. *)
Lemma rq_step_absent op rq rq' i :
  processes rq !! i = None → ¬ adds_pid i op → rq_step op rq = Ret rq' →
  processes rq' !! i = None.
Proof.
  intros Hi Hop Hs. destruct op as [p|j|j t]; simpl in *.
  - injection Hs as <-. unfold add_process. destruct (class p); simpl;
      by rewrite lookup_insert_ne.
  - injection Hs as <-. unfold remove_process.
    destruct (processes rq !! j) as [q|]; [|done].
    destruct (class q); simpl; apply lookup_delete_None; by right.
  - apply update_vruntime_inv in Hs as [->|(p & v & Hj & _ & _ & ->)]; [done|]. simpl.
    rewrite lookup_insert_ne; [done|]. congruence.
Qed.

Lemma rq_steps_absent rq ops rq' i :
  processes rq !! i = None → Forall (λ op, ¬ adds_pid i op) ops →
  rq_steps rq ops rq' → processes rq' !! i = None.
Proof.
  intros Hi Hops Hs. induction Hs as [|rq op rq1 ops rq2 _ Hstep _ IH]; [done|].
  apply Forall_cons in Hops as [Hop Hops]. apply IH; [|done]. by eapply rq_step_absent.
Qed.

Lemma pick_next_task_present rq i :
  rq_wf rq → pick_next_task rq = Some i → is_Some (processes rq !! i).
Proof.
  intros Hwf Hp. destruct (pick_next_task_cases rq Hwf)
    as [(d & j & q & Hj & Hq & _)|[_ [(j & q & Hj & Hq & _)|[Hn _]]]]; [| |congruence];
    rewrite Hp in Hj; injection Hj as <-; eauto.
Qed.

Lemma remove_process_absent rq i : processes (remove_process rq i).1 !! i = None.
Proof.
  unfold remove_process. destruct (processes rq !! i) as [q|] eqn:E; [|done].
  destruct (class q); simpl; apply lookup_delete_eq.
Qed.
End reachable.

(** ** Properties *)

(** [C36] The hybrid policy, in every queue reached by adding, removing and charging
    processes in any order, as long as a process is only added when its pid is not in
    the queue (the kernel's pids are never reused; adding a pid that is still queued
    leaves its old key behind, [readd_leaves_stale_key], and then the claim fails): if
    a real-time process is queued the pick is the one with the earliest deadline,
    otherwise the normal process with the least virtual runtime (ties by pid), and
    nothing is picked exactly when every queued process is idle. *)
Theorem pick_is_edf_then_cfs `{Profile} ops rq (Hrun : rq_steps RunQueue_new ops rq) :
  match pick_next_task rq with
  | Some i => ∃ p, processes rq !! i = Some p ∧
      ((∃ d, class p = RealTime d ∧ ∀ j q d',
          processes rq !! j = Some q → class q = RealTime d' → key_le (d, i) (d', j)) ∨
       (class p = Normal ∧ no_real_time rq ∧ ∀ j q,
          processes rq !! j = Some q → class q = Normal →
          key_le (vruntime p, i) (vruntime q, j)))
  | None => ∀ j q, processes rq !! j = Some q → class q = Idle
  end.
Proof.
  assert (rq_wf rq) as Hwf by (eapply rq_steps_wf; [apply rq_wf_new|done]).
  destruct (pick_next_task_cases rq Hwf)
    as [(d & i & p & -> & Hi & Hc & Hmin)|[Hno [(i & p & -> & Hi & Hc & Hmin)|[-> Hidle]]]].
  - exists p. split; [done|]. left. eauto.
  - exists p. split; [done|]. right. eauto.
  - done.
Qed.

Definition demo_queue : RunQueue :=
  add_process (add_process (add_process RunQueue_new (mkProcess 1 Normal Ready 0))
    (mkProcess 2 (RealTime 1000000) Ready 0)) (mkProcess 3 (RealTime 500) Ready 0).

Lemma pick_is_edf_then_cfs_witness :
  pick_next_task demo_queue = Some 3 ∧
  ∃ p d, processes demo_queue !! 3 = Some p ∧ class p = RealTime d.
Proof.
  assert (@rq_steps true RunQueue_new
            [RqAdd (mkProcess 1 Normal Ready 0); RqAdd (mkProcess 2 (RealTime 1000000) Ready 0);
             RqAdd (mkProcess 3 (RealTime 500) Ready 0)] demo_queue) as Hrun.
  { apply rq_exec_steps. vm_compute. reflexivity. }
  pose proof (@pick_is_edf_then_cfs true _ _ Hrun) as Hspec.
  assert (pick_next_task demo_queue = Some 3) as Hpick by (vm_compute; reflexivity).
  rewrite Hpick in Hspec. split; [exact Hpick|].
  destruct Hspec as (p & Hp & [(d & Hd & _)|(Hc & _)]); [exists p, d; exact (conj Hp Hd)|].
  vm_compute in Hp. injection Hp as <-. discriminate Hc.
Defined.

(** [C7] No starvation, in every queue whose processes were only added while their pid
    was not queued (a process added twice leaves a stale key, which can be picked for
    ever): as long as no real-time process is queued, which would always be preferred,
    a normal process with virtual runtime [v] is dispatched after at most [total_lag]
    other dispatches, where each other process counts [(v - its runtime) / tmin + 1] if
    it is not ahead of [v]; every dispatch is charged at least [tmin], and no more
    than [v] leaves room for below 2^64, so that no virtual runtime overflows. *)
Theorem no_starvation `{Profile} ops rq i p tmin times
    (Hrun : rq_steps RunQueue_new ops rq) (Hno : no_real_time rq)
    (Hi : processes rq !! i = Some p) (Hc : class p = Normal) (Ht : 0 < tmin)
    (Hnn : ∀ j q, processes rq !! j = Some q → 0 <= vruntime q)
    (Htimes : Forall (λ t, tmin <= t ∧ vruntime p + t < 2 ^ 64) times)
    (Hlong : total_lag (vruntime p) tmin (delete i (processes rq)) < Z.of_nat (length times)) :
  ∃ n rq' picks, dispatch (take n times) rq = Ret (rq', picks ++ [i]) ∧ (i ∉ picks) ∧
    Z.of_nat (length picks) <= total_lag (vruntime p) tmin (delete i (processes rq)).
Proof.
  apply dispatch_reaches; try done. eapply rq_steps_wf; [apply rq_wf_new|done].
Qed.

(** Five fresh processes, each run charged 10, as in the source's test. *)
Definition five_tasks : RunQueue :=
  foldr (λ i rq, add_process rq (mkProcess i Normal Ready 0)) RunQueue_new [1; 2; 3; 4; 5].

Lemma no_starvation_witness :
  ∃ n rq' picks, @dispatch true (take n (replicate 5 10)) five_tasks = Ret (rq', picks ++ [5]) ∧
    (5 ∉ picks) ∧ Z.of_nat (length picks) <= 4.
Proof.
  assert (total_lag 0 10 (delete 5 (processes five_tasks)) = 4) as <-
    by (vm_compute; reflexivity).
  refine (@no_starvation true
    (RqAdd <$> ((λ i, mkProcess i Normal Ready 0) <$> [5; 4; 3; 2; 1])) five_tasks 5
    (mkProcess 5 Normal Ready 0) 10 (replicate 5 10) _ _ _ _ _ _ _ _).
  - apply rq_exec_steps. vm_compute. reflexivity.
  - intros j q d Hj Hq. assert (map_Forall (λ _ q, class q = Normal) (processes five_tasks)) as Hall
      by (apply map_Forall_to_list; vm_compute; repeat constructor).
    rewrite (Hall j q Hj) in Hq. discriminate Hq.
  - vm_compute. reflexivity.
  - reflexivity.
  - reflexivity.
  - intros j q Hj. assert (map_Forall (λ _ q, 0 <= vruntime q) (processes five_tasks)) as Hall
      by (apply map_Forall_to_list; vm_compute; repeat constructor; discriminate).
    exact (Hall j q Hj).
  - repeat constructor; discriminate.
  - vm_compute. reflexivity.
Defined.

(** A removed process is gone: until its pid is added again it is never
    picked, whatever else is added, removed or charged. *)
Theorem removed_never_picked `{Profile} ops rq i ops' rq'
    (Hrun : rq_steps RunQueue_new ops rq)
    (Hrun' : rq_steps (remove_process rq i).1 ops' rq')
    (Hno : Forall (λ op, ¬ adds_pid i op) ops') :
  get rq' i = None ∧ pick_next_task rq' ≠ Some i.
Proof.
  assert (rq_wf rq) as Hwf by (eapply rq_steps_wf; [apply rq_wf_new|done]).
  assert (rq_wf rq') as Hwf'
    by (eapply rq_steps_wf; [by apply remove_process_wf|done]).
  assert (processes rq' !! i = None) as Hi
    by (eapply rq_steps_absent; [apply remove_process_absent|done..]).
  split; [done|]. intros Hp%pick_next_task_present; [|done].
  rewrite Hi in Hp. by destruct Hp.
Qed.

Lemma removed_never_picked_witness :
  pick_next_task (remove_process demo_queue 3).1 ≠ Some 3.
Proof.
  refine (proj2 (@removed_never_picked true
    [RqAdd (mkProcess 1 Normal Ready 0); RqAdd (mkProcess 2 (RealTime 1000000) Ready 0);
     RqAdd (mkProcess 3 (RealTime 500) Ready 0)] demo_queue 3 [] _ _ _ _)).
  - apply rq_exec_steps. vm_compute. reflexivity.
  - apply rq_steps_nil.
  - constructor.
Defined.

(** The freshness requirement is needed: adding a pid that is queued under
    another key leaves its old key in the index, and once the process is removed
    the pick is a pid that is not in the table. *)
Theorem readd_leaves_stale_key `{Profile} i d d' st st' v v'
    (Hd : d ≠ d') :
  let rq := add_process RunQueue_new (mkProcess i (RealTime d) st v) in
  let rq := add_process rq (mkProcess i (RealTime d') st' v') in
  let rq := (remove_process rq i).1 in
  pick_next_task rq = Some i ∧ get rq i = None.
Proof.
  cbn. unfold remove_process. simpl. rewrite lookup_insert_eq. simpl.
  unfold pick_next_task, get. simpl. split; [|by apply lookup_delete_eq].
  assert (btree_first key_le
            (delete (d', i) (<[(d', i) := tt]> (<[(d, i) := tt]> (∅ : gmap (Z * Z) unit)))) =
          Some ((d, i), tt)) as ->; [|done].
  apply btree_first_Some; [apply _|]. rewrite delete_insert_eq, delete_id.
  - split; [apply lookup_insert_eq|]. intros k [u Hu].
    apply lookup_singleton_Some in Hu as [<- _]. reflexivity.
  - by rewrite lookup_insert_ne by congruence.
Qed.

Lemma readd_leaves_stale_key_witness :
  pick_next_task (remove_process (add_process (add_process RunQueue_new
    (mkProcess 7 (RealTime 1) Ready 0)) (mkProcess 7 (RealTime 2) Ready 0)) 7).1 = Some 7.
Proof. refine (proj1 (@readd_leaves_stale_key true 7 1 2 Ready Ready 0 0 _)). done. Defined.
