(* ===== verification/VirtualMemory.v ===== *)
(** * Process address spaces

    Model of [PageTable], [VMemRegion] and [ProcessMemoryContext] of
    [src/reference-rs/src/memory.rs]: capability-checked allocation of mapped
    regions on top of the physical allocator, their release, and the fault
    handler. *)
From S2P Require Import Prelude Capability Buddy.

Record MemoryAccess := mkAccess {
  acc_read : bool;
  acc_write : bool;
  acc_execute : bool;
  acc_user : bool;
}.

Record Mapping := mkMapping { phys : Z; access : MemoryAccess }.

(** [BTreeMap<VirtAddr, Mapping>] behind its methods. *)
Record PageTable := mkPageTable { mappings : gmap Z Mapping }.

Definition PageTable_new : PageTable := mkPageTable ∅.

Definition map_page (self : PageTable) (vaddr paddr : Z) (a : MemoryAccess) : PageTable :=
  mkPageTable (<[vaddr := mkMapping paddr a]> self.(mappings)).

Definition unmap_page (self : PageTable) (vaddr : Z) : PageTable * result Z MemoryError :=
  (mkPageTable (delete vaddr self.(mappings)),
   ok_or (phys <$> self.(mappings) !! vaddr) Unmapped).

Definition translate (self : PageTable) (vaddr : Z) (want : MemoryAccess) :
    result Z MemoryError :=
  match self.(mappings) !! vaddr with
  | None => Err Unmapped
  | Some mapping =>
      if (negb want.(acc_read) || mapping.(access).(acc_read))
         && (negb want.(acc_write) || mapping.(access).(acc_write))
         && (negb want.(acc_execute) || mapping.(access).(acc_execute))
      then Ok mapping.(phys)
      else Err AccessViolation
  end.

Record VMemRegion := mkRegion { rg_start : Z; rg_end : Z; rg_access : MemoryAccess }.

Record ProcessMemoryContext := mkContext {
  pid : Z;
  page_table : PageTable;
  regions : list VMemRegion;
  next_addr : Z;
}.

Definition ProcessMemoryContext_new (pid heap_start : Z) : ProcessMemoryContext :=
  mkContext pid PageTable_new [] heap_start.

Definition set_page_table (self : ProcessMemoryContext) (pt : PageTable) :
    ProcessMemoryContext :=
  mkContext self.(pid) pt self.(regions) self.(next_addr).

(** The context and the physical allocator a method mutates. *)
Definition mem : Type := ProcessMemoryContext * PhysicalAllocator.

Definition heap_permissions (a : MemoryAccess) : Permissions :=
  mkPermissions true a.(acc_write) a.(acc_execute) false true false false false.

Section operations.
Context `{Profile}.

(** The body of the mapping loop of [allocate_virtual]. *)
Definition map_body (vaddr : Z) (a : MemoryAccess) (i : Z) (s : mem) :
    outcome (mem * result unit MemoryError) :=
  r ← allocate s.2 0;
  let s := (s.1, r.1) in
  let? paddr := r.2 with s in
  off ← u64_mul i PAGE_SIZE;
  v ← u64_add vaddr off;
  Ret ((set_page_table s.1 (map_page s.1.(page_table) v paddr a), s.2), Ok tt).

Definition allocate_virtual (s : mem) (caps : CapabilityBroker) (size : Z)
    (a : MemoryAccess) (now : Z) :
    outcome (mem * CapabilityBroker * result Z MemoryError) :=
  let (caps, decision) :=
    check_access caps s.1.(pid) ResMemory "heap" (heap_permissions a) now in
  if negb (bool_decide (decision = Allowed))
  then Ret (s, caps, Err CapabilityDenied)
  else
    let page_count := div_ceil size PAGE_SIZE in
    let vaddr := s.1.(next_addr) in
    r ← for_each (map_body vaddr a) (seqZ 0 page_count) s;
    let s := r.1 in
    let? _ := r.2 with (s, caps) in
    bytes ← u64_mul page_count PAGE_SIZE;
    next ← u64_add s.1.(next_addr) bytes;
    fin ← u64_add vaddr size;
    Ret ((mkContext s.1.(pid) s.1.(page_table)
            (vec_push s.1.(regions) (mkRegion vaddr fin a)) next, s.2), caps, Ok vaddr).

(** The body of the unmapping loop of [deallocate_virtual]. *)
Definition unmap_body (start i : Z) (s : mem) : outcome (mem * result unit MemoryError) :=
  off ← u64_mul i PAGE_SIZE;
  page_vaddr ← u64_add start off;
  let r := unmap_page s.1.(page_table) page_vaddr in
  let s := (set_page_table s.1 r.1, s.2) in
  let? paddr := r.2 with s in
  d ← deallocate s.2 paddr;
  Ret ((s.1, d.1), d.2).

Definition deallocate_virtual (s : mem) (vaddr : Z) :
    outcome (mem * result unit MemoryError) :=
  match position (λ r, r.(rg_start) =? vaddr) s.1.(regions) with
  | None => Ret (s, Err RegionNotFound)
  | Some idx =>
      match s.1.(regions) !! idx with
      | None => Panic
      | Some region =>
          let c := mkContext s.1.(pid) s.1.(page_table) (delete idx s.1.(regions))
                     s.1.(next_addr) in
          n ← u64_sub region.(rg_end) region.(rg_start);
          for_each (unmap_body region.(rg_start)) (seqZ 0 (div_ceil n PAGE_SIZE)) (c, s.2)
      end
  end.

Definition handle_page_fault (s : mem) (vaddr : Z) (is_write : bool) :
    outcome (mem * result unit MemoryError) :=
  match List.find (λ r, (r.(rg_start) <=? vaddr) && (vaddr <? r.(rg_end))) s.1.(regions) with
  | None => Ret (s, Err Unmapped)
  | Some region =>
      if is_write && negb region.(rg_access).(acc_write)
      then Ret (s, Err AccessViolation)
      else
        let page_vaddr := vaddr - vaddr mod PAGE_SIZE in
        r ← allocate s.2 0;
        let s := (s.1, r.1) in
        let? paddr := r.2 with s in
        Ret ((set_page_table s.1
                (map_page s.1.(page_table) page_vaddr paddr region.(rg_access)), s.2), Ok tt)
  end.
End operations.

(** ** Page tables *)

#[export] Instance page_table_lookup : Lookup Z Mapping PageTable :=
  λ k pt, pt.(mappings) !! k.

Lemma translate_lookup pt k want :
  translate pt k want =
  match pt !! k with
  | None => Err Unmapped
  | Some m =>
      if (negb (acc_read want) || acc_read (access m)) && (negb (acc_write want) || acc_write (access m))
         && (negb (acc_execute want) || acc_execute (access m))
      then Ok (phys m) else Err AccessViolation
  end.
Proof. reflexivity. Qed.

(** The table without a page, whether it was mapped or not. *)
Definition unmapped (k : Z) (pt : PageTable) : PageTable := (unmap_page pt k).1.

Lemma page_table_eq (pt pt' : PageTable) : (∀ k, pt !! k = pt' !! k) → pt = pt'.
Proof.
  destruct pt as [m], pt' as [m']. intros Hk. f_equal. apply map_eq. intros k. exact (Hk k).
Qed.

Lemma lookup_new k : PageTable_new !! k = None.
Proof. apply lookup_empty. Qed.

Lemma lookup_map_page pt k f a : map_page pt k f a !! k = Some (mkMapping f a).
Proof. apply lookup_insert_eq. Qed.

Lemma lookup_map_page_ne pt k k' f a : k ≠ k' → map_page pt k f a !! k' = pt !! k'.
Proof. apply lookup_insert_ne. Qed.

Lemma lookup_unmapped pt k : unmapped k pt !! k = None.
Proof. apply lookup_delete_eq. Qed.

Lemma lookup_unmapped_ne pt k k' : k ≠ k' → unmapped k pt !! k' = pt !! k'.
Proof. apply lookup_delete_ne. Qed.

Lemma unmap_page_ret pt k f :
  phys <$> pt !! k = Some f → unmap_page pt k = (unmapped k pt, Ok f).
Proof. intros Hf. unfold unmapped, unmap_page. unfold lookup, page_table_lookup in Hf. by rewrite Hf. Qed.

(** ** Ranges of pages *)

Definition page_at (v i : Z) : Z := v + i * PAGE_SIZE.

(** The table after mapping frames [fs] at the pages from [page_at v i] on. *)
Fixpoint map_pages (pt : PageTable) (v i : Z) (fs : list Z) (a : MemoryAccess) : PageTable :=
  match fs with
  | [] => pt
  | f :: fs' => map_pages (map_page pt (page_at v i) f a) v (i + 1) fs' a
  end.

Fixpoint unmap_pages (pt : PageTable) (v i : Z) (n : nat) : PageTable :=
  match n with
  | O => pt
  | S n' => unmap_pages (unmapped (page_at v i) pt) v (i + 1) n'
  end.

Definition add_frames (live : gmap Z Z) (fs : list Z) : gmap Z Z :=
  foldl (λ m f, <[f := 0]> m) live fs.
Definition drop_frames (live : gmap Z Z) (fs : list Z) : gmap Z Z :=
  foldl (λ m f, delete f m) live fs.

Lemma page_at_inj v i j : page_at v i = page_at v j → i = j.
Proof. unfold page_at, PAGE_SIZE. lia. Qed.

Lemma map_pages_in pt v i fs a j f :
  fs !! j = Some f → map_pages pt v i fs a !! page_at v (i + Z.of_nat j) = Some (mkMapping f a).
Proof.
  revert pt i fs. induction j as [|j IH]; intros pt i [|f' fs] Hj; simpl in *; try done.
  - injection Hj as ->. rewrite Z.add_0_r.
    assert (∀ fs pt k, i < k → map_pages pt v k fs a !! page_at v i = pt !! page_at v i) as Hkeep.
    { clear. induction fs as [|f fs IH]; intros pt k Hk; simpl; [done|].
      rewrite IH by lia. rewrite lookup_map_page_ne; [done|].
      intros ?%page_at_inj. lia. }
    rewrite Hkeep by lia. apply lookup_map_page.
  - replace (i + Z.of_nat (S j)) with (i + 1 + Z.of_nat j) by lia. by apply IH.
Qed.

Lemma map_pages_out pt v i fs a k :
  (∀ j, i <= j < i + Z.of_nat (length fs) → k ≠ page_at v j) →
  map_pages pt v i fs a !! k = pt !! k.
Proof.
  revert pt i. induction fs as [|f fs IH]; intros pt i Hk; simpl in *; [done|].
  rewrite IH by (intros j Hj; apply Hk; lia). 
  apply lookup_map_page_ne. apply not_eq_sym, Hk. lia.
Qed.

Lemma unmap_pages_out pt v i n k :
  (∀ j, i <= j < i + Z.of_nat n → k ≠ page_at v j) → unmap_pages pt v i n !! k = pt !! k.
Proof.
  revert pt i. induction n as [|n IH]; intros pt i Hk; simpl; [done|].
  rewrite IH by (intros j Hj; apply Hk; lia).
  apply lookup_unmapped_ne. apply not_eq_sym, Hk. lia.
Qed.

Lemma unmap_pages_in pt v i n j :
  i <= j < i + Z.of_nat n → unmap_pages pt v i n !! page_at v j = None.
Proof.
  revert pt i. induction n as [|n IH]; intros pt i Hj; simpl; [lia|].
  destruct (Z.eq_dec j i) as [->|Hne]; [|apply IH; lia].
  rewrite unmap_pages_out; [apply lookup_unmapped|].
  intros k Hk ?%page_at_inj. lia.
Qed.

(** Unmapping what was mapped over unmapped pages gives the table back. *)
Lemma unmap_map_pages pt v i fs a :
  (∀ j, i <= j < i + Z.of_nat (length fs) → pt !! page_at v j = None) →
  unmap_pages (map_pages pt v i fs a) v i (length fs) = pt.
Proof.
  intros Hnone. apply page_table_eq. intros k.
  destruct (decide (Exists (λ j, k = page_at v j) (seqZ i (Z.of_nat (length fs))))) as [He|He].
  - apply Exists_exists in He as (j & Hj%elem_of_seqZ & ->).
    by rewrite unmap_pages_in, Hnone by lia.
  - assert (∀ j, i <= j < i + Z.of_nat (length fs) → k ≠ page_at v j) as Hk.
    { intros j Hj ->. apply He, Exists_exists. exists j. split; [|done].
      apply elem_of_seqZ. lia. }
    by rewrite unmap_pages_out, map_pages_out.
Qed.

Lemma add_frames_lookup live fs f :
  add_frames live fs !! f = if bool_decide (f ∈ fs) then Some 0 else live !! f.
Proof.
  unfold add_frames. revert live. induction fs as [|f' fs IH]; intros live; simpl.
  - done.
  - rewrite IH, lookup_insert. repeat case_bool_decide; try case_decide; set_solver.
Qed.

Lemma drop_frames_lookup live fs f :
  drop_frames live fs !! f = if bool_decide (f ∈ fs) then None else live !! f.
Proof.
  unfold drop_frames. revert live. induction fs as [|f' fs IH]; intros live; simpl.
  - done.
  - rewrite IH, lookup_delete. repeat case_bool_decide; try case_decide; set_solver.
Qed.

Lemma drop_add_frames live fs :
  (∀ f, f ∈ fs → live !! f = None) → drop_frames (add_frames live fs) fs = live.
Proof.
  intros Hnew. apply map_eq. intros f. rewrite drop_frames_lookup, add_frames_lookup.
  case_bool_decide as Hf; [by rewrite Hnew|done].
Qed.

(** Taking [f] and then the fresh frames [fs] takes fresh frames. *)
Lemma fresh_cons live live1 f fs :
  live !! f = None → live1 = <[f := 0]> live → NoDup fs → (∀ g, g ∈ fs → live1 !! g = None) →
  NoDup (f :: fs) ∧ (∀ g, g ∈ f :: fs → live !! g = None) ∧ add_frames live1 fs = add_frames live (f :: fs).
Proof.
  intros Hf -> Hnd Hnew. split_and!; [constructor; [|done]| |done].
  - intros Hin%Hnew. by rewrite lookup_insert_eq in Hin.
  - intros g [->|Hg]%elem_of_cons; [done|]. specialize (Hnew g Hg).
    by apply lookup_insert_None in Hnew as [? _].
Qed.

(** ** The mapping and unmapping loops *)

Section loops.
Context `{Profile}.

Lemma seqZ_S_cons i n : seqZ i (Z.of_nat (S n)) = i :: seqZ (i + 1) (Z.of_nat n).
Proof. rewrite seqZ_cons by lia. f_equal. f_equal; lia. Qed.

Lemma map_body_ret c s v a i :
  phys_wf s → live_pages s < total_pages s → 0 <= v → 0 <= i → page_at v i < 2 ^ 64 →
  ∃ s' f, map_body v a i (c, s) =
      Ret ((set_page_table c (map_page (page_table c) (page_at v i) f a), s'), Ok tt) ∧
    same_frames s s' ∧ live_blocks s !! f = None ∧
    live_blocks s' = <[f := 0]> (live_blocks s).
Proof.
  unfold page_at, PAGE_SIZE. intros Hs Hlt Hv Hi Hfit.
  destruct (allocate_frame s Hs Hlt) as (s' & f & Ha & Hsame & Hf & Hl).
  exists s', f. split_and!; try done; [|apply Hsame..]. unfold map_body, PAGE_SIZE. simpl.
  rewrite Ha. simpl. rewrite u64_mul_ret by lia. simpl. by rewrite u64_add_ret by lia.
Qed.

Lemma map_body_exhausted c s v a i :
  phys_wf s → live_pages s = total_pages s →
  map_body v a i (c, s) = Ret ((c, s), Err OutOfMemory).
Proof.
  intros Hs Hfull. unfold map_body. cbn [fst snd].
  by rewrite (allocate_exhausted s Hs Hfull).
Qed.

Lemma map_loop_ret n c s v a i :
  phys_wf s → live_pages s + Z.of_nat n <= total_pages s → 0 <= v → 0 <= i →
  page_at v (i + Z.of_nat n) < 2 ^ 64 →
  ∃ fs s', for_each (map_body v a) (seqZ i (Z.of_nat n)) (c, s) =
      Ret ((set_page_table c (map_pages (page_table c) v i fs a), s'), Ok tt) ∧
    length fs = n ∧ NoDup fs ∧ (∀ f, f ∈ fs → live_blocks s !! f = None) ∧
    same_frames s s' ∧ live_blocks s' = add_frames (live_blocks s) fs.
Proof.
  revert c s i. induction n as [|n IH]; intros c s i Hs Hroom Hv Hi Hfit.
  - exists [], s. destruct c. split_and!; try done; [constructor|set_solver].
  - rewrite seqZ_S_cons. simpl.
    destruct (map_body_ret c s v a i) as (s1 & f & -> & Hsame & Hf & Hl);
      [done|lia|done|done|unfold page_at, PAGE_SIZE in *; lia|]. simpl.
    pose proof (live_pages_insert s s1 f 0 Hf Hl) as Hp. change (2 ^ 0) with 1 in Hp.
    pose proof Hsame as (Hs1 & _ & Ht1).
    destruct (IH (set_page_table c (map_page (page_table c) (page_at v i) f a)) s1 (i + 1))
      as (fs & s2 & -> & Hlen & Hnd & Hnew & Hsame2 & Hl2);
      [done|lia|done|lia|by replace (i + 1 + Z.of_nat n) with (i + Z.of_nat (S n)) by lia|].
    destruct (fresh_cons (live_blocks s) (live_blocks s1) f fs) as (Hnd' & Hnew' & Hadd); [done..|].
    exists (f :: fs), s2. split_and!; [done|simpl; lia|done|done| |by rewrite Hl2].
    by eapply same_frames_trans.
Qed.

(** Too few free frames: the loop stops with all of them taken. *)
Lemma map_loop_exhausted n c s v a i :
  phys_wf s → total_pages s < live_pages s + Z.of_nat n → 0 <= v → 0 <= i →
  page_at v (i + Z.of_nat n) < 2 ^ 64 →
  ∃ fs s', for_each (map_body v a) (seqZ i (Z.of_nat n)) (c, s) =
      Ret ((set_page_table c (map_pages (page_table c) v i fs a), s'), Err OutOfMemory) ∧
    Z.of_nat (length fs) = total_pages s - live_pages s ∧
    same_frames s s' ∧ live_pages s' = total_pages s ∧
    NoDup fs ∧ (∀ f, f ∈ fs → live_blocks s !! f = None) ∧
    live_blocks s' = add_frames (live_blocks s) fs.
Proof.
  revert c s i. induction n as [|n IH]; intros c s i Hs Hroom Hv Hi Hfit;
    pose proof (live_pages_le s Hs) as Hle; pose proof (pages_in_nonneg (free_blocks s)); [lia|].
  rewrite seqZ_S_cons. cbn [for_each]. destruct (Z.eq_dec (live_pages s) (total_pages s)) as [Hfull|Hne].
  - exists [], s. rewrite map_body_exhausted by done. destruct c. cbn.
    split_and!; try done; [lia|constructor|set_solver].
  - destruct (map_body_ret c s v a i) as (s1 & f & -> & Hsame & Hf & Hl);
      [done|lia|done|done|unfold page_at, PAGE_SIZE in *; lia|]. simpl.
    pose proof (live_pages_insert s s1 f 0 Hf Hl) as Hp. change (2 ^ 0) with 1 in Hp.
    pose proof Hsame as (Hs1 & _ & Ht1).
    destruct (IH (set_page_table c (map_page (page_table c) (page_at v i) f a)) s1 (i + 1))
      as (fs & s2 & -> & Hlen & Hsame2 & Hp2 & Hnd & Hnew & Hl2);
      [done|lia|done|lia|by replace (i + 1 + Z.of_nat n) with (i + Z.of_nat (S n)) by lia|].
    destruct (fresh_cons (live_blocks s) (live_blocks s1) f fs) as (Hnd' & Hnew' & Hadd); [done..|].
    exists (f :: fs), s2. split_and!; [done|simpl; lia| |lia|done|done|by rewrite Hl2].
    by eapply same_frames_trans.
Qed.

Lemma unmap_body_ret c s v i f :
  phys_wf s → 0 <= v → 0 <= i → page_at v i < 2 ^ 64 →
  phys <$> page_table c !! page_at v i = Some f → live_blocks s !! f = Some 0 →
  ∃ s', unmap_body v i (c, s) =
      Ret ((set_page_table c (unmapped (page_at v i) (page_table c)), s'), Ok tt) ∧
    phys_wf s' ∧ base s' = base s ∧ total_pages s' = total_pages s ∧
    live_blocks s' = delete f (live_blocks s).
Proof.
  intros Hs Hv Hi Hfit Hpt Hlive.
  destruct (deallocate_ret s f 0 Hs Hlive) as (s' & Hd & Hs').
  exists s'. split; [|done]. unfold unmap_body.
  unfold page_at in *. unfold PAGE_SIZE in *.
  rewrite u64_mul_ret by lia. cbn [mbind outcome_bind].
  rewrite u64_add_ret by lia. cbn [mbind outcome_bind fst snd].
  rewrite (unmap_page_ret _ _ _ Hpt). cbn [fst snd]. by rewrite Hd.
Qed.

Lemma unmap_loop_ret fs c s v i :
  phys_wf s → NoDup fs → 0 <= v → 0 <= i → page_at v (i + Z.of_nat (length fs)) < 2 ^ 64 →
  (∀ j f, fs !! j = Some f →
     phys <$> page_table c !! page_at v (i + Z.of_nat j) = Some f ∧
     live_blocks s !! f = Some 0) →
  ∃ s', for_each (unmap_body v) (seqZ i (Z.of_nat (length fs))) (c, s) =
      Ret ((set_page_table c (unmap_pages (page_table c) v i (length fs)), s'), Ok tt) ∧
    same_frames s s' ∧ live_blocks s' = drop_frames (live_blocks s) fs.
Proof.
  revert c s i. induction fs as [|f fs IH]; intros c s i Hs Hnd Hv Hi Hfit Hall.
  - exists s. destruct c. done.
  - cbn [length] in *. rewrite seqZ_S_cons. cbn [for_each].
    destruct (Hall 0%nat f eq_refl) as [Hpt Hlive]. rewrite Z.add_0_r in Hpt.
    destruct (unmap_body_ret c s v i f Hs Hv Hi) as (s1 & -> & Hs1 & Hb1 & Ht1 & Hl1);
      [unfold page_at, PAGE_SIZE in *; lia|done|done|]. cbn [mbind outcome_bind].
    apply NoDup_cons in Hnd as [Hf Hnd].
    destruct (IH (set_page_table c (unmapped (page_at v i) (page_table c))) s1 (i + 1))
      as (s2 & Hrun & Hsame & Hl2);
      [done|done|done|lia|unfold page_at, PAGE_SIZE in *; lia| |].
    { intros j g Hj. destruct (Hall (S j) g Hj) as [Hg Hg']. split.
      - simpl. rewrite lookup_unmapped_ne by (intros ?%page_at_inj; lia).
        by replace (i + 1 + Z.of_nat j) with (i + Z.of_nat (S j)) by lia.
      - rewrite Hl1, lookup_delete_ne; [done|]. intros ->. by apply list_elem_of_lookup_2 in Hj. }
    exists s2. rewrite Hrun. assert (same_frames s s1) by done.
    split_and!; [done|by eapply same_frames_trans|by rewrite Hl2, Hl1].
Qed.
End loops.

(** ** [allocate_virtual] *)

Lemma div_ceil_bounds size :
  0 <= size → 0 <= div_ceil size PAGE_SIZE ∧
  size <= div_ceil size PAGE_SIZE * PAGE_SIZE < size + PAGE_SIZE.
Proof.
  unfold div_ceil, PAGE_SIZE. intros Hs.
  pose proof (Z.div_mod (size + 0x1000 - 1) 0x1000 ltac:(lia)).
  pose proof (Z.mod_pos_bound (size + 0x1000 - 1) 0x1000 ltac:(lia)). lia.
Qed.

(** The context after a successful allocation. *)
Definition with_region (c : ProcessMemoryContext) (size : Z) (a : MemoryAccess) (fs : list Z) :
    ProcessMemoryContext :=
  mkContext (pid c) (map_pages (page_table c) (next_addr c) 0 fs a)
    (regions c ++ [mkRegion (next_addr c) (next_addr c + size) a])
    (next_addr c + div_ceil size PAGE_SIZE * PAGE_SIZE).

Lemma allocate_virtual_cases `{Profile} c s caps size a now
    (Hs : phys_wf s) (Hv : 0 <= next_addr c) (Hsize : 0 <= size)
    (Hfit : next_addr c + size + PAGE_SIZE <= 2 ^ 64) :
  let n := div_ceil size PAGE_SIZE in
  let caps' := (check_access caps (pid c) ResMemory "heap" (heap_permissions a) now).1 in
  if bool_decide (decide_access caps (pid c) ResMemory "heap" (heap_permissions a) now = Allowed)
  then ∃ fs s', same_frames s s' ∧ NoDup fs ∧ (∀ f, f ∈ fs → live_blocks s !! f = None) ∧
    live_blocks s' = add_frames (live_blocks s) fs ∧
    if live_pages s + n <=? total_pages s then
      allocate_virtual (c, s) caps size a now =
        Ret ((with_region c size a fs, s'), caps', Ok (next_addr c)) ∧ Z.of_nat (length fs) = n
    else
      allocate_virtual (c, s) caps size a now =
        Ret ((set_page_table c (map_pages (page_table c) (next_addr c) 0 fs a), s'), caps',
             Err OutOfMemory) ∧
      Z.of_nat (length fs) = total_pages s - live_pages s ∧ free_page_count s' = Ret 0
  else allocate_virtual (c, s) caps size a now = Ret ((c, s), caps', Err CapabilityDenied).
Proof.
  intros n caps'. destruct (div_ceil_bounds size Hsize) as [Hn Hb]. fold n in Hn, Hb.
  unfold allocate_virtual. cbn [fst snd check_access]. fold n.
  destruct (bool_decide (decide_access _ _ _ _ _ _ = Allowed)); cbn [negb]; [|done].
  assert (n = Z.of_nat (Z.to_nat n)) as Hnn by lia.
  assert (page_at (next_addr c) (0 + Z.of_nat (Z.to_nat n)) < 2 ^ 64) as Hpage
    by (unfold page_at, PAGE_SIZE in *; lia).
  destruct (live_pages s + n <=? total_pages s) eqn:E; reflect_bools.
  - destruct (map_loop_ret (Z.to_nat n) c s (next_addr c) a 0)
      as (fs & s' & Hloop & Hlen & Hnd & Hnew & Hsame & Hl); [done|lia|done|done|done|].
    exists fs, s'. do 4 (split; [done|]). rewrite <- Hnn in Hloop. rewrite Hloop. cbn.
    unfold PAGE_SIZE in *. rewrite u64_mul_ret by lia. cbn.
    rewrite u64_add_ret by lia. cbn. rewrite u64_add_ret by lia.
    split; [done|lia].
  - destruct (map_loop_exhausted (Z.to_nat n) c s (next_addr c) a 0)
      as (fs & s' & Hloop & Hlen & Hsame & Hl & Hnd & Hnew & Hlive); [done|lia|done|done|done|].
    exists fs, s'. do 4 (split; [done|]). rewrite <- Hnn in Hloop. rewrite Hloop. cbn.
    split_and!; [done|done|]. destruct Hsame as (Hs' & _ & Ht).
    rewrite free_page_count_ret by done. f_equal. lia.
Qed.

(** The last region is found by its start if no other region has it. *)
Lemma position_last l r :
  Forall (λ x, rg_start x ≠ rg_start r) l →
  position (λ x, rg_start x =? rg_start r) (l ++ [r]) = Some (length l).
Proof.
  induction 1 as [|x l Hx _ IH]; simpl; [by rewrite Z.eqb_refl|].
  rewrite (proj2 (Z.eqb_neq _ _)) by done. by rewrite IH.
Qed.

(** ** Properties *)

(** [C8] Allocation of a region, on every path.  Without a capability on the heap
    that covers the access nothing changes but the audit log.  With one, either
    enough frames are free, and then exactly the pages of the region are mapped to
    fresh, distinct frames, or they are not, and then the call fails with every
    frame of the machine taken: those it took, fresh and distinct too, stay mapped and
    live although no region records them. *)
Theorem allocate_virtual_spec `{Profile} c s caps size a now
    (Hs : phys_wf s) (Hv : 0 <= next_addr c) (Hsize : 0 <= size)
    (Hfit : next_addr c + size + PAGE_SIZE <= 2 ^ 64) :
  let n := div_ceil size PAGE_SIZE in
  let caps' := (check_access caps (pid c) ResMemory "heap" (heap_permissions a) now).1 in
  if bool_decide (decide_access caps (pid c) ResMemory "heap" (heap_permissions a) now = Allowed)
  then ∃ fs s', same_frames s s' ∧ NoDup fs ∧ (∀ f, f ∈ fs → live_blocks s !! f = None) ∧
    live_blocks s' = add_frames (live_blocks s) fs ∧
    if live_pages s + n <=? total_pages s then
      allocate_virtual (c, s) caps size a now =
        Ret ((with_region c size a fs, s'), caps', Ok (next_addr c)) ∧ Z.of_nat (length fs) = n
    else
      allocate_virtual (c, s) caps size a now =
        Ret ((set_page_table c (map_pages (page_table c) (next_addr c) 0 fs a), s'), caps',
             Err OutOfMemory) ∧
      Z.of_nat (length fs) = total_pages s - live_pages s ∧ free_page_count s' = Ret 0
  else allocate_virtual (c, s) caps size a now = Ret ((c, s), caps', Err CapabilityDenied).
Proof. by apply allocate_virtual_cases. Qed.

(** A broker in which process 7 holds the heap capability. *)
Definition demo_caps : CapabilityBroker :=
  mkBroker {[ 1 := mkToken 1 0 7 ResMemory "heap"
                     (mkPermissions true true false false true false false false) 0 100 false ]}
    [] 2.

Definition demo_access : MemoryAccess := mkAccess true true false true.

(** Ten pages do not fit in the five frames of the arena: all five are lost. *)
Lemma allocate_virtual_spec_witness :
  ∃ c' s' caps', @allocate_virtual true (ProcessMemoryContext_new 7 0x40000000, demo_arena)
    demo_caps 0xA000 demo_access 5 = Ret ((c', s'), caps', Err OutOfMemory) ∧
    @free_page_count true s' = Ret 0 ∧ regions c' = [].
Proof.
  pose proof (@allocate_virtual_spec true (ProcessMemoryContext_new 7 0x40000000) demo_arena
    demo_caps 0xA000 demo_access 5 demo_arena_wf ltac:(vm_compute; discriminate)
    ltac:(vm_compute; discriminate) ltac:(vm_compute; discriminate)) as Hspec.
  rewrite bool_decide_true in Hspec by (vm_compute; reflexivity).
  destruct Hspec as (fs & s' & _ & _ & _ & _ & Hspec).
  assert ((live_pages demo_arena + div_ceil 0xA000 PAGE_SIZE <=? total_pages demo_arena) = false)
    as Hlt by (vm_compute; reflexivity).
  rewrite Hlt in Hspec. destruct Hspec as (Ha & _ & Hz).
  eexists _, s', _. split; [exact Ha|]. split; [exact Hz|reflexivity].
Defined.

(** Allocation and release are inverse: releasing a region that was just
    allocated gives back the page table, the list of regions and the live frames
    (only the next virtual address has moved on). *)
Theorem allocate_deallocate_virtual `{Profile} c s caps size a now c1 s1 caps1 v
    (Hs : phys_wf s) (Hv : 0 <= next_addr c) (Hsize : 0 <= size)
    (Hfit : next_addr c + size + PAGE_SIZE <= 2 ^ 64)
    (Habove : ∀ k, is_Some (page_table c !! k) → k < next_addr c)
    (Hstarts : Forall (λ r, rg_start r ≠ next_addr c) (regions c))
    (Halloc : allocate_virtual (c, s) caps size a now = Ret ((c1, s1), caps1, Ok v)) :
  ∃ c2 s2, deallocate_virtual (c1, s1) v = Ret ((c2, s2), Ok tt) ∧
    page_table c2 = page_table c ∧ regions c2 = regions c ∧ next_addr c2 = next_addr c1 ∧
    same_frames s s2 ∧ live_blocks s2 = live_blocks s ∧
    free_page_count s2 = free_page_count s.
Proof.
  pose proof (allocate_virtual_cases c s caps size a now Hs Hv Hsize Hfit) as Hcases.
  cbn beta zeta in Hcases. destruct (div_ceil_bounds size Hsize) as [Hn Hb].
  destruct (bool_decide _); [|rewrite Halloc in Hcases; discriminate Hcases].
  destruct Hcases as (fs & s' & Hsame & Hnd & Hnew & Hl & Hcases).
  destruct (live_pages s + _ <=? total_pages s);
    [|destruct Hcases as [Hcases _]; rewrite Halloc in Hcases; discriminate Hcases].
  destruct Hcases as (Hok & Hlen). rewrite Halloc in Hok.
  injection Hok as -> -> _ ->. clear Halloc.
  unfold deallocate_virtual. cbn [fst snd with_region regions pid page_table next_addr].
  pose proof (position_last (regions c) (mkRegion (next_addr c) (next_addr c + size) a) Hstarts)
    as Hpos. cbn [rg_start] in Hpos. rewrite Hpos.
  rewrite list_lookup_middle by done. cbn [rg_start rg_end pid page_table next_addr].
  unfold PAGE_SIZE in Hfit. rewrite u64_sub_ret by lia. cbn [mbind outcome_bind].
  rewrite Z.add_simpl_l, <- Hlen.
  rewrite delete_middle, app_nil_r.
  pose proof Hsame as (Hs' & Hbase & Htot).
  assert (∀ j, 0 <= j < 0 + Z.of_nat (length fs) → page_table c !! page_at (next_addr c) j = None)
    as Hfree.
  { intros j Hj. apply eq_None_not_Some. intros Hk%Habove. unfold page_at, PAGE_SIZE in Hk. lia. }
  edestruct (unmap_loop_ret fs
    (mkContext (pid c) (map_pages (page_table c) (next_addr c) 0 fs a) (regions c)
       (next_addr c + Z.of_nat (length fs) * PAGE_SIZE)) s' (next_addr c) 0)
    as (s2 & Hrun & Hsame2 & Hl2); [done|done|done|done| | |].
  - unfold page_at, PAGE_SIZE in *. lia.
  - intros j f Hj. cbn [page_table]. split.
    + by rewrite (map_pages_in _ _ _ _ _ _ _ Hj).
    + rewrite Hl, add_frames_lookup, bool_decide_true; [done|]. by eapply list_elem_of_lookup_2.
  - rewrite Hlen in Hrun |- *. rewrite Hrun. eexists _, s2. split; [reflexivity|].
    cbn [page_table regions next_addr set_page_table].
    rewrite unmap_map_pages by done.
    assert (live_blocks s2 = live_blocks s) as Hlive
      by (rewrite Hl2, Hl; by apply drop_add_frames).
    assert (same_frames s s2) as Hss by (by eapply same_frames_trans).
    split_and!; try done. destruct Hss as (Hs2 & _ & Ht2).
    rewrite !free_page_count_ret by done. unfold live_pages. by rewrite Hlive, Ht2.
Qed.

Lemma allocate_deallocate_virtual_witness :
  ∃ c2 s2, (r ← @allocate_virtual true (ProcessMemoryContext_new 7 0x40000000, demo_arena)
                   demo_caps 0x1800 demo_access 5;
            @deallocate_virtual true r.1.1 0x40000000) = Ret ((c2, s2), Ok tt) ∧
    page_table c2 = PageTable_new ∧ @free_page_count true s2 = @free_page_count true demo_arena.
Proof.
  destruct (@allocate_virtual true (ProcessMemoryContext_new 7 0x40000000, demo_arena)
              demo_caps 0x1800 demo_access 5) as [[[[c1 s1] caps1] [v|e]]| |] eqn:E;
    [|vm_compute in E; discriminate E..].
  assert (v = 0x40000000) as -> by (vm_compute in E; injection E as _ _ _ ->; reflexivity).
  destruct (@allocate_deallocate_virtual true (ProcessMemoryContext_new 7 0x40000000) demo_arena
              demo_caps 0x1800 demo_access 5 c1 s1 caps1 0x40000000 demo_arena_wf)
    as (c2 & s2 & Hd & Hpt & _ & _ & _ & _ & Hcount).
  - vm_compute. discriminate.
  - vm_compute. discriminate.
  - vm_compute. discriminate.
  - intros k Hk. simpl in Hk. rewrite lookup_new in Hk. destruct Hk as [? Hk]. discriminate Hk.
  - constructor.
  - exact E.
  - exists c2, s2. exact (conj Hd (conj Hpt Hcount)).
Defined.

Definition access_within (want a : MemoryAccess) : bool :=
  (negb (acc_read want) || acc_read a) && (negb (acc_write want) || acc_write a)
  && (negb (acc_execute want) || acc_execute a).

(** What a region gives access to: every page start of a freshly allocated
    region translates to a live frame for exactly the accesses granted with the
    region, and is an [AccessViolation] otherwise; the table is keyed by page
    starts only, so the addresses inside a page are [Unmapped]. *)
Theorem allocated_region_translates `{Profile} c s caps size a now c1 s1 caps1 v
    (Hs : phys_wf s) (Hv : 0 <= next_addr c) (Hsize : 0 <= size)
    (Hfit : next_addr c + size + PAGE_SIZE <= 2 ^ 64)
    (Habove : ∀ k, is_Some (page_table c !! k) → k < next_addr c)
    (Halloc : allocate_virtual (c, s) caps size a now = Ret ((c1, s1), caps1, Ok v)) :
  ∀ i off want, 0 <= i < div_ceil size PAGE_SIZE → 0 <= off < PAGE_SIZE →
    ∃ f, live_blocks s1 !! f = Some 0 ∧
      translate (page_table c1) (page_at v i + off) want =
        if off =? 0 then if access_within want a then Ok f else Err AccessViolation
        else Err Unmapped.
Proof.
  pose proof (allocate_virtual_cases c s caps size a now Hs Hv Hsize Hfit) as Hcases.
  cbn beta zeta in Hcases.
  destruct (bool_decide _); [|rewrite Halloc in Hcases; discriminate Hcases].
  destruct Hcases as (fs & s' & Hsame & Hnd & Hnew & Hl & Hcases).
  destruct (live_pages s + _ <=? total_pages s);
    [|destruct Hcases as [Hcases _]; rewrite Halloc in Hcases; discriminate Hcases].
  destruct Hcases as (Hok & Hlen). rewrite Halloc in Hok.
  injection Hok as -> -> _ ->. intros i off want Hi Hoff.
  destruct (lookup_lt_is_Some_2 fs (Z.to_nat i)) as [f Hf]; [lia|].
  exists f. split.
  - rewrite Hl, add_frames_lookup, bool_decide_true; [done|]. by eapply list_elem_of_lookup_2.
  - rewrite translate_lookup. cbn [page_table with_region]. destruct (off =? 0) eqn:E; reflect_bools.
    + subst off. pose proof (map_pages_in (page_table c) (next_addr c) 0 fs a _ _ Hf) as Hm.
      replace (page_at (next_addr c) i + 0) with (page_at (next_addr c) (0 + Z.of_nat (Z.to_nat i)))
        by (unfold page_at; lia).
      rewrite Hm. done.
    + rewrite map_pages_out.
      * destruct (page_table c !! _) eqn:Ek; [|done].
        assert (page_at (next_addr c) i + off < next_addr c) as Hlt by (apply Habove; eauto).
        unfold page_at, PAGE_SIZE in *. lia.
      * intros j Hj. unfold page_at, PAGE_SIZE in *. lia.
Qed.

Lemma allocated_region_translates_witness :
  ∃ c1 s1 caps1 f,
    @allocate_virtual true (ProcessMemoryContext_new 7 0x40000000, demo_arena) demo_caps 0x1800
      demo_access 5 = Ret ((c1, s1), caps1, Ok 0x40000000) ∧
    live_blocks s1 !! f = Some 0 ∧
    translate (page_table c1) (0x40000000 + 1 * 0x1000 + 0) demo_access = Ok f.
Proof.
  destruct (@allocate_virtual true (ProcessMemoryContext_new 7 0x40000000, demo_arena)
              demo_caps 0x1800 demo_access 5) as [[[[c1 s1] caps1] [v|e]]| |] eqn:E;
    [|vm_compute in E; discriminate E..].
  assert (v = 0x40000000) as -> by (vm_compute in E; injection E as _ _ _ ->; reflexivity).
  destruct (@allocated_region_translates true (ProcessMemoryContext_new 7 0x40000000) demo_arena
              demo_caps 0x1800 demo_access 5 c1 s1 caps1 0x40000000 demo_arena_wf
              ltac:(vm_compute; discriminate) ltac:(vm_compute; discriminate)
              ltac:(vm_compute; discriminate)
              ltac:(intros k [? Hk]; cbn in Hk; rewrite lookup_new in Hk; discriminate Hk)
              E 1 0 demo_access ltac:(vm_compute; split; congruence)
              ltac:(vm_compute; split; congruence)) as (f & Hf & Ht).
  exists c1, s1, caps1, f. split; [reflexivity|]. split; [exact Hf|exact Ht].
Defined.

(** The fault handler: a fault is satisfied exactly when a registered region
    contains the address, the region is writable if the fault is a write (reads
    and instruction fetches are not checked against the region), and a frame is
    free; otherwise nothing changes.  When the page was already mapped, as every
    page of a region is after [allocate_virtual], the frame it was mapped to stays
    allocated and no page maps to it any more. *)
Theorem handle_page_fault_spec `{Profile} c s vaddr is_write (Hs : phys_wf s) :
  let region := List.find (λ r, (rg_start r <=? vaddr) && (vaddr <? rg_end r)) (regions c) in
  let page := vaddr - vaddr mod PAGE_SIZE in
  ∃ c' s' res, handle_page_fault (c, s) vaddr is_write = Ret ((c', s'), res) ∧
    (res = Ok tt ↔ ∃ r, region = Some r ∧
       (is_write = true → acc_write (rg_access r) = true) ∧ live_pages s < total_pages s) ∧
    (res ≠ Ok tt → c' = c ∧ s' = s) ∧
    (res = Ok tt → ∀ old, page_table c !! page = Some old → live_blocks s !! phys old = Some 0 →
       (∀ k mp, page_table c !! k = Some mp → phys mp = phys old → k = page) →
       live_blocks s' !! phys old = Some 0 ∧
       ∀ k mp, page_table c' !! k = Some mp → phys mp ≠ phys old).
Proof.
  cbn zeta. unfold handle_page_fault. cbn [fst snd].
  destruct (List.find _ _) as [r|].
  2:{ exists c, s, (Err Unmapped). split_and!; [done| |done|done]. naive_solver. }
  destruct (is_write && negb (acc_write (rg_access r))) eqn:E.
  { exists c, s, (Err AccessViolation). split_and!; [done| |done|done]. split; [done|].
    intros (r' & [= <-] & Hw & _). destruct is_write; [|done]. by rewrite Hw in E. }
  assert (is_write = true → acc_write (rg_access r) = true) as Hw
    by (intros ->; by destruct (acc_write (rg_access r))).
  destruct (Z.lt_ge_cases (live_pages s) (total_pages s)) as [Hlt|Hge].
  - destruct (allocate_frame s Hs Hlt) as (s' & f & -> & Hsame & Hf & Hl). cbn.
    eexists _, s', (Ok tt). split_and!; [reflexivity|naive_solver|done|].
    intros _ old Hold Hlive Hinj. split.
    + rewrite Hl, lookup_insert_ne; [done|]. congruence.
    + intros k mp. cbn [page_table set_page_table]. unfold map_page, lookup at 1, page_table_lookup. cbn [mappings].
      intros [[<- <-]|[Hne Hk]]%lookup_insert_Some Hp; [simpl in Hp; congruence|].
      by apply Hne, eq_sym, (Hinj k mp).
  - pose proof (live_pages_le s Hs). pose proof (pages_in_nonneg (free_blocks s)).
    rewrite allocate_exhausted by (done || lia). cbn.
    exists c, s, (Err OutOfMemory). split_and!; [done| |done|done].
    split; [done|]. intros (? & _ & _ & ?). lia.
Qed.

(** A context with one page mapped to frame 0x1000, which is live. *)
Definition demo_faulting : mem :=
  match @allocate_virtual true (ProcessMemoryContext_new 7 0x40000000, demo_arena) demo_caps
          0x1000 demo_access 5 with
  | Ret (s, _, _) => s
  | _ => (ProcessMemoryContext_new 7 0x40000000, demo_arena)
  end.

Lemma demo_faulting_wf : phys_wf demo_faulting.2.
Proof.
  pose proof (@allocate_virtual_cases true (ProcessMemoryContext_new 7 0x40000000) demo_arena
    demo_caps 0x1000 demo_access 5 demo_arena_wf ltac:(vm_compute; discriminate)
    ltac:(vm_compute; discriminate) ltac:(vm_compute; discriminate)) as Hcases.
  rewrite bool_decide_true in Hcases by (vm_compute; reflexivity).
  destruct Hcases as (fs & s' & Hsame & Hnd & Hnew & Hl & Hcases).
  destruct (_ <=? _); destruct Hcases as [Ha _]; unfold demo_faulting; rewrite Ha; apply Hsame.
Qed.

Lemma handle_page_fault_spec_witness :
  ∃ c' s', @handle_page_fault true demo_faulting 0x40000123 true = Ret ((c', s'), Ok tt).
Proof.
  destruct (@handle_page_fault_spec true demo_faulting.1 demo_faulting.2 0x40000123 true
              demo_faulting_wf) as (c' & s' & res & Hr & Hok & _ & _).
  assert (res = Ok tt) as ->.
  { apply Hok. eexists. split; [vm_compute; reflexivity|]. split; vm_compute; reflexivity. }
  exists c', s'. exact Hr.
Defined.
