(* ===== verification/Processes.v ===== *)
(** * Processes that share the machine's frames

    Any number of [ProcessMemoryContext]s of [src/reference-rs/src/memory.rs] over one
    [PhysicalAllocator], and other code that allocates from it: what holds after every
    history of their operations. *)
From S2P Require Import Prelude Capability Buddy VirtualMemory.

(** ** Histories *)

(** The contexts by process, and the allocator that each call borrows. *)
Record system := mkSystem {
  procs : gmap Z ProcessMemoryContext;
  frames : PhysicalAllocator;
}.

Inductive vm_op :=
| Create (p heap_start : Z)
| AllocateVirtual (p : Z) (caps : CapabilityBroker) (size : Z) (a : MemoryAccess) (now : Z)
| DeallocateVirtual (p vaddr : Z)
| PageFault (p vaddr : Z) (is_write : bool)
| AllocateFrames (order : Z).   (** by code that is not a process *)

Section run.
Context `{Profile}.

(** An operation of process [p]; processes that do not exist do nothing. *)
Definition on_process (p : Z) (w : system)
    (f : mem → outcome (mem * result unit MemoryError)) : outcome (system * result unit MemoryError) :=
  match w.(procs) !! p with
  | None => Ret (w, Ok tt)
  | Some c =>
      r ← f (c, w.(frames));
      Ret (mkSystem (<[p := r.1.1]> w.(procs)) r.1.2, r.2)
  end.

Definition vm_step (w : system) (op : vm_op) : outcome (system * result unit MemoryError) :=
  match op with
  | Create p heap_start =>
      match w.(procs) !! p with
      | Some _ => Ret (w, Ok tt)
      | None => Ret (mkSystem (<[p := ProcessMemoryContext_new p heap_start]> w.(procs)) w.(frames), Ok tt)
      end
  | AllocateVirtual p caps size a now =>
      on_process p w (λ s,
        r ← allocate_virtual s caps size a now;
        Ret (r.1.1, match r.2 with Ok _ => Ok tt | Err e => Err e end))
  | DeallocateVirtual p vaddr => on_process p w (λ s, deallocate_virtual s vaddr)
  | PageFault p vaddr is_write => on_process p w (λ s, handle_page_fault s vaddr is_write)
  | AllocateFrames order =>
      r ← allocate w.(frames) order;
      Ret (mkSystem w.(procs) r.1, match r.2 with Ok _ => Ok tt | Err e => Err e end)
  end.

(** The final system and the answers. *)
Fixpoint vm_run (ops : list vm_op) (w : system) : outcome (system * list (result unit MemoryError)) :=
  match ops with
  | [] => Ret (w, [])
  | op :: ops' =>
      r ← vm_step w op;
      r' ← vm_run ops' r.1;
      Ret (r'.1, r.2 :: r'.2)
  end.
End run.

(** ** Regions *)

Definition pages_of (r : VMemRegion) : Z := div_ceil (rg_end r - rg_start r) PAGE_SIZE.

(** The address behind the region's last page. *)
Definition region_top (r : VMemRegion) : Z := page_at (rg_start r) (pages_of r).

Definition page_of (r : VMemRegion) (k : Z) : Prop := ∃ i, 0 <= i < pages_of r ∧ k = page_at (rg_start r) i.

(** Regions follow each other upwards, at whole pages from each other, and every page of
    every region is mapped with the region's access. *)
Record regions_ok (c : ProcessMemoryContext) : Prop := {
  ro_sorted : StronglySorted (λ r r', region_top r <= rg_start r') (regions c);
  ro_bounds : Forall (λ r, 0 <= rg_start r ∧ rg_start r <= rg_end r ∧ region_top r <= next_addr c ∧
                           (PAGE_SIZE | next_addr c - rg_start r)) (regions c);
  ro_mapped : ∀ r k, r ∈ regions c → page_of r k →
    ∃ m, page_table c !! k = Some m ∧ access m = rg_access r;
}.

(** A mapped page, by process and address. *)
Definition maps_to (w : system) (p k f : Z) : Prop :=
  ∃ c m, procs w !! p = Some c ∧ page_table c !! k = Some m ∧ phys m = f.

(** [room] is how far the next addresses may still move. *)
Record system_ok (room : Z) (w : system) : Prop := {
  so_frames : phys_wf (frames w);
  so_live : ∀ p k f, maps_to w p k f → live_blocks (frames w) !! f = Some 0;
  so_apart : ∀ p k p' k' f, maps_to w p k f → maps_to w p' k' f → p = p' ∧ k = k';
  so_next : ∀ p c, procs w !! p = Some c → 0 <= next_addr c ∧ next_addr c + room < 2 ^ 64;
  so_regions : ∀ p c, procs w !! p = Some c → regions_ok c;
}.

(** What an operation may add to a next address, and how far it leaves room. *)
Definition op_cost (op : vm_op) : Z :=
  match op with AllocateVirtual _ _ size _ _ => size + PAGE_SIZE | _ => 0 end.

Definition op_ok (room : Z) (op : vm_op) : Prop :=
  match op with
  | Create _ heap_start => 0 <= heap_start ∧ heap_start + room < 2 ^ 64
  | AllocateVirtual _ _ size _ _ => 0 <= size
  | AllocateFrames order => 0 <= order
  | _ => True
  end.

Definition ops_cost (ops : list vm_op) : Z := foldr (λ op n, op_cost op + n) 0 ops.

Lemma page_at_le v i j : i <= j → page_at v i <= page_at v j.
Proof. unfold page_at, PAGE_SIZE. lia. Qed.

Lemma pages_of_nonneg r : rg_start r <= rg_end r → 0 <= pages_of r.
Proof. intros Hr. apply div_ceil_bounds. lia. Qed.

(** A page of one region is a page of no other region. *)
Lemma page_of_bounds r k : page_of r k → rg_start r <= k ∧ k + PAGE_SIZE <= region_top r.
Proof. intros (i & Hi & ->). unfold region_top, page_at, PAGE_SIZE. lia. Qed.

Lemma sorted_pages_apart rs i j r r' k :
  StronglySorted (λ r r', region_top r <= rg_start r') rs →
  rs !! i = Some r → rs !! j = Some r' → page_of r k → page_of r' k → i = j.
Proof.
  intros Hs Hi Hj Hk Hk'.
  assert (∀ i j r r', rs !! i = Some r → rs !! j = Some r' → (i < j)%nat → region_top r <= rg_start r') as Hlt.
  { clear -Hs. induction Hs as [|x rs Hs IH Hx]; intros [|i] [|j] r r' Hi Hj Hij; try done; try lia.
    - simplify_eq/=. rewrite Forall_forall in Hx. apply Hx. by eapply list_elem_of_lookup_2.
    - apply (IH i j); [done|done|lia]. }
  apply page_of_bounds in Hk, Hk'. unfold PAGE_SIZE in *.
  destruct (Nat.lt_trichotomy i j) as [Hij|[->|Hij]]; [|done|].
  - pose proof (Hlt i j r r' Hi Hj Hij). lia.
  - pose proof (Hlt j i r' r Hj Hi Hij). lia.
Qed.

(** ** Growing a page table *)

Lemma map_pages_cases pt v i fs a k m :
  map_pages pt v i fs a !! k = Some m →
  (∃ j f, fs !! j = Some f ∧ k = page_at v (i + Z.of_nat j) ∧ m = mkMapping f a) ∨
  ((∀ j, i <= j < i + Z.of_nat (length fs) → k ≠ page_at v j) ∧ pt !! k = Some m).
Proof.
  intros Hk. destruct (decide (Exists (λ j, k = page_at v j) (seqZ i (Z.of_nat (length fs))))) as [He|He].
  - left. apply Exists_exists in He as (j & Hj%elem_of_seqZ & ->).
    destruct (lookup_lt_is_Some_2 fs (Z.to_nat (j - i))) as [f Hf]; [lia|].
    exists (Z.to_nat (j - i)), f. replace (i + Z.of_nat (Z.to_nat (j - i))) with j by lia.
    pose proof (map_pages_in pt v i fs a _ _ Hf) as Hm.
    replace (i + Z.of_nat (Z.to_nat (j - i))) with j in Hm by lia. split_and!; congruence.
  - right. assert (∀ j, i <= j < i + Z.of_nat (length fs) → k ≠ page_at v j) as Hout.
    { intros j Hj ->. apply He, Exists_exists. exists j. split; [apply elem_of_seqZ; lia|done]. }
    split; [done|]. by rewrite map_pages_out in Hk.
Qed.

Lemma maps_to_insert w p c' s' q k f :
  maps_to (mkSystem (<[p := c']> (procs w)) s') q k f ↔
  (q = p ∧ ∃ m, page_table c' !! k = Some m ∧ phys m = f) ∨ (q ≠ p ∧ maps_to w q k f).
Proof.
  unfold maps_to. cbn [procs]. destruct (decide (q = p)) as [->|Hq].
  - rewrite lookup_insert_eq. split.
    + intros (c & m & [= <-] & Hm). left. by eauto.
    + intros [(_ & m & Hm)|[Hne _]]; [|done]. by exists c', m.
  - rewrite lookup_insert_ne by done. split; [by right|]. by intros [(? & _)|[_ ?]].
Qed.

(** The parts of the invariant that speak of one process. *)
Lemma contexts_insert (P : ProcessMemoryContext → Prop) (m : gmap Z ProcessMemoryContext) p c' :
  P c' → (∀ q c, m !! q = Some c → P c) → ∀ q c, <[p := c']> m !! q = Some c → P c.
Proof. intros Hc Hm q c [[<- <-]|[_ Hq]]%lookup_insert_Some; [done|by eapply Hm]. Qed.

Definition next_ok (room : Z) (c : ProcessMemoryContext) : Prop :=
  0 <= next_addr c ∧ next_addr c + room < 2 ^ 64.

(** A process maps fresh frames. *)
Lemma grow_ok room room' w p c c' s' v fs a :
  system_ok room w → procs w !! p = Some c → room' <= room →
  same_frames (frames w) s' → NoDup fs → (∀ f, f ∈ fs → live_blocks (frames w) !! f = None) →
  live_blocks s' = add_frames (live_blocks (frames w)) fs →
  page_table c' = map_pages (page_table c) v 0 fs a →
  next_ok room' c' → regions_ok c' →
  system_ok room' (mkSystem (<[p := c']> (procs w)) s').
Proof.
  intros [Hf Hlive Hap Hnext Hreg] Hc Hroom (Hs' & _) Hnd Hnew Hl Hpt Hn' Hr'.
  assert (∀ k m, page_table c' !! k = Some m →
            (∃ j, fs !! j = Some (phys m) ∧ k = page_at v (0 + Z.of_nat j)) ∨ maps_to w p k (phys m)) as Hcases.
  { intros k m. rewrite Hpt. intros [(j & f & Hj & -> & ->)|[_ Hm]]%map_pages_cases; [left; by eauto|right].
    by exists c, m. }
  assert (∀ j f q k, fs !! j = Some f → ¬ maps_to w q k f) as Hno.
  { intros j f q k Hj%list_elem_of_lookup_2 Hm%Hlive. apply Hnew in Hj. congruence. }
  split; cbn [frames procs]; [done| | | |].
  - intros q k f Hm. rewrite Hl, add_frames_lookup. case_bool_decide as Hin; [done|].
    apply maps_to_insert in Hm as [(-> & m & Hm & <-)|[_ Hm]]; [|by eapply Hlive].
    apply Hcases in Hm as [(j & Hj & _)|Hm]; [|by eapply Hlive].
    destruct Hin. by eapply list_elem_of_lookup_2.
  - intros q k q' k' f Hm Hm'.
    apply maps_to_insert in Hm as [(-> & m & Hm & <-)|[Hq Hm]];
      apply maps_to_insert in Hm' as [(-> & m' & Hm' & He)|[Hq' Hm']].
    + apply Hcases in Hm as [(j & Hj & ->)|Hm]; apply Hcases in Hm' as [(j' & Hj' & ->)|Hm']; rewrite ?He in *.
      * split; [done|]. by rewrite (NoDup_lookup _ _ _ _ Hnd Hj Hj').
      * by destruct (Hno _ _ _ _ Hj Hm').
      * by destruct (Hno _ _ _ _ Hj' Hm).
      * by eapply Hap.
    + apply Hcases in Hm as [(j & Hj & _)|Hm]; [by destruct (Hno _ _ _ _ Hj Hm')|].
      destruct (Hap _ _ _ _ _ Hm Hm'). congruence.
    + apply Hcases in Hm' as [(j & Hj & _)|Hm']; rewrite ?He in *; [by destruct (Hno _ _ _ _ Hj Hm)|].
      destruct (Hap _ _ _ _ _ Hm Hm'). congruence.
    + by eapply Hap.
  - apply (contexts_insert (next_ok room')); [done|]. intros q cq Hq. destruct (Hnext q cq Hq). split; lia.
  - by apply (contexts_insert regions_ok).
Qed.

(** Pages above the regions do not disturb them. *)
Lemma regions_above c pt v fs a :
  regions_ok c → next_addr c <= v →
  ∀ r k, r ∈ regions c → page_of r k →
    pt = map_pages (page_table c) v 0 fs a → ∃ m, pt !! k = Some m ∧ access m = rg_access r.
Proof.
  intros [_ Hb Hm] Hv r k Hr Hk ->. rewrite map_pages_out; [by apply Hm|].
  intros j Hj ->. apply page_of_bounds in Hk as [_ Hk]. rewrite Forall_forall in Hb.
  destruct (Hb r Hr) as (_ & _ & ? & _). unfold page_at, PAGE_SIZE in *. lia.
Qed.

Lemma regions_ok_failed c fs a :
  regions_ok c → regions_ok (set_page_table c (map_pages (page_table c) (next_addr c) 0 fs a)).
Proof. intros Hc. split; cbn; [apply Hc..|]. intros r k Hr Hk. by eapply regions_above. Qed.

Lemma regions_ok_new c size a fs :
  regions_ok c → 0 <= next_addr c → 0 <= size → Z.of_nat (length fs) = div_ceil size PAGE_SIZE →
  regions_ok (with_region c size a fs).
Proof.
  intros Hc Hn Hsize Hlen. pose proof Hc as [Hs Hb Hm]. destruct (div_ceil_bounds size Hsize) as [Hd _].
  set (r := mkRegion (next_addr c) (next_addr c + size) a).
  assert (pages_of r = div_ceil size PAGE_SIZE) as Hp by (unfold pages_of, r; cbn; f_equal; lia).
  assert (region_top r = next_addr c + div_ceil size PAGE_SIZE * PAGE_SIZE) as Ht.
  { unfold region_top. by rewrite Hp. }
  rewrite Forall_forall in Hb.
  split; cbn [with_region regions next_addr page_table]; fold r.
  - assert (Forall (λ x, region_top x <= rg_start r) (regions c)) as Hall.
    { apply Forall_forall. intros x Hx. apply Hb in Hx. apply Hx. }
    revert Hs Hall. clear. induction 1 as [|x l Hs IH Hx]; intros Hall; cbn; [by repeat constructor|].
    apply Forall_cons in Hall as [Hxr Hall]. constructor; [by apply IH|].
    apply Forall_app. split; [done|by constructor].
  - apply Forall_forall. intros x [Hx|Hx]%elem_of_app.
    + apply Hb in Hx as (? & ? & ? & ?). split_and!; try done; [unfold PAGE_SIZE in *; lia|].
      replace (_ - _) with (next_addr c - rg_start x + div_ceil size PAGE_SIZE * PAGE_SIZE) by lia.
      apply Z.divide_add_r; [done|apply Z.divide_factor_r].
    + apply list_elem_of_singleton in Hx as ->. rewrite Ht. cbn. split_and!; try lia.
      rewrite Z.add_simpl_l. apply Z.divide_factor_r.
  - intros x k [Hx|Hx]%elem_of_app Hk; [by eapply regions_above|].
    apply list_elem_of_singleton in Hx as ->. destruct Hk as (i & Hi & ->). rewrite Hp in Hi.
    destruct (lookup_lt_is_Some_2 fs (Z.to_nat i)) as [f Hf]; [lia|].
    pose proof (map_pages_in (page_table c) (next_addr c) 0 fs a _ _ Hf) as Hl.
    replace (0 + Z.of_nat (Z.to_nat i)) with i in Hl by lia. by eexists.
Qed.

(** The page of an address in a region is a page of that region, or of none. *)
Lemma fault_page c i r x k :
  regions_ok c → regions c !! i = Some r → rg_start r <= x < rg_end r →
  ∀ r', r' ∈ regions c → page_of r' k → k = x - x mod PAGE_SIZE → r' = r.
Proof.
  intros [Hs Hb _] Hi Hx r' [j Hj]%list_elem_of_lookup Hk ->. rewrite Forall_forall in Hb.
  destruct (Hb r') as (_ & _ & _ & Hr'); [by eapply list_elem_of_lookup_2|].
  destruct (Hb r) as (_ & _ & _ & Hr); [by eapply list_elem_of_lookup_2|].
  assert (page_of r (x - x mod PAGE_SIZE)) as Hk'.
  { pose proof Hk as (q & Hq & He). unfold page_at in He.
    assert ((PAGE_SIZE | rg_start r)) as [s0 Hs0].
    { replace (rg_start r) with (x - x mod PAGE_SIZE - q * PAGE_SIZE - (next_addr c - rg_start r)
        + (next_addr c - rg_start r')) by lia.
      apply Z.divide_add_r; [|done]. apply Z.divide_sub_r; [|done]. apply Z.divide_sub_r; [|apply Z.divide_factor_r].
      rewrite (Z.div_mod x PAGE_SIZE) at 1 by done. rewrite Z.add_simpl_r. apply Z.divide_factor_l. }
    exists (x / PAGE_SIZE - s0). unfold page_at, pages_of.
    destruct (div_ceil_bounds (rg_end r - rg_start r)) as [_ Hd]; [lia|].
    pose proof (Z.div_mod x PAGE_SIZE ltac:(done)). pose proof (Z.mod_pos_bound x PAGE_SIZE ltac:(done)).
    unfold PAGE_SIZE in *. split; [|lia]. split; lia. }
  rewrite (sorted_pages_apart _ _ _ _ _ _ Hs Hj Hi Hk Hk') in Hj. congruence.
Qed.

Lemma regions_ok_fault c i r x f :
  regions_ok c → regions c !! i = Some r → rg_start r <= x < rg_end r →
  regions_ok (set_page_table c (map_page (page_table c) (x - x mod PAGE_SIZE) f (rg_access r))).
Proof.
  intros Hc Hi Hx. pose proof Hc as [Hs Hb Hm]. split; cbn; [done|done|]. intros r' k Hr' Hk.
  destruct (decide (x - x mod PAGE_SIZE = k)) as [He|He].
  - rewrite He, lookup_map_page. eexists. split; [done|]. cbn.
    by rewrite (fault_page c i r x k Hc Hi Hx r' Hr' Hk).
  - rewrite lookup_map_page_ne by done. by apply Hm.
Qed.

(** ** Shrinking a page table *)

Lemma delete_sorted {A} (R : A → A → Prop) (l : list A) i : StronglySorted R l → StronglySorted R (delete i l).
Proof.
  intros Hl. revert i. induction Hl as [|x l Hl IH Hx]; intros i; [by destruct i; constructor|].
  destruct i as [|i]; cbn; [done|]. constructor; [apply IH|]. by apply Forall_delete.
Qed.

Lemma elem_of_delete {A} (l : list A) i x : x ∈ delete i l → ∃ j, j ≠ i ∧ l !! j = Some x.
Proof.
  intros [j Hj]%list_elem_of_lookup. destruct (decide (j < i)%nat) as [Hlt|Hge].
  - rewrite list_lookup_delete_lt in Hj by done. exists j. split; [lia|done].
  - rewrite list_lookup_delete_ge in Hj by lia. exists (S j). split; [lia|done].
Qed.

Lemma unmap_pages_cases pt v n k m :
  unmap_pages pt v 0 n !! k = Some m → pt !! k = Some m ∧ ∀ j, 0 <= j < Z.of_nat n → k ≠ page_at v j.
Proof.
  intros Hk. assert (∀ j, 0 <= j < Z.of_nat n → k ≠ page_at v j) as Hout.
  { intros j Hj ->. by rewrite unmap_pages_in in Hk by lia. }
  split; [|done]. by rewrite unmap_pages_out in Hk by (intros; apply Hout; lia).
Qed.

Definition without_region (c : ProcessMemoryContext) (idx : nat) (r : VMemRegion) (n : nat) :
    ProcessMemoryContext :=
  mkContext (pid c) (unmap_pages (page_table c) (rg_start r) 0 n) (delete idx (regions c)) (next_addr c).

(** Releasing a region succeeds: its pages are mapped, their frames are live. *)
Lemma deallocate_region `{Profile} c s vaddr idx r :
  phys_wf s → regions_ok c → next_addr c < 2 ^ 64 →
  (∀ k m, page_table c !! k = Some m → live_blocks s !! phys m = Some 0) →
  (∀ k k' m m', page_table c !! k = Some m → page_table c !! k' = Some m' → phys m = phys m' → k = k') →
  position (λ r, rg_start r =? vaddr) (regions c) = Some idx → regions c !! idx = Some r →
  ∃ s' fs, deallocate_virtual (c, s) vaddr = Ret ((without_region c idx r (length fs), s'), Ok tt) ∧
    same_frames s s' ∧ live_blocks s' = drop_frames (live_blocks s) fs ∧
    Z.of_nat (length fs) = pages_of r ∧
    (∀ j f, fs !! j = Some f → ∃ m, page_table c !! page_at (rg_start r) (Z.of_nat j) = Some m ∧ phys m = f).
Proof.
  intros Hs [_ Hb Hm] Hn Hlive Hinj Hpos Hr. unfold deallocate_virtual. cbn [fst snd]. rewrite Hpos, Hr.
  assert (r ∈ regions c) as Hin by by eapply list_elem_of_lookup_2.
  rewrite Forall_forall in Hb. destruct (Hb r Hin) as (H0 & Hle & Htop & _).
  pose proof (pages_of_nonneg r Hle) as Hp.
  assert (∀ i, 0 <= i < pages_of r → ∃ m, page_table c !! page_at (rg_start r) i = Some m) as Hmapped.
  { intros i Hi. destruct (Hm r (page_at (rg_start r) i) Hin) as (m & ? & _); [by exists i|by exists m]. }
  set (frame := λ i : nat, from_option phys 0 (page_table c !! page_at (rg_start r) (Z.of_nat i))).
  set (fs := frame <$> seq 0 (Z.to_nat (pages_of r))).
  assert (Z.of_nat (length fs) = pages_of r) as Hlen by (unfold fs; rewrite length_fmap, length_seq; lia).
  assert (∀ j f, fs !! j = Some f →
            ∃ m, page_table c !! page_at (rg_start r) (Z.of_nat j) = Some m ∧ phys m = f) as Hfs.
  { intros j f (i & -> & [-> Hi]%lookup_seq)%list_lookup_fmap_Some.
    destruct (Hmapped (Z.of_nat (0 + j))) as [m E]; [lia|]. exists m. unfold frame. by rewrite E. }
  pose proof (div_ceil_bounds (rg_end r - rg_start r) ltac:(lia)) as [_ Hd]. fold (pages_of r) in Hd.
  unfold region_top, page_at in Htop. unfold PAGE_SIZE in Htop, Hd.
  rewrite u64_sub_ret by lia. cbn [mbind outcome_bind]. fold (pages_of r). rewrite <- Hlen.
  destruct (unmap_loop_ret fs (mkContext (pid c) (page_table c) (delete idx (regions c)) (next_addr c)) s
              (rg_start r) 0) as (s' & Hrun & Hsame & Hl); [done| |done|done| | |].
  - apply NoDup_alt. intros i j f Hi Hj. apply Hfs in Hi as (m & Hi & <-), Hj as (m' & Hj & He).
    pose proof (Hinj _ _ _ _ Hi Hj (eq_sym He)) as Hk%page_at_inj. lia.
  - unfold page_at, PAGE_SIZE. lia.
  - intros j f Hj. apply Hfs in Hj as (m & Hj & <-). cbn [page_table]. rewrite Z.add_0_l, Hj. split; [done|].
    by eapply Hlive.
  - exists s', fs. rewrite Hrun. done.
Qed.

(** A process gives frames back. *)
Lemma shrink_ok room w p c idx r s' fs :
  system_ok room w → procs w !! p = Some c → regions c !! idx = Some r →
  same_frames (frames w) s' → live_blocks s' = drop_frames (live_blocks (frames w)) fs →
  Z.of_nat (length fs) = pages_of r →
  (∀ j f, fs !! j = Some f → ∃ m, page_table c !! page_at (rg_start r) (Z.of_nat j) = Some m ∧ phys m = f) →
  system_ok room (mkSystem (<[p := without_region c idx r (length fs)]> (procs w)) s').
Proof.
  intros [Hf Hlive Hap Hnext Hreg] Hc Hr (Hs' & _) Hl Hlen Hfs.
  assert (∀ q k f, maps_to (mkSystem (<[p := without_region c idx r (length fs)]> (procs w)) s') q k f →
            maps_to w q k f ∧ f ∉ fs) as Hold.
  { intros q k f Hm. apply maps_to_insert in Hm as [(-> & m & Hm & <-)|[Hq Hm]].
    - apply unmap_pages_cases in Hm as [Hm Hout]. assert (maps_to w p k (phys m)) as Hk by by exists c, m.
      split; [done|]. intros [j Hj]%list_elem_of_lookup. pose proof (lookup_lt_Some _ _ _ Hj).
      apply Hfs in Hj as (m' & Hj & He).
      destruct (Hap p k p (page_at (rg_start r) (Z.of_nat j)) (phys m)) as [_ ->]; [done|by exists c, m'|].
      by apply (Hout (Z.of_nat j)); [lia|].
    - split; [done|]. intros [j Hj]%list_elem_of_lookup. apply Hfs in Hj as (m' & Hj & He).
      destruct (Hap q k p (page_at (rg_start r) (Z.of_nat j)) f) as [? _]; [done|by exists c, m'|done]. }
  split; cbn [frames procs]; [done| | | |].
  - intros q k f [Hm Hin]%Hold. rewrite Hl, drop_frames_lookup, bool_decide_false by done. by eapply Hlive.
  - intros q k q' k' f [Hm _]%Hold [Hm' _]%Hold. by eapply Hap.
  - apply (contexts_insert (next_ok room)); [|done]. by apply (Hnext p c).
  - apply (contexts_insert regions_ok); [|done]. pose proof (Hreg p c Hc) as [Hs Hb Hm].
    split; cbn [without_region regions next_addr page_table]; [by apply delete_sorted|by apply Forall_delete|].
    intros r' k (j & Hj & Hr')%elem_of_delete Hk.
    rewrite unmap_pages_out; [apply Hm; [by eapply list_elem_of_lookup_2|done]|].
    intros i Hi ->. apply Hj. apply (sorted_pages_apart _ _ _ _ _ _ Hs Hr' Hr Hk).
    exists i. split; [lia|done].
Qed.

(** ** Steps *)

Section steps.
Context `{Profile}.

Lemma system_ok_room room room' w : system_ok room w → room' <= room → system_ok room' w.
Proof.
  intros [? ? ? Hn ?] Hr. split; try done. intros p c Hp. destruct (Hn p c Hp). split; lia.
Qed.

Lemma maps_to_same w s' q k f : maps_to (mkSystem (procs w) s') q k f ↔ maps_to w q k f.
Proof. done. Qed.

Lemma create_ok room w p heap :
  system_ok room w → procs w !! p = None → 0 <= heap → heap + room < 2 ^ 64 →
  system_ok room (mkSystem (<[p := ProcessMemoryContext_new p heap]> (procs w)) (frames w)).
Proof.
  intros [Hf Hl Ha Hn Hr] Hp H0 Hh.
  assert (∀ q k f, maps_to (mkSystem (<[p := ProcessMemoryContext_new p heap]> (procs w)) (frames w)) q k f →
            maps_to w q k f) as Hold.
  { intros q k f [(-> & m & Hm & _)|[_ Hm]]%maps_to_insert; [|done].
    cbn in Hm. by rewrite lookup_new in Hm. }
  split; cbn [frames procs]; [done| | | |].
  - intros q k f Hm%Hold. by eapply Hl.
  - intros q k q' k' f Hm%Hold Hm'%Hold. by eapply Ha.
  - by apply (contexts_insert (next_ok room)).
  - apply (contexts_insert regions_ok); [|done]. split; cbn; [constructor|constructor|].
    by intros r k ?%elem_of_nil.
Qed.

(** Blocks that go to other code are not mapped. *)
Lemma allocate_frames_ok room w s' a o :
  system_ok room w → phys_wf s' → live_blocks (frames w) !! a = None →
  live_blocks s' = <[a := o]> (live_blocks (frames w)) → system_ok room (mkSystem (procs w) s').
Proof.
  intros [Hf Hl Ha Hn Hr] Hs' Hnew Hlive. split; cbn [frames procs]; try done.
  intros q k f Hm%Hl. rewrite Hlive, lookup_insert_ne; [done|]. intros ->. congruence.
Qed.

(** An answer a release may give. *)
Definition released_or_absent (op : vm_op) (r : result unit MemoryError) : Prop :=
  match op with DeallocateVirtual _ _ => r = Ok tt ∨ r = Err RegionNotFound | _ => True end.

Definition same_arena (s s' : PhysicalAllocator) : Prop := base s' = base s ∧ total_pages s' = total_pages s.

Lemma allocate_step_ok room w p c caps size a now :
  system_ok room w → procs w !! p = Some c → 0 <= size → size + PAGE_SIZE <= room →
  ∃ c' s' caps' res, allocate_virtual (c, frames w) caps size a now = Ret ((c', s'), caps', res) ∧
    same_arena (frames w) s' ∧ system_ok (room - (size + PAGE_SIZE)) (mkSystem (<[p := c']> (procs w)) s').
Proof.
  intros Hw Hc Hsize Hroom. pose proof (so_next _ _ Hw p c Hc) as [Hn0 Hn].
  pose proof (so_regions _ _ Hw p c Hc) as Hr. pose proof (so_frames _ _ Hw) as Hs.
  pose proof (allocate_virtual_cases c (frames w) caps size a now Hs Hn0 Hsize ltac:(lia)) as Hcases.
  cbn beta zeta in Hcases. destruct (div_ceil_bounds size Hsize) as [Hd0 Hd].
  destruct (bool_decide _).
  - destruct Hcases as (fs & s' & Hsame & Hnd & Hnew & Hl & Hcases). pose proof Hsame as (_ & Hbt).
    destruct (live_pages _ + _ <=? _); destruct Hcases as [Ha Hlen]; rewrite Ha; eexists _, s', _, _;
      (split; [done|]); (split; [done|]).
    + eapply (grow_ok room _ w p c _ s' (next_addr c) fs a); try done; [unfold PAGE_SIZE; lia| |by apply regions_ok_new].
      unfold next_ok, with_region. cbn [next_addr]. unfold PAGE_SIZE in *. lia.
    + eapply (grow_ok room _ w p c _ s' (next_addr c) fs a); try done; [unfold PAGE_SIZE; lia| |by apply regions_ok_failed].
      unfold next_ok. cbn. unfold PAGE_SIZE in *. lia.
  - rewrite Hcases. eexists c, (frames w), _, _. split; [done|]. split; [done|].
    rewrite insert_id by done. destruct w. eapply system_ok_room; [done|]. unfold PAGE_SIZE. lia.
Qed.

Lemma deallocate_step_ok room w p c vaddr :
  system_ok room w → 0 <= room → procs w !! p = Some c →
  ∃ c' s' res, deallocate_virtual (c, frames w) vaddr = Ret ((c', s'), res) ∧
    same_arena (frames w) s' ∧ system_ok room (mkSystem (<[p := c']> (procs w)) s') ∧
    (res = Ok tt ∨ res = Err RegionNotFound).
Proof.
  intros Hw Hroom Hc. destruct (position (λ r, rg_start r =? vaddr) (regions c)) as [idx|] eqn:E.
  - destruct (position_Some _ _ _ E) as (r & Hr & _ & _). pose proof (so_next _ _ Hw p c Hc) as [Hn0 Hn].
    destruct (deallocate_region c (frames w) vaddr idx r) as (s' & fs & Hd & Hsame & Hl & Hlen & Hfs);
      [apply Hw|by eapply so_regions|lia| | |done|done|].
    + intros k m Hm. eapply so_live; [done|]. by exists c, m.
    + intros k k' m m' Hm Hm' He.
      apply (so_apart _ _ Hw p k p k' (phys m)); [by exists c, m|by exists c, m'].
    + exists (without_region c idx r (length fs)), s', (Ok tt).
      split_and!; [done|apply Hsame..|by eapply shrink_ok|by left].
  - exists c, (frames w), (Err RegionNotFound). unfold deallocate_virtual. cbn [fst snd]. rewrite E.
    rewrite insert_id by done. destruct w. split_and!; try done. by right.
Qed.

Lemma fault_step_ok room w p c vaddr is_write :
  system_ok room w → procs w !! p = Some c →
  ∃ c' s' res, handle_page_fault (c, frames w) vaddr is_write = Ret ((c', s'), res) ∧
    same_arena (frames w) s' ∧ system_ok room (mkSystem (<[p := c']> (procs w)) s').
Proof.
  intros Hw Hc. assert (∀ e : MemoryError, ∃ c' s' res,
      Ret ((c, frames w), @Err unit _ e) = Ret ((c', s'), res) ∧ same_arena (frames w) s' ∧
      system_ok room (mkSystem (<[p := c']> (procs w)) s')) as Hsame.
  { intros e. exists c, (frames w), (Err e). rewrite insert_id by done. by destruct w. }
  pose proof (so_frames _ _ Hw) as Hs. unfold handle_page_fault. cbn [fst snd].
  destruct (List.find _ _) as [r|] eqn:E; [|apply Hsame]. destruct (is_write && _); [apply Hsame|].
  destruct (Z.lt_ge_cases (live_pages (frames w)) (total_pages (frames w))) as [Hlt|Hge].
  - apply List.find_some in E as [Hin Hx]. apply list_elem_of_In, list_elem_of_lookup in Hin as [i Hi].
    reflect_bools. destruct (allocate_frame (frames w) Hs Hlt) as (s' & f & -> & Hsf & Hf & Hl).
    eexists _, s', (Ok tt). split; [done|]. split; [apply Hsf|].
    eapply (grow_ok room room w p c _ s' (vaddr - vaddr mod PAGE_SIZE) [f] (rg_access r)); try done.
    + apply NoDup_singleton.
    + intros g ->%list_elem_of_singleton. done.
    + cbn. unfold page_at. by rewrite Z.mul_0_l, Z.add_0_r.
    + by apply (so_next _ _ Hw p c).
    + cbn [fst snd]. eapply regions_ok_fault; [by eapply so_regions|done|lia].
  - pose proof (live_pages_le _ Hs). pose proof (pages_in_nonneg (free_blocks (frames w))).
    rewrite allocate_exhausted by (done || lia). apply Hsame.
Qed.

Lemma vm_step_ok room w op :
  system_ok room w → 0 <= op_cost op <= room → op_ok room op →
  ∃ w' res, vm_step w op = Ret (w', res) ∧ same_arena (frames w) (frames w') ∧
    system_ok (room - op_cost op) w' ∧ released_or_absent op res.
Proof.
  intros Hw Hcost Hop.
  destruct op as [p heap|p caps size a now|p vaddr|p vaddr is_write|order]; cbn [vm_step op_cost op_ok] in *;
    rewrite ?Z.sub_0_r; unfold on_process; [destruct (procs w !! p) as [c|] eqn:Hc..|].
  - by exists w, (Ok tt).
  - eexists _, (Ok tt). split_and!; [done..| |done]. by apply create_ok; [| |apply Hop|apply Hop].
  - destruct (allocate_step_ok room w p c caps size a now) as (c' & s' & caps' & res & -> & Hsame & Hok); [done..|lia|].
    eexists _, _. split; [done|]. by split.
  - eexists w, (Ok tt). split_and!; [done..| |done]. eapply system_ok_room; [done|lia].
  - destruct (deallocate_step_ok room w p c vaddr) as (c' & s' & res & -> & Hsame & Hok & Hres); [done|lia|done|].
    by eexists _, res.
  - exists w, (Ok tt). split_and!; [done..|by left].
  - destruct (fault_step_ok room w p c vaddr is_write) as (c' & s' & res & -> & Hsame & Hok); [done..|].
    by eexists _, res.
  - by exists w, (Ok tt).
  - pose proof (so_frames _ _ Hw) as Hs. destruct (Z.le_gt_cases order MAX_ORDER) as [Hmax|Hmax].
    + destruct (allocate_ret (frames w) order Hs ltac:(lia))
        as [(s' & a & -> & Hs' & Hb & Ht & Hnew & Hl)|[-> _]].
      * eexists _, _. split_and!; [done..| |done]. by eapply allocate_frames_ok.
      * eexists _, _. by destruct w.
    + rewrite allocate_invalid by (apply Hs || done). eexists _, _. by destruct w.
Qed.

Lemma vm_run_ok ops room w :
  system_ok room w → ops_cost ops <= room → Forall (op_ok room) ops →
  ∃ w' answers, vm_run ops w = Ret (w', answers) ∧ same_arena (frames w) (frames w') ∧
    system_ok 0 w' ∧ Forall2 released_or_absent ops answers.
Proof.
  revert room w. induction ops as [|op ops IH]; intros room w Hw Hcost Hops; cbn [vm_run ops_cost foldr] in *.
  - exists w, []. split_and!; [done..| |constructor]. by eapply system_ok_room.
  - fold (ops_cost ops) in *. apply Forall_cons in Hops as [Hop Hops].
    assert (0 <= op_cost op) by (destruct op; cbn in *; unfold PAGE_SIZE; lia).
    assert (0 <= ops_cost ops) as Hrest.
    { clear -Hops. induction Hops as [|x l Hx _ IH]; cbn; [done|].
      assert (0 <= op_cost x) by (destruct x; cbn in *; unfold PAGE_SIZE; lia). fold (ops_cost l). lia. }
    destruct (vm_step_ok room w op Hw ltac:(lia) Hop) as (w1 & res & -> & [Hb1 Ht1] & Hw1 & Hr). cbn [mbind outcome_bind fst snd].
    destruct (IH (room - op_cost op) w1 Hw1) as (w' & answers & -> & [Hb2 Ht2] & Hw' & Hans); [lia| |].
    { eapply Forall_impl; [exact Hops|]. intros [] Hx; cbn in *; lia || done. }
    cbn. exists w', (res :: answers). split_and!; [done| |done|by constructor]. split; congruence.
Qed.
End steps.

(** ** Properties *)

Lemma system_ok_new room s : phys_wf s → system_ok room (mkSystem ∅ s).
Proof.
  intros Hs. assert (∀ p k f, ¬ maps_to (mkSystem ∅ s) p k f) as Hno.
  { intros p k f (c & m & Hp & _). cbn in Hp. by rewrite lookup_empty in Hp. }
  split; cbn [procs frames]; [done|by intros p k f ?%Hno|by intros p k p' k' f ?%Hno|..];
    intros p c Hp; by rewrite lookup_empty in Hp.
Qed.


(** Two processes that allocate, fault and release in turn, until the frames run out. *)
Definition demo_history : list vm_op :=
  let caps p := mkBroker {[ 1 := mkToken 1 0 p ResMemory "heap"
                    (mkPermissions true true false false true false false false) 0 100 false ]} [] 2 in
  [Create 7 0x40000000; Create 8 0x40000000; AllocateVirtual 7 (caps 7) 0x1800 demo_access 5;
   AllocateVirtual 8 (caps 8) 0x1000 demo_access 5; AllocateVirtual 8 (caps 7) 0x1000 demo_access 5;
   PageFault 7 0x40000123 true; DeallocateVirtual 7 0x40000000; DeallocateVirtual 7 0x40000000;
   AllocateFrames 0; AllocateVirtual 8 (caps 8) 0x9000 demo_access 6].

