(* ===== verification/Ipc.v ===== *)
(** * Message ports

    Model of [src/reference-rs/src/ipc.rs]: the ring buffer, used by one thread at
    a time here (its concurrent use is in [Spsc.v]), and the port table, whose
    sends and receives go through the capability broker. *)
From S2P Require Import Prelude Capability.

Record Message := mkMessage { sender : Z; payload : list Z }.

#[export] Instance Message_eq_dec : EqDecision Message.
Proof. solve_decision. Defined.

Inductive IpcError := PortNotFound | QueueFull | QueueEmpty | CapabilityDenied.

#[export] Instance IpcError_eq_dec : EqDecision IpcError.
Proof. solve_decision. Defined.

Record RingBuffer := mkRing {
  slots : list (option Message);
  capacity : Z;
  write_index : Z;
  read_index : Z;
  len : Z;
}.

Definition RingBuffer_new (capacity : Z) : RingBuffer :=
  mkRing (replicate (Z.to_nat capacity) None) capacity 0 0 0.

(** [a % b] on [usize] panics for a zero divisor. *)
Definition usize_rem (a b : Z) : outcome Z :=
  if b =? 0 then Panic else Ret (a mod b).

(** [len.fetch_add(1)] and [len.fetch_sub(1)] wrap around in every profile. *)
Definition fetch_add (x d : Z) : Z := (x + d) mod 2 ^ 64.

Section ring.
Context `{Profile}.

Definition enqueue (self : RingBuffer) (message : Message) :
    outcome (RingBuffer * result unit IpcError) :=
  if self.(capacity) <=? self.(len) then Ret (self, Err QueueFull)
  else
    let idx := self.(write_index) in
    k ← usize_rem idx self.(capacity);
    slots ← vec_set self.(slots) k (Some message);
    idx1 ← u64_add idx 1;
    Ret (mkRing slots self.(capacity) idx1 self.(read_index) (fetch_add self.(len) 1),
         Ok tt).

Definition dequeue (self : RingBuffer) :
    outcome (RingBuffer * result Message IpcError) :=
  if self.(len) =? 0 then Ret (self, Err QueueEmpty)
  else
    let idx := self.(read_index) in
    k ← usize_rem idx self.(capacity);
    message ← vec_get self.(slots) k;
    slots ← vec_set self.(slots) k None;
    idx1 ← u64_add idx 1;
    Ret (mkRing slots self.(capacity) self.(write_index) idx1 (fetch_add self.(len) (-1)),
         ok_or message QueueEmpty).
End ring.

Definition ring_is_empty (self : RingBuffer) : bool := self.(len) =? 0.

Record Port := mkPort { port_id : Z; owner_pid : Z; queue : RingBuffer }.

Record PortTable := mkPortTable { ports : gmap Z Port; next_port_id : Z }.

Definition PortTable_new : PortTable := mkPortTable ∅ 1.

(** [format!("port:{port_id}")]. *)
Definition port_resource_path (port_id : Z) : string :=
  "port:" +:+ pretty (Z.to_N port_id).

Definition ipc_owner_permissions : Permissions :=
  mkPermissions true true false false false false false true.

Section ports.
Context `{Profile}.

Definition create_port (self : PortTable) (owner_pid capacity : Z)
    (caps : CapabilityBroker) (now : Z) :
    outcome (PortTable * CapabilityBroker * Z) :=
  let port_id := self.(next_port_id) in
  next ← u64_add self.(next_port_id) 1;
  let ports := <[port_id := mkPort port_id owner_pid (RingBuffer_new capacity)]>
                 self.(ports) in
  r ← issue caps 0 owner_pid ResIpc (port_resource_path port_id)
        ipc_owner_permissions now u64_max;
  Ret (mkPortTable ports next, r.1, port_id).

Definition delete_port (self : PortTable) (port_id : Z) :
    PortTable * result unit IpcError :=
  match self.(ports) !! port_id with
  | None => (self, Err PortNotFound)
  | Some _ => (mkPortTable (delete port_id self.(ports)) self.(next_port_id), Ok tt)
  end.

(** The table with the queue of one port replaced. *)
Definition set_queue (self : PortTable) (id : Z) (p : Port) (q : RingBuffer) : PortTable :=
  mkPortTable (<[id := mkPort p.(port_id) p.(owner_pid) q]> self.(ports))
    self.(next_port_id).

Definition send_message (self : PortTable) (sender dest_port : Z) (payload : list Z)
    (caps : CapabilityBroker) (now : Z) :
    outcome (PortTable * CapabilityBroker * result unit IpcError) :=
  let (caps, decision) :=
    check_access caps sender ResIpc (port_resource_path dest_port)
      (mkPermissions false true false false false false false false) now in
  if negb (bool_decide (decision = Allowed))
  then Ret (self, caps, Err CapabilityDenied)
  else
    match self.(ports) !! dest_port with
    | None => Ret (self, caps, Err PortNotFound)
    | Some port =>
        r ← enqueue port.(queue) (mkMessage sender payload);
        Ret (set_queue self dest_port port r.1, caps, r.2)
    end.

Definition receive_message (self : PortTable) (receiver port_id : Z)
    (caps : CapabilityBroker) (now : Z) :
    outcome (PortTable * CapabilityBroker * result Message IpcError) :=
  let (caps, decision) :=
    check_access caps receiver ResIpc (port_resource_path port_id)
      (mkPermissions true false false false false false false false) now in
  if negb (bool_decide (decision = Allowed))
  then Ret (self, caps, Err CapabilityDenied)
  else
    match self.(ports) !! port_id with
    | None => Ret (self, caps, Err PortNotFound)
    | Some port =>
        r ← dequeue port.(queue);
        Ret (set_queue self port_id port r.1, caps, r.2)
    end.
End ports.

(** ** The ring buffer as a bounded queue *)

(** Slot [i] of the live window holds message [i] of the queue. *)
Record ring_rel (r : RingBuffer) (q : list Message) : Prop := {
  rr_len : len r = Z.of_nat (length q);
  rr_cap : Z.of_nat (length q) <= capacity r < 2 ^ 64;
  rr_slots : Z.of_nat (length (slots r)) = capacity r;
  rr_read : 0 <= read_index r;
  rr_write : write_index r = read_index r + Z.of_nat (length q);
  rr_window : ∀ i m, q !! i = Some m →
    slots r !! Z.to_nat ((read_index r + Z.of_nat i) mod capacity r) = Some (Some m);
}.

Lemma ring_rel_new cap : 0 <= cap < 2 ^ 64 → ring_rel (RingBuffer_new cap) [].
Proof.
  intros Hc. split; simpl; try lia.
  - rewrite length_replicate. lia.
  - by intros i m.
Qed.

(** Indices of one window of at most [cap] positions fall into different slots. *)
Lemma mod_window_inj cap a b : 0 < cap → a <= b < a + cap → a mod cap = b mod cap → a = b.
Proof.
  intros Hc Hab Heq. assert ((b - a) mod cap = 0) as Hz.
  { rewrite Zminus_mod, Heq, Z.sub_diag. by apply Z.mod_0_l, Z.neq_sym, Z.lt_neq. }
  rewrite Z.mod_small in Hz by lia. lia.
Qed.

Lemma mod_index cap i : 0 < cap → 0 <= i mod cap < cap.
Proof. apply Z.mod_pos_bound. Qed.

Lemma slot_ne cap a b :
  0 < cap → a < b < a + cap → Z.to_nat (a mod cap) ≠ Z.to_nat (b mod cap).
Proof.
  intros Hc Hab Heq. pose proof (mod_index cap a Hc). pose proof (mod_index cap b Hc).
  assert (a = b); [|lia]. apply (mod_window_inj cap); [done|lia|lia].
Qed.

Section ring_spec.
Context `{Profile}.

Lemma enqueue_full r q m :
  ring_rel r q → Z.of_nat (length q) = capacity r → enqueue r m = Ret (r, Err QueueFull).
Proof.
  intros Hr Hfull. unfold enqueue. rewrite (rr_len _ _ Hr).
  by rewrite (proj2 (Z.leb_le _ _)) by lia.
Qed.

Lemma enqueue_room r q m :
  ring_rel r q → Z.of_nat (length q) < capacity r → write_index r < u64_max →
  ∃ r', enqueue r m = Ret (r', Ok tt) ∧ ring_rel r' (q ++ [m]) ∧
        capacity r' = capacity r ∧ write_index r' = write_index r + 1 ∧
        read_index r' = read_index r.
Proof.
  intros [Hlen Hcap Hsl Hrd Hwr Hwin] Hroom Hw. unfold u64_max in Hw. unfold enqueue.
  rewrite Hlen, (proj2 (Z.leb_gt _ _)) by lia. unfold usize_rem.
  rewrite (proj2 (Z.eqb_neq _ _)) by lia. simpl.
  pose proof (mod_index (capacity r) (write_index r) ltac:(lia)) as Hk.
  rewrite vec_set_ret by lia. simpl. rewrite u64_add_ret by lia. simpl.
  eexists. split; [reflexivity|]. split_and!; [|done..]. unfold fetch_add.
  split; simpl; rewrite ?length_app, ?length_insert; simpl; try lia.
  - rewrite Z.mod_small by lia. lia.
  - intros i m' Hi. apply lookup_app_Some in Hi as [Hi|[Hge Hi]].
    + pose proof (lookup_lt_Some _ _ _ Hi).
      rewrite list_lookup_insert_ne; [by apply Hwin|].
      apply not_eq_sym. apply slot_ne; lia.
    + destruct (i - length q)%nat eqn:E; [|done]. injection Hi as <-.
      replace (read_index r + Z.of_nat i) with (write_index r) by lia.
      apply list_lookup_insert_eq. lia.
Qed.

Lemma dequeue_empty r : ring_rel r [] → dequeue r = Ret (r, Err QueueEmpty).
Proof. intros Hr. unfold dequeue. by rewrite (rr_len _ _ Hr). Qed.

Lemma dequeue_head r q m :
  ring_rel r (m :: q) → read_index r < u64_max →
  ∃ r', dequeue r = Ret (r', Ok m) ∧ ring_rel r' q ∧ capacity r' = capacity r ∧
        read_index r' = read_index r + 1 ∧ write_index r' = write_index r.
Proof.
  intros [Hlen Hcap Hsl Hrd Hwr Hwin] Hr. unfold u64_max in Hr. simpl in Hlen, Hcap, Hwr.
  unfold dequeue. rewrite Hlen, (proj2 (Z.eqb_neq _ _)) by lia. unfold usize_rem.
  rewrite (proj2 (Z.eqb_neq _ _)) by lia. simpl.
  pose proof (mod_index (capacity r) (read_index r) ltac:(lia)) as Hk.
  pose proof (Hwin 0%nat m eq_refl) as H0. rewrite Z.add_0_r in H0.
  rewrite (proj2 (vec_get_ret _ _ _) (conj (proj1 Hk) H0)). simpl.
  rewrite vec_set_ret by lia. simpl. rewrite u64_add_ret by lia. simpl.
  eexists. split; [reflexivity|]. split_and!; [|done..]. unfold fetch_add.
  split; simpl; rewrite ?length_insert; try lia.
  - rewrite Z.mod_small by lia. lia.
  - intros i m' Hi. pose proof (lookup_lt_Some _ _ _ Hi).
    rewrite list_lookup_insert_ne by (apply slot_ne; lia).
    replace (read_index r + 1 + Z.of_nat i) with (read_index r + Z.of_nat (S i)) by lia.
    by apply Hwin.
Qed.
End ring_spec.

(** ** The port table as a map of bounded queues *)

Inductive ipc_op :=
| CreatePort (owner capacity : Z)
| DeletePort (id : Z)
| SendMessage (sender dest : Z) (payload : list Z)
| ReceiveMessage (receiver id : Z).

Inductive ipc_response :=
| RPort (id : Z)
| RUnit (r : result unit IpcError)
| RMessage (r : result Message IpcError).

(** One call at time [now]. *)
Definition ipc_step `{Profile} (op : ipc_op) (now : Z) (s : PortTable * CapabilityBroker) :
    outcome (PortTable * CapabilityBroker * ipc_response) :=
  let (t, caps) := s in
  match op with
  | CreatePort o c => r ← create_port t o c caps now; Ret (r.1, RPort r.2)
  | DeletePort i => let r := delete_port t i in Ret (r.1, caps, RUnit r.2)
  | SendMessage s d p => r ← send_message t s d p caps now; Ret (r.1, RUnit r.2)
  | ReceiveMessage v i => r ← receive_message t v i caps now; Ret (r.1, RMessage r.2)
  end.

Fixpoint ipc_run `{Profile} (ops : list (ipc_op * Z)) (s : PortTable * CapabilityBroker) :
    outcome (PortTable * CapabilityBroker * list ipc_response) :=
  match ops with
  | [] => Ret (s, [])
  | (op, now) :: ops' =>
      r ← ipc_step op now s;
      rs ← ipc_run ops' r.1;
      Ret (rs.1, r.2 :: rs.2)
  end.

(** The specification: each port is a bounded list; a port's messages come out in
    the order they went in; access is what the broker decides. *)
Record port_spec := mkPortSpec { ps_capacity : Z; ps_messages : list Message }.

Definition spec_state : Type := gmap Z port_spec * Z * CapabilityBroker.

Definition spec_permitted (caps : CapabilityBroker) (pid id : Z) (needs : Permissions)
    (now : Z) : bool :=
  bool_decide (decide_access caps pid ResIpc (port_resource_path id) needs now = Allowed).

Definition needs_write : Permissions :=
  mkPermissions false true false false false false false false.
Definition needs_read : Permissions :=
  mkPermissions true false false false false false false false.

Definition spec_step `{Profile} (op : ipc_op) (now : Z) (s : spec_state) :
    outcome (spec_state * ipc_response) :=
  let '(m, next, caps) := s in
  match op with
  | CreatePort o c =>
      r ← issue caps 0 o ResIpc (port_resource_path next) ipc_owner_permissions now u64_max;
      Ret (<[next := mkPortSpec c []]> m, next + 1, r.1, RPort next)
  | DeletePort i =>
      Ret (delete i m, next, caps,
           RUnit (if m !! i is Some _ then Ok tt else Err PortNotFound))
  | SendMessage v d p =>
      let caps' := (check_access caps v ResIpc (port_resource_path d) needs_write now).1 in
      if spec_permitted caps v d needs_write now then
        match m !! d with
        | None => Ret (m, next, caps', RUnit (Err PortNotFound))
        | Some q =>
            if Z.of_nat (length (ps_messages q)) <? ps_capacity q
            then Ret (<[d := mkPortSpec (ps_capacity q)
                               (ps_messages q ++ [mkMessage v p])]> m, next, caps', RUnit (Ok tt))
            else Ret (m, next, caps', RUnit (Err QueueFull))
        end
      else Ret (m, next, caps', RUnit (Err CapabilityDenied))
  | ReceiveMessage v i =>
      let caps' := (check_access caps v ResIpc (port_resource_path i) needs_read now).1 in
      if spec_permitted caps v i needs_read now then
        match m !! i with
        | None => Ret (m, next, caps', RMessage (Err PortNotFound))
        | Some q =>
            match ps_messages q with
            | [] => Ret (m, next, caps', RMessage (Err QueueEmpty))
            | msg :: rest =>
                Ret (<[i := mkPortSpec (ps_capacity q) rest]> m, next, caps', RMessage (Ok msg))
            end
        end
      else Ret (m, next, caps', RMessage (Err CapabilityDenied))
  end.

Fixpoint spec_run `{Profile} (ops : list (ipc_op * Z)) (s : spec_state) :
    outcome (spec_state * list ipc_response) :=
  match ops with
  | [] => Ret (s, [])
  | (op, now) :: ops' =>
      r ← spec_step op now s;
      rs ← spec_run ops' r.1;
      Ret (rs.1, r.2 :: rs.2)
  end.

(** The queue of a port and its specification, after at most [n] operations. *)
Definition port_rel (n : Z) (p : Port) (q : port_spec) : Prop :=
  ring_rel (queue p) (ps_messages q) ∧ capacity (queue p) = ps_capacity q ∧
  write_index (queue p) <= n.

Record table_rel (n : Z) (t : PortTable) (m : gmap Z port_spec) (next : Z) : Prop := {
  tr_next : next_port_id t = next;
  tr_bound : 0 <= next <= n + 1;
  tr_ports : map_relation (λ _, port_rel n) (λ _ _, False) (λ _ _, False) (ports t) m;
}.

Definition op_capacity_ok (op : ipc_op) : Prop :=
  match op with
  | CreatePort _ c => 0 <= c < 2 ^ 64
  | _ => True
  end.

Lemma port_rel_mono n p q : port_rel n p q → port_rel (n + 1) p q.
Proof. intros (? & ? & ?). split_and!; [done..|lia]. Qed.

Lemma table_rel_lookup n t m next i :
  table_rel n t m next →
  match ports t !! i, m !! i with
  | Some p, Some q => port_rel n p q
  | None, None => True
  | _, _ => False
  end.
Proof.
  intros Ht. pose proof (tr_ports _ _ _ _ Ht i) as Hi.
  by destruct (ports t !! i), (m !! i).
Qed.

Lemma table_rel_mono n t m next : table_rel n t m next → table_rel (n + 1) t m next.
Proof.
  intros [Hn Hb Hp]. split; [done|lia|]. intros i. specialize (Hp i).
  destruct (ports t !! i), (m !! i); simpl in *; try done. by apply port_rel_mono.
Qed.

(** Replacing one port on both sides. *)
Lemma table_rel_insert n t m next next' i p q :
  table_rel n t m next → 0 <= next' <= n + 2 → port_rel (n + 1) p q →
  table_rel (n + 1) (mkPortTable (<[i := p]> (ports t)) next') (<[i := q]> m) next'.
Proof.
  intros Ht Hb Hpq. split; simpl; [done|lia|]. intros j. rewrite !lookup_insert.
  case_decide as Hj; [done|]. pose proof (table_rel_lookup _ _ _ _ j Ht) as Hx.
  destruct (ports t !! j), (m !! j); simpl in *; try done. by apply port_rel_mono.
Qed.

Section refinement.
Context `{Profile}.

(** One call returns what the specification returns and keeps the relation. *)
Lemma ipc_step_refines n t caps m next op now s' resp :
  table_rel n t m next → n < u64_max - 1 → op_capacity_ok op →
  spec_step op now (m, next, caps) = Ret (s', resp) →
  ∃ t', ipc_step op now (t, caps) = Ret (t', s'.2, resp) ∧
        table_rel (n + 1) t' s'.1.1 s'.1.2.
Proof.
  unfold u64_max. intros Ht Hn Hop Hs. pose proof (tr_next _ _ _ _ Ht) as Hnext.
  pose proof (tr_bound _ _ _ _ Ht) as Hb. destruct t as [ps nx]. simpl in Hnext. subst nx.
  destruct op as [o c|i|v d p|v i]; simpl in Hs |- *.
  - unfold create_port. simpl. rewrite u64_add_ret by lia. simpl.
    apply outcome_bind_ret in Hs as (r & -> & [= <- <-]). simpl.
    eexists. split; [reflexivity|]. apply (table_rel_insert n (mkPortTable ps next) m next); [done|lia|].
    split_and!; [by apply ring_rel_new|done|simpl; lia].
  - injection Hs as <- <-. pose proof (table_rel_lookup _ _ _ _ i Ht) as Hi.
    unfold delete_port. simpl in *. destruct (ps !! i) as [p|] eqn:E, (m !! i) as [q|] eqn:Em; try done.
    + eexists. split; [reflexivity|]. split; simpl; [done|lia|].
      intros j. rewrite !lookup_delete. case_decide as Hj; [done|].
      pose proof (table_rel_lookup _ _ _ _ j Ht) as Hx. simpl in Hx.
      destruct (ps !! j), (m !! j); simpl in *; try done. by apply port_rel_mono.
    + eexists. split; [reflexivity|]. rewrite delete_id by done. by apply table_rel_mono.
  - unfold send_message. fold needs_write. simpl. unfold spec_permitted in Hs.
    destruct (bool_decide _) eqn:Ed; simpl in *.
    2:{ injection Hs as <- <-. eexists. split; [reflexivity|]. by apply table_rel_mono. }
    pose proof (table_rel_lookup _ _ _ _ d Ht) as Hd. simpl in *.
    destruct (ps !! d) as [pt|] eqn:E, (m !! d) as [q|] eqn:Em; try done.
    2:{ injection Hs as <- <-. eexists. split; [reflexivity|]. by apply table_rel_mono. }
    destruct Hd as (Hr & Hcap & Hw).
    destruct (Z.of_nat (length (ps_messages q)) <? ps_capacity q) eqn:El; reflect_bools;
      injection Hs as <- <-.
    + destruct (enqueue_room (queue pt) _ (mkMessage v p) Hr) as (r' & -> & Hr' & Hc' & Hw' & _);
        [lia|unfold u64_max; lia|]. simpl.
      eexists. split; [reflexivity|]. apply (table_rel_insert n (mkPortTable ps next) m next); [done|lia|].
      split_and!; simpl; [done|congruence|lia].
    + pose proof (rr_cap _ _ Hr). rewrite (enqueue_full _ _ _ Hr) by lia. simpl.
      eexists. split; [reflexivity|]. unfold set_queue. simpl.
      replace (mkPort (port_id pt) (owner_pid pt) (queue pt)) with pt by (by destruct pt).
      rewrite insert_id by done. by apply table_rel_mono.
  - unfold receive_message. fold needs_read. simpl. unfold spec_permitted in Hs.
    destruct (bool_decide _) eqn:Ed; simpl in *.
    2:{ injection Hs as <- <-. eexists. split; [reflexivity|]. by apply table_rel_mono. }
    pose proof (table_rel_lookup _ _ _ _ i Ht) as Hi. simpl in *.
    destruct (ps !! i) as [pt|] eqn:E, (m !! i) as [q|] eqn:Em; try done.
    2:{ injection Hs as <- <-. eexists. split; [reflexivity|]. by apply table_rel_mono. }
    destruct Hi as (Hr & Hcap & Hw).
    destruct (ps_messages q) as [|msg rest] eqn:El; injection Hs as <- <-.
    + rewrite (dequeue_empty _ Hr). simpl.
      eexists. split; [reflexivity|]. unfold set_queue. simpl.
      replace (mkPort (port_id pt) (owner_pid pt) (queue pt)) with pt by (by destruct pt).
      rewrite insert_id by done. by apply table_rel_mono.
    + pose proof (rr_write _ _ Hr) as Hwr. simpl in Hwr.
      destruct (dequeue_head (queue pt) rest msg Hr) as (r' & -> & Hr' & Hc' & _ & Hw');
        [unfold u64_max; lia|]. simpl.
      eexists. split; [reflexivity|]. apply (table_rel_insert n (mkPortTable ps next) m next); [done|lia|].
      split_and!; simpl; [done|congruence|lia].
Qed.

Lemma ipc_run_refines ops n t caps m next s' resps :
  table_rel n t m next → n + Z.of_nat (length ops) < u64_max →
  Forall (λ o, op_capacity_ok o.1) ops →
  spec_run ops (m, next, caps) = Ret (s', resps) →
  ∃ t', ipc_run ops (t, caps) = Ret (t', s'.2, resps).
Proof.
  intros Ht Hn Hops. revert n t caps m next s' resps Ht Hn.
  induction Hops as [|[op now] ops Hop _ IH]; intros n t caps m next s' resps Ht Hn Hs.
  - simpl in *. injection Hs as <- <-. by exists t.
  - cbn [spec_run length] in Hs, Hn. apply outcome_bind_ret in Hs as ([s1 resp] & Hs1 & Hs).
    apply outcome_bind_ret in Hs as ([s2 rs] & Hs2 & [= <- <-]). simpl in Hs2.
    destruct (ipc_step_refines n t caps m next op now s1 resp Ht ltac:(unfold u64_max in *; lia) Hop Hs1)
      as (t1 & Hstep & Ht1).
    destruct s1 as [[m1 next1] caps1]. simpl in *.
    destruct (IH (n + 1) t1 caps1 m1 next1 s2 rs Ht1 ltac:(lia) Hs2) as (t2 & Hrun).
    exists t2. cbn [ipc_run]. rewrite Hstep. cbn. by rewrite Hrun.
Qed.
End refinement.

(** ** Port paths *)

Fixpoint no_star (s : string) : Prop :=
  match s with
  | EmptyString => True
  | String c s' => c ≠ "*"%char ∧ no_star s'
  end.

Lemma no_star_go x s : no_star s → no_star (pretty_N_go x s).
Proof.
  revert s. induction (N.lt_wf_0 x) as [x _ IH]; intros s Hs.
  destruct (N.eq_dec x 0%N) as [->|Hx]; [by rewrite pretty_N_go_0|].
  rewrite pretty_N_go_step by lia. apply IH; [by apply N.div_lt; lia|].
  split; [|done]. unfold pretty_N_char. by repeat case_match.
Qed.

Lemma no_star_port_path id : no_star (port_resource_path id).
Proof.
  unfold port_resource_path. simpl. repeat (split; [done|]).
  unfold pretty, pretty_N. case_decide; [done|]. by apply no_star_go.
Qed.

Lemma no_star_strip s : no_star s → strip_suffix_star s = None.
Proof.
  induction s as [|c s IH]; [done|]. intros [Hc Hs]. simpl.
  destruct s as [|c' s']; [by rewrite bool_decide_false|]. by rewrite IH.
Qed.

Lemma port_resource_path_inj a b :
  0 <= a → 0 <= b → port_resource_path a = port_resource_path b → a = b.
Proof.
  intros Ha Hb. unfold port_resource_path. simpl. intros [= Hp].
  assert (Z.to_N a = Z.to_N b) as Hab by (by apply (inj (pretty (A := N)))). by apply Z2N.inj in Hab.
Qed.

(** The capability of one port covers that port's path and nothing else. *)
Lemma port_path_covers id path :
  path_covers (port_resource_path id) path = bool_decide (path = port_resource_path id).
Proof.
  unfold path_covers. rewrite no_star_strip by apply no_star_port_path.
  apply bool_decide_ext. done.
Qed.

Section totality.
Context `{Profile}.

Lemma issue_fields b i s rt path perms now e :
  0 <= next_token_id b < u64_max →
  ∃ b', issue b i s rt path perms now e = Ret (b', next_token_id b) ∧
        next_token_id b' = next_token_id b + 1 ∧
        tokens b' = <[next_token_id b := mkToken (next_token_id b) i s rt path perms now e false]>
                      (tokens b).
Proof. intros Hb. rewrite issue_ret by done. by eexists. Qed.

(** The specification returns as long as token ids last. *)
Lemma spec_run_total ops m next caps :
  0 <= next_token_id caps → next_token_id caps + Z.of_nat (length ops) <= u64_max →
  ∃ s' resps, spec_run ops (m, next, caps) = Ret (s', resps).
Proof.
  revert m next caps. induction ops as [|[op now] ops IH]; intros m next caps H0 Hb.
  { by eexists _, _. }
  cbn [spec_run length] in *.
  assert (∃ s1 r1, spec_step op now (m, next, caps) = Ret (s1, r1) ∧
            next_token_id caps <= next_token_id s1.2 <= next_token_id caps + 1)
    as ([[m1 next1] caps1] & r1 & -> & Hn1).
  { destruct op as [o c|i|v d p|v i]; simpl.
    - destruct (issue_fields caps 0 o ResIpc (port_resource_path next) ipc_owner_permissions now u64_max)
        as (b' & -> & Hb' & _); [lia|]. simpl. eexists _, _. split; [done|]. simpl. lia.
    - eexists _, _. split; [done|]. simpl. lia.
    - repeat case_match; eexists _, _; (split; [done|]); simpl; lia.
    - repeat case_match; eexists _, _; (split; [done|]); simpl; lia. }
  cbn. destruct (IH m1 next1 caps1) as (s2 & rs & ->); [simpl in *; lia..|].
  by eexists _, _.
Qed.
End totality.

(** ** Properties *)

(** [C4] Ports refine bounded FIFO queues: over any sequence of calls (fewer than
    [2^64 - 1], which keeps the indices of the ring buffers in range) the table of
    ring buffers gives the responses of the specification, in which a port is a
    list bounded by its capacity, a send appends to it and a receive takes its
    head, each only if the broker allows the caller. *)
Theorem ports_refine_queues `{Profile} ops caps
    (Hn : Z.of_nat (length ops) < u64_max) (Hops : Forall (λ o, op_capacity_ok o.1) ops)
    (H0 : 0 <= next_token_id caps)
    (Hids : next_token_id caps + Z.of_nat (length ops) <= u64_max) :
  ∃ t' s' resps,
    spec_run ops (∅, 1, caps) = Ret (s', resps) ∧
    ipc_run ops (PortTable_new, caps) = Ret (t', s'.2, resps).
Proof.
  destruct (spec_run_total ops ∅ 1 caps H0 Hids) as (s' & resps & Hs).
  assert (table_rel 0 PortTable_new ∅ 1) as Ht.
  { split; simpl; [done|lia|]. intros i. by rewrite !lookup_empty. }
  destruct (ipc_run_refines ops 0 PortTable_new caps ∅ 1 s' resps Ht ltac:(lia) Hops Hs) as (t' & Hr).
  by exists t', s', resps.
Qed.

Definition demo_ipc_ops : list (ipc_op * Z) :=
  [(CreatePort 7 2, 0); (SendMessage 7 1 [1; 2], 1); (SendMessage 8 1 [3], 2);
   (SendMessage 7 1 [4], 3); (SendMessage 7 1 [5], 4); (ReceiveMessage 7 1, 5);
   (SendMessage 7 1 [6], 6); (ReceiveMessage 7 1, 7); (ReceiveMessage 7 1, 8);
   (ReceiveMessage 7 1, 9); (ReceiveMessage 7 2, 10)].

Lemma ports_refine_queues_witness :
  ∃ s, @ipc_run true demo_ipc_ops (PortTable_new, CapabilityBroker_new) =
    Ret (s, [RPort 1; RUnit (Ok tt); RUnit (Err CapabilityDenied); RUnit (Ok tt);
             RUnit (Err QueueFull); RMessage (Ok (mkMessage 7 [1; 2])); RUnit (Ok tt);
             RMessage (Ok (mkMessage 7 [4])); RMessage (Ok (mkMessage 7 [6]));
             RMessage (Err QueueEmpty); RMessage (Err CapabilityDenied)]).
Proof.
  destruct (@ports_refine_queues true demo_ipc_ops CapabilityBroker_new)
    as (t' & s' & resps & Hs & Hr).
  - vm_compute. reflexivity.
  - repeat constructor; discriminate.
  - vm_compute. discriminate.
  - vm_compute. discriminate.
  - exists (t', s'.2). rewrite Hr. vm_compute in Hs. injection Hs as _ <-. reflexivity.
Defined.

(** What creating a port confers: afterwards a request is allowed exactly if
    it was allowed before or it is the owner asking for a subset of
    read/write/delegate on this port's own path.  In particular no other process
    and no other port, whatever its number, gains anything. *)
Theorem create_port_confers_only_owner `{Profile} t owner cap caps now t' caps' id
    s rt path needs now'
    (Hwf : broker_wf caps) (Hids : next_token_id caps < u64_max)
    (Hc : create_port t owner cap caps now = Ret (t', caps', id)) :
  decide_access caps' s rt path needs now' = Allowed ↔
  decide_access caps s rt path needs now' = Allowed ∨
  (s = owner ∧ rt = ResIpc ∧ path = port_resource_path id ∧ now' < u64_max ∧
   covers ipc_owner_permissions needs = true).
Proof.
  unfold create_port in Hc. apply outcome_bind_ret in Hc as (next & _ & Hc).
  pose proof (wf_next _ Hwf).
  destruct (issue_fields caps 0 owner ResIpc (port_resource_path (next_port_id t))
              ipc_owner_permissions now u64_max) as (b & Hb & _ & Htok); [lia|].
  rewrite Hb in Hc. injection Hc as _ <- <-.
  rewrite !decide_access_allowed, Htok.
  assert (tokens caps !! next_token_id caps = None) as Hfresh.
  { apply eq_None_not_Some. intros [tk Hk]. destruct (wf_ids _ Hwf _ _ Hk). lia. }
  split.
  - intros (j & tk & [[<- <-]|[_ Hj]]%lookup_insert_Some & Hg); [|left; eauto].
    right. apply grants_spec in Hg as (? & ? & Hp & _ & ? & ?). simpl in *.
    rewrite port_path_covers, bool_decide_eq_true in Hp. done.
  - intros [(j & tk & Hj & Hg)|(-> & -> & -> & Hnow & Hcov)].
    + exists j, tk. split; [|done]. rewrite lookup_insert_ne; [done|]. congruence.
    + eexists (next_token_id caps), _. split; [apply lookup_insert_eq|].
      apply grants_spec. simpl. split_and!; try done.
      rewrite port_path_covers. by apply bool_decide_eq_true.
Qed.

Lemma create_port_confers_only_owner_witness :
  ∃ t' caps', @create_port true PortTable_new 7 4 CapabilityBroker_new 0 = Ret (t', caps', 1) ∧
    decide_access caps' 7 ResIpc (port_resource_path 1) needs_write 5 = Allowed ∧
    decide_access caps' 7 ResIpc (port_resource_path 10) needs_write 5 ≠ Allowed.
Proof.
  eexists _, _. split; [vm_compute; reflexivity|]. split.
  - refine (proj2 (@create_port_confers_only_owner true PortTable_new 7 4 CapabilityBroker_new 0
      _ _ 1 7 ResIpc (port_resource_path 1) needs_write 5 broker_wf_new _ _) _).
    + vm_compute. reflexivity.
    + vm_compute. reflexivity.
    + right. split_and!; vm_compute; reflexivity.
  - vm_compute. discriminate.
Defined.
