(* ===== verification/Spsc.v ===== *)
(** * The ring buffer under a concurrent producer and consumer

    Model of the concurrency contract of [RingBuffer] in
    [src/reference-rs/src/ipc.rs]: [enqueue] and [dequeue] as sequences of atomic
    accesses to the shared fields, interleaved in any order by a schedule.  The
    accesses are sequentially consistent here; the source's orderings are
    [Acquire] loads and [Release] updates of [len], under which [RingOrderings] runs it. *)
From S2P Require Import Prelude Capability Ipc.

(** Where the producer is inside [enqueue]. *)
Inductive producer :=
| PIdle
| PRoom (m : Message)
| PWrite (m : Message) (idx : Z)
| PBump (idx : Z)
| PPublish.

(** Where the consumer is inside [dequeue]. *)
Inductive consumer :=
| CIdle
| CSome
| CTake (idx : Z)
| CBump (idx : Z) (m : option Message)
| CRelease (m : option Message).

(** The shared buffer, the two threads, and the history: the messages written to
    slots and what was taken from them. *)
Record spsc := mkSpsc {
  ring : RingBuffer;
  prod : producer;
  cons : consumer;
  sent : list Message;
  received : list (option Message);
}.

Definition idle (r : RingBuffer) : spsc := mkSpsc r PIdle CIdle [] [].

Inductive action :=
| Produce (m : Message)
| Consume.

Section steps.
Context `{Profile}.

(** The next atomic access of the producer; [m] is the message of a new call. *)
Definition producer_step (m : Message) (s : spsc) : outcome spsc :=
  let 'mkSpsc r p c sent rcv := s in
  match p with
  | PIdle =>
      if r.(capacity) <=? r.(len) then Ret s
      else Ret (mkSpsc r (PRoom m) c sent rcv)
  | PRoom m => Ret (mkSpsc r (PWrite m r.(write_index)) c sent rcv)
  | PWrite m idx =>
      k ← usize_rem idx r.(capacity);
      slots ← vec_set r.(slots) k (Some m);
      Ret (mkSpsc (mkRing slots r.(capacity) r.(write_index) r.(read_index) r.(len))
             (PBump idx) c (sent ++ [m]) rcv)
  | PBump idx =>
      idx1 ← u64_add idx 1;
      Ret (mkSpsc (mkRing r.(slots) r.(capacity) idx1 r.(read_index) r.(len))
             PPublish c sent rcv)
  | PPublish =>
      Ret (mkSpsc (mkRing r.(slots) r.(capacity) r.(write_index) r.(read_index)
                     (fetch_add r.(len) 1)) PIdle c sent rcv)
  end.

Definition consumer_step (s : spsc) : outcome spsc :=
  let 'mkSpsc r p c sent rcv := s in
  match c with
  | CIdle => if r.(len) =? 0 then Ret s else Ret (mkSpsc r p CSome sent rcv)
  | CSome => Ret (mkSpsc r p (CTake r.(read_index)) sent rcv)
  | CTake idx =>
      k ← usize_rem idx r.(capacity);
      m ← vec_get r.(slots) k;
      slots ← vec_set r.(slots) k None;
      Ret (mkSpsc (mkRing slots r.(capacity) r.(write_index) r.(read_index) r.(len))
             p (CBump idx m) sent (rcv ++ [m]))
  | CBump idx m =>
      idx1 ← u64_add idx 1;
      Ret (mkSpsc (mkRing r.(slots) r.(capacity) r.(write_index) idx1 r.(len))
             p (CRelease m) sent rcv)
  | CRelease _ =>
      Ret (mkSpsc (mkRing r.(slots) r.(capacity) r.(write_index) r.(read_index)
                     (fetch_add r.(len) (-1))) p CIdle sent rcv)
  end.

Definition spsc_step (a : action) (s : spsc) : outcome spsc :=
  match a with
  | Produce m => producer_step m s
  | Consume => consumer_step s
  end.

Fixpoint spsc_run (schedule : list action) (s : spsc) : outcome spsc :=
  match schedule with
  | [] => Ret s
  | a :: schedule' => s' ← spsc_step a s; spsc_run schedule' s'
  end.
End steps.

(** Both threads are about to access the same slot. *)
Definition slot_race (s : spsc) : Prop :=
  match s.(prod), s.(cons) with
  | PWrite _ i, CTake j => i mod s.(ring).(capacity) = j mod s.(ring).(capacity)
  | _, _ => False
  end.

(** ** The invariant *)

(** Slot writes that [len] does not count yet, and takes that it still counts. *)
Definition unpublished (p : producer) : Z :=
  match p with PBump _ | PPublish => 1 | _ => 0 end.
Definition unreleased (c : consumer) : Z :=
  match c with CBump _ _ | CRelease _ => 1 | _ => 0 end.

Definition counted (s : spsc) : Z :=
  (Z.of_nat (length (sent s)) - unpublished (prod s)) -
  (Z.of_nat (length (received s)) - unreleased (cons s)).

Record spsc_inv (s : spsc) : Prop := {
  si_cap : 0 <= capacity (ring s) < 2 ^ 64;
  si_slots : Z.of_nat (length (slots (ring s))) = capacity (ring s);
  si_fifo : received s = Some <$> take (length (received s)) (sent s);
  si_order : (length (received s) <= length (sent s))%nat;
  si_len : len (ring s) = counted s;
  si_counted : 0 <= counted s <= capacity (ring s);
  si_prod : match prod s with
            | PIdle => write_index (ring s) = Z.of_nat (length (sent s))
            | PRoom _ => write_index (ring s) = Z.of_nat (length (sent s)) ∧
                         counted s < capacity (ring s)
            | PWrite _ i => write_index (ring s) = Z.of_nat (length (sent s)) ∧
                            i = write_index (ring s) ∧ counted s < capacity (ring s)
            | PBump i => i = Z.of_nat (length (sent s)) - 1 ∧ counted s < capacity (ring s)
            | PPublish => write_index (ring s) = Z.of_nat (length (sent s)) ∧
                          counted s < capacity (ring s)
            end;
  si_cons : match cons s with
            | CIdle => read_index (ring s) = Z.of_nat (length (received s))
            | CSome => read_index (ring s) = Z.of_nat (length (received s)) ∧ 0 < counted s
            | CTake i => read_index (ring s) = Z.of_nat (length (received s)) ∧
                         i = read_index (ring s) ∧ 0 < counted s
            | CBump i _ => i = Z.of_nat (length (received s)) - 1 ∧ 0 < counted s
            | CRelease _ => read_index (ring s) = Z.of_nat (length (received s)) ∧ 0 < counted s
            end;
  si_window : ∀ k m, (length (received s) <= k)%nat → sent s !! k = Some m →
    slots (ring s) !! Z.to_nat (Z.of_nat k mod capacity (ring s)) = Some (Some m);
}.

Lemma spsc_inv_idle cap : 0 <= cap < 2 ^ 64 → spsc_inv (idle (RingBuffer_new cap)).
Proof.
  intros Hc. split; simpl; unfold counted; simpl; try done; try lia.
  rewrite length_replicate. lia.
Qed.

Section invariant.
Context `{Profile}.

Lemma producer_step_inv m s :
  spsc_inv s → Z.of_nat (length (sent s)) + 1 < 2 ^ 64 →
  ∃ s', producer_step m s = Ret s' ∧ spsc_inv s' ∧
        (length (sent s') <= length (sent s) + 1)%nat ∧ capacity (ring s') = capacity (ring s).
Proof.
  intros Hs Hb. destruct s as [r p c sent rcv].
  pose proof Hs as [Hcap Hsl Hff Hord Hlen Hcnt Hp Hc Hwin]; unfold counted in *; simpl in *.
  destruct p as [|m'|m' idx|idx|]; simpl in *.
  - destruct (capacity r <=? len r) eqn:E; reflect_bools.
    + eexists. split_and!; [done|done|simpl; lia|done].
    + eexists. split; [done|]. simpl. split_and!; [|lia|done].
      split; unfold counted; simpl; try done. lia.
  - eexists. split; [done|]. simpl. split_and!; [|lia|done].
    split; unfold counted; simpl; try done. lia.
  - destruct Hp as (Hw & -> & Hroom). unfold usize_rem.
    assert (0 < capacity r) by (destruct c; simpl in *; lia).
    rewrite (proj2 (Z.eqb_neq _ _)) by lia. simpl.
    pose proof (mod_index (capacity r) (write_index r) ltac:(lia)).
    rewrite vec_set_ret by lia. simpl. eexists. split; [done|]. simpl.
    rewrite length_app. simpl. split_and!; [|lia|done].
    split; unfold counted; simpl; rewrite ?length_app, ?length_insert; simpl; try done; try lia.
    + rewrite take_app_le by done. done.
    + destruct c; simpl in *; lia.
    + intros k m2 Hk Hm. apply lookup_app_Some in Hm as [Hm|[Hge Hm]].
      * pose proof (lookup_lt_Some _ _ _ Hm).
        rewrite list_lookup_insert_ne; [by apply Hwin|].
        apply not_eq_sym. rewrite Hw. apply slot_ne; [lia|]. destruct c; simpl in *; lia.
      * destruct (k - length sent)%nat eqn:E; [|done]. injection Hm as <-.
        rewrite Hw. replace (Z.of_nat k) with (Z.of_nat (length sent)) by lia.
        rewrite Hw in *. apply list_lookup_insert_eq. lia.
  - destruct Hp as (-> & Hroom). rewrite u64_add_ret by lia. simpl.
    eexists. split; [done|]. simpl. split_and!; [|lia|done].
    split; unfold counted; simpl; try done. lia.
  - destruct Hp as (Hw & Hroom). eexists. split; [done|]. simpl. split_and!; [|lia|done].
    unfold fetch_add. rewrite Z.mod_small by lia.
    split; unfold counted; simpl; try done; try lia. destruct c; simpl in *; lia.
Qed.

Lemma consumer_step_inv s :
  spsc_inv s → Z.of_nat (length (sent s)) + 1 < 2 ^ 64 →
  ∃ s', consumer_step s = Ret s' ∧ spsc_inv s' ∧ sent s' = sent s ∧
        capacity (ring s') = capacity (ring s).
Proof.
  intros Hs Hb. destruct s as [r p c sent rcv].
  pose proof Hs as [Hcap Hsl Hff Hord Hlen Hcnt Hp Hc Hwin]; unfold counted in *; simpl in *.
  destruct c as [| |idx|idx m|m]; simpl in *.
  - destruct (len r =? 0) eqn:E; reflect_bools.
    + by eexists.
    + eexists. split; [done|]. simpl. split_and!; [|done..].
      split; unfold counted; simpl; try done. lia.
  - eexists. split; [done|]. simpl. split_and!; [|done..].
    split; unfold counted; simpl; try done. lia.
  - destruct Hc as (Hr & -> & Hsome). unfold usize_rem.
    rewrite (proj2 (Z.eqb_neq _ _)) by lia. simpl.
    pose proof (mod_index (capacity r) (read_index r) ltac:(lia)) as Hk.
    destruct (lookup_lt_is_Some_2 sent (length rcv)) as [m Hm];
      [destruct p; simpl in *; lia|].
    pose proof (Hwin (length rcv) m ltac:(lia) Hm) as Hsm. rewrite <- Hr in Hsm.
    rewrite (proj2 (vec_get_ret _ _ _) (conj (proj1 Hk) Hsm)). simpl.
    rewrite vec_set_ret by lia. simpl. eexists. split; [done|]. simpl. split_and!; [|done..].
    split; unfold counted; simpl; rewrite ?length_app, ?length_insert; simpl; try done; try lia.
    + rewrite Nat.add_1_r, (take_S_r _ _ _ Hm), fmap_app. by rewrite <- Hff.
    + pose proof (lookup_lt_Some _ _ _ Hm). lia.
    + destruct p; simpl in *; lia.
    + intros k m' Hlt Hm'. pose proof (lookup_lt_Some _ _ _ Hm').
      rewrite list_lookup_insert_ne; [apply Hwin; [lia|done]|].
      rewrite Hr. apply slot_ne; [lia|]. destruct p; simpl in *; lia.
  - destruct Hc as (-> & Hsome). rewrite u64_add_ret by (destruct p; simpl in *; lia). simpl.
    eexists. split; [done|]. simpl. split_and!; [|done..].
    split; unfold counted; simpl; try done. lia.
  - destruct Hc as (Hr & Hsome). eexists. split; [done|]. simpl. split_and!; [|done..].
    unfold fetch_add. rewrite Z.mod_small by lia.
    split; unfold counted; simpl; try done; try lia. destruct p; simpl in *; lia.
Qed.

Lemma spsc_run_inv schedule s :
  spsc_inv s → Z.of_nat (length (sent s)) + Z.of_nat (length schedule) < 2 ^ 64 →
  ∃ s', spsc_run schedule s = Ret s' ∧ spsc_inv s' ∧ capacity (ring s') = capacity (ring s).
Proof.
  revert s. induction schedule as [|a schedule IH]; intros s Hs Hb; simpl in *.
  - by exists s.
  - assert (∃ s1, spsc_step a s = Ret s1 ∧ spsc_inv s1 ∧
              (length (sent s1) <= length (sent s) + 1)%nat ∧
              capacity (ring s1) = capacity (ring s)) as (s1 & -> & Hs1 & Hn & Hc).
    { destruct a as [m|]; simpl.
      - apply producer_step_inv; [done|lia].
      - destruct (consumer_step_inv s Hs ltac:(lia)) as (s1 & -> & ? & Heq & ?).
        exists s1. rewrite Heq. split_and!; [done..|lia|done]. }
    simpl. destruct (IH s1 Hs1) as (s' & -> & ? & ?); [lia|].
    exists s'. split_and!; congruence || done.
Qed.
End invariant.

(** ** Properties *)

(** [C5] One producer and one consumer, in any interleaving: no access panics, the
    threads are never about to touch the same slot, what the consumer has taken is
    the messages sent so far in their order with none lost, duplicated or read
    before it was written, and [len] stays within the capacity.  (Fewer than 2^64
    accesses, so that the indices do not wrap.) *)
Theorem spsc_safe `{Profile} cap schedule
    (Hcap : 0 <= cap < 2 ^ 64) (Hlen : Z.of_nat (length schedule) < 2 ^ 64) :
  ∃ s, spsc_run schedule (idle (RingBuffer_new cap)) = Ret s ∧
    ¬ slot_race s ∧
    received s = Some <$> take (length (received s)) (sent s) ∧
    0 <= len (ring s) <= cap.
Proof.
  destruct (spsc_run_inv schedule _ (spsc_inv_idle cap Hcap)) as (s & -> & Hs & Hc); [simpl; lia|].
  exists s. simpl in Hc.
  pose proof Hs as [Hcap' _ Hff _ Hl Hcnt Hp Hco _].
  split_and!; [done| |done|lia|lia].
  unfold slot_race, counted in *.
  destruct (prod s) eqn:Ep, (cons s) eqn:Ec; simpl in *; try tauto. intros Heq.
  destruct Hp as (Hw & -> & Hroom), Hco as (Hr & -> & Hsome).
  assert (read_index (ring s) = write_index (ring s)); [|lia].
  apply (mod_window_inj (capacity (ring s))); [lia|lia|done].
Qed.

Definition demo_schedule : list action :=
  let p := Produce (mkMessage 1 [65]) in
  [p; Consume; p; p; p; Consume; p; Produce (mkMessage 1 [66]); Consume; p; Consume; p;
   Consume; Consume; p; Consume; Consume].

Lemma spsc_safe_witness :
  ∃ s, @spsc_run true demo_schedule (idle (RingBuffer_new 1)) = Ret s ∧ 0 <= len (ring s) <= 1.
Proof.
  destruct (@spsc_safe true 1 demo_schedule) as (s & Hs & _ & _ & Hl).
  - split; [discriminate|reflexivity].
  - reflexivity.
  - exists s. exact (conj Hs Hl).
Defined.

(** The atomic steps are the functions: run without interruption, the steps of
    the producer are [enqueue] and the steps of the consumer are [dequeue]
    (full and empty buffers, panics and wrap-around included). *)
Lemma spsc_steps_are_calls `{Profile} r m :
  enqueue r m =
    (s ← spsc_run (replicate 5 (Produce m)) (idle r);
     Ret (ring s, if capacity r <=? len r then Err QueueFull else Ok tt)) ∧
  dequeue r =
    (s ← spsc_run (replicate 5 Consume) (idle r);
     Ret (ring s, if received s is x :: _ then ok_or x QueueEmpty else Err QueueEmpty)).
Proof.
  split.
  - unfold enqueue. destruct (capacity r <=? len r) eqn:E; simpl; rewrite !E; simpl.
    { by rewrite !E; simpl; rewrite ?E; simpl; rewrite ?E; simpl; rewrite ?E. }
    destruct (usize_rem _ _) as [k| |]; simpl; try done.
    destruct (vec_set _ k _) as [sl| |]; simpl; try done.
    by destruct (u64_add _ _).
  - unfold dequeue. destruct (len r =? 0) eqn:E; simpl; rewrite !E; simpl.
    { by rewrite !E; simpl; rewrite ?E; simpl; rewrite ?E; simpl; rewrite ?E. }
    destruct (usize_rem _ _) as [k| |]; simpl; try done.
    destruct (vec_get _ k) as [x| |]; simpl; try done.
    destruct (vec_set _ k _) as [sl| |]; simpl; try done.
    by destruct (u64_add _ _).
Qed.
