(* ===== verification/RingOrderings.v ===== *)
(** * The ring buffer under the memory orderings of the source

    [RingBuffer] of [src/reference-rs/src/ipc.rs] once more, on a memory that is weaker
    than the one of [Spsc]: a load of [len] may return an old value, what one thread
    wrote is visible to the other only through a released message that it acquired, and
    an access to a slot that is not ordered with the other thread's accesses to it is a
    data race, undefined behaviour. *)
From S2P Require Import Prelude Capability Ipc Spsc.

(** ** The memory *)

Inductive ordering := Relaxed | Acquire | Release.

Definition acquires (o : ordering) : bool := if o is Acquire then true else false.
Definition releases (o : ordering) : bool := if o is Release then true else false.

(** What happened before a point: how many slot writes of the producer and how many
    slot takes of the consumer. *)
Record view := mkView { seen_writes : nat; seen_takes : nat }.

Definition no_view : view := mkView 0 0.

Definition view_join (v w : view) : view :=
  mkView (v.(seen_writes) `max` w.(seen_writes))%nat (v.(seen_takes) `max` w.(seen_takes))%nat.

(** A value of [len], with the view it carries to those who acquire it. *)
Record len_message := mkLen { value : Z; released : view }.

(** What a thread knows: its view, and the newest position of [len]'s history it has
    seen, before which it cannot read any more. *)
Record knowledge := mkKnow { view_of : view; at_least : nat }.

(** The history of [len] has its oldest value first.  The two indices are accessed by one
    thread each, so they have one readable value.  [written] and [taken] are the slots
    that were accessed, in order. *)
Record weak := mkWeak {
  w_slots : list (option Message);
  w_capacity : Z;
  w_write_index : Z;
  w_read_index : Z;
  history : list len_message;
  w_prod : producer;
  p_know : knowledge;
  w_cons : consumer;
  c_know : knowledge;
  w_sent : list Message;
  written : list Z;
  w_received : list (option Message);
  taken : list Z;
}.

Definition weak_idle (r : RingBuffer) : weak :=
  mkWeak r.(slots) r.(capacity) r.(write_index) r.(read_index) [mkLen r.(len) no_view]
    PIdle (mkKnow no_view 0) CIdle (mkKnow no_view 0) [] [] [] [].

(** A load reads any message from the thread's position on ([pick] counts from there);
    acquiring it adds the message's view. *)
Definition load_len (o : ordering) (h : list len_message) (k : knowledge) (pick : nat) :
    option (Z * knowledge) :=
  let pos := ((k.(at_least) + pick) `min` (length h - 1))%nat in
  m ← h !! pos;
  Some (m.(value),
        mkKnow (view_join k.(view_of) (if acquires o then m.(released) else no_view)) pos).

(** A read-modify-write reads the newest message and appends one, which continues its
    release sequence. *)
Definition update_len (o : ordering) (h : list len_message) (k : knowledge) (d : Z) :
    option (list len_message * knowledge) :=
  m ← last h;
  Some (h ++ [mkLen (fetch_add m.(value) d)
                (view_join m.(released) (if releases o then k.(view_of) else no_view))],
        mkKnow k.(view_of) (length h)).

(** The accesses to slot [k] in [log] that are not among the first [seen]. *)
Definition unordered (k : Z) (log : list Z) (seen : nat) : bool :=
  existsb (λ k', k' =? k) (drop seen log).

Inductive undefined := DataRace.

(** ** The orderings of the source *)

(** Of the four accesses to [len]; all other atomic accesses are relaxed. *)
Record orderings := mkOrderings {
  enqueue_len_load : ordering;
  enqueue_len_update : ordering;
  dequeue_len_load : ordering;
  dequeue_len_update : ordering;
}.

Definition source_orderings : orderings := mkOrderings Acquire Release Acquire Release.

(** Loads acquire and updates release. *)
Definition synchronizes (o : orderings) : bool :=
  acquires o.(enqueue_len_load) && releases o.(enqueue_len_update) &&
  acquires o.(dequeue_len_load) && releases o.(dequeue_len_update).

(** ** Steps *)

Section steps.
Context `{Profile} (o : orderings).

(** The next access of [enqueue]; [m] is the message of a new call. *)
Definition weak_enqueue (m : Message) (pick : nat) (s : weak) : outcome (result weak undefined) :=
  let 'mkWeak sl cap wi ri h p pk c ck sent wr rcv tk := s in
  match p with
  | PIdle =>
      match load_len o.(enqueue_len_load) h pk pick with
      | None => Panic
      | Some (v, pk) =>
          Ret (Ok (mkWeak sl cap wi ri h (if cap <=? v then PIdle else PRoom m) pk c ck sent wr rcv tk))
      end
  | PRoom m => Ret (Ok (mkWeak sl cap wi ri h (PWrite m wi) pk c ck sent wr rcv tk))
  | PWrite m idx =>
      k ← usize_rem idx cap;
      sl ← vec_set sl k (Some m);
      if unordered k tk pk.(view_of).(seen_takes) then Ret (Err DataRace)
      else
        let pk := mkKnow (mkView (length sent + 1)%nat pk.(view_of).(seen_takes)) pk.(at_least) in
        Ret (Ok (mkWeak sl cap wi ri h (PBump idx) pk c ck (sent ++ [m]) (wr ++ [k]) rcv tk))
  | PBump idx =>
      idx1 ← u64_add idx 1;
      Ret (Ok (mkWeak sl cap idx1 ri h PPublish pk c ck sent wr rcv tk))
  | PPublish =>
      match update_len o.(enqueue_len_update) h pk 1 with
      | None => Panic
      | Some (h, pk) => Ret (Ok (mkWeak sl cap wi ri h PIdle pk c ck sent wr rcv tk))
      end
  end.

(** The next access of [dequeue]. *)
Definition weak_dequeue (pick : nat) (s : weak) : outcome (result weak undefined) :=
  let 'mkWeak sl cap wi ri h p pk c ck sent wr rcv tk := s in
  match c with
  | CIdle =>
      match load_len o.(dequeue_len_load) h ck pick with
      | None => Panic
      | Some (v, ck) =>
          Ret (Ok (mkWeak sl cap wi ri h p pk (if v =? 0 then CIdle else CSome) ck sent wr rcv tk))
      end
  | CSome => Ret (Ok (mkWeak sl cap wi ri h p pk (CTake ri) ck sent wr rcv tk))
  | CTake idx =>
      k ← usize_rem idx cap;
      m ← vec_get sl k;
      sl ← vec_set sl k None;
      if unordered k wr ck.(view_of).(seen_writes) then Ret (Err DataRace)
      else
        let ck := mkKnow (mkView ck.(view_of).(seen_writes) (length rcv + 1)%nat) ck.(at_least) in
        Ret (Ok (mkWeak sl cap wi ri h p pk (CBump idx m) ck sent wr (rcv ++ [m]) (tk ++ [k])))
  | CBump idx m =>
      idx1 ← u64_add idx 1;
      Ret (Ok (mkWeak sl cap wi idx1 h p pk (CRelease m) ck sent wr rcv tk))
  | CRelease _ =>
      match update_len o.(dequeue_len_update) h ck (-1) with
      | None => Panic
      | Some (h, ck) => Ret (Ok (mkWeak sl cap wi ri h p pk CIdle ck sent wr rcv tk))
      end
  end.

(** Who is next, and how old a value a load of [len] returns. *)
Inductive access := Enqueuer (m : Message) (pick : nat) | Dequeuer (pick : nat).

Definition weak_step (a : access) (s : weak) : outcome (result weak undefined) :=
  match a with
  | Enqueuer m pick => weak_enqueue m pick s
  | Dequeuer pick => weak_dequeue pick s
  end.

Fixpoint weak_run (schedule : list access) (s : weak) : outcome (result weak undefined) :=
  match schedule with
  | [] => Ret (Ok s)
  | a :: schedule' =>
      r ← weak_step a s;
      match r with
      | Ok s' => weak_run schedule' s'
      | Err e => Ret (Err e)
      end
  end.
End steps.

(** ** The invariant *)

(** Slot writes that [len] does not count yet, and takes that it still counts. *)
Definition unpublished_writes (p : producer) : nat := match p with PBump _ | PPublish => 1 | _ => 0 end.
Definition unreleased_takes (c : consumer) : nat := match c with CBump _ _ | CRelease _ => 1 | _ => 0 end.

Definition published (s : weak) : nat := (length (w_sent s) - unpublished_writes (w_prod s))%nat.
Definition released_takes (s : weak) : nat := (length (w_received s) - unreleased_takes (w_cons s))%nat.

(** A message's value is what its view says; from the position a thread has seen, all of
    the thread's own updates are counted. *)
Record message_ok (cap : Z) (pubs rels p_least c_least i : nat) (m : len_message) : Prop := {
  mo_value : value m = Z.of_nat (seen_writes (released m)) - Z.of_nat (seen_takes (released m));
  mo_range : 0 <= value m <= cap;
  mo_writes : (seen_writes (released m) <= pubs)%nat;
  mo_takes : (seen_takes (released m) <= rels)%nat;
  mo_own_writes : (p_least <= i)%nat → seen_writes (released m) = pubs;
  mo_own_takes : (c_least <= i)%nat → seen_takes (released m) = rels;
}.

Definition slot_log (cap : Z) (n : nat) : list Z := (λ i, Z.of_nat i mod cap) <$> seq 0 n.

Arguments slot_log : simpl never.

Record weak_inv (s : weak) : Prop := {
  wi_cap : 0 <= w_capacity s < 2 ^ 64;
  wi_slots : Z.of_nat (length (w_slots s)) = w_capacity s;
  wi_written : written s = slot_log (w_capacity s) (length (w_sent s));
  wi_taken : taken s = slot_log (w_capacity s) (length (w_received s));
  wi_fifo : w_received s = Some <$> take (length (w_received s)) (w_sent s);
  wi_order : (length (w_received s) <= length (w_sent s))%nat;
  wi_room : Z.of_nat (length (w_sent s)) <= Z.of_nat (length (w_received s)) + w_capacity s;
  wi_history : ∀ i m, history s !! i = Some m →
    message_ok (w_capacity s) (published s) (released_takes s)
      (at_least (p_know s)) (at_least (c_know s)) i m;
  wi_p_least : (at_least (p_know s) < length (history s))%nat;
  wi_c_least : (at_least (c_know s) < length (history s))%nat;
  wi_p_own : seen_writes (view_of (p_know s)) = length (w_sent s);
  wi_c_own : seen_takes (view_of (c_know s)) = length (w_received s);
  wi_p_view : (seen_takes (view_of (p_know s)) <= released_takes s)%nat;
  wi_c_view : (seen_writes (view_of (c_know s)) <= published s)%nat;
  wi_prod : let n := Z.of_nat (length (w_sent s)) in
            let room := n - Z.of_nat (seen_takes (view_of (p_know s))) in
            match w_prod s with
            | PIdle => w_write_index s = n
            | PRoom _ => w_write_index s = n ∧ room < w_capacity s
            | PWrite _ i => w_write_index s = n ∧ i = n ∧ room < w_capacity s
            | PBump i => i = n - 1 ∧ 0 < n ∧ room <= w_capacity s
            | PPublish => w_write_index s = n ∧ 0 < n ∧ room <= w_capacity s
            end;
  wi_cons : let n := Z.of_nat (length (w_received s)) in
            let seen := Z.of_nat (seen_writes (view_of (c_know s))) in
            match w_cons s with
            | CIdle => w_read_index s = n
            | CSome => w_read_index s = n ∧ n < seen
            | CTake i => w_read_index s = n ∧ i = n ∧ n < seen
            | CBump i _ => i = n - 1 ∧ 0 < n ∧ n <= seen
            | CRelease _ => w_read_index s = n ∧ 0 < n ∧ n <= seen
            end;
  wi_window : ∀ k m, (length (w_received s) <= k)%nat → w_sent s !! k = Some m →
    w_slots s !! Z.to_nat (Z.of_nat k mod w_capacity s) = Some (Some m);
}.

Lemma weak_inv_idle cap : 0 <= cap < 2 ^ 64 → weak_inv (weak_idle (RingBuffer_new cap)).
Proof.
  intros Hc. split; cbn; try done; try lia.
  - rewrite length_replicate. lia.
  - intros [|i] m Hm; [|done]. injection Hm as <-. split; cbn; done || lia.
Qed.

(** ** Memory lemmas *)

Lemma slot_log_S cap n : slot_log cap (n + 1) = slot_log cap n ++ [Z.of_nat n mod cap].
Proof. unfold slot_log. rewrite Nat.add_1_r, seq_S, fmap_app. done. Qed.

(** No race with accesses whose slots differ. *)
Lemma unordered_false cap n seen k :
  (∀ j, (seen <= j < n)%nat → Z.of_nat j mod cap ≠ k) → unordered k (slot_log cap n) seen = false.
Proof.
  intros Hj. unfold unordered. apply not_true_iff_false. rewrite existsb_exists.
  intros (x & Hx & Hk). apply Z.eqb_eq in Hk as ->. apply list_elem_of_In, list_elem_of_lookup in Hx as [i Hi].
  rewrite lookup_drop in Hi. unfold slot_log in Hi. apply list_lookup_fmap_Some in Hi as (j & -> & Hs).
  apply lookup_seq in Hs as [-> Hlt]. apply (Hj (0 + (seen + i))%nat); [lia|done].
Qed.

Lemma load_len_spec o h k pick :
  (at_least k < length h)%nat →
  ∃ pos m, load_len o h k pick =
      Some (value m, mkKnow (view_join (view_of k) (if acquires o then released m else no_view)) pos) ∧
    (at_least k <= pos < length h)%nat ∧ h !! pos = Some m.
Proof.
  intros Hk. unfold load_len. set (pos := (_ `min` _)%nat).
  destruct (lookup_lt_is_Some_2 h pos) as [m Hm]; [lia|].
  exists pos, m. rewrite Hm. split_and!; [done|lia|lia|done].
Qed.

Lemma update_len_spec o h k d :
  (0 < length h)%nat →
  ∃ m, h !! (length h - 1)%nat = Some m ∧
    update_len o h k d =
      Some (h ++ [mkLen (fetch_add (value m) d)
                    (view_join (released m) (if releases o then view_of k else no_view))],
            mkKnow (view_of k) (length h)).
Proof.
  intros Hh. unfold update_len. rewrite last_lookup.
  replace (Init.Nat.pred (length h)) with (length h - 1)%nat by lia.
  destruct (lookup_lt_is_Some_2 h (length h - 1)) as [m Hm]; [lia|]. exists m. by rewrite Hm.
Qed.

(** ** Steps keep the invariant *)

Section invariant.
Context `{Profile}.

(** Old messages, after a step that adds no message. *)
Lemma message_ok_read cap pubs rels p c p' c' i m :
  message_ok cap pubs rels p c i m → (p <= p')%nat → (c <= c')%nat → message_ok cap pubs rels p' c' i m.
Proof. intros [Hv Hr Hw Ht Hpw Hct] Hp Hc. split; try done; intros; [apply Hpw|apply Hct]; lia. Qed.

(** The parts of the invariant, for a state in pieces. *)
Ltac open_inv Hs :=
  pose proof Hs as [Hcap Hsl Hwr Htk Hff Hord Hroom Hh Hpl Hcl Hpo Hco Hpv Hcv Hp Hc Hwin];
  unfold published, released_takes in *; cbn in *.

Ltac new_inv := eexists; split; [done|]; cbn in *; split_and!; [|lia|done];
  split; unfold published, released_takes; cbn; try done; try lia.

Lemma weak_enqueue_inv m pick s :
  weak_inv s → Z.of_nat (length (w_sent s)) + 1 < 2 ^ 64 →
  ∃ s', weak_enqueue source_orderings m pick s = Ret (Ok s') ∧ weak_inv s' ∧
    (length (w_sent s') <= length (w_sent s) + 1)%nat ∧ w_capacity s' = w_capacity s.
Proof.
  intros Hs Hb. destruct s as [sl cap wi ri h p [pv pl] c [cv cl] sent wr rcv tk].
  open_inv Hs. destruct p as [|m'|m' idx|idx|]; cbn [unpublished_writes] in *.
  - destruct (load_len_spec Acquire h (mkKnow pv pl) pick Hpl) as (pos & x & -> & Hpos & Hx).
    pose proof (Hh pos x Hx) as [Hxv Hxr Hxw Hxt Hxo _]. cbn in Hpos. specialize (Hxo ltac:(lia)).
    destruct (Z.leb_spec cap (value x)); new_inv;
      intros i y Hy; (eapply message_ok_read; [by apply Hh|lia|lia]).
  - new_inv.
  - destruct Hp as (-> & -> & Hlt).
    assert (0 < cap) by lia. unfold usize_rem. rewrite (proj2 (Z.eqb_neq _ _)) by lia. cbn.
    pose proof (mod_index cap (Z.of_nat (length sent)) ltac:(lia)).
    rewrite vec_set_ret by lia. cbn. rewrite Htk, unordered_false.
    2:{ intros j Hj Heq. apply (mod_window_inj cap) in Heq; lia. }
    eexists. split; [done|]. cbn. rewrite length_app. cbn. split_and!; [|lia|done].
    split; unfold published, released_takes; cbn; rewrite ?length_app, ?length_insert; cbn; try done; try lia.
    + by rewrite Hwr, <- slot_log_S.
    + by rewrite take_app_le by done.
    + intros i y Hy. pose proof (Hh i y Hy) as Hm.
      by replace (length sent + 1 - 1)%nat with (length sent - 0)%nat by lia.
    + intros k m2 Hk Hm. apply lookup_app_Some in Hm as [Hm|[Hge Hm]].
      * pose proof (lookup_lt_Some _ _ _ Hm).
        rewrite list_lookup_insert_ne; [by apply Hwin|]. apply not_eq_sym, slot_ne; lia.
      * destruct (k - length sent)%nat eqn:E; [|done]. injection Hm as <-.
        replace k with (length sent) by lia. apply list_lookup_insert_eq. lia.
  - destruct Hp as (-> & Hn & Hlt). rewrite u64_add_ret by lia. cbn. new_inv.
  - destruct Hp as (-> & Hn & Hlt).
    destruct (update_len_spec Release h (mkKnow pv pl) 1 ltac:(lia)) as (x & Hx & ->).
    pose proof (Hh _ x Hx) as [Hxv Hxr Hxw Hxt Hxo Hxc]. cbn in Hxo, Hxc.
    specialize (Hxo ltac:(lia)). specialize (Hxc ltac:(lia)).
    new_inv; rewrite ?length_app; cbn; try lia.
    intros i y Hy. apply lookup_app_Some in Hy as [Hy|[Hge Hy]].
    + pose proof (lookup_lt_Some _ _ _ Hy). pose proof (Hh i y Hy) as [? ? ? ? _ ?]. split; try done; lia.
    + destruct (i - length h)%nat eqn:E; [|done]. injection Hy as <-. unfold fetch_add.
      split; cbn; rewrite ?Z.mod_small by lia; lia.
Qed.

Lemma weak_dequeue_inv pick s :
  weak_inv s → Z.of_nat (length (w_sent s)) + 1 < 2 ^ 64 →
  ∃ s', weak_dequeue source_orderings pick s = Ret (Ok s') ∧ weak_inv s' ∧
    (length (w_sent s') <= length (w_sent s))%nat ∧ w_capacity s' = w_capacity s.
Proof.
  intros Hs Hb. destruct s as [sl cap wi ri h p [pv pl] c [cv cl] sent wr rcv tk].
  open_inv Hs. destruct c as [| |idx|idx m|m]; cbn [unreleased_takes] in *.
  - destruct (load_len_spec Acquire h (mkKnow cv cl) pick Hcl) as (pos & x & -> & Hpos & Hx).
    pose proof (Hh pos x Hx) as [Hxv Hxr Hxw Hxt _ Hxo]. cbn in Hpos. specialize (Hxo ltac:(lia)).
    destruct (Z.eqb_spec (value x) 0); new_inv;
      intros i y Hy; (eapply message_ok_read; [by apply Hh|lia|lia]).
  - new_inv.
  - destruct Hc as (-> & -> & Hlt).
    assert (0 < cap) by lia. unfold usize_rem. rewrite (proj2 (Z.eqb_neq _ _)) by lia. cbn.
    pose proof (mod_index cap (Z.of_nat (length rcv)) ltac:(lia)) as Hk.
    destruct (lookup_lt_is_Some_2 sent (length rcv)) as [m Hm]; [lia|].
    pose proof (Hwin (length rcv) m ltac:(lia) Hm) as Hsm.
    rewrite (proj2 (vec_get_ret _ _ _) (conj (proj1 Hk) Hsm)). cbn.
    rewrite vec_set_ret by lia. cbn. rewrite Hwr, unordered_false.
    2:{ intros j Hj Heq. symmetry in Heq. apply (mod_window_inj cap) in Heq; lia. }
    eexists. split; [done|]. cbn. split_and!; [|lia|done].
    split; unfold published, released_takes; cbn; rewrite ?length_app, ?length_insert; cbn; try done; try lia.
    + by rewrite Htk, <- slot_log_S.
    + rewrite Nat.add_1_r, (take_S_r _ _ _ Hm), fmap_app. by rewrite <- Hff.
    + intros i y Hy. pose proof (Hh i y Hy).
      by replace (length rcv + 1 - 1)%nat with (length rcv - 0)%nat by lia.
    + intros k m' Hlt' Hm'. pose proof (lookup_lt_Some _ _ _ Hm').
      rewrite list_lookup_insert_ne; [apply Hwin; [lia|done]|]. apply slot_ne; lia.
  - destruct Hc as (-> & Hn & Hlt). rewrite u64_add_ret by lia. cbn. new_inv.
  - destruct Hc as (-> & Hn & Hlt).
    destruct (update_len_spec Release h (mkKnow cv cl) (-1) ltac:(lia)) as (x & Hx & ->).
    pose proof (Hh _ x Hx) as [Hxv Hxr Hxw Hxt Hxo Hxc]. cbn in Hxo, Hxc.
    specialize (Hxo ltac:(lia)). specialize (Hxc ltac:(lia)).
    new_inv; rewrite ?length_app; cbn; try lia.
    intros i y Hy. apply lookup_app_Some in Hy as [Hy|[Hge Hy]].
    + pose proof (lookup_lt_Some _ _ _ Hy). pose proof (Hh i y Hy) as [? ? ? ? ? _]. split; try done; lia.
    + destruct (i - length h)%nat eqn:E; [|done]. injection Hy as <-. unfold fetch_add.
      split; cbn; rewrite ?Z.mod_small by lia; lia.
Qed.

Lemma weak_run_inv schedule s :
  weak_inv s → Z.of_nat (length (w_sent s)) + Z.of_nat (length schedule) < 2 ^ 64 →
  ∃ s', weak_run source_orderings schedule s = Ret (Ok s') ∧ weak_inv s' ∧ w_capacity s' = w_capacity s.
Proof.
  revert s. induction schedule as [|a schedule IH]; intros s Hs Hb; cbn [weak_run length] in *.
  - by exists s.
  - assert (∃ s1, weak_step source_orderings a s = Ret (Ok s1) ∧ weak_inv s1 ∧
              (length (w_sent s1) <= length (w_sent s) + 1)%nat ∧
              w_capacity s1 = w_capacity s) as (s1 & -> & Hs1 & Hn & Hc).
    { destruct a as [m pick|pick]; [apply weak_enqueue_inv; [done|lia]|].
      destruct (weak_dequeue_inv pick s Hs ltac:(lia)) as (s1 & ? & ? & ? & ?).
      exists s1. split_and!; try done. lia. }
    cbn [mbind outcome_bind]. destruct (IH s1 Hs1) as (s' & ? & ? & ?); [lia|].
    exists s'. split_and!; congruence || done.
Qed.
End invariant.

(** ** The sequentially consistent machine inside this one *)

(** What [Spsc] keeps of a state: the newest value of [len] and none of the views. *)
Definition newest (s : weak) : Z := from_option value 0 (last (history s)).

Definition erase (s : weak) : spsc :=
  mkSpsc (mkRing (w_slots s) (w_capacity s) (w_write_index s) (w_read_index s) (newest s))
    (w_prod s) (w_cons s) (w_sent s) (w_received s).

Definition erase_access (a : access) : action :=
  match a with Enqueuer m _ => Produce m | Dequeuer _ => Consume end.

Definition fresh (a : access) (s : weak) : Prop :=
  match a with Enqueuer _ pick | Dequeuer pick => (length (history s) <= pick)%nat end.

Lemma load_len_newest o h k pick :
  (0 < length h <= pick)%nat →
  ∃ k', load_len o h k pick = Some (from_option value 0 (last h), k').
Proof.
  intros Hp. unfold load_len. rewrite last_lookup.
  replace ((at_least k + pick) `min` (length h - 1))%nat with (Init.Nat.pred (length h)) by lia.
  destruct (lookup_lt_is_Some_2 h (Init.Nat.pred (length h))) as [m Hm]; [lia|]. rewrite Hm. by eexists.
Qed.

Lemma update_len_newest o h k d :
  (0 < length h)%nat →
  ∃ h' k', update_len o h k d = Some (h', k') ∧
    from_option value 0 (last h') = fetch_add (from_option value 0 (last h)) d.
Proof.
  intros Hh. unfold update_len. rewrite last_lookup.
  destruct (lookup_lt_is_Some_2 h (Init.Nat.pred (length h))) as [m Hm]; [lia|]. rewrite Hm.
  eexists _, _. split; [done|]. by rewrite last_snoc.
Qed.

(** A step whose load is not stale is the step of [Spsc]. *)
Lemma fresh_step_is_spsc `{Profile} o a s s' :
  weak_inv s → fresh a s → weak_step o a s = Ret (Ok s') →
  spsc_step (erase_access a) (erase s) = Ret (erase s').
Proof.
  intros Hs Hf Hst. pose proof (wi_p_least s Hs) as Hl. clear Hs.
  destruct s as [sl cap wi ri h p pk c ck sent wr rcv tk]. cbn in Hl.
  unfold erase, newest. destruct a as [m pick|pick]; cbn in *.
  - destruct p as [|m'|m' idx|idx|].
    + destruct (load_len_newest (o.(enqueue_len_load)) h pk pick ltac:(lia)) as (k' & Hk).
      rewrite Hk in Hst. injection Hst as <-. cbn. by destruct (cap <=? _).
    + by injection Hst as <-.
    + destruct (usize_rem _ _) as [k| |]; cbn in *; try done.
      destruct (vec_set _ _ _) as [sl'| |]; cbn in *; try done.
      destruct (unordered _ _ _); [done|]. by injection Hst as <-.
    + destruct (u64_add _ _); cbn in *; try done. by injection Hst as <-.
    + destruct (update_len_newest (o.(enqueue_len_update)) h pk 1 ltac:(lia)) as (h' & k' & Hk & Hv).
      rewrite Hk in Hst. injection Hst as <-. cbn. by rewrite Hv.
  - destruct c as [| |idx|idx m|m].
    + destruct (load_len_newest (o.(dequeue_len_load)) h ck pick ltac:(lia)) as (k' & Hk).
      rewrite Hk in Hst. injection Hst as <-. cbn. by destruct (_ =? 0).
    + by injection Hst as <-.
    + destruct (usize_rem _ _) as [k| |]; cbn in *; try done.
      destruct (vec_get _ _) as [x| |]; cbn in *; try done.
      destruct (vec_set _ _ _) as [sl'| |]; cbn in *; try done.
      destruct (unordered _ _ _); [done|]. by injection Hst as <-.
    + destruct (u64_add _ _); cbn in *; try done. by injection Hst as <-.
    + destruct (update_len_newest (o.(dequeue_len_update)) h ck (-1) ltac:(lia)) as (h' & k' & Hk & Hv).
      rewrite Hk in Hst. injection Hst as <-. cbn. by rewrite Hv.
Qed.

(** ** Weaker orderings *)

(** A message sent and taken, and the slot written again. *)
Definition racy_schedule : list access :=
  let p := Enqueuer (mkMessage 1 []) 9 in
  let c := Dequeuer 9 in [p; p; p; p; p; c; c; c; c; c; p; p; p].

Lemma weaker_orderings_race `{Profile} o :
  synchronizes o = false →
  ∃ racy, weak_run o racy (weak_idle (RingBuffer_new 1)) = Ret (Err DataRace).
Proof.
  intros Ho. exists racy_schedule. destruct o as [a b c d].
  destruct a, b, c, d; try discriminate Ho; reflexivity.
Qed.

(** ** Properties *)

(** [C10] The ring under the orderings the source asks for.  Whatever the interleaving and
    however old the values that loads of [len] return: no slot access races with one
    of the other thread (each is ordered after it by an acquired release), no access
    panics, what was taken is the messages sent, in order, none lost, repeated or read
    early, no readable value of [len] ever exceeds the capacity; and a step whose load
    is not stale is the step of the sequentially consistent ring.  Nothing weaker will
    do: if one of the loads does not acquire or one of the updates does not release,
    a ring of one slot has a run with a data race.  (Fewer than 2^64 accesses, so that
    the indices do not wrap.) *)
Theorem orderings_suffice `{Profile} cap schedule
    (Hcap : 0 <= cap < 2 ^ 64) (Hlen : Z.of_nat (length schedule) < 2 ^ 64) :
  ∃ s, weak_run source_orderings schedule (weak_idle (RingBuffer_new cap)) = Ret (Ok s) ∧
    w_received s = Some <$> take (length (w_received s)) (w_sent s) ∧
    (∀ m, m ∈ history s → 0 <= value m <= cap) ∧
    Z.of_nat (length (w_sent s)) - Z.of_nat (length (w_received s)) <= cap ∧
    (∀ a s', fresh a s → weak_step source_orderings a s = Ret (Ok s') →
       spsc_step (erase_access a) (erase s) = Ret (erase s')) ∧
    (∀ o, synchronizes o = false →
       ∃ racy, weak_run o racy (weak_idle (RingBuffer_new 1)) = Ret (Err DataRace)).
Proof.
  destruct (weak_run_inv schedule _ (weak_inv_idle cap Hcap)) as (s & -> & Hs & Hc); [cbn; lia|].
  exists s. cbn in Hc. pose proof (wi_room s Hs). split_and!; [done|by apply wi_fifo| |lia| |].
  - intros m [i Hi]%list_elem_of_lookup. rewrite <- Hc. by eapply mo_range, wi_history.
  - intros a s'. by apply fresh_step_is_spsc.
  - apply weaker_orderings_race.
Qed.

(** Two messages through a ring of one slot: the second is sent after a stale load has
    found the ring full. *)
Definition demo_accesses : list access :=
  let p := Enqueuer (mkMessage 1 [65]) in
  let q := Enqueuer (mkMessage 1 [66]) in
  [p 0%nat; p 0%nat; p 0%nat; p 0%nat; p 0%nat; Dequeuer 0; Dequeuer 9; Dequeuer 0; Dequeuer 0; Dequeuer 0;
   Dequeuer 0; q 0%nat; q 9%nat; q 0%nat; q 0%nat; q 0%nat; q 0%nat; Dequeuer 1; Dequeuer 0; Dequeuer 0].

Lemma orderings_suffice_witness :
  ∃ s, @weak_run true source_orderings demo_accesses (weak_idle (RingBuffer_new 1)) = Ret (Ok s) ∧
    length (w_sent s) = 2%nat ∧ w_received s = Some <$> take 2 (w_sent s).
Proof.
  destruct (@orderings_suffice true 1 demo_accesses) as (s & Hs & Hf & _).
  - split; [discriminate|reflexivity].
  - reflexivity.
  - exists s. split; [exact Hs|]. vm_compute in Hs. injection Hs as <-. split; [reflexivity|exact Hf].
Defined.
