(* ===== verification/UnitTests.v ===== *)
(** * The unit tests of the core library

    The tests that the files of [src/reference-rs/src] carry, run on the models of those
    files.  A test is its body; it passes when it returns, and a failed assertion panics.
    The property-based tests take what [proptest] draws as arguments, and hold for all
    of it. *)
From S2P Require Import Prelude Capability Boot Timer Sanctum Buddy Console Scheduler VirtualMemory Ipc Spsc RingOrderings.

(** ** Assertions *)

Definition assert_that (b : bool) : outcome unit := if b then Ret tt else Panic.
Definition assert_eq `{EqDecision A} (x y : A) : outcome unit := assert_that (bool_decide (x = y)).
Definition assert_ne `{EqDecision A} (x y : A) : outcome unit := assert_that (bool_decide (x ≠ y)).

Definition unwrap {T E} (r : result T E) : outcome T :=
  match r with Ok t => Ret t | Err _ => Panic end.

#[export] Instance BootError_eq_dec : EqDecision BootError.
Proof. solve_decision. Defined.
#[export] Instance CursorState_eq_dec : EqDecision CursorState.
Proof. solve_decision. Defined.

Section tests.
Context `{Profile}.

(** ** [boot.rs] *)

Definition phases_complete_in_order_succeed : outcome unit :=
  let fix go phases seq :=
    match phases with
    | [] => Ret seq
    | p :: ps => r ← complete seq p; _ ← assert_that (is_ok r.2); go ps r.1
    end in
  seq ← go ORDER BootSequencer_new;
  b ← is_complete seq SyscallBoot;
  assert_that b.

Definition skipping_a_phase_is_rejected : outcome unit :=
  r ← complete BootSequencer_new EarlyBoot;
  _ ← unwrap r.2;
  r ← complete r.1 SchedulerBoot;
  assert_eq r.2 (Err (OutOfOrder SchedulerBoot LateBoot)).

Definition completing_the_very_first_phase_out_of_order_is_impossible : outcome unit :=
  r ← complete BootSequencer_new SyscallBoot;
  assert_eq r.2 (Err (OutOfOrder SyscallBoot EarlyBoot)).

Definition double_completing_a_phase_is_rejected : outcome unit :=
  r ← complete BootSequencer_new EarlyBoot;
  _ ← unwrap r.2;
  r ← complete r.1 EarlyBoot;
  assert_eq r.2 (Err (AlreadyComplete EarlyBoot)).

Fixpoint attempts_keep_order (attempts : list Z) (seq : BootSequencer) : outcome unit :=
  match attempts with
  | [] => Ret tt
  | idx :: attempts' =>
      phase ← vec_get ORDER idx;
      r ← complete seq phase;
      b ← satisfies_ordering_invariant r.1;
      _ ← assert_that b;
      attempts_keep_order attempts' r.1
  end.

Definition ordering_invariant_holds_after_any_sequence_of_attempts (attempts : list Z) : outcome unit :=
  attempts_keep_order attempts BootSequencer_new.

(** ** [timer.rs] *)

Definition zero_frequency_is_rejected_everywhere_not_panicked : outcome unit :=
  d ← pit_divisor 0;
  _ ← assert_eq d (Err ZeroFrequency);
  _ ← assert_eq (apic_initial_count 0) (Err ZeroFrequency);
  _ ← assert_eq (ticks_to_ns 100 0) (Err ZeroFrequency);
  t ← tsc_to_ns 100 0;
  assert_eq t (Err ZeroFrequency).

Definition pit_divisor_at_100hz_matches_the_documented_example : outcome unit :=
  d ← pit_divisor 100;
  divisor ← unwrap d;
  n ← u32_add PIT_BASE_FREQ_HZ 50;
  assert_eq divisor (n / 100 mod 2 ^ 16).

Definition very_low_frequency_overflows_the_16_bit_pit_divisor : outcome unit :=
  d ← pit_divisor 1;
  assert_eq d (Err DivisorOutOfRange).

Definition apic_initial_count_at_1khz_is_computed_correctly : outcome unit :=
  c ← unwrap (apic_initial_count 1000);
  assert_eq c (APIC_BUS_CLOCK_HZ / (APIC_DIVISOR * 1000)).

Definition ticks_to_ns_at_100hz_is_10ms_per_tick : outcome unit :=
  a ← unwrap (ticks_to_ns 1 100);
  _ ← assert_eq a 10000000;
  b ← unwrap (ticks_to_ns 1000 100);
  assert_eq b 10000000000.

Definition tsc_to_ns_scales_with_frequency : outcome unit :=
  t ← tsc_to_ns 1000000000 1000000000;
  n ← unwrap t;
  assert_eq n 1000000000.

Definition no_panics_for_any_nonzero_frequency (freq_hz : Z) : outcome unit :=
  _ ← pit_divisor freq_hz;
  let _ := apic_initial_count freq_hz in
  let _ := ticks_to_ns 1 freq_hz in
  Ret tt.

(** ** [console.rs] *)

Definition newline_is_translated_to_crlf : outcome unit :=
  assert_eq (translate_write (lit "a" ++ [10] ++ lit "b")) (lit "a" ++ [13; 10] ++ lit "b").

Definition bytes_without_newline_pass_through_unchanged : outcome unit :=
  assert_eq (translate_write (lit "hello")) (lit "hello").

Definition prints (fmt : string) (args : list string) (expected : string) : outcome unit :=
  s ← format (lit fmt) (lit <$> args);
  assert_eq s (lit expected).

Definition printf_substitutes_string_argument : outcome unit := prints "hi %s!" ["world"%string] "hi world!".
Definition printf_substitutes_integer_arguments_in_order : outcome unit :=
  prints "%d/%d" ["5"%string; "10"%string] "5/10".
Definition printf_percent_percent_is_a_literal_percent : outcome unit := prints "100%%" [] "100%".
Definition printf_missing_argument_is_skipped_not_panicked : outcome unit :=
  prints "%d and %d" ["1"%string] "1 and ".
Definition printf_unknown_specifier_passes_through_literally : outcome unit := prints "%x" [] "%x".

Definition cursor_advances_by_char_width_on_normal_byte : outcome unit :=
  let geom := mkGeometry 800 600 8 16 in
  r ← advance_cursor (mkCursor 0 0) geom 65;
  _ ← assert_eq r.1 (mkCursor 8 0);
  assert_that (negb r.2).

Definition cursor_wraps_to_next_line_at_width_boundary : outcome unit :=
  let geom := mkGeometry 16 600 8 16 in
  r ← advance_cursor (mkCursor 8 0) geom 65;
  _ ← assert_eq r.1 (mkCursor 0 16);
  assert_that (negb r.2).

Definition cursor_at_bottom_triggers_scroll_and_clamps_y : outcome unit :=
  let geom := mkGeometry 800 32 8 16 in
  r ← advance_cursor (mkCursor 0 16) geom 10;
  _ ← assert_that r.2;
  assert_eq (y r.1) 16.

Definition carriage_return_resets_x_only : outcome unit :=
  let geom := mkGeometry 800 600 8 16 in
  r ← advance_cursor (mkCursor 40 100) geom 13;
  _ ← assert_eq r.1 (mkCursor 0 100);
  assert_that (negb r.2).

Fixpoint bytes_keep_cursor (geom : FramebufferGeometry) (bytes : list Z) (state : CursorState) : outcome unit :=
  match bytes with
  | [] => Ret tt
  | b :: bytes' =>
      r ← advance_cursor state geom b;
      _ ← assert_that (y r.1 <=? height geom);
      bytes_keep_cursor geom bytes' r.1
  end.

Definition cursor_y_never_exceeds_frame_bounds (bytes : list Z) (start_x start_y : Z) : outcome unit :=
  bytes_keep_cursor (mkGeometry 800 600 8 16) bytes (mkCursor (Z.min start_x 799) (Z.min start_y 599)).

(** ** [sanctum.rs] *)

Definition create_then_enter_a_fresh_vault_succeeds : outcome unit :=
  '(mgr, id) ← create_vault VaultManager_new 1 Standard 0x1000 0x2000;
  assert_eq (enter_vault mgr id) (Ok tt).

Definition enter_unknown_vault_is_not_found : outcome unit :=
  assert_eq (enter_vault VaultManager_new 999) (Err VaultNotFound).

Definition tampered_attestation_denies_entry : outcome unit :=
  '(mgr, id) ← create_vault VaultManager_new 1 Isolated 0x1000 0x2000;
  let mgr := corrupt_stored_attestation mgr id in
  assert_eq (enter_vault mgr id) (Err AttestationFailed).

Definition re_attesting_after_corruption_restores_entry : outcome unit :=
  '(mgr, id) ← create_vault VaultManager_new 1 Isolated 0x1000 0x2000;
  let mgr := corrupt_stored_attestation mgr id in
  _ ← assert_that (negb (is_ok (enter_vault mgr id)));
  let '(mgr, r) := attest_vault mgr id in
  _ ← unwrap r;
  assert_eq (enter_vault mgr id) (Ok tt).

Definition access_inside_region_is_allowed : outcome unit :=
  '(mgr, id) ← create_vault VaultManager_new 1 Standard 0x1000 0x2000;
  assert_eq (vault_check_access mgr id 0x1500) (Ok tt).

Definition access_outside_region_is_denied : outcome unit :=
  '(mgr, id) ← create_vault VaultManager_new 1 Standard 0x1000 0x2000;
  _ ← assert_eq (vault_check_access mgr id 0x5000) (Err OutsideVaultRegion);
  assert_eq (vault_check_access mgr id 0x2000) (Err OutsideVaultRegion).

Definition access_check_matches_region_bounds_exactly (start len probe_offset : Z) : outcome unit :=
  fin ← u64_add start len;
  '(mgr, id) ← create_vault VaultManager_new 1 Standard start fin;
  let vaddr := Z.max (start + probe_offset) 0 in
  let expect_allowed := (start <=? vaddr) && (vaddr <? fin) in
  assert_eq (is_ok (vault_check_access mgr id vaddr)) expect_allowed.

(** ** [scheduler.rs] *)

Definition rt (pid deadline : Z) : Process := mkProcess pid (RealTime deadline) Ready 0.
Definition normal (pid vruntime : Z) : Process := mkProcess pid Normal Ready vruntime.

Definition realtime_task_always_preempts_normal_regardless_of_vruntime : outcome unit :=
  let rq := add_process RunQueue_new (normal 1 0) in
  let rq := add_process rq (rt 2 1000000) in
  assert_eq (pick_next_task rq) (Some 2).

Definition among_realtime_tasks_earliest_deadline_wins : outcome unit :=
  let rq := add_process RunQueue_new (rt 1 500) in
  let rq := add_process rq (rt 2 100) in
  let rq := add_process rq (rt 3 300) in
  assert_eq (pick_next_task rq) (Some 2).

Definition among_normal_tasks_smallest_vruntime_wins : outcome unit :=
  let rq := add_process RunQueue_new (normal 1 50) in
  let rq := add_process rq (normal 2 10) in
  let rq := add_process rq (normal 3 30) in
  assert_eq (pick_next_task rq) (Some 2).

Definition empty_queue_picks_nothing : outcome unit := assert_eq (pick_next_task RunQueue_new) None.

(** The loop of the two starvation tests: the pids that ran, in [max_ticks] turns. *)
Fixpoint run_until (max_ticks n : nat) (rq : RunQueue) (ran : gset Z) : outcome (gset Z) :=
  match max_ticks with
  | O => Ret ran
  | S ticks =>
      if (size ran =? n)%nat then Ret ran
      else
        match pick_next_task rq with
        | None => Ret ran
        | Some pid =>
            rq ← update_vruntime rq pid 10;
            run_until ticks n rq ({[pid]} ∪ ran)
        end
  end.

Definition no_starvation_every_normal_task_eventually_runs : outcome unit :=
  let rq := foldl (λ rq pid, add_process rq (normal pid 0)) RunQueue_new (seqZ 1 5) in
  ran ← run_until 200 5 rq ∅;
  assert_eq (size ran) 5%nat.

Definition no_normal_task_starves_for_arbitrary_task_counts (n : nat) : outcome unit :=
  let rq := foldl (λ rq pid, add_process rq (normal pid 0)) RunQueue_new (seqZ 0 (Z.of_nat n)) in
  ran ← run_until (n * 50 + 10) n rq ∅;
  assert_eq (size ran) n.

Definition remove_process_updates_both_orderings_consistently : outcome unit :=
  let rq := add_process RunQueue_new (normal 1 5) in
  let rq := add_process rq (rt 2 5) in
  _ ← assert_eq (ready_count rq) 2;
  let '(rq, _) := remove_process rq 2 in
  _ ← assert_eq (pick_next_task rq) (Some 1);
  assert_eq (ready_count rq) 1.

(** ** [capability.rs] *)

Definition perm (read write : bool) : Permissions := mkPermissions read write false false false false false false.

Definition confinement_denies_without_any_grant : outcome unit :=
  let '(_, d) := check_access CapabilityBroker_new 1 FileSystem "/etc/passwd" (perm true false) 0 in
  assert_eq d Denied.

Definition confinement_allows_exact_covering_grant : outcome unit :=
  '(broker, _) ← issue CapabilityBroker_new 0 1 FileSystem "/home/user/*" (perm true true) 0 1000;
  let '(_, d) := check_access broker 1 FileSystem "/home/user/doc.txt" (perm true false) 5 in
  assert_eq d Allowed.

Definition confinement_denies_insufficient_permission_bit : outcome unit :=
  '(broker, _) ← issue CapabilityBroker_new 0 1 FileSystem "/home/user/*" (perm true false) 0 1000;
  let '(_, d) := check_access broker 1 FileSystem "/home/user/doc.txt" (perm true true) 5 in
  assert_eq d Denied.

Definition confinement_denies_outside_granted_scope : outcome unit :=
  '(broker, _) ← issue CapabilityBroker_new 0 1 FileSystem "/home/user/*" (perm true true) 0 1000;
  let '(_, d) := check_access broker 1 FileSystem "/etc/passwd" (perm true false) 5 in
  assert_eq d Denied.

Definition revocation_is_immediate_and_final : outcome unit :=
  '(broker, id) ← issue CapabilityBroker_new 0 1 Network "*" (perm true true) 0 1000;
  let '(broker, d) := check_access broker 1 Network "any" (perm true false) 5 in
  _ ← assert_eq d Allowed;
  let '(broker, r) := revoke broker id in
  _ ← unwrap r;
  let '(_, d) := check_access broker 1 Network "any" (perm true false) 6 in
  assert_eq d Revoked.

Definition expiry_is_enforced : outcome unit :=
  '(broker, _) ← issue CapabilityBroker_new 0 1 Gpu "*" (perm true true) 0 100;
  let '(_, d) := check_access broker 1 Gpu "any" (perm true false) 100 in
  assert_eq d Expired.

Definition delegation_cannot_exceed_source_permissions : outcome unit :=
  '(broker, id) ← issue CapabilityBroker_new 0 1 FileSystem "/home/user/*"
                    (mkPermissions true false false false false false false true) 0 1000;
  '(_, r) ← delegate broker id 2 (perm true true) 5;
  assert_eq r (Err ExceedsSourcePermissions).

Definition delegation_denied_without_delegate_bit : outcome unit :=
  '(broker, id) ← issue CapabilityBroker_new 0 1 FileSystem "/home/user/*" (perm true true) 0 1000;
  '(_, r) ← delegate broker id 2 (perm true false) 5;
  assert_eq r (Err NotDelegatable).

Definition delegation_grants_a_real_working_subset_capability : outcome unit :=
  '(broker, id) ← issue CapabilityBroker_new 0 1 FileSystem "/home/user/*"
                    (mkPermissions true true false false false false false true) 0 1000;
  '(broker, r) ← delegate broker id 2 (perm true false) 5;
  delegated ← unwrap r;
  _ ← assert_that (verify broker delegated 6);
  let '(broker, d) := check_access broker 2 FileSystem "/home/user/x" (perm true false) 6 in
  _ ← assert_eq d Allowed;
  let '(_, d) := check_access broker 2 FileSystem "/home/user/x" (perm false true) 6 in
  assert_eq d Denied.

Definition revoking_source_does_not_touch_an_independently_issued_delegate_token : outcome unit :=
  '(broker, source) ← issue CapabilityBroker_new 0 1 FileSystem "/home/user/*"
                        (mkPermissions true false false false false false false true) 0 1000;
  '(broker, r) ← delegate broker source 2 (perm true false) 5;
  delegated ← unwrap r;
  let '(broker, r) := revoke broker source in
  _ ← unwrap r;
  assert_that (verify broker delegated 6).

(** ** [ipc.rs] *)

Definition send_without_any_capability_is_denied : outcome unit :=
  '(table, caps, port) ← create_port PortTable_new 2 4 CapabilityBroker_new 0;
  '(_, _, result) ← send_message table 1 port [1; 2; 3] caps 5;
  assert_eq result (Err Ipc.CapabilityDenied).

Definition owner_can_send_and_receive_its_own_port : outcome unit :=
  '(table, caps, port) ← create_port PortTable_new 1 4 CapabilityBroker_new 0;
  '(table, caps, r) ← send_message table 1 port [9; 9] caps 5;
  _ ← unwrap r;
  '(_, _, r) ← receive_message table 1 port caps 6;
  msg ← unwrap r;
  _ ← assert_eq (payload msg) [9; 9];
  assert_eq (sender msg) 1.

Definition receive_on_empty_queue_is_reported_not_blocked_forever : outcome unit :=
  '(table, caps, port) ← create_port PortTable_new 1 4 CapabilityBroker_new 0;
  '(_, _, r) ← receive_message table 1 port caps 5;
  assert_eq r (Err QueueEmpty).

Definition ring_buffer_reports_full_correctly_after_exact_capacity_fill : outcome unit :=
  let rb := RingBuffer_new 2 in
  '(rb, r) ← enqueue rb (mkMessage 1 [1]);
  _ ← unwrap r;
  '(rb, r) ← enqueue rb (mkMessage 1 [2]);
  _ ← unwrap r;
  '(_, r) ← enqueue rb (mkMessage 1 [3]);
  assert_eq r (Err QueueFull).

(** The rounds from [round] on. *)
Fixpoint fifo_rounds (n : nat) (round : Z) (rb : RingBuffer) : outcome unit :=
  match n with
  | O => Ret tt
  | S n =>
      '(rb, r) ← enqueue rb (mkMessage round [round]);
      _ ← unwrap r;
      '(rb, r) ← enqueue rb (mkMessage round [round; round]);
      _ ← unwrap r;
      '(rb, r) ← dequeue rb;
      a ← unwrap r;
      '(rb, r) ← dequeue rb;
      b ← unwrap r;
      _ ← assert_eq (payload a) [round];
      _ ← assert_eq (payload b) [round; round];
      fifo_rounds n (round + 1) rb
  end.

Definition ring_buffer_preserves_fifo_order_across_many_wraparounds : outcome unit :=
  fifo_rounds 10 0 (RingBuffer_new 3).

(** The loop: [expected] is the deque, [next_val] a byte that wraps around. *)
Fixpoint fifo_ops (ops : list Z) (rb : RingBuffer) (expected : list Z) (next_val : Z) : outcome unit :=
  match ops with
  | [] => Ret tt
  | op :: ops' =>
      if op =? 0 then
        '(rb, r) ← enqueue rb (mkMessage 1 [next_val]);
        if is_ok r then fifo_ops ops' rb (expected ++ [next_val]) ((next_val + 1) mod 256)
        else fifo_ops ops' rb expected next_val
      else
        '(rb, r) ← dequeue rb;
        match r with
        | Ok msg =>
            match expected with
            | [] => Panic
            | e :: expected => _ ← assert_eq (payload msg) [e]; fifo_ops ops' rb expected next_val
            end
        | Err _ => fifo_ops ops' rb expected next_val
        end
  end.

Definition fifo_order_holds_under_arbitrary_interleavings (ops : list Z) : outcome unit :=
  fifo_ops ops (RingBuffer_new 5) [] 0.

(** [u32::to_le_bytes] and [from_le_bytes] of a payload of four bytes. *)
Definition to_le_bytes (n : Z) : list Z :=
  [n mod 256; n / 2 ^ 8 mod 256; n / 2 ^ 16 mod 256; n / 2 ^ 24 mod 256].

Definition from_le_bytes (bytes : list Z) : option Z :=
  match bytes with
  | [a; b; c; d] => Some (a + 2 ^ 8 * b + 2 ^ 16 * c + 2 ^ 24 * d)
  | _ => None
  end.

Definition numbered_message (n : nat) : Message := mkMessage 1 (to_le_bytes (Z.of_nat n)).

(** The two threads, on the memory of [RingOrderings]: a schedule says who goes on and
    what its load reads.  The producer stops after [total] messages, and so does the
    consumer. *)
Definition thread_step (total : nat) (who : bool * nat) (s : weak) : outcome (Prelude.result weak undefined) :=
  if who.1 then
    match w_prod s with
    | PIdle => if (length (w_sent s) =? total)%nat then Ret (Ok s)
               else weak_step source_orderings (Enqueuer (numbered_message (length (w_sent s))) who.2) s
    | _ => weak_step source_orderings (Enqueuer (numbered_message (length (w_sent s))) who.2) s
    end
  else
    match w_cons s with
    | CIdle => if (length (w_received s) =? total)%nat then Ret (Ok s)
               else weak_step source_orderings (Dequeuer who.2) s
    | _ => weak_step source_orderings (Dequeuer who.2) s
    end.

Fixpoint run_threads (total : nat) (schedule : list (bool * nat)) (s : weak) :
    outcome (Prelude.result weak undefined) :=
  match schedule with
  | [] => Ret (Ok s)
  | who :: schedule' =>
      r ← thread_step total who s;
      match r with Ok s' => run_threads total schedule' s' | Err e => Ret (Err e) end
  end.

(** When the consumer has ended, the numbers it decoded are compared. *)
Definition real_concurrent_spsc_producer_consumer_loses_and_corrupts_nothing
    (schedule : list (bool * nat)) : outcome unit :=
  let total := Z.to_nat 5000 in
  r ← run_threads total schedule (weak_idle (RingBuffer_new 8));
  match r with
  | Err DataRace => Panic
  | Ok s =>
      if (length (w_received s) =? total)%nat then
        assert_eq ((λ m, m ≫= λ m, from_le_bytes (payload m)) <$> w_received s) (Some <$> seqZ 0 5000)
      else Ret tt
  end.

(** ** [memory.rs] *)

Definition allocate_never_hands_out_the_same_page_twice_without_a_free : outcome unit :=
  a ← PhysicalAllocator_new 0 4;
  '(a, r) ← allocate a 0;
  p1 ← unwrap r;
  '(_, r) ← allocate a 0;
  p2 ← unwrap r;
  assert_ne p1 p2.

Definition split_then_coalesce_returns_to_a_single_top_order_block : outcome unit :=
  a ← PhysicalAllocator_new 0 8;
  n ← free_page_count a;
  _ ← assert_eq n 8;
  '(a, r) ← allocate a 0;
  p0 ← unwrap r;
  n ← free_page_count a;
  _ ← assert_eq n 7;
  '(a, r) ← deallocate a p0;
  _ ← unwrap r;
  n ← free_page_count a;
  assert_eq n 8.

Definition double_free_is_rejected_not_silently_corrupting_state : outcome unit :=
  a ← PhysicalAllocator_new 0 4;
  '(a, r) ← allocate a 0;
  p ← unwrap r;
  '(a, r) ← deallocate a p;
  _ ← unwrap r;
  '(_, r) ← deallocate a p;
  assert_eq r (Err DoubleFree).

Definition out_of_memory_is_reported_not_panicked : outcome unit :=
  a ← PhysicalAllocator_new 0 2;
  '(a, r) ← allocate a 0;
  _ ← unwrap r;
  '(a, r) ← allocate a 0;
  _ ← unwrap r;
  '(_, r) ← allocate a 0;
  assert_eq r (Err OutOfMemory).

(** The first loop, with the vector of live pages; the last of them is freed. *)
Fixpoint cycles (ops : list Z) (a : PhysicalAllocator) (live : list Z) :
    outcome (PhysicalAllocator * list Z) :=
  match ops with
  | [] => Ret (a, live)
  | op :: ops' =>
      if (op =? 0) || (op =? 1) then
        '(a, r) ← allocate a 0;
        cycles ops' a (match r with Ok p => vec_push live p | Err _ => live end)
      else
        match vec_pop live with
        | Some (live, p) => '(a, r) ← deallocate a p; _ ← unwrap r; cycles ops' a live
        | None => cycles ops' a live
        end
  end.

Fixpoint drain (live : list Z) (a : PhysicalAllocator) : outcome PhysicalAllocator :=
  match live with
  | [] => Ret a
  | p :: live' => '(a, r) ← deallocate a p; _ ← unwrap r; drain live' a
  end.

Definition allocate_deallocate_cycles_never_leak_pages (ops : list Z) : outcome unit :=
  a ← PhysicalAllocator_new 0 16;
  '(a, live) ← cycles ops a [];
  a ← drain live a;
  n ← free_page_count a;
  assert_eq n 16.

Definition rw_access : MemoryAccess := mkAccess true true false false.

Definition allocate_virtual_is_denied_without_a_real_capability_grant : outcome unit :=
  phys ← PhysicalAllocator_new 0 16;
  let ctx := ProcessMemoryContext_new 1 0x10000000 in
  '(_, _, result) ← allocate_virtual (ctx, phys) CapabilityBroker_new PAGE_SIZE rw_access 0;
  assert_eq result (Err Buddy.CapabilityDenied).

Definition allocate_virtual_succeeds_and_is_usable_once_granted : outcome unit :=
  phys ← PhysicalAllocator_new 0 16;
  '(caps, _) ← issue CapabilityBroker_new 0 1 ResMemory "heap"
                 (mkPermissions true true false false true false false false) 0 1000;
  let ctx := ProcessMemoryContext_new 1 0x10000000 in
  '(s, _, r) ← allocate_virtual (ctx, phys) caps PAGE_SIZE rw_access 5;
  vaddr ← unwrap r;
  let paddr := translate (page_table s.1) vaddr (mkAccess true false false false) in
  _ ← assert_that (is_ok paddr);
  '(s, r) ← deallocate_virtual s vaddr;
  _ ← unwrap r;
  n ← free_page_count s.2;
  assert_eq n 16.

Definition page_fault_outside_any_region_is_not_satisfied : outcome unit :=
  phys ← PhysicalAllocator_new 0 4;
  '(_, result) ← handle_page_fault (ProcessMemoryContext_new 1 0x10000000, phys) 0xDEAD0000 false;
  assert_eq result (Err Unmapped).

Definition page_fault_write_to_a_read_only_region_is_an_access_violation : outcome unit :=
  phys ← PhysicalAllocator_new 0 4;
  let ctx := ProcessMemoryContext_new 1 0x10000000 in
  let ctx := mkContext (VirtualMemory.pid ctx) (page_table ctx)
               (vec_push (regions ctx) (mkRegion 0x2000 0x3000 (mkAccess true false false true)))
               (next_addr ctx) in
  '(_, result) ← handle_page_fault (ctx, phys) 0x2000 true;
  assert_eq result (Err AccessViolation).

(** ** The tests that draw nothing *)

Definition unit_tests : list (outcome unit) :=
  [ phases_complete_in_order_succeed; skipping_a_phase_is_rejected;
    completing_the_very_first_phase_out_of_order_is_impossible; double_completing_a_phase_is_rejected;
    zero_frequency_is_rejected_everywhere_not_panicked;
    pit_divisor_at_100hz_matches_the_documented_example;
    very_low_frequency_overflows_the_16_bit_pit_divisor;
    apic_initial_count_at_1khz_is_computed_correctly; ticks_to_ns_at_100hz_is_10ms_per_tick;
    tsc_to_ns_scales_with_frequency; newline_is_translated_to_crlf;
    bytes_without_newline_pass_through_unchanged; printf_substitutes_string_argument;
    printf_substitutes_integer_arguments_in_order; printf_percent_percent_is_a_literal_percent;
    printf_missing_argument_is_skipped_not_panicked; printf_unknown_specifier_passes_through_literally;
    cursor_advances_by_char_width_on_normal_byte; cursor_wraps_to_next_line_at_width_boundary;
    cursor_at_bottom_triggers_scroll_and_clamps_y; carriage_return_resets_x_only;
    create_then_enter_a_fresh_vault_succeeds; enter_unknown_vault_is_not_found;
    tampered_attestation_denies_entry; re_attesting_after_corruption_restores_entry;
    access_inside_region_is_allowed; access_outside_region_is_denied;
    realtime_task_always_preempts_normal_regardless_of_vruntime;
    among_realtime_tasks_earliest_deadline_wins; among_normal_tasks_smallest_vruntime_wins;
    empty_queue_picks_nothing; no_starvation_every_normal_task_eventually_runs;
    remove_process_updates_both_orderings_consistently; confinement_denies_without_any_grant;
    confinement_allows_exact_covering_grant; confinement_denies_insufficient_permission_bit;
    confinement_denies_outside_granted_scope; revocation_is_immediate_and_final; expiry_is_enforced;
    delegation_cannot_exceed_source_permissions; delegation_denied_without_delegate_bit;
    delegation_grants_a_real_working_subset_capability;
    revoking_source_does_not_touch_an_independently_issued_delegate_token;
    send_without_any_capability_is_denied; owner_can_send_and_receive_its_own_port;
    receive_on_empty_queue_is_reported_not_blocked_forever;
    ring_buffer_reports_full_correctly_after_exact_capacity_fill;
    ring_buffer_preserves_fifo_order_across_many_wraparounds;
    allocate_never_hands_out_the_same_page_twice_without_a_free;
    split_then_coalesce_returns_to_a_single_top_order_block;
    double_free_is_rejected_not_silently_corrupting_state; out_of_memory_is_reported_not_panicked;
    allocate_virtual_is_denied_without_a_real_capability_grant;
    allocate_virtual_succeeds_and_is_usable_once_granted; page_fault_outside_any_region_is_not_satisfied;
    page_fault_write_to_a_read_only_region_is_an_access_violation ].
End tests.

(** Every one of them passes, in both build profiles. *)
Lemma unit_tests_pass `{Profile} : Forall (λ test, test = Ret tt) unit_tests.
Proof. destruct H; repeat (constructor; [vm_compute; reflexivity|]); constructor. Qed.

(** ** The tests that draw their inputs *)

Section property_tests.
Context `{Profile}.

Lemma assert_that_true : assert_that true = Ret tt.
Proof. done. Qed.

Lemma assert_eq_refl `{EqDecision A} (x : A) : assert_eq x x = Ret tt.
Proof. unfold assert_eq. by rewrite bool_decide_true. Qed.

(** Boot: the invariant is checked after every attempt. *)
Lemma order_at k : (k <= 6)%nat → satisfies_ordering_invariant (seq_at k) = Ret true.
Proof. intros Hk. do 7 (destruct k as [|k]; [vm_compute; reflexivity|]). lia. Qed.

Lemma attempts_keep_order_at attempts k :
  Forall (λ idx, 0 <= idx < 6) attempts → (k <= 6)%nat → attempts_keep_order attempts (seq_at k) = Ret tt.
Proof.
  intros Ha. revert k. induction Ha as [|idx attempts Hidx _ IH]; intros k Hk; [done|].
  cbn [attempts_keep_order]. destruct (vec_get_in_range ORDER idx Hidx) as (phase & -> & _).
  cbn [mbind outcome_bind]. rewrite complete_at by done. cbn [mbind outcome_bind fst].
  pose proof (complete_spec_at_le k phase Hk). rewrite order_at by done. cbn [mbind outcome_bind]. by apply IH.
Qed.

(** Console. *)
Lemma bytes_keep_cursor_frame g bytes c :
  geometry_ok g → on_frame g c → bytes_keep_cursor g bytes c = Ret tt.
Proof.
  intros Hg. revert c. induction bytes as [|b bytes IH]; intros c Hc; [done|].
  cbn [bytes_keep_cursor]. destruct (advance_cursor_frame g Hg c b Hc) as (c' & sc & -> & Hc' & _).
  cbn [mbind outcome_bind fst]. destruct (of_y _ _ Hc'). rewrite (proj2 (Z.leb_le _ _)) by lia.
  by apply IH.
Qed.

(** Sanctum. *)
Lemma region_bounds_exact start len probe :
  0 <= start → 0 <= len → start + len < 2 ^ 64 →
  access_check_matches_region_bounds_exactly start len probe = Ret tt.
Proof.
  intros Hs Hl Hfit. unfold access_check_matches_region_bounds_exactly. rewrite u64_add_ret by lia.
  cbn [mbind outcome_bind]. unfold create_vault. cbn [VaultManager_new next_vault_id vaults].
  rewrite u64_add_ret by done. cbn [mbind outcome_bind]. unfold vault_check_access. cbn [vaults].
  rewrite lookup_insert_eq. cbn [config memory_start memory_end].
  destruct ((start <=? _) && _); apply assert_eq_refl.
Qed.

(** The ring as a queue of one-byte messages. *)
Definition byte_messages (vs : list Z) : list Message := (λ v, mkMessage 1 [v]) <$> vs.

Lemma fifo_ops_ret ops rb expected next_val :
  ring_rel rb (byte_messages expected) → write_index rb + Z.of_nat (length ops) <= u64_max →
  fifo_ops ops rb expected next_val = Ret tt.
Proof.
  revert rb expected next_val. induction ops as [|op ops IH]; intros rb expected next_val Hr Hw; [done|].
  cbn [fifo_ops length] in *. pose proof (rr_read _ _ Hr) as Hrd. pose proof (rr_write _ _ Hr) as Hwr.
  destruct (op =? 0).
  - destruct (Z.lt_ge_cases (Z.of_nat (length (byte_messages expected))) (capacity rb)) as [Hlt|Hge].
    + destruct (enqueue_room rb _ (mkMessage 1 [next_val]) Hr Hlt) as (rb' & -> & Hr' & _ & Hw' & _); [lia|].
      cbn [mbind outcome_bind is_ok]. apply IH; [|lia]. unfold byte_messages in *. by rewrite fmap_app.
    + rewrite (enqueue_full rb (byte_messages expected)) by (done || (pose proof (rr_cap _ _ Hr); lia)).
      cbn [mbind outcome_bind is_ok]. apply IH; [done|lia].
  - destruct expected as [|e expected].
    + rewrite dequeue_empty by done. cbn [mbind outcome_bind]. apply IH; [done|lia].
    + destruct (dequeue_head rb (byte_messages expected) (mkMessage 1 [e]) Hr) as (rb' & -> & Hr' & _ & _ & Hw').
      { cbn [byte_messages fmap list_fmap length] in Hwr. lia. }
      cbn [mbind outcome_bind payload]. rewrite assert_eq_refl. cbn [mbind outcome_bind].
      apply IH; [done|lia].
Qed.

(** The live vector holds the live frames. *)
Record holds (a : PhysicalAllocator) (live : list Z) : Prop := {
  ho_wf : phys_wf a;
  ho_nodup : NoDup live;
  ho_live : ∀ p, live_blocks a !! p = if bool_decide (p ∈ live) then Some 0 else None;
}.

Lemma holds_deallocate a p live live' :
  holds a live' → live' ≡ₚ p :: live →
  ∃ a', deallocate a p = Ret (a', Ok tt) ∧ holds a' live ∧ base a' = base a ∧ total_pages a' = total_pages a.
Proof.
  intros [Hw Hnd Hl] Hp. destruct (deallocate_ret a p 0 Hw) as (a' & Hd & Hw' & Hb & Ht & Hl').
  { rewrite Hl, bool_decide_true; [done|]. rewrite Hp. by left. }
  rewrite Hp in Hnd. apply NoDup_cons in Hnd as [Hn Hnd].
  exists a'. split_and!; [done| |done|done]. split; [done|done|]. intros q. rewrite Hl', lookup_delete, Hl.
  case_decide; [subst; by rewrite bool_decide_false|].
  rewrite (bool_decide_ext (q ∈ live') (q ∈ live)); [done|]. rewrite Hp. set_solver.
Qed.

Lemma holds_allocate a live :
  holds a live →
  ∃ a' r, allocate a 0 = Ret (a', r) ∧ base a' = base a ∧ total_pages a' = total_pages a ∧
    holds a' (match r with Ok p => vec_push live p | Err _ => live end).
Proof.
  intros Ha. pose proof Ha as [Hw Hnd Hl].
  destruct (Z.lt_ge_cases (live_pages a) (total_pages a)) as [Hlt|Hge].
  - destruct (allocate_frame a Hw Hlt) as (a' & p & -> & (Hw' & Hb & Ht) & Hp & Hl').
    exists a', (Ok p). split_and!; [done..|]. rewrite Hl in Hp. case_bool_decide as Hin; [done|].
    unfold vec_push. split; [done| |].
    + apply NoDup_app. split_and!; [done| |apply NoDup_singleton]. set_solver.
    + intros q. rewrite Hl', lookup_insert, Hl. case_decide.
      * subst. rewrite bool_decide_true; [done|]. set_solver.
      * rewrite (bool_decide_ext (q ∈ live ++ [p]) (q ∈ live)); [done|]. set_solver.
  - pose proof (live_pages_le _ Hw). pose proof (pages_in_nonneg (free_blocks a)).
    rewrite allocate_exhausted by (done || lia). by exists a, (Err OutOfMemory).
Qed.

Lemma cycles_ret ops a live :
  holds a live →
  ∃ a' live', cycles ops a live = Ret (a', live') ∧ holds a' live' ∧
    base a' = base a ∧ total_pages a' = total_pages a.
Proof.
  revert a live. induction ops as [|op ops IH]; intros a live Ha; [by exists a, live|].
  cbn [cycles]. destruct ((op =? 0) || _).
  - destruct (holds_allocate a live Ha) as (a1 & r & -> & Hb & Ht & Ha1). cbn [mbind outcome_bind].
    destruct (IH a1 _ Ha1) as (a' & live' & -> & ? & ? & ?). exists a', live'. split_and!; congruence || done.
  - destruct (vec_pop live) as [[rest p]|] eqn:E; [|by apply IH].
    apply vec_pop_Some in E as ->.
    destruct (holds_deallocate a p rest (rest ++ [p]) Ha) as (a1 & -> & Ha1 & Hb & Ht); [by rewrite Permutation_app_comm|].
    cbn [mbind outcome_bind unwrap].
    destruct (IH a1 _ Ha1) as (a' & live' & -> & ? & ? & ?). exists a', live'. split_and!; congruence || done.
Qed.

Lemma drain_ret live a :
  holds a live → ∃ a', drain live a = Ret a' ∧ holds a' [] ∧ total_pages a' = total_pages a.
Proof.
  revert a. induction live as [|p live IH]; intros a Ha; [by exists a|]. cbn [drain].
  destruct (holds_deallocate a p live (p :: live) Ha) as (a1 & -> & Ha1 & Hb & Ht); [done|].
  cbn [mbind outcome_bind unwrap]. destruct (IH a1 Ha1) as (a' & -> & ? & ?).
  exists a'. split_and!; congruence || done.
Qed.

Lemma cycles_never_leak ops : allocate_deallocate_cycles_never_leak_pages ops = Ret tt.
Proof.
  unfold allocate_deallocate_cycles_never_leak_pages.
  destruct (PhysicalAllocator_new_ret 0 16) as (a & -> & Hw & _ & Ht & Hl & _); [done..|]. cbn [mbind outcome_bind].
  assert (holds a []) as Ha.
  { split; [done|constructor|]. intros p. by rewrite Hl, lookup_empty. }
  destruct (cycles_ret ops a [] Ha) as (a1 & live & -> & Ha1 & _ & Ht1). cbn [mbind outcome_bind].
  destruct (drain_ret live a1 Ha1) as (a2 & -> & [Hw2 _ Hl2] & Ht2). cbn [mbind outcome_bind].
  rewrite free_page_count_ret by done. cbn [mbind outcome_bind]. unfold live_pages.
  replace (live_blocks a2) with (∅ : gmap Z Z).
  - rewrite map_to_list_empty. rewrite Ht2, Ht1, Ht. apply assert_eq_refl.
  - apply map_eq. intros p. rewrite Hl2, lookup_empty. done.
Qed.

(** The messages so far are numbered, and so is the one on its way. *)
Record numbered (s : weak) : Prop := {
  nu_sent : w_sent s = numbered_message <$> seq 0 (length (w_sent s));
  nu_next : match w_prod s with
            | PRoom m | PWrite m _ => m = numbered_message (length (w_sent s))
            | _ => True
            end;
}.

Lemma enqueue_numbered pick s s' :
  numbered s → weak_step source_orderings (Enqueuer (numbered_message (length (w_sent s))) pick) s = Ret (Ok s') →
  numbered s'.
Proof.
  intros [Hs Hn]. destruct s as [sl cap wi ri h p pk c ck sent wr rcv tk]. cbn in *.
  destruct p as [|m|m idx|idx|].
  - destruct (load_len _ _ _ _) as [[v k]|]; [|done]. intros [= <-]. split; [done|]. cbn.
    by destruct (cap <=? v).
  - intros [= <-]. by split.
  - subst m. destruct (usize_rem _ _) as [k| |]; cbn; [|done..].
    destruct (vec_set _ _ _) as [sl'| |]; cbn; [|done..]. destruct (unordered _ _ _); [done|].
    intros [= <-]. split; cbn; [|done]. rewrite length_app, seq_app, fmap_app. cbn. by rewrite Hs at 1.
  - destruct (u64_add _ _); cbn; [|done..]. intros [= <-]. by split.
  - destruct (update_len _ _ _ _) as [[h' k]|]; [|done]. intros [= <-]. by split.
Qed.

Lemma dequeue_numbered pick s s' :
  numbered s → weak_step source_orderings (Dequeuer pick) s = Ret (Ok s') → numbered s'.
Proof.
  intros [Hs Hn]. destruct s as [sl cap wi ri h p pk c ck sent wr rcv tk]. cbn in *.
  destruct c as [| |idx|idx m|m].
  - destruct (load_len _ _ _ _) as [[v k]|]; [|done]. intros [= <-]. by split.
  - intros [= <-]. by split.
  - destruct (usize_rem _ _) as [k| |]; cbn; [|done..]. destruct (vec_get _ _) as [x| |]; cbn; [|done..].
    destruct (vec_set _ _ _) as [sl'| |]; cbn; [|done..]. destruct (unordered _ _ _); [done|].
    intros [= <-]. by split.
  - destruct (u64_add _ _); cbn; [|done..]. intros [= <-]. by split.
  - destruct (update_len _ _ _ _) as [[h' k]|]; [|done]. intros [= <-]. by split.
Qed.
(** The threads: a step is one of [RingOrderings], or the end of a loop. *)
Lemma thread_step_inv total who s :
  weak_inv s → numbered s → Z.of_nat (length (w_sent s)) + 1 < 2 ^ 64 →
  ∃ s', thread_step total who s = Ret (Ok s') ∧ weak_inv s' ∧ numbered s' ∧
    (length (w_sent s') <= length (w_sent s) + 1)%nat.
Proof.
  intros Hs Hn Hb. destruct who as [[] pick]; unfold thread_step; cbn [fst snd].
  - destruct (weak_enqueue_inv (numbered_message (length (w_sent s))) pick s Hs Hb) as (s' & Hst & Hs' & Hl & _).
    pose proof (enqueue_numbered pick s s' Hn Hst) as Hn'.
    assert (∃ s', weak_step source_orderings (Enqueuer (numbered_message (length (w_sent s))) pick) s
                  = Ret (Ok s') ∧ weak_inv s' ∧ numbered s' ∧
                  (length (w_sent s') <= length (w_sent s) + 1)%nat) as Hgo by by exists s'.
    destruct (w_prod s); try exact Hgo. case_match; [|exact Hgo]. exists s. split_and!; done || lia.
  - destruct (weak_dequeue_inv pick s Hs Hb) as (s' & Hst & Hs' & Hl & _).
    pose proof (dequeue_numbered pick s s' Hn Hst) as Hn'.
    assert (∃ s', weak_step source_orderings (Dequeuer pick) s = Ret (Ok s') ∧ weak_inv s' ∧ numbered s' ∧
                  (length (w_sent s') <= length (w_sent s) + 1)%nat) as Hgo.
    { exists s'. split_and!; done || lia. }
    destruct (w_cons s); try exact Hgo. case_match; [|exact Hgo]. exists s. split_and!; done || lia.
Qed.

Lemma run_threads_inv total schedule s :
  weak_inv s → numbered s → Z.of_nat (length (w_sent s)) + Z.of_nat (length schedule) < 2 ^ 64 →
  ∃ s', run_threads total schedule s = Ret (Ok s') ∧ weak_inv s' ∧ numbered s'.
Proof.
  revert s. induction schedule as [|who schedule IH]; intros s Hs Hn Hb; cbn [run_threads length] in *.
  - by exists s.
  - destruct (thread_step_inv total who s Hs Hn) as (s1 & -> & Hs1 & Hn1 & Hl); [lia|].
    cbn [mbind outcome_bind]. apply IH; done || lia.
Qed.

Lemma le_bytes_roundtrip n : 0 <= n < 2 ^ 32 → from_le_bytes (to_le_bytes n) = Some n.
Proof.
  intros Hn. unfold from_le_bytes, to_le_bytes. f_equal.
  change (2 ^ 24) with (2 ^ 8 * (2 ^ 8 * 2 ^ 8)). change (2 ^ 16) with (2 ^ 8 * 2 ^ 8).
  rewrite <- !Z.div_div by lia. change (2 ^ 8) with 256. change (2 ^ 32) with 4294967296 in Hn.
  Z.to_euclidean_division_equations. lia.
Qed.

(** What [n] received messages decode to. *)
Lemma received_numbers n s :
  weak_inv s → numbered s → Z.of_nat n < 2 ^ 32 → length (w_received s) = n →
  (λ m, m ≫= λ m, from_le_bytes (payload m)) <$> w_received s = Some <$> seqZ 0 (Z.of_nat n).
Proof.
  intros Hs [Hn _] Hb Hl. pose proof (wi_order s Hs). rewrite (wi_fifo s Hs), Hl, Hn.
  unfold seqZ. rewrite Nat2Z.id, fmap_take, <- !fmap_take, take_seq, Nat.min_l by lia.
  rewrite <- !list_fmap_compose. apply list_fmap_ext. intros i x Hx. apply lookup_seq in Hx as [-> Hi].
  unfold compose. cbn [mbind option_bind payload numbered_message].
  rewrite le_bytes_roundtrip by lia. f_equal. lia.
Qed.

Lemma concurrent_threads schedule :
  Z.of_nat (length schedule) < 2 ^ 64 →
  real_concurrent_spsc_producer_consumer_loses_and_corrupts_nothing schedule = Ret tt.
Proof.
  intros Hb. unfold real_concurrent_spsc_producer_consumer_loses_and_corrupts_nothing.
  remember (Z.to_nat 5000) as total eqn:Ht. assert (Z.of_nat total = 5000) as Ht' by (subst; lia). clear Ht.
  destruct (run_threads_inv total schedule (weak_idle (RingBuffer_new 8))) as (s & -> & Hs & Hn).
  { by apply weak_inv_idle. } { by split. } { cbn. lia. }
  cbn [mbind outcome_bind]. case_match eqn:E; [|done]. apply Nat.eqb_eq in E.
  rewrite (received_numbers total s), Ht' by (done || lia). apply assert_eq_refl.
Qed.

(** Scheduler: the test draws from eleven counts. *)
Lemma task_counts n : (n < 12)%nat → no_normal_task_starves_for_arbitrary_task_counts n = Ret tt.
Proof. intros Hn. do 12 (destruct n as [|n]; [destruct H; vm_compute; reflexivity|]). lia. Qed.

Lemma nonzero_frequency f : 0 < f < 2 ^ 32 → no_panics_for_any_nonzero_frequency f = Ret tt.
Proof.
  intros Hf. unfold no_panics_for_any_nonzero_frequency. rewrite pit_divisor_nonzero by done. done.
Qed.
End property_tests.

(** [C37] The core library's tests pass on the model, in both build profiles: those without
    inputs by running them, and those that draw their inputs for everything their
    strategies can draw (and lists of any length, below 2^64 where each element may
    advance an index).  So no
    sequence of phase attempts breaks the boot order, no nonzero frequency and no text
    panics or leaves the frame, a vault allows exactly its region, the ring is a queue
    under every interleaving of calls, no cycle of allocations leaks a page, no task
    starves, and the two threads' messages arrive once and in order under every
    interleaving of their memory accesses, stale loads included. *)
Theorem core_tests_pass `{Profile} :
  Forall (λ test, test = Ret tt) unit_tests ∧
  (∀ attempts, Forall (λ idx, 0 <= idx < 6) attempts →
     ordering_invariant_holds_after_any_sequence_of_attempts attempts = Ret tt) ∧
  (∀ f, 0 < f < 2 ^ 32 → no_panics_for_any_nonzero_frequency f = Ret tt) ∧
  (∀ bytes x y, 0 <= x < 800 → 0 <= y < 600 → cursor_y_never_exceeds_frame_bounds bytes x y = Ret tt) ∧
  (∀ start len probe, 0 <= start < 1000000 → 1 <= len < 10000 → -10000 <= probe < 20000 →
     access_check_matches_region_bounds_exactly start len probe = Ret tt) ∧
  (∀ ops, Z.of_nat (length ops) < 2 ^ 64 → fifo_order_holds_under_arbitrary_interleavings ops = Ret tt) ∧
  (∀ ops, allocate_deallocate_cycles_never_leak_pages ops = Ret tt) ∧
  (∀ n, (1 <= n < 12)%nat → no_normal_task_starves_for_arbitrary_task_counts n = Ret tt) ∧
  (∀ schedule, Z.of_nat (length schedule) < 2 ^ 64 →
     real_concurrent_spsc_producer_consumer_loses_and_corrupts_nothing schedule = Ret tt).
Proof.
  split_and!.
  - apply unit_tests_pass.
  - intros attempts Ha. by apply (attempts_keep_order_at attempts 0); [|lia].
  - apply nonzero_frequency.
  - intros bytes x y Hx Hy. apply bytes_keep_cursor_frame; split; cbn; lia.
  - intros start len probe Hs Hl _. apply region_bounds_exact; lia.
  - intros ops Ho. apply fifo_ops_ret; [by apply ring_rel_new|]. cbn. unfold u64_max. lia.
  - apply cycles_never_leak.
  - intros n Hn. apply task_counts. lia.
  - apply concurrent_threads.
Qed.

Lemma core_tests_pass_witness :
  (0 < 100 < 2 ^ 32 ∧ @no_panics_for_any_nonzero_frequency true 100 = Ret tt) ∧
  @fifo_order_holds_under_arbitrary_interleavings true [0; 0; 1; 0; 1; 1; 1] = Ret tt ∧
  @real_concurrent_spsc_producer_consumer_loses_and_corrupts_nothing true
    [(true, 0%nat); (false, 1%nat); (true, 0%nat)] = Ret tt.
Proof.
  destruct (@core_tests_pass true) as (_ & _ & Ht & _ & _ & Hf & _ & _ & Hc).
  split_and!; [lia|lia|apply Ht; lia|apply Hf; cbn; lia|apply Hc; cbn; lia].
Defined.
