(* ===== verification/Host.v ===== *)
(** * Programs that run on the build machine

    What the build script and the image builder use of the standard library: text as
    its code points, paths, the environment, the arguments, files, commands and the
    lines they print.  A program is a state and panic monad: what it did before a
    panic stays done.  The file system is an interface with the one law the programs
    rely on; the commands that are run are parameters of the programs. *)
From S2P Require Import Prelude.

Abbreviation text := (list Z).

(** ** Paths *)

Definition SLASH : Z := 47.

Definition is_absolute (p : text) : bool := if p is c :: _ then c =? SLASH else false.

(** [Path::join] on Unix: an absolute path replaces what it is joined to. *)
Definition join (base p : text) : text :=
  if is_absolute p then p
  else base ++ (if last base is Some c then if c =? SLASH then [] else [SLASH] else []) ++ p.

(** ** The file system *)

Class FileSystem (F : Type) := {
  fs_exists : F → text → bool;
  (** [fs::read_to_string(p).ok()]. *)
  fs_read : F → text → option text;
  (** [fs::write] and [fs::create_dir_all]: whether they succeeded. *)
  fs_write : F → text → text → F * bool;
  fs_create_dir_all : F → text → F * bool }.

(** [fs::write] replaces the entire contents of the file, and [read_to_string]
    returns them. *)
Class FileSystemLaws (F : Type) `{FileSystem F} :=
  fs_write_read d p t d' : fs_write d p t = (d', true) → fs_read d' p = Some t.

(** Files that are only names and contents, the last written first. *)
Definition disk : Type := list (text * text).

Definition disk_read (d : disk) (p : text) : option text :=
  (λ f, f.2.2) <$> list_find (λ f, f.1 = p) d.

#[export] Instance disk_files : FileSystem disk := {|
  fs_exists d p := bool_decide (is_Some (disk_read d p));
  fs_read := disk_read;
  fs_write d p t := ((p, t) :: d, true);
  fs_create_dir_all d _ := (d, true) |}.

#[export] Instance disk_files_laws : FileSystemLaws disk.
Proof.
  intros d p t d' Hw. cbn in Hw. simplify_eq. cbn. unfold disk_read. cbn.
  by rewrite decide_True.
Qed.

(** [std::process::Command]. *)
Record Command := mk_command { program : text; current_dir : option text; args : list text }.

(** ** Programs *)

(** The process: its environment and arguments ([None] where they are not Unicode), the
    files, and standard output, which may be closed. *)
Record machine (F : Type) := mk_machine {
  env : gmap text (option text); argv : list (option text);
  files : F; stdout : list text; stdout_open : bool }.
Arguments mk_machine {F}. Arguments env {F}. Arguments argv {F}. Arguments files {F}.
Arguments stdout {F}. Arguments stdout_open {F}.

Definition set_files {F} (h : machine F) (d : F) : machine F :=
  mk_machine (env h) (argv h) d (stdout h) (stdout_open h).

Definition set_stdout {F} (h : machine F) (ls : list text) : machine F :=
  mk_machine (env h) (argv h) (files h) ls (stdout_open h).

Definition io (F A : Type) : Type := machine F → machine F * outcome A.

#[export] Instance io_ret F : MRet (io F) := λ A a h, (h, Ret a).
#[export] Instance io_bind F : MBind (io F) := λ A B f m h,
  match m h with
  | (h', Ret a) => f a h'
  | (h', Panic) => (h', Panic)
  | (h', Diverge) => (h', Diverge)
  end.

Section programs.
Context {F : Type}.

(** A computation that touches nothing. *)
Definition lift {A} (r : outcome A) : io F A := λ h, (h, r).

(** [Option::expect], [Result::expect], [unwrap]; [assert!]. *)
Definition expect {A} (o : option A) : io F A := lift (if o is Some a then Ret a else Panic).
Definition assert (b : bool) : io F unit := lift (if b then Ret tt else Panic).

(** [env::var(_).expect(_)]: a variable that is not Unicode is an error as well. *)
Definition env_var (name : text) : io F text := λ h, expect (mjoin (env h !! name)) h.

(** [env::args().nth(n).expect(_)]: the iterator panics at an argument that is not
    Unicode, also at one that it skips. *)
Fixpoint args_nth (n : nat) (l : list (option text)) : outcome text :=
  match l, n with
  | Some a :: _, O => Ret a
  | Some _ :: l', S n' => args_nth n' l'
  | _, _ => Panic
  end.

Definition arg (n : nat) : io F text := λ h, lift (args_nth n (argv h)) h.

(** [println!] panics when standard output cannot be written. *)
Definition println (line : text) : io F unit := λ h,
  if stdout_open h
  then (set_stdout h (stdout h ++ [line]), Ret tt)
  else (h, Panic).

(** A call that works on the files. *)
Definition on_files {A} (f : F → F * A) : io F A := λ h,
  (set_files h (f (files h)).1, Ret (f (files h)).2).

Definition exists_ `{FileSystem F} (p : text) : io F bool := λ h, (h, Ret (fs_exists (files h) p)).
Definition read_to_string `{FileSystem F} (p : text) : io F (option text) := λ h,
  (h, Ret (fs_read (files h) p)).

(** ** Running programs: each call in front of a continuation *)

Section run.
Context {A B : Type} (h : machine F).

Lemma run_ret (a : A) : (mret a : io F A) h = (h, Ret a).
Proof. done. Qed.

Lemma run_lift (r : outcome A) (f : A → io F B) :
  (lift r ≫= f) h =
  match r with Ret a => f a h | Panic => (h, Panic) | Diverge => (h, Diverge) end.
Proof. done. Qed.

Lemma run_expect (o : option A) (f : A → io F B) :
  (expect o ≫= f) h = if o is Some a then f a h else (h, Panic).
Proof. by destruct o. Qed.

Lemma run_assert b (f : unit → io F B) : (assert b ≫= f) h = if b then f tt h else (h, Panic).
Proof. by destruct b. Qed.

Lemma run_env_var name (f : text → io F B) :
  (env_var name ≫= f) h =
  match env h !! name with Some (Some v) => f v h | _ => (h, Panic) end.
Proof. unfold mbind, io_bind, env_var. by destruct (env h !! name) as [[]|]. Qed.

Lemma run_arg n (f : text → io F B) :
  (arg n ≫= f) h = match args_nth n (argv h) with
                   | Ret a => f a h | Panic => (h, Panic) | Diverge => (h, Diverge) end.
Proof. done. Qed.

Lemma run_println line (f : unit → io F B) :
  (println line ≫= f) h = if stdout_open h then f tt (set_stdout h (stdout h ++ [line])) else (h, Panic).
Proof. unfold mbind, io_bind, println. by destruct (stdout_open h). Qed.

Lemma run_last_println line :
  println line h = if stdout_open h then (set_stdout h (stdout h ++ [line]), Ret tt) else (h, Panic).
Proof. done. Qed.

Lemma run_on_files (g : F → F * A) (f : A → io F B) :
  (on_files g ≫= f) h = f (g (files h)).2 (set_files h (g (files h)).1).
Proof. done. Qed.

Lemma run_exists `{FileSystem F} p (f : bool → io F B) :
  (exists_ p ≫= f) h = f (fs_exists (files h) p) h.
Proof. done. Qed.

Lemma run_read_to_string `{FileSystem F} p (f : option text → io F B) :
  (read_to_string p ≫= f) h = f (fs_read (files h) p) h.
Proof. done. Qed.
End run.

Lemma args_nth_ends n l : args_nth n l ≠ Diverge.
Proof. revert n. induction l as [|[a|] l IH]; intros [|n]; by try apply IH. Qed.
End programs.

Create Rewrite HintDb run.
#[export] Hint Rewrite @run_ret @run_lift @run_expect @run_assert @run_env_var @run_arg @run_println
  @run_last_println @run_on_files @run_exists @run_read_to_string : run.
