(* ===== verification/BuildScript.v ===== *)
(** * The build script of the trampoline

    Model of [src/kernel-x86_64/build.rs]: the assembler's map file is read line by
    line into a table of symbols, and the constants that [smp.rs] includes are
    printed from it.  [main] is the whole script as a program of [Host]; running a
    command is a parameter. *)
From S2P Require Import Prelude Host.

(** ** What the script uses of [str] *)

Definition LF : Z := 10.
Definition CR : Z := 13.

(** [char::is_whitespace]: the White_Space property of Unicode. *)
Definition is_whitespace (c : Z) : bool :=
  ((9 <=? c) && (c <=? 13)) || (c =? 32) || (c =? 0x85) || (c =? 0xA0) || (c =? 0x1680) ||
  ((0x2000 <=? c) && (c <=? 0x200A)) || (c =? 0x2028) || (c =? 0x2029) || (c =? 0x202F) ||
  (c =? 0x205F) || (c =? 0x3000).

(** [str::split]: the pieces between the characters that [sep] accepts. *)
Fixpoint split (sep : Z → bool) (s : text) : list text :=
  match s with
  | [] => [[]]
  | c :: s' =>
      if sep c then [] :: split sep s'
      else match split sep s' with
           | p :: ps => (c :: p) :: ps
           | [] => [[c]]
           end
  end.

Definition non_empty (w : text) : bool := if w is [] then false else true.

Definition split_whitespace (s : text) : list text :=
  base.filter (λ w, non_empty w = true) (split is_whitespace s).

(** [str::lines]: a line ends at a line feed, which takes a carriage return before
    it along; what follows the last line feed is a line unless it is empty. *)
Fixpoint strip_cr (s : text) : text :=
  match s with
  | [] => []
  | [c] => if c =? CR then [] else [c]
  | c :: s' => c :: strip_cr s'
  end.

Fixpoint line_pieces (ps : list text) : list text :=
  match ps with
  | [] => []
  | [p] => if non_empty p then [p] else []
  | p :: ps' => strip_cr p :: line_pieces ps'
  end.

Definition lines (s : text) : list text := line_pieces (split (λ c, c =? LF) s).

(** [char::to_digit(16)]. *)
Definition to_digit (c : Z) : option Z :=
  if (48 <=? c) && (c <=? 57) then Some (c - 48)
  else if (97 <=? c) && (c <=? 102) then Some (c - 87)
  else if (65 <=? c) && (c <=? 70) then Some (c - 55)
  else None.

(** The digits, with the checks for overflow of [u64]. *)
Fixpoint accumulate (acc : Z) (s : text) : option Z :=
  match s with
  | [] => Some acc
  | c :: s' =>
      d ← to_digit c;
      if in_width 64 (acc * 16 + d) then accumulate (acc * 16 + d) s' else None
  end.

(** [u64::from_str_radix(_, 16).ok()]: a plus sign may come before the digits. *)
Definition from_str_radix_16 (s : text) : option Z :=
  match s with
  | [] => None
  | c :: s' =>
      if c =? 43 then if non_empty s' then accumulate 0 s' else None
      else accumulate 0 s
  end.

(** [format!("{:x}")] of a [u64]: lower-case digits, no leading zeros. *)
Definition hex_digit (d : Z) : Z := if d <? 10 then 48 + d else 87 + d.

Fixpoint hex_loop (fuel : nat) (n : Z) (acc : text) : text :=
  match fuel with
  | O => acc
  | S fuel =>
      let acc := hex_digit (n mod 16) :: acc in
      if n / 16 =? 0 then acc else hex_loop fuel (n / 16) acc
  end.

Definition lower_hex (n : Z) : text := hex_loop 16 n [].

(** [str::to_uppercase] of an ASCII name. *)
Definition to_uppercase (s : text) : text :=
  (λ c, if (97 <=? c) && (c <=? 122) then c - 32 else c) <$> s.

(** ** The script *)

(** One turn of the loop over the lines. *)
Definition read_line (symbols : gmap text Z) (line : text) : gmap text Z :=
  match split_whitespace line with
  | real :: _ :: name :: rest =>
      match rest with
      | _ :: _ => symbols
      | [] =>
          match from_str_radix_16 real with
          | Some addr => <[name := addr]> symbols
          | None => symbols
          end
      end
  | _ => symbols
  end.

Definition read_map (map_text : text) : gmap text Z := foldl read_line ∅ (lines map_text).

Definition needed : list text :=
  lit <$> ["ap_trampoline_start"; "ap_trampoline_end"; "ap_cr3"; "ap_stack_top";
           "ap_entry_addr"]%string.

Definition banner : text :=
  lit "// Generated by build.rs from src/smp/ap_trampoline.asm's real nasm map output." ++ [LF].

(** [format!("pub const {}: u64 = {:#x};\n", name.to_uppercase(), addr)]. *)
Definition const_line (name : text) (addr : Z) : text :=
  lit "pub const " ++ to_uppercase name ++ lit ": u64 = 0x" ++ lower_hex addr ++ lit ";" ++ [LF].

(** The loop over [needed]; a missing symbol panics. *)
Fixpoint generate (symbols : gmap text Z) (names : list text) (generated : text) : outcome text :=
  match names with
  | [] => Ret generated
  | name :: names' =>
      match symbols !! name with
      | None => Panic
      | Some addr => generate symbols names' (generated ++ const_line name addr)
      end
  end.

Definition symbols_path (out_dir : text) : text := join out_dir (lit "ap_trampoline_symbols.rs").
Definition map_path (out_dir : text) : text := join out_dir (lit "ap_trampoline.map").
Definition bin_path (out_dir : text) : text := join out_dir (lit "ap_trampoline.bin").
Definition asm_path (manifest_dir : text) : text := join manifest_dir (lit "src/smp/ap_trampoline.asm").

(** The assembler's command: it runs in the output directory, where the source file
    makes it leave its map. *)
Definition nasm_command (manifest_dir out_dir : text) : Command :=
  mk_command (lit "nasm") (Some out_dir)
    [lit "-f"; lit "bin"; asm_path manifest_dir; lit "-o"; bin_path out_dir].

Section script.
Context {F : Type} `{FileSystem F}.

(** [Command::status]: what a command leaves in the files, and whether it succeeded
    if it could be started. *)
Variable spawn : Command → F → F * option bool.

Definition main : io F unit :=
  manifest_dir ← env_var (lit "CARGO_MANIFEST_DIR");
  out_dir ← env_var (lit "OUT_DIR");
  println (lit "cargo:rerun-if-changed=" ++ asm_path manifest_dir);;
  ran ← on_files (spawn (nasm_command manifest_dir out_dir));
  status ← expect ran;
  assert status;;
  there ← exists_ (map_path out_dir);
  assert there;;
  map_file ← read_to_string (map_path out_dir);
  map_text ← expect map_file;
  generated ← lift (generate (read_map map_text) needed banner);
  written ← on_files (λ d, fs_write d (symbols_path out_dir) generated);
  assert written;;
  println (lit "cargo:rustc-env=AP_TRAMPOLINE_BIN=" ++ bin_path out_dir).
End script.

(** ** Splitting *)

Definition word (w : text) : Prop := w ≠ [] ∧ Forall (λ c, is_whitespace c = false) w.

Lemma split_prefix sep w s :
  Forall (λ c, sep c = false) w →
  split sep (w ++ s) = match split sep s with p :: ps => (w ++ p) :: ps | [] => [w] end.
Proof.
  induction 1 as [|c w Hc _ IH]; cbn [app split].
  - destruct s as [|c s]; cbn [split]; [done|]. destruct (sep c); [done|]. by destruct (split sep s).
  - rewrite Hc, IH. by destruct (split sep s).
Qed.

Lemma split_piece sep w c s :
  Forall (λ c, sep c = false) w → sep c = true → split sep (w ++ c :: s) = w :: split sep s.
Proof. intros Hw Hc. rewrite split_prefix by done. cbn [split]. by rewrite Hc, app_nil_r. Qed.

Lemma split_last sep w : Forall (λ c, sep c = false) w → split sep w = [w].
Proof.
  intros Hw. rewrite <- (app_nil_r w) at 1. rewrite split_prefix by done. cbn [split]. by rewrite app_nil_r.
Qed.

Lemma non_empty_word w : word w → non_empty w = true.
Proof. by destruct w as [|c w]; [intros [? _]|]. Qed.

Lemma split_whitespace_pad n s : split_whitespace (replicate n 32 ++ s) = split_whitespace s.
Proof. induction n as [|n IH]; [done|]. exact IH. Qed.

Lemma split_whitespace_word w n s :
  word w → split_whitespace (w ++ replicate (S n) 32 ++ s) = w :: split_whitespace s.
Proof.
  intros Hw. unfold split_whitespace at 1. cbn [replicate app].
  rewrite split_piece by (try apply Hw; done).
  rewrite filter_cons_True by by apply non_empty_word. f_equal. apply split_whitespace_pad.
Qed.

Lemma split_whitespace_last w : word w → split_whitespace w = [w].
Proof.
  intros Hw. unfold split_whitespace. rewrite split_last by apply Hw.
  by rewrite filter_cons_True by by apply non_empty_word.
Qed.

(** ** Lines *)

Lemma strip_cr_app l : strip_cr (l ++ [CR]) = l.
Proof. induction l as [|c l IH]; [done|]. cbn [app strip_cr]. rewrite IH. by destruct l. Qed.

Lemma strip_cr_id l : CR ∉ l → strip_cr l = l.
Proof.
  induction l as [|c l IH]; [done|]. rewrite not_elem_of_cons. intros [Hc Hl].
  cbn [strip_cr]. rewrite IH by done. destruct l; [|done]. by destruct (Z.eqb_spec c CR).
Qed.

(** The end of a line as the two conventions have it. *)
Definition eol (crlf : bool) : text := if crlf then [CR; LF] else [LF].

Lemma not_elem_Forall (c : Z) (l : text) : c ∉ l → Forall (λ x, (x =? c) = false) l.
Proof.
  intros Hc. apply Forall_forall. intros x Hx. destruct (Z.eqb_spec x c); [by subst|done].
Qed.

Lemma lines_concat crlf (ls : list text) :
  Forall (λ l, (LF ∉ l) ∧ (CR ∉ l)) ls → lines (concat ((λ l, l ++ eol crlf) <$> ls)) = ls.
Proof.
  induction 1 as [|l ls [Hlf Hcr] _ IH]; [done|].
  unfold lines in *. cbn [fmap list_fmap concat]. set (rest := concat _) in *.
  assert (∃ t, (l ++ eol crlf) ++ rest = t ++ LF :: rest ∧
               Forall (λ x, (x =? LF) = false) t ∧ strip_cr t = l) as (t & -> & Ht & Hs).
  { destruct crlf; cbn [eol].
    - exists (l ++ [CR]). rewrite <- !app_assoc. split_and!; [done| |apply strip_cr_app].
      apply Forall_app. split; [by apply not_elem_Forall|by repeat constructor].
    - exists l. rewrite <- !app_assoc. split_and!; [done|by apply not_elem_Forall|by apply strip_cr_id]. }
  rewrite split_piece by done.
  destruct (split _ rest) as [|p ps] eqn:Es; [|by rewrite <- Hs, <- IH].
  pose proof (split_prefix (λ c, c =? LF) [] rest (Forall_nil_2 _)) as He.
  cbn [app] in He. by rewrite Es in He.
Qed.

(** ** Hexadecimal *)

Lemma to_digit_hex d : 0 <= d < 16 → to_digit (hex_digit d) = Some d.
Proof.
  intros Hd. unfold to_digit, hex_digit. destruct (Z.ltb_spec d 10).
  - rewrite (proj2 (Z.leb_le 48 _)), (proj2 (Z.leb_le _ 57)) by lia. f_equal. lia.
  - rewrite (proj2 (Z.leb_gt _ 57)), andb_false_r, (proj2 (Z.leb_le 97 _)), (proj2 (Z.leb_le _ 102)) by lia.
    f_equal. lia.
Qed.

Definition hex_char (c : Z) : Prop := 48 <= c <= 57 ∨ 97 <= c <= 102.

Lemma hex_digit_char d : 0 <= d < 16 → hex_char (hex_digit d).
Proof. intros Hd. unfold hex_char, hex_digit. destruct (Z.ltb_spec d 10); lia. Qed.

(** Reading what [hex_loop] prints before [acc] brings the number to [acc]. *)
Lemma accumulate_hex_loop fuel n acc :
  0 <= n < 16 ^ Z.of_nat (S fuel) → n < 2 ^ 64 →
  accumulate 0 (hex_loop (S fuel) n acc) = accumulate n acc.
Proof.
  revert n acc. induction fuel as [|fuel IH]; intros n acc Hn Hw.
  - change (16 ^ Z.of_nat 1) with 16 in Hn. cbn [hex_loop]. rewrite Z.div_small, Z.mod_small by lia.
    cbn [Z.eqb accumulate]. rewrite to_digit_hex by lia. cbn [mbind option_bind].
    replace (0 * 16 + n) with n by lia. by rewrite (proj2 (in_width_spec _ _)) by lia.
  - rewrite Nat2Z.inj_succ, Z.pow_succ_r in Hn by lia.
    pose proof (Z.div_mod n 16). pose proof (Z.mod_pos_bound n 16).
    assert (0 <= n / 16 < 16 ^ Z.of_nat (S fuel)) by (split; [apply Z.div_pos; lia|apply Z.div_lt_upper_bound; lia]).
    remember (S fuel) as f eqn:Ef. cbn [hex_loop]. cbv zeta. subst f. destruct (Z.eqb_spec (n / 16) 0) as [E|E].
    + cbn [accumulate]. rewrite to_digit_hex by lia. cbn [mbind option_bind].
      replace (0 * 16 + n mod 16) with n by lia. by rewrite (proj2 (in_width_spec _ _)) by lia.
    + rewrite IH by lia. cbn [accumulate]. rewrite to_digit_hex by lia. cbn [mbind option_bind].
      replace (n / 16 * 16 + n mod 16) with n by lia. by rewrite (proj2 (in_width_spec _ _)) by lia.
Qed.

Lemma hex_loop_chars fuel n acc :
  Forall hex_char acc → (fuel = O → acc ≠ []) →
  Forall hex_char (hex_loop fuel n acc) ∧ hex_loop fuel n acc ≠ [].
Proof.
  revert n acc. induction fuel as [|fuel IH]; intros n acc Ha Hne; cbn [hex_loop]; [by split; [|apply Hne]|].
  assert (Forall hex_char (hex_digit (n mod 16) :: acc))
    by (constructor; [apply hex_digit_char, Z.mod_pos_bound; lia|done]).
  destruct (n / 16 =? 0); [done|]. by apply IH.
Qed.

Lemma lower_hex_chars n : Forall hex_char (lower_hex n) ∧ lower_hex n ≠ [].
Proof. by apply hex_loop_chars. Qed.

Lemma is_whitespace_hex c : hex_char c → is_whitespace c = false.
Proof. intros Hc. unfold is_whitespace, hex_char in *. lia. Qed.

Lemma lower_hex_word n : word (lower_hex n).
Proof.
  split; [apply lower_hex_chars|].
  eapply Forall_impl; [apply lower_hex_chars|]. apply is_whitespace_hex.
Qed.

(** A number that was printed is read back. *)
Lemma hex_read_back n : 0 <= n < 2 ^ 64 → from_str_radix_16 (lower_hex n) = Some n.
Proof.
  intros Hn. pose proof (accumulate_hex_loop 15 n [] Hn (proj2 Hn)) as Ha.
  destruct (lower_hex_chars n) as [Hc Hne]. change (hex_loop 16 n []) with (lower_hex n) in Ha.
  destruct (lower_hex n) as [|c s]; [done|]. inversion Hc as [|? ? Hh _]; subst.
  unfold from_str_radix_16. destruct (Z.eqb_spec c 43); [|done]. unfold hex_char in Hh. lia.
Qed.

(** ** The map file *)

(** A line of the map: a symbol with its two addresses in columns, or another one. *)
Inductive map_item :=
| Symbol (n0 n1 n2 : nat) (real virt : Z) (name : text)
| Other (line : text).

Definition print_item (i : map_item) : text :=
  match i with
  | Symbol n0 n1 n2 real virt name =>
      replicate n0 32 ++ lower_hex real ++ replicate (S n1) 32 ++ lower_hex virt ++
        replicate (S n2) 32 ++ name
  | Other line => line
  end.

Definition print_map (crlf : bool) (items : list map_item) : text :=
  concat ((λ l, l ++ eol crlf) <$> (print_item <$> items)).

(** The line is not three words of which the first is a number. *)
Definition not_a_symbol (line : text) : bool :=
  match split_whitespace line with
  | [real; _; _] => if from_str_radix_16 real is Some _ then false else true
  | _ => true
  end.

(** Addresses are 64-bit numbers, names are words, other lines are not symbol lines. *)
Definition item_ok (i : map_item) : Prop :=
  match i with
  | Symbol _ _ _ real virt name => 0 <= real < 2 ^ 64 ∧ word name
  | Other line => (LF ∉ line) ∧ (CR ∉ line) ∧ not_a_symbol line = true
  end.

#[export] Instance item_ok_dec i : Decision (item_ok i).
Proof. destruct i; unfold item_ok, word; apply _. Defined.

(** The address of a symbol: the last one the map gives. *)
Definition address_of (items : list map_item) (name : text) : option Z :=
  last (omap (λ i, match i with
                   | Symbol _ _ _ real _ name' => if decide (name' = name) then Some real else None
                   | Other _ => None
                   end) items).

Lemma split_symbol_line n0 n1 n2 real virt name :
  word name →
  split_whitespace (print_item (Symbol n0 n1 n2 real virt name)) = [lower_hex real; lower_hex virt; name].
Proof.
  intros Hn. cbn [print_item]. rewrite split_whitespace_pad.
  rewrite !split_whitespace_word by apply lower_hex_word. by rewrite split_whitespace_last.
Qed.

Lemma read_item symbols i :
  item_ok i →
  read_line symbols (print_item i) =
  match i with Symbol _ _ _ real _ name => <[name := real]> symbols | Other _ => symbols end.
Proof.
  destruct i as [n0 n1 n2 real virt name|line]; unfold read_line.
  - intros [Hr Hn]. rewrite split_symbol_line by done. by rewrite hex_read_back.
  - intros (_ & _ & Hs). cbn [print_item]. revert Hs. unfold not_a_symbol.
    destruct (split_whitespace line) as [|r [|v [|n [|x rest]]]]; try done.
    by destruct (from_str_radix_16 r).
Qed.

Lemma replicate_no_break n c : c ≠ 32 → c ∉ replicate n 32.
Proof. intros Hc Hin. by apply elem_of_replicate in Hin as [? _]. Qed.

Lemma word_no_break w c : word w → is_whitespace c = true → c ∉ w.
Proof. intros [_ Hw] Hc Hin. rewrite Forall_forall in Hw. apply Hw in Hin. congruence. Qed.

Lemma print_item_one_line i : item_ok i → (LF ∉ print_item i) ∧ (CR ∉ print_item i).
Proof.
  destruct i as [n0 n1 n2 real virt name|line]; cbn [item_ok print_item]; [|tauto].
  intros [_ Hn].
  split; rewrite !not_elem_of_app; split_and!;
    first [by apply replicate_no_break | by apply word_no_break; [apply lower_hex_word|]
          | by apply word_no_break].
Qed.

Lemma read_printed_map crlf items :
  Forall item_ok items →
  read_map (print_map crlf items) =
  foldl (λ m i, match i with Symbol _ _ _ real _ name => <[name := real]> m | Other _ => m end) ∅ items.
Proof.
  intros Hok. unfold read_map, print_map. rewrite lines_concat.
  - generalize (∅ : gmap text Z) as m. induction Hok as [|i items Hi _ IH]; intros m; [done|].
    cbn [fmap list_fmap foldl]. by rewrite read_item, IH.
  - apply Forall_fmap. eapply Forall_impl; [exact Hok|]. intros i. apply print_item_one_line.
Qed.

Lemma lookup_read_map crlf items name :
  Forall item_ok items → read_map (print_map crlf items) !! name = address_of items name.
Proof.
  intros Hok. rewrite read_printed_map by done. clear Hok. unfold address_of.
  induction items as [|i items IH] using rev_ind; [done|].
  rewrite foldl_app, omap_app. cbn [foldl omap list_omap].
  destruct i as [n0 n1 n2 real virt name'|line]; [|by rewrite app_nil_r].
  case_decide as E.
  - by subst; rewrite lookup_insert_eq, last_snoc.
  - by rewrite lookup_insert_ne, app_nil_r.
Qed.

(** ** The constants *)

Lemma generate_ret symbols names addrs acc :
  Forall2 (λ name a, symbols !! name = Some a) names addrs →
  generate symbols names acc = Ret (acc ++ concat (zip_with const_line names addrs)).
Proof.
  intros Hn. revert acc. induction Hn as [|name a names addrs Hs _ IH]; intros acc; cbn [generate zip_with concat].
  - by rewrite app_nil_r.
  - by rewrite Hs, IH, app_assoc.
Qed.

Lemma generate_missing symbols names name acc :
  name ∈ names → symbols !! name = None → generate symbols names acc = Panic.
Proof.
  intros Hn Hs. revert acc. induction names as [|n names IH]; intros acc; [by apply not_elem_of_nil in Hn|].
  cbn [generate]. destruct (symbols !! n) eqn:E; [|done].
  apply elem_of_cons in Hn as [-> | Hn]; [congruence|]. by apply IH.
Qed.

Lemma generate_ended symbols names acc :
  generate symbols names acc = Panic ∨
  ∃ addrs, Forall2 (λ name a, symbols !! name = Some a) names addrs ∧
    generate symbols names acc = Ret (acc ++ concat (zip_with const_line names addrs)).
Proof.
  revert acc. induction names as [|n names IH]; intros acc; cbn [generate].
  - right. exists []. by rewrite app_nil_r.
  - destruct (symbols !! n) as [a|] eqn:E; [|by left].
    destruct (IH (acc ++ const_line n a)) as [?|(addrs & Ha & ->)]; [by left|]. right.
    exists (a :: addrs). split; [by constructor|]. by cbn [zip_with concat]; rewrite <- app_assoc.
Qed.

(** ** Properties *)

Definition constants (addrs : list Z) : text := banner ++ concat (zip_with const_line needed addrs).

(** What the script may leave: the files as they were or as the assembler left them,
    when it panics before writing; otherwise the constants of the map, and then it
    returns exactly when the file could be written. *)
Definition script_ended {F} `{FileSystem F} (spawn : Command → F → F * option bool)
    (h h' : machine F) (r : outcome unit) : Prop :=
  (r = Panic ∧ files h' = files h) ∨
  ∃ md od d1 ran, env h !! lit "CARGO_MANIFEST_DIR" = Some (Some md) ∧
    env h !! lit "OUT_DIR" = Some (Some od) ∧ spawn (nasm_command md od) (files h) = (d1, ran) ∧
    ((r = Panic ∧ files h' = d1) ∨
     ∃ map_text addrs, ran = Some true ∧ fs_exists d1 (map_path od) = true ∧
       fs_read d1 (map_path od) = Some map_text ∧
       Forall2 (λ name a, read_map map_text !! name = Some a) needed addrs ∧
       files h' = (fs_write d1 (symbols_path od) (constants addrs)).1 ∧
       r = (if (fs_write d1 (symbols_path od) (constants addrs)).2 then Ret tt else Panic)).

Lemma main_ended {F} `{FileSystem F} (spawn : Command → F → F * option bool) h :
  script_ended spawn h (main spawn h).1 (main spawn h).2.
Proof.
  unfold main. autorewrite with run.
  destruct (env h !! lit "CARGO_MANIFEST_DIR") as [[md|]|] eqn:Emd; [|by left..]. autorewrite with run.
  destruct (env h !! lit "OUT_DIR") as [[od|]|] eqn:Eod; [|by left..]. autorewrite with run.
  destruct (stdout_open h) eqn:Eo; [|by left]. autorewrite with run.
  cbn [set_stdout files]. destruct (spawn _ (files h)) as [d1 ran] eqn:Es. right. exists md, od, d1, ran.
  split_and!; [done..|]. cbn [fst snd].
  destruct ran as [[]|]; autorewrite with run; [|by left..]. cbn [set_files files].
  destruct (fs_exists d1 _) eqn:Ee; [|by left]. autorewrite with run. cbn [set_files files].
  destruct (fs_read d1 _) as [t|] eqn:Er; [|by left]. autorewrite with run.
  destruct (generate_ended (read_map t) needed banner) as [-> | (addrs & Ha & ->)]; [by left|].
  right. exists t, addrs. autorewrite with run. cbn [set_files files].
  fold (constants addrs). destruct (fs_write d1 _ _) as [d2 []] eqn:Ew; autorewrite with run; cbn;
    rewrite ?Eo; by split_and!.
Qed.

(** [C25] The build script writes the constants of the assembler's map: for every map
    text the assembler can print (symbol lines in any columns, with either line ending,
    amid lines that are not symbol lines), one constant per needed symbol, in order,
    with the last address the map has for it, in digits that read back as that
    address, where [smp.rs] includes them from.  However the script ends, from any
    environment and any assembler, nothing but these constants is ever written, and
    only after the assembler succeeded and every symbol was found. *)
Theorem trampoline_constants {F} `{FileSystemLaws F} (spawn : Command → F → F * option bool)
    md od crlf items addrs h d1 d2
    (Hmd : env h !! lit "CARGO_MANIFEST_DIR" = Some (Some md))
    (Hod : env h !! lit "OUT_DIR" = Some (Some od)) (Hopen : stdout_open h = true)
    (Hrun : spawn (nasm_command md od) (files h) = (d1, Some true))
    (Hthere : fs_exists d1 (map_path od) = true)
    (Hmap : fs_read d1 (map_path od) = Some (print_map crlf items))
    (Hok : Forall item_ok items)
    (Haddrs : Forall2 (λ name a, address_of items name = Some a) needed addrs)
    (Hwrite : fs_write d1 (symbols_path od) (constants addrs) = (d2, true)) :
  main spawn h =
    (mk_machine (env h) (argv h) d2
       (stdout h ++ [lit "cargo:rerun-if-changed=" ++ asm_path md;
                     lit "cargo:rustc-env=AP_TRAMPOLINE_BIN=" ++ bin_path od]) true, Ret tt) ∧
  fs_read d2 (symbols_path od) = Some (constants addrs) ∧
  Forall (λ a, from_str_radix_16 (lower_hex a) = Some a) addrs ∧
  (∀ spawn' h', script_ended spawn' h' (main spawn' h').1 (main spawn' h').2).
Proof.
  split_and!.
  - unfold main. autorewrite with run. rewrite Hmd. autorewrite with run. rewrite Hod.
    autorewrite with run. rewrite Hopen. autorewrite with run. cbn [set_stdout files]. rewrite Hrun.
    cbn [fst snd]. autorewrite with run. cbn [set_files files]. rewrite Hthere. autorewrite with run.
    cbn [set_files files]. rewrite Hmap. autorewrite with run.
    rewrite (generate_ret _ needed addrs banner) by
      (eapply Forall2_impl; [exact Haddrs|]; intros name a Ha; by rewrite lookup_read_map).
    autorewrite with run. cbn [set_files files]. fold (constants addrs). rewrite Hwrite. cbn [fst snd].
    autorewrite with run. unfold set_files, set_stdout. cbn [env argv files stdout stdout_open].
    by rewrite Hopen, <- app_assoc.
  - by eapply fs_write_read.
  - apply Forall_lookup. intros i a Ha. apply hex_read_back.
    destruct (Forall2_lookup_r _ _ _ _ _ Haddrs Ha) as (name & _ & Hl).
    unfold address_of in Hl. apply last_Some_elem_of in Hl.
    apply list_elem_of_omap in Hl as (it & Hit & Hr). rewrite Forall_forall in Hok. apply Hok in Hit.
    destruct it; [|done]. case_decide; [|done]. simplify_eq. apply Hit.
  - intros spawn' h'. apply main_ended.
Qed.

(** A map as [nasm] prints it for the trampoline. *)
Definition demo_items : list map_item :=
  let sym real name := Symbol 12 13 1 real real (lit name) in
  [Other (lit "- NASM Map file ---------------------------------------------------------------");
   Other []; Other (lit "Source file:  src/smp/ap_trampoline.asm");
   Other (lit "Output file:  ap_trampoline.bin"); Other [];
   Other (lit "-- Program origin -------------------------------------------------------------");
   Other []; Other (lit "00008000"); Other []; Other (lit "Real              Virtual           Name");
   sym 0x8000 "ap_trampoline_start"%string; sym 0x8021 "pmode_entry"%string;
   sym 0x80d0 "ap_cr3"%string; sym 0x80d8 "ap_stack_top"%string; sym 0x80e0 "ap_entry_addr"%string;
   sym 0x80e8 "ap_trampoline_end"%string].

(** A machine with an empty disk, and an assembler that leaves that map. *)
Definition demo_machine : machine disk :=
  mk_machine {[lit "CARGO_MANIFEST_DIR" := Some (lit "/uosc/src/kernel-x86_64");
               lit "OUT_DIR" := Some (lit "/uosc/target/out/")]} [] [] [] true.

Definition demo_nasm (c : Command) (d : disk) : disk * option bool :=
  match current_dir c with
  | Some dir => ((join dir (lit "ap_trampoline.map"), print_map true demo_items) :: d, Some true)
  | None => (d, Some false)
  end.

Lemma trampoline_constants_witness :
  fs_read (files (main demo_nasm demo_machine).1) (lit "/uosc/target/out/ap_trampoline_symbols.rs") =
    Some (constants [0x8000; 0x80e8; 0x80d0; 0x80d8; 0x80e0]).
Proof.
  pose (addrs := [0x8000; 0x80e8; 0x80d0; 0x80d8; 0x80e0]).
  pose (d1 := [(lit "/uosc/target/out/ap_trampoline.map", print_map true demo_items)]).
  pose (d2 := (lit "/uosc/target/out/ap_trampoline_symbols.rs", constants addrs) :: d1).
  destruct (trampoline_constants demo_nasm (lit "/uosc/src/kernel-x86_64") (lit "/uosc/target/out/")
              true demo_items addrs demo_machine d1 d2) as [Hmain [Hread _]].
  1-6: vm_compute; reflexivity.
  - apply (bool_decide_unpack _). by vm_compute.
  - repeat constructor.
  - reflexivity.
  - rewrite Hmain. exact Hread.
Defined.
