(* ===== verification/ImageBuilder.v ===== *)
(** * The image builder

    Model of [src/kernel-x86_64-builder/src/main.rs], as a program of [Host]: two
    arguments, a directory, and a disk image for each kind of firmware.  Making an
    image is the bootloader crate's and a parameter. *)
From S2P Require Import Prelude Host.

Definition uefi_path (out_dir : text) : text := join out_dir (lit "uosc-uefi.img").
Definition bios_path (out_dir : text) : text := join out_dir (lit "uosc-bios.img").

Section builder.
Context {F : Type} `{FileSystem F}.

(** [UefiBoot::new(kernel).create_disk_image(image)] and the same of [BiosBoot]: what
    it leaves in the files, and whether it succeeded. *)
Variables uefi_image bios_image : text → text → F → F * bool.

Definition main : io F unit :=
  kernel_path ← arg 1;
  out_dir ← arg 2;
  made ← on_files (λ d, fs_create_dir_all d out_dir);
  assert made;;
  uefi ← on_files (uefi_image kernel_path (uefi_path out_dir));
  assert uefi;;
  bios ← on_files (bios_image kernel_path (bios_path out_dir));
  assert bios;;
  println (lit "UEFI image: " ++ uefi_path out_dir);;
  println (lit "BIOS image: " ++ bios_path out_dir).
End builder.

(** The two images never get the same path. *)
Lemma image_paths_differ out_dir : uefi_path out_dir ≠ bios_path out_dir.
Proof.
  unfold uefi_path, bios_path, join. cbn [is_absolute lit String.list_ascii_of_string fmap list_fmap].
  intros He. do 2 apply app_inv_head in He. done.
Qed.

(** What the builder does, however it ends: without two readable arguments nothing
    happens; the directory comes first, then the UEFI image, then the BIOS image, and
    the first that fails is the last that is tried; the images are announced when both
    are there. *)
Lemma builder_ended {F} `{FileSystem F} (uefi_image bios_image : text → text → F → F * bool) h :
  ∃ h' r, main uefi_image bios_image h = (h', r) ∧
  match args_nth 1 (argv h), args_nth 2 (argv h) with
  | Ret kernel, Ret out =>
      let m := fs_create_dir_all (files h) out in
      let u := uefi_image kernel (uefi_path out) m.1 in
      let b := bios_image kernel (bios_path out) u.1 in
      files h' = (if m.2 then if u.2 then b.1 else u.1 else m.1) ∧
      (r = if m.2 && u.2 && b.2 && stdout_open h then Ret tt else Panic) ∧
      stdout h' = stdout h ++
        if m.2 && u.2 && b.2 && stdout_open h
        then [lit "UEFI image: " ++ uefi_path out; lit "BIOS image: " ++ bios_path out] else []
  | _, _ => h' = h ∧ r = Panic
  end.
Proof.
  destruct (main uefi_image bios_image h) as [h' r] eqn:Em. exists h', r. split; [done|].
  revert Em. unfold main. autorewrite with run.
  pose proof (args_nth_ends 1 (argv h)). pose proof (args_nth_ends 2 (argv h)).
  destruct (args_nth 1 (argv h)) as [kernel| |]; [|intros; by simplify_eq|done].
  autorewrite with run. destruct (args_nth 2 (argv h)) as [out| |]; [|intros; by simplify_eq|done].
  autorewrite with run. set (m := fs_create_dir_all _ _). cbn [set_files files].
  set (u := uefi_image _ _ _). set (b := bios_image _ _ _). cbv zeta.
  destruct m.2; cbn [andb]; [|intros; simplify_eq; cbn; by rewrite app_nil_r].
  autorewrite with run. cbn [set_files files]. fold u.
  destruct u.2; cbn [andb]; [|intros; simplify_eq; cbn; by rewrite app_nil_r].
  autorewrite with run. cbn [set_files files]. fold b.
  destruct b.2; cbn [andb]; [|intros; simplify_eq; cbn; by rewrite app_nil_r].
  autorewrite with run. cbn [set_files stdout_open].
  destruct (stdout_open h) eqn:Eo; autorewrite with run; cbn -[lit uefi_path bios_path]; rewrite ?Eo;
    intros; simplify_eq; cbn -[lit uefi_path bios_path]; by rewrite <- ?app_assoc, ?app_nil_r.
Qed.

(** A run with both images made, and one whose UEFI image fails. *)
Example builder_runs (bios := λ k o (d : disk), ((o, k) :: d, true)) :
  let h := mk_machine ∅ (Some <$> [lit "builder"; lit "uosc"; lit "out"]) [] [] true in
  files (main bios bios h).1 = [(lit "out/uosc-bios.img", lit "uosc"); (lit "out/uosc-uefi.img", lit "uosc")] ∧
  main (λ _ _ d, (d, false)) bios h = (h, Panic).
Proof. split; vm_compute; reflexivity. Qed.
