(* ===== verification/Paging.v ===== *)
(** * Hardware page tables and the kernel heap's frames

    Model of [src/kernel-x86_64/src/paging.rs], [allocator.rs], the fault handler
    of [interrupts.rs] and the memory part of [main.rs].  The page tables of the
    [x86_64] crate are an interface, [Mapper], with the crate's documented
    behaviour as laws; the frames come from the buddy allocator or, during the
    bootstrap, from a counter. *)
From S2P Require Import Prelude Buddy.

(** ** The interface of the [x86_64] crate *)

(** [trait FrameAllocator]: the next frame, if there is one. *)
Definition frame_source (S : Type) : Type := S → outcome (S * option Z).

(** A mapper's state [M]: [walk] is what the CPU's page walk finds at a page start
    (the frame and the flags); [map_to] may draw frames for page tables; [virt_addr]
    is [VirtAddr::new], which panics for an address that is not sign extended. *)
Class Mapper (M : Type) := {
  walk : M → Z → option (Z * Z);
  map_to : ∀ S : Type, frame_source S → M → S → Z → Z → Z → outcome (M * S * result unit unit);
  unmap : M → Z → M * result Z unit;
  virt_addr : Z → outcome Z;
  page_of : Z → Z;
  frame_of : Z → Z;
}.
Arguments map_to {M _ S} alloc m s page frame flags.

(** [n] successive calls of a frame source. *)
Inductive draws {S} (alloc : frame_source S) : nat → S → S → Prop :=
| draws_0 s : draws alloc 0 s s
| draws_S n s s1 o s2 :
    alloc s = Ret (s1, o) → draws alloc n s1 s2 → draws alloc (Datatypes.S n) s s2.

(** The documented behaviour of [Mapper::map_to], [Mapper::unmap] and of the
    [containing_address] constructors. *)
Class MapperLaws (M : Type) `{Mapper M} := {
  virt_addr_low : ∀ a, 0 <= a < 2 ^ 47 → virt_addr a = Ret a;
  page_of_spec : ∀ v, page_of v = v - v mod PAGE_SIZE;
  frame_of_spec : ∀ a, frame_of a = a - a mod PAGE_SIZE;
  (** At most three page tables are created, from the given source. *)
  map_to_draws : ∀ S (alloc : frame_source S) m s p f fl m' s' r,
    map_to alloc m s p f fl = Ret (m', s', r) → ∃ n, (n <= 3)%nat ∧ draws alloc n s s';
  map_to_returns : ∀ S (alloc : frame_source S) m s p f fl,
    (∀ n s', draws alloc n s s' → ∃ r, alloc s' = Ret r) →
    ∃ out, map_to alloc m s p f fl = Ret out;
  map_to_ok : ∀ S (alloc : frame_source S) m s p f fl m' s',
    map_to alloc m s p f fl = Ret (m', s', Ok tt) →
    walk m p = None ∧ walk m' p = Some (f, fl) ∧ ∀ q, q ≠ p → walk m' q = walk m q;
  map_to_err : ∀ S (alloc : frame_source S) m s p f fl m' s' e,
    map_to alloc m s p f fl = Ret (m', s', Err e) → ∀ q, walk m' q = walk m q;
  unmap_spec : ∀ m p,
    match walk m p with
    | Some (f, _) => (unmap m p).2 = Ok f ∧ walk (unmap m p).1 p = None ∧
                     ∀ q, q ≠ p → walk (unmap m p).1 q = walk m q
    | None => (unmap m p).2 = Err tt ∧ ∀ q, walk (unmap m p).1 q = walk m q
    end;
}.

(** Flags of a page table entry. *)
Definition PRESENT : Z := 1.
Definition WRITABLE : Z := 2.
Definition NO_EXECUTE : Z := 2 ^ 63.

(** [cpu_features::nx_flag]. *)
Definition nx_flag (nx_enabled : bool) : Z := if nx_enabled then NO_EXECUTE else 0.

Definition data_flags (nx_enabled : bool) : Z :=
  Z.lor (Z.lor PRESENT WRITABLE) (nx_flag nx_enabled).

Definition DEMAND_PAGE_REGION_START : Z := 0x555555550000.
Definition DEMAND_PAGE_REGION_END : Z := DEMAND_PAGE_REGION_START + 4096.
Definition HEAP_BASE : Z := 0x444444440000.
Definition BOOTSTRAP_HEAP_SIZE : Z := 64 * 4096.
Definition REAL_HEAP_SIZE : Z := 256 * 4096.

Section paging.
Context `{Profile} {M : Type} `{Mapper M}.

(** [PhysicalAllocatorAdapter::allocate_frame]. *)
Definition adapter_allocate_frame : frame_source PhysicalAllocator := λ phys,
  r ← allocate phys 0;
  Ret (r.1, match r.2 with
            | Ok addr => Some (frame_of addr)
            | Err _ => None
            end).

(** [BumpFrameAllocator::allocate_frame]; the state is [next]. *)
Definition bump_allocate_frame : frame_source Z := λ next,
  next' ← u64_add next PAGE_SIZE;
  Ret (next', Some (frame_of next)).

Definition map_page_with {S : Type} (alloc : frame_source S) (mapper : M) (s : S)
    (vaddr flags : Z) : outcome (M * S * result Z MemoryError) :=
  let page := page_of vaddr in
  r ← alloc s;
  match r.2 with
  | None => Ret (mapper, r.1, Err OutOfMemory)
  | Some frame =>
      out ← map_to alloc mapper r.1 page frame flags;
      match out with
      | (mapper, s, Ok _) => Ret (mapper, s, Ok frame)
      | (mapper, s, Err _) => Ret (mapper, s, Err AccessViolation)
      end
  end.

Definition map_page (mapper : M) (phys : PhysicalAllocator) (vaddr flags : Z) :
    outcome (M * PhysicalAllocator * result Z MemoryError) :=
  map_page_with adapter_allocate_frame mapper phys vaddr flags.

Definition map_page_to_frame {S : Type} (alloc : frame_source S) (mapper : M) (s : S)
    (vaddr frame flags : Z) : outcome (M * S * result unit MemoryError) :=
  let page := page_of vaddr in
  out ← map_to alloc mapper s page frame flags;
  match out with
  | (mapper, s, Ok _) => Ret (mapper, s, Ok tt)
  | (mapper, s, Err _) => Ret (mapper, s, Err AccessViolation)
  end.

Definition unmap_page (mapper : M) (phys : PhysicalAllocator) (vaddr : Z) :
    outcome (M * PhysicalAllocator * result unit MemoryError) :=
  let page := page_of vaddr in
  match unmap mapper page with
  | (mapper, Ok frame) =>
      r ← deallocate phys frame;
      Ret (mapper, r.1, r.2)
  | (mapper, Err _) => Ret (mapper, phys, Err AccessViolation)
  end.

(** [result.expect(..)]. *)
Definition expect {A E} (r : result A E) : outcome A :=
  match r with
  | Ok a => Ret a
  | Err _ => Panic
  end.

(** Mapping [n] consecutive pages from [start], each with [expect]. *)
Fixpoint map_range {S : Type} (alloc : frame_source S) (start flags : Z) (pages : list Z)
    (st : M * S) : outcome (M * S) :=
  match pages with
  | [] => Ret st
  | i :: pages' =>
      off ← u64_mul i PAGE_SIZE;
      addr ← u64_add start off;
      vaddr ← virt_addr addr;
      r ← map_page_with alloc st.1 st.2 vaddr flags;
      let '(mapper, s, res) := (r : M * S * result Z MemoryError) in
      _ ← expect res;
      map_range alloc start flags pages' (mapper, s)
  end.

(** [allocator::init_bootstrap]; the heap's list of free space is the linked-list
    allocator's. *)
Definition init_bootstrap (nx : bool) (mapper : M) (bump : Z) : outcome (M * Z) :=
  let page_count := BOOTSTRAP_HEAP_SIZE / PAGE_SIZE in
  map_range bump_allocate_frame HEAP_BASE (data_flags nx) (seqZ 0 page_count) (mapper, bump).

(** [allocator::extend_with_real_pages], with the heap's top. *)
Definition extend_with_real_pages (nx : bool) (mapper : M) (phys : PhysicalAllocator)
    (extend_start : Z) : outcome (M * PhysicalAllocator) :=
  let page_count := REAL_HEAP_SIZE / PAGE_SIZE in
  map_range adapter_allocate_frame extend_start (data_flags nx) (seqZ 0 page_count)
    (mapper, phys).

(** The memory part of [kernel_main]: the bootstrap heap from the front of the
    usable region, then the allocator over what is meant to be the rest.  The
    result is the mapper, the counter after the bootstrap, and the allocator. *)
Definition boot_memory (nx : bool) (mapper : M) (region_start region_end : Z) :
    outcome (M * Z * PhysicalAllocator) :=
  size ← u64_sub region_end region_start;
  let total_pages := Z.min (size / PAGE_SIZE) (2 ^ 20) in
  let bootstrap_pages := BOOTSTRAP_HEAP_SIZE / PAGE_SIZE in
  r ← init_bootstrap nx mapper region_start;
  bytes ← u64_mul bootstrap_pages PAGE_SIZE;
  arena ← u64_add region_start bytes;
  pages ← u64_sub total_pages bootstrap_pages;
  phys ← PhysicalAllocator_new arena pages;
  Ret (r.1, r.2, phys).

(** [interrupts::page_fault_handler]: the faulting access resumes ([Ret]) or the
    kernel panics; the counter is [PAGE_FAULTS_DEMAND_PAGED]. *)
Definition page_fault_handler (nx : bool) (mapper : M) (phys : PhysicalAllocator)
    (counter faulting_addr : Z) : outcome (M * PhysicalAllocator * Z) :=
  if (DEMAND_PAGE_REGION_START <=? faulting_addr) && (faulting_addr <? DEMAND_PAGE_REGION_END)
  then
    page_vaddr ← virt_addr (Z.land faulting_addr (Z.lnot 0xFFF));
    r ← map_page mapper phys page_vaddr (data_flags nx);
    match r with
    | (mapper, phys, Ok _) => Ret (mapper, phys, (counter + 1) mod 2 ^ 64)
    | (_, _, Err _) => Panic
    end
  else Panic.
End paging.

(** ** Frames drawn from the two sources *)

Section lemmas.
Context `{Profile} {M : Type} `{MapperLaws M}.

(** One frame of the adapter is one page of the buddy allocator. *)
Lemma adapter_frame phys :
  phys_wf phys →
  (∃ phys' a, adapter_allocate_frame phys = Ret (phys', Some (frame_of a)) ∧
     allocate phys 0 = Ret (phys', Ok a) ∧ same_frames phys phys' ∧
     live_blocks phys !! a = None ∧ live_blocks phys' = <[a := 0]> (live_blocks phys)) ∨
  (adapter_allocate_frame phys = Ret (phys, None) ∧ live_pages phys = total_pages phys).
Proof.
  intros Hs. unfold adapter_allocate_frame.
  destruct (Z.lt_ge_cases (live_pages phys) (total_pages phys)) as [Hlt|Hge].
  - left. destruct (allocate_frame phys Hs Hlt) as (phys' & a & -> & ? & ? & ?).
    exists phys', a. done.
  - right. pose proof (live_pages_le phys Hs). pose proof (pages_in_nonneg (free_blocks phys)).
    rewrite allocate_exhausted by (done || lia). split; [done|lia].
Qed.

Lemma draws_adapter n phys phys' :
  phys_wf phys → draws adapter_allocate_frame n phys phys' →
  same_frames phys phys' ∧ live_blocks phys ⊆ live_blocks phys' ∧
  live_pages phys <= live_pages phys' <= live_pages phys + Z.of_nat n.
Proof.
  intros Hs Hd. induction Hd as [s|n s s1 o s2 Ha _ IH].
  - split_and!; [done|done|lia|lia].
  - destruct (adapter_frame s Hs) as [(s1' & a & Ha' & _ & Hsame & Hnew & Hl)|[Ha' _]];
      rewrite Ha' in Ha; injection Ha as <- <-.
    + destruct IH as (Hsame' & Hsub & Hn); [apply Hsame|].
      pose proof (live_pages_insert s s1' a 0 Hnew Hl) as Hp. change (2 ^ 0) with 1 in Hp.
      split_and!; [by eapply same_frames_trans| |lia|lia].
      etransitivity; [|exact Hsub]. rewrite Hl. by apply insert_subseteq.
    + destruct IH as (? & ? & ?); [done|]. split_and!; [done|done|lia|lia].
Qed.

Lemma adapter_returns phys n phys' :
  phys_wf phys → draws adapter_allocate_frame n phys phys' →
  ∃ r, adapter_allocate_frame phys' = Ret r.
Proof.
  intros Hs Hd. destruct (draws_adapter n phys phys' Hs Hd) as ((Hs' & _) & _).
  destruct (adapter_frame phys' Hs') as [(? & ? & -> & _)|[-> _]]; by eexists.
Qed.

(** The counter advances by one page per draw. *)
Lemma draws_bump n next next' :
  0 <= next → next + Z.of_nat n * PAGE_SIZE < 2 ^ 64 →
  draws bump_allocate_frame n next next' → next' = next + Z.of_nat n * PAGE_SIZE.
Proof.
  unfold PAGE_SIZE. intros Hn Hfit Hd. induction Hd as [s|n s s1 o s2 Ha _ IH]; [lia|].
  unfold bump_allocate_frame, PAGE_SIZE in Ha. rewrite u64_add_ret in Ha by lia.
  injection Ha as <- _. rewrite IH by lia. lia.
Qed.

Lemma frame_of_aligned a : (PAGE_SIZE | a) → frame_of a = a.
Proof. intros Hd. rewrite frame_of_spec. apply Z.mod_divide in Hd; [lia|done]. Qed.

(** Mapping one page through the adapter, by cases. *)
Lemma map_page_cases m phys v fl :
  phys_wf phys →
  ∃ m' phys' r, map_page m phys v fl = Ret (m', phys', r) ∧ same_frames phys phys' ∧
    live_blocks phys ⊆ live_blocks phys' ∧
    match r with
    | Ok f =>
        ∃ a, f = frame_of a ∧ live_blocks phys !! a = None ∧ live_blocks phys' !! a = Some 0 ∧
             walk m (page_of v) = None ∧ walk m' (page_of v) = Some (f, fl) ∧
             (∀ q, q ≠ page_of v → walk m' q = walk m q) ∧
             live_pages phys' <= live_pages phys + 4
    | Err OutOfMemory => m' = m ∧ phys' = phys ∧ live_pages phys = total_pages phys
    | Err e =>
        e = AccessViolation ∧ (∀ q, walk m' q = walk m q) ∧
        ∃ a, live_blocks phys !! a = None ∧ live_blocks phys' !! a = Some 0
    end.
Proof.
  intros Hs. unfold map_page, map_page_with.
  destruct (adapter_frame phys Hs) as [(s1 & a & -> & _ & Hsame & Hnew & Hl)|[-> Hfull]].
  2:{ cbn. exists m, phys, (Err OutOfMemory). by split_and!. }
  cbn. pose proof Hsame as (Hs1 & _).
  destruct (map_to_returns _ adapter_allocate_frame m s1 (page_of v) (frame_of a) fl)
    as [[[m' s2] r] Hm]; [intros n s' Hd; by apply (adapter_returns s1 n s')|].
  rewrite Hm. cbn. destruct (map_to_draws _ _ _ _ _ _ _ _ _ _ Hm) as (n & Hn & Hd).
  destruct (draws_adapter n s1 s2 Hs1 Hd) as (Hsame2 & Hsub & Hp).
  pose proof (live_pages_insert phys s1 a 0 Hnew Hl) as Hp1. change (2 ^ 0) with 1 in Hp1.
  assert (same_frames phys s2) as Hss by (by eapply same_frames_trans).
  assert (live_blocks phys ⊆ live_blocks s2) as Hsubs.
  { etransitivity; [|exact Hsub]. rewrite Hl. by apply insert_subseteq. }
  assert (live_blocks s2 !! a = Some 0) as Ha.
  { eapply lookup_weaken; [|exact Hsub]. rewrite Hl. apply lookup_insert_eq. }
  destruct r as [[]|e].
  - destruct (map_to_ok _ _ _ _ _ _ _ _ _ Hm) as (Hw & Hw' & Hrest).
    exists m', s2, (Ok (frame_of a)). do 3 (split; [done|]).
    exists a. split_and!; [done..|lia].
  - exists m', s2, (Err AccessViolation). do 3 (split; [done|]).
    split; [done|]. split; [|by exists a]. by apply (map_to_err _ _ _ _ _ _ _ _ _ _ Hm).
Qed.
End lemmas.

(** ** The bootstrap heap *)

Section bootstrap.
Context `{Profile} {M : Type} `{MapperLaws M}.

(** One page mapped from the counter takes its frame first, then the tables'. *)
Lemma bump_map_inv m next v fl m' next' f :
  0 <= next → next + 4 * PAGE_SIZE < 2 ^ 64 → (PAGE_SIZE | next) →
  map_page_with bump_allocate_frame m next v fl = Ret (m', next', Ok f) →
  ∃ t, 0 <= t <= 3 ∧ next' = next + (1 + t) * PAGE_SIZE ∧ f = next ∧
    walk m' (page_of v) = Some (f, fl) ∧ ∀ q, q ≠ page_of v → walk m' q = walk m q.
Proof.
  intros Hn Hfit Hd. unfold PAGE_SIZE in Hfit.
  assert (bump_allocate_frame next = Ret (next + PAGE_SIZE, Some (frame_of next))) as Hb
    by (unfold bump_allocate_frame; by rewrite u64_add_ret by (unfold PAGE_SIZE; lia)).
  unfold map_page_with. rewrite Hb. cbn. intros Hm. apply outcome_bind_ret in Hm as ([[m1 s1] [[]|[]]] & Hm & Heq); [|discriminate Heq].
  injection Heq as <- <- <-.
  destruct (map_to_draws _ _ _ _ _ _ _ _ _ _ Hm) as (n & Hn3 & Hdr).
  apply draws_bump in Hdr; [|unfold PAGE_SIZE; lia..].
  destruct (map_to_ok _ _ _ _ _ _ _ _ _ Hm) as (_ & Hw & Hrest).
  rewrite frame_of_aligned in * by done.
  exists (Z.of_nat n). split_and!; [lia|lia|lia|done|done|done].
Qed.

Lemma page_of_range start i :
  (PAGE_SIZE | start) → page_of (start + i * PAGE_SIZE) = start + i * PAGE_SIZE.
Proof.
  intros Hd. rewrite page_of_spec.
  assert ((PAGE_SIZE | start + i * PAGE_SIZE)) as Hx
    by (apply Z.divide_add_r; [done|by exists i]).
  apply Z.mod_divide in Hx; [lia|done].
Qed.

(** [n] pages: how far the counter moves, and the frame of the last page. *)
Lemma bump_range_inv start fl n i m next m' next' :
  0 <= start → 0 <= i → (PAGE_SIZE | start) → 0 <= next → (PAGE_SIZE | next) →
  next + 4 * Z.of_nat n * PAGE_SIZE < 2 ^ 64 →
  start + (i + Z.of_nat n) * PAGE_SIZE < 2 ^ 47 →
  map_range bump_allocate_frame start fl (seqZ i (Z.of_nat n)) (m, next) = Ret (m', next') →
  ∃ t, 0 <= t <= 3 * Z.of_nat n ∧ next' = next + (Z.of_nat n + t) * PAGE_SIZE ∧
    (∀ q, (∀ j, i <= j < i + Z.of_nat n → q ≠ start + j * PAGE_SIZE) → walk m' q = walk m q) ∧
    ((0 < n)%nat → ∃ t0, 0 <= t0 <= t ∧
       walk m' (start + (i + Z.of_nat n - 1) * PAGE_SIZE) =
         Some (next + (Z.of_nat n - 1 + t0) * PAGE_SIZE, fl)).
Proof.
  intros Hst Hi Hds Hn Hdn. revert i m next Hi Hn Hdn.
  induction n as [|n IH]; intros i m next Hi Hn Hdn Hfit Hfits Hrun.
  - injection Hrun as <- <-. exists 0. split_and!; [lia|lia|lia|done|lia].
  - rewrite seqZ_cons in Hrun by lia. cbn [map_range fst snd] in Hrun.
    unfold PAGE_SIZE in Hfit, Hfits, Hrun.
    rewrite u64_mul_ret in Hrun by lia. cbn [mbind outcome_bind] in Hrun.
    rewrite u64_add_ret in Hrun by lia. cbn [mbind outcome_bind] in Hrun.
    rewrite virt_addr_low in Hrun by lia. cbn [mbind outcome_bind] in Hrun.
    apply outcome_bind_ret in Hrun as ([[m1 next1] [f|e]] & Hmap & Hrun); [|discriminate Hrun].
    cbn [expect mbind outcome_bind] in Hrun.
    destruct (bump_map_inv m next _ fl m1 next1 f Hn ltac:(unfold PAGE_SIZE; lia) Hdn Hmap)
      as (t1 & Ht1 & -> & -> & Hw & Hrest).
    change 0x1000 with PAGE_SIZE in Hw, Hrest. rewrite page_of_range in Hw, Hrest by done.
    replace (Z.succ i) with (i + 1) in Hrun by lia.
    replace (Z.pred (Z.of_nat (S n))) with (Z.of_nat n) in Hrun by lia.
    destruct (IH (i + 1) m1 (next + (1 + t1) * PAGE_SIZE)) as (t & Ht & -> & Hout & Hlast);
      [lia|unfold PAGE_SIZE; lia|apply Z.divide_add_r; [done|by eexists]
      |unfold PAGE_SIZE; lia|unfold PAGE_SIZE; lia|exact Hrun|].
    exists (t1 + t). split_and!; [lia|lia|unfold PAGE_SIZE; lia| |].
    + intros q Hq. rewrite Hout by (intros j Hj; apply Hq; lia). apply Hrest. apply Hq. lia.
    + intros _. destruct n as [|n].
      * exists 0. split; [lia|]. rewrite Hout by (intros j Hj; lia).
        replace (i + Z.of_nat 1 - 1) with i by lia. rewrite Hw. f_equal. f_equal. lia.
      * destruct Hlast as (t0 & Ht0 & Hl); [lia|]. exists (t1 + t0). split; [lia|].
        replace (i + Z.of_nat (S (S n)) - 1) with (i + 1 + Z.of_nat (S n) - 1) by lia.
        rewrite Hl. f_equal. f_equal. lia.
Qed.

Lemma boot_memory_inv nx m rs re m' next phys :
  0 <= rs → (PAGE_SIZE | rs) → 64 * PAGE_SIZE <= re - rs → re + 256 * PAGE_SIZE < 2 ^ 64 →
  boot_memory nx m rs re = Ret (m', next, phys) →
  ∃ t t0, 0 <= t0 <= t ∧ next = rs + (64 + t) * PAGE_SIZE ∧
    base phys = rs + 64 * PAGE_SIZE ∧
    total_pages phys = Z.min ((re - rs) / PAGE_SIZE) (2 ^ 20) - 64 ∧
    phys_wf phys ∧ live_blocks phys = ∅ ∧
    walk m' (HEAP_BASE + 63 * PAGE_SIZE) = Some (rs + (63 + t0) * PAGE_SIZE, data_flags nx).
Proof.
  unfold PAGE_SIZE. intros Hrs Hd Hsz Hfit. unfold boot_memory.
  change (BOOTSTRAP_HEAP_SIZE / PAGE_SIZE) with 64.
  rewrite u64_sub_ret by lia. cbn [mbind outcome_bind]. unfold init_bootstrap.
  change (BOOTSTRAP_HEAP_SIZE / PAGE_SIZE) with (Z.of_nat 64). intros Hb.
  apply outcome_bind_ret in Hb as ([m1 next1] & Hrange & Hb).
  destruct (bump_range_inv HEAP_BASE (data_flags nx) 64 0 m rs m1 next1)
    as (t & Ht & -> & _ & Hlast); try done.
  { by apply Z.mod_divide. }
  { unfold PAGE_SIZE. lia. }
  destruct Hlast as (t0 & Ht0 & Hw); [lia|].
  unfold PAGE_SIZE in Hb. rewrite u64_mul_ret in Hb by lia. cbn [mbind outcome_bind] in Hb.
  rewrite u64_add_ret in Hb by lia. cbn [mbind outcome_bind fst snd] in Hb.
  assert (64 <= (re - rs) / 0x1000) by (apply Z.div_le_lower_bound; lia).
  assert ((re - rs) / 0x1000 * 0x1000 <= re - rs) by (rewrite Z.mul_comm; by apply Z.mul_div_le).
  rewrite u64_sub_ret in Hb by lia. cbn [mbind outcome_bind fst snd] in Hb.
  apply outcome_bind_ret in Hb as (p & Hp & [= <- <- <-]).
  destruct (PhysicalAllocator_new_ret (rs + 64 * 0x1000)
              (Z.min ((re - rs) / 0x1000) (2 ^ 20) - 64))
    as (p' & Hp' & Hwf & Hbase & Htot & Hlive & _); [lia|lia|unfold PAGE_SIZE; lia|].
  rewrite Hp in Hp'. injection Hp' as <-.
  exists t, t0. split_and!; [lia|lia|unfold PAGE_SIZE; lia|done..|].
  exact Hw.
Qed.
End bootstrap.

(** ** A concrete mapper

    Page tables as the set of tables that exist at each level, each created on
    first use with a frame of the source: the reading of the interface that the
    witnesses run. *)
Record radix := mkRadix { leaves : gmap Z (Z * Z); tables : gset Z }.

(** The tables on the path of a page: of 512 GiB, of 1 GiB and of 2 MiB. *)
Definition path_tables (page : Z) : list Z :=
  [2 ^ 62 + page / 2 ^ 39; 2 ^ 61 + page / 2 ^ 30; 2 ^ 60 + page / 2 ^ 21].

Fixpoint create_tables {S : Type} (alloc : frame_source S) (keys : list Z) (m : radix) (s : S) :
    outcome (radix * S * bool) :=
  match keys with
  | [] => Ret (m, s, true)
  | k :: keys' =>
      if decide (k ∈ tables m) then create_tables alloc keys' m s
      else
        r ← alloc s;
        match r.2 with
        | None => Ret (m, r.1, false)
        | Some _ => create_tables alloc keys' (mkRadix (leaves m) ({[k]} ∪ tables m)) r.1
        end
  end.

Definition radix_map_to (S : Type) (alloc : frame_source S) (m : radix) (s : S)
    (page frame flags : Z) : outcome (radix * S * result unit unit) :=
  r ← create_tables alloc (path_tables page) m s;
  match r with
  | (m, s, true) =>
      match leaves m !! page with
      | Some _ => Ret (m, s, Err tt)
      | None => Ret (mkRadix (<[page := (frame, flags)]> (leaves m)) (tables m), s, Ok tt)
      end
  | (m, s, false) => Ret (m, s, Err tt)
  end.

#[export] Instance radix_mapper : Mapper radix := {
  walk m p := leaves m !! p;
  map_to := radix_map_to;
  unmap m p := match leaves m !! p with
               | Some (f, _) => (mkRadix (delete p (leaves m)) (tables m), Ok f)
               | None => (m, Err tt)
               end;
  virt_addr a := if (0 <=? a) && (a <? 2 ^ 47) || (2 ^ 64 - 2 ^ 47 <=? a) && (a <? 2 ^ 64)
                 then Ret a else Panic;
  page_of v := v - v mod PAGE_SIZE;
  frame_of a := a - a mod PAGE_SIZE;
}.

Lemma create_tables_spec {S : Type} (alloc : frame_source S) keys m s m' s' b :
  create_tables alloc keys m s = Ret (m', s', b) →
  leaves m' = leaves m ∧ ∃ n, (n <= length keys)%nat ∧ draws alloc n s s'.
Proof.
  revert m s. induction keys as [|k keys IH]; intros m s Hc; simpl in Hc.
  - injection Hc as <- <- <-. split; [done|]. exists 0%nat. split; [done|constructor].
  - case_decide.
    + destruct (IH _ _ Hc) as (? & n & ? & ?). split; [done|]. exists n. simpl. split; [lia|done].
    + apply outcome_bind_ret in Hc as ([s1 [f|]] & Ha & Hc); simpl in Hc.
      * destruct (IH _ _ Hc) as (? & n & ? & ?). split; [done|].
        exists (Datatypes.S n). simpl. split; [lia|]. by econstructor.
      * injection Hc as <- <- <-. split; [done|]. exists 1%nat. simpl. split; [lia|].
        econstructor; [done|constructor].
Qed.

Lemma create_tables_returns {S : Type} (alloc : frame_source S) keys m s :
  (∀ n s', draws alloc n s s' → ∃ r, alloc s' = Ret r) →
  ∃ out, create_tables alloc keys m s = Ret out.
Proof.
  revert m s. induction keys as [|k keys IH]; intros m s Hall; simpl; [by eexists|].
  case_decide; [by apply IH|].
  destruct (Hall 0%nat s) as [[s1 [f|]] Ha]; [constructor| |]; rewrite Ha; cbn; [|by eexists].
  apply IH. intros n s' Hd. apply (Hall (Datatypes.S n)). by econstructor.
Qed.

#[export] Instance radix_laws : MapperLaws radix.
Proof.
  split.
  - intros a Ha. simpl. by rewrite (proj2 (Z.leb_le 0 a)), (proj2 (Z.ltb_lt a (2 ^ 47))) by lia.
  - done.
  - done.
  - intros S alloc m s p f fl m' s' r Hm. simpl in Hm. unfold radix_map_to in Hm.
    apply outcome_bind_ret in Hm as ([[m1 s1] b] & Hc & Hm).
    apply create_tables_spec in Hc as (_ & n & Hn & Hd). exists n. split; [done|].
    destruct b; [|by injection Hm as <- <- <-].
    by destruct (leaves m1 !! p); injection Hm as <- <- <-.
  - intros S alloc m s p f fl Hall. simpl. unfold radix_map_to.
    destruct (create_tables_returns alloc (path_tables p) m s Hall) as [[[m1 s1] b] ->]. cbn.
    destruct b; [|by eexists]. destruct (leaves m1 !! p); by eexists.
  - intros S alloc m s p f fl m' s' Hm. simpl in *. unfold radix_map_to in Hm.
    apply outcome_bind_ret in Hm as ([[m1 s1] b] & Hc & Hm).
    apply create_tables_spec in Hc as (Hl & _). destruct b; [|discriminate Hm].
    destruct (leaves m1 !! p) eqn:E; [discriminate Hm|]. injection Hm as <- <-. simpl.
    rewrite <- Hl. split_and!; [done|apply lookup_insert_eq|].
    intros q Hq. by apply lookup_insert_ne.
  - intros S alloc m s p f fl m' s' e Hm. simpl in *. unfold radix_map_to in Hm.
    apply outcome_bind_ret in Hm as ([[m1 s1] b] & Hc & Hm).
    apply create_tables_spec in Hc as (Hl & _).
    destruct b; [|by injection Hm as <- <- <-; rewrite Hl].
    destruct (leaves m1 !! p) eqn:E; [|discriminate Hm]. by injection Hm as <- <- <-; rewrite Hl.
  - intros m p. simpl. destruct (leaves m !! p) as [[f fl]|] eqn:E; simpl; [|done].
    split_and!; [done|apply lookup_delete_eq|]. intros q Hq. by apply lookup_delete_ne.
Qed.

(** 64 free pages. *)
Definition demo_phys : PhysicalAllocator :=
  mkPhys 0x100000 64 (replicate 6 [] ++ [[0x100000]] ++ replicate 14 []) ∅.

Lemma demo_phys_wf : phys_wf demo_phys.
Proof.
  destruct (@PhysicalAllocator_new_ret true 0x100000 64) as (s & Hs & Hwf & _); [done..|].
  assert (@PhysicalAllocator_new true 0x100000 64 = Ret demo_phys) as Hd
    by (vm_compute; reflexivity).
  rewrite Hd in Hs. by injection Hs as ->.
Qed.

(** ** Properties *)

(** [C12] The frames of the bootstrap heap, for any mapper that behaves as
    documented.  If [t] frames went into page tables while the 64 pages of the
    bootstrap heap were mapped, then the first [t] pages of the arena handed to
    the buddy allocator were already handed out by the bootstrap counter, and the
    buddy allocator counts them as free; as soon as a table was created before the
    last page, that page of the heap is itself backed by such a frame. *)
Theorem bootstrap_frames_owned_twice `{Profile} {M : Type} `{MapperLaws M} nx m rs re m' next phys
    (Hrs : 0 <= rs) (Hal : (PAGE_SIZE | rs)) (Hsz : 64 * PAGE_SIZE <= re - rs)
    (Hfit : re + 256 * PAGE_SIZE < 2 ^ 64)
    (Hboot : boot_memory nx m rs re = Ret (m', next, phys)) :
  ∃ t t0, 0 <= t0 <= t ∧
    next = base phys + t * PAGE_SIZE ∧ base phys = rs + 64 * PAGE_SIZE ∧
    phys_wf phys ∧ live_blocks phys = ∅ ∧
    walk m' (HEAP_BASE + 63 * PAGE_SIZE) =
      Some (base phys + (t0 - 1) * PAGE_SIZE, data_flags nx).
Proof.
  destruct (boot_memory_inv nx m rs re m' next phys Hrs Hal Hsz Hfit Hboot)
    as (t & t0 & Ht & -> & Hb & Hn & Hwf & Hl & Hw).
  exists t, t0. rewrite Hb, Hw. split_and!; [lia|lia|lia|done|done|done|].
  f_equal. f_equal. lia.
Qed.

(** With no table in place three are created, and the last three pages of the
    heap are in the arena. *)
Lemma bootstrap_frames_owned_twice_witness :
  ∃ m' next phys,
    @boot_memory true radix radix_mapper true (mkRadix ∅ ∅) 0x1000000 0x2000000 =
      Ret (m', next, phys) ∧
    next = base phys + 3 * PAGE_SIZE ∧ live_blocks phys = ∅ ∧
    walk m' (HEAP_BASE + 63 * PAGE_SIZE) = Some (base phys + 2 * PAGE_SIZE, data_flags true).
Proof.
  assert (match @boot_memory true radix radix_mapper true (mkRadix ∅ ∅) 0x1000000 0x2000000 with
          | Ret (m', next, phys) =>
              (next =? base phys + 3 * PAGE_SIZE) &&
              bool_decide (walk m' (HEAP_BASE + 63 * PAGE_SIZE) =
                             Some (base phys + 2 * PAGE_SIZE, data_flags true))
          | _ => false
          end = true) as Hrun by (vm_compute; reflexivity).
  destruct (@boot_memory true radix radix_mapper true (mkRadix ∅ ∅) 0x1000000 0x2000000)
    as [[[m' next] phys]| |] eqn:E; [|discriminate Hrun..].
  apply andb_true_iff in Hrun as [Hn Hw]. apply Z.eqb_eq in Hn. apply bool_decide_eq_true in Hw.
  destruct (@bootstrap_frames_owned_twice true radix radix_mapper radix_laws true
    (mkRadix ∅ ∅) 0x1000000 0x2000000 m' next phys ltac:(discriminate)
    ltac:(apply Z.mod_divide; [discriminate|reflexivity]) ltac:(vm_compute; discriminate)
    ltac:(vm_compute; reflexivity) E) as (t & t0 & _ & _ & _ & _ & Hl & _).
  exists m', next, phys. exact (conj eq_refl (conj Hn (conj Hl Hw))).
Defined.

(** Mapping and unmapping a page, for any mapper that behaves as documented.
    Mapping takes a fresh frame (and at most three for tables), makes exactly that
    page resolve to it, and unmapping gives the frame back and restores every
    translation.  A refused mapping changes no translation, but the frame taken
    for it stays allocated. *)
Theorem map_unmap_page `{Profile} {M : Type} `{MapperLaws M} m phys v fl
    (Hs : phys_wf phys) (Hbase : (PAGE_SIZE | base phys)) :
  ∃ m1 phys1 r, map_page m phys v fl = Ret (m1, phys1, r) ∧ same_frames phys phys1 ∧
    match r with
    | Ok f =>
        live_blocks phys !! f = None ∧ live_pages phys1 <= live_pages phys + 4 ∧
        walk m1 (page_of v) = Some (f, fl) ∧
        (∀ q, q ≠ page_of v → walk m1 q = walk m q) ∧
        ∃ m2 phys2, unmap_page m1 phys1 v = Ret (m2, phys2, Ok tt) ∧
          (∀ q, walk m2 q = walk m q) ∧ phys_wf phys2 ∧
          live_blocks phys2 = delete f (live_blocks phys1)
    | Err OutOfMemory => m1 = m ∧ phys1 = phys ∧ live_pages phys = total_pages phys
    | Err e =>
        e = AccessViolation ∧ (∀ q, walk m1 q = walk m q) ∧
        ∃ a, live_blocks phys !! a = None ∧ live_blocks phys1 !! a = Some 0
    end.
Proof.
  destruct (map_page_cases m phys v fl Hs) as (m1 & phys1 & r & -> & Hsame & Hsub & Hr).
  exists m1, phys1, r. do 2 (split; [done|]). destruct r as [f|e]; [|done].
  destruct Hr as (a & -> & Hnew & Hlive & Hw & Hw1 & Hrest & Hp).
  assert (frame_of a = a) as Ha.
  { apply frame_of_aligned. destruct Hsame as (Hs1 & Hb1 & _).
    destruct (block_at _ _ _ (wf_tiled _ Hs1) a 0) as (_ & p & -> & _);
      [by apply elem_of_blocks_live|]. rewrite Hb1.
    apply Z.divide_add_r; [done|by exists p]. }
  rewrite Ha in *. split_and!; [done..|].
  pose proof (unmap_spec m1 (page_of v)) as Hu. rewrite Hw1 in Hu.
  destruct Hu as (Hu & Hun & Hur). destruct Hsame as (Hs1 & _ & _).
  destruct (deallocate_ret phys1 a 0 Hs1 Hlive) as (phys2 & Hd & Hs2 & _ & _ & Hl2).
  unfold unmap_page. destruct (unmap m1 (page_of v)) as [m2 res]. simpl in *. subst res.
  rewrite Hd. cbn. exists m2, phys2. split_and!; [done| |done|done].
  intros q. destruct (decide (q = page_of v)) as [->|Hq]; [by rewrite Hun, Hw|].
  by rewrite Hur, Hrest.
Qed.

(** The second mapping of a page is refused and its frame is lost. *)
Lemma map_unmap_page_witness :
  ∃ m1 phys1 r, @map_page true radix radix_mapper
    (mkRadix {[ 0x555555550000 := (0x1000, 3) ]} ∅) demo_arena 0x555555550123 3 =
      Ret (m1, phys1, r) ∧ r = Err AccessViolation ∧
    ∃ a, live_blocks demo_arena !! a = None ∧ live_blocks phys1 !! a = Some 0.
Proof.
  destruct (@map_unmap_page true radix radix_mapper radix_laws
    (mkRadix {[ 0x555555550000 := (0x1000, 3) ]} ∅) demo_arena 0x555555550123 3 demo_arena_wf)
    as (m1 & phys1 & r & Hm & _ & Hr).
  - apply Z.mod_divide; [discriminate|reflexivity].
  - assert (r = Err AccessViolation) as ->
      by (vm_compute in Hm; injection Hm as _ _ <-; reflexivity).
    exists m1, phys1, (Err AccessViolation). split; [exact Hm|]. split; [reflexivity|]. apply Hr.
Defined.

(** The fault handler resumes the faulting access exactly when the address is
    in the demand-paging region, its page was not mapped and frames for it were
    available, and then the page is mapped; any other fault panics, with nothing
    returned to run on. *)
Theorem page_fault_resumes_or_panics `{Profile} {M : Type} `{MapperLaws M} nx m phys counter addr
    (Hs : phys_wf phys) (Haddr : 0 <= addr < 2 ^ 64) :
  let page := page_of (Z.land addr (Z.lnot 0xFFF)) in
  match page_fault_handler nx m phys counter addr with
  | Ret (m', phys', counter') =>
      DEMAND_PAGE_REGION_START <= addr < DEMAND_PAGE_REGION_END ∧
      page = DEMAND_PAGE_REGION_START ∧
      walk m page = None ∧ (∃ f, walk m' page = Some (f, data_flags nx)) ∧
      (∀ q, q ≠ page → walk m' q = walk m q) ∧
      same_frames phys phys' ∧ counter' = (counter + 1) mod 2 ^ 64
  | Panic =>
      ¬ (DEMAND_PAGE_REGION_START <= addr < DEMAND_PAGE_REGION_END) ∨
      ∃ m' phys' e, map_page m phys (Z.land addr (Z.lnot 0xFFF)) (data_flags nx) =
                      Ret (m', phys', Err e)
  | Diverge => False
  end.
Proof.
  cbn zeta. unfold page_fault_handler.
  destruct ((DEMAND_PAGE_REGION_START <=? addr) && (addr <? DEMAND_PAGE_REGION_END)) eqn:E;
    reflect_bools; [|left; lia].
  assert (Z.land addr (Z.lnot 0xFFF) = DEMAND_PAGE_REGION_START) as Hpage.
  { rewrite <- Z.ldiff_land. change 0xFFF with (Z.ones 12). rewrite Z.ldiff_ones_r by lia.
    rewrite Z.shiftr_div_pow2, Z.shiftl_mul_pow2 by lia.
    unfold DEMAND_PAGE_REGION_END, DEMAND_PAGE_REGION_START in *.
    assert (addr / 2 ^ 12 = 0x555555550) as ->; [|done]. symmetry.
    apply (Z.div_unique_pos _ _ _ (addr - 0x555555550000)); [lia|lia]. }
  rewrite Hpage, virt_addr_low by done. cbn [mbind outcome_bind].
  destruct (map_page_cases m phys DEMAND_PAGE_REGION_START (data_flags nx) Hs)
    as (m' & phys' & r & -> & Hsame & _ & Hr). cbn.
  destruct r as [f|e]; [|right; by eexists _, _, _].
  destruct Hr as (a & _ & _ & _ & Hw & Hw' & Hrest & _).
  split_and!; try done; [lia|lia| |by exists f].
  rewrite page_of_spec. done.
Qed.

Lemma page_fault_resumes_or_panics_witness :
  ∃ m' phys', @page_fault_handler true radix radix_mapper true (mkRadix ∅ ∅) demo_arena 0
                0x555555550123 = Ret (m', phys', 1) ∧
              ∃ f, walk m' 0x555555550000 = Some (f, data_flags true).
Proof.
  pose proof (@page_fault_resumes_or_panics true radix radix_mapper radix_laws true
    (mkRadix ∅ ∅) demo_arena 0 0x555555550123 demo_arena_wf
    ltac:(split; [discriminate|reflexivity])) as Hspec.
  destruct (@page_fault_handler true radix radix_mapper true (mkRadix ∅ ∅) demo_arena 0
              0x555555550123) as [[[m' phys'] c]| |] eqn:E; [|vm_compute in E; discriminate E..].
  destruct Hspec as (_ & Hp & _ & Hw & _ & _ & ->). rewrite Hp in Hw.
  exists m', phys'. split; [reflexivity|exact Hw].
Defined.
