(* ===== verification/AddressSpace.v ===== *)
(** * Address spaces

    Model of [src/kernel-x86_64/src/address_space.rs] and of the check of it in
    [main.rs].  Page tables live in physical memory, shared by every table that
    points to them, and a translation is the walk of the hardware over that memory
    from the frame in CR3.  [OffsetPageTable] is the [x86_64] crate's: its one use
    here, a page under an unused level-4 entry, is an interface with a law. *)
From S2P Require Import Prelude Buddy Paging.

(** ** Physical memory and the hardware's page walk *)

(** Physical memory as 64-bit words, by the address of their first byte. *)
Definition words : Type := gmap Z Z.

Definition load (m : words) (a : Z) : Z := default 0 (m !! a).
Definition store (m : words) (a x : Z) : words := <[a := x]> m.

(** Entry [i] of the table in a frame. *)
Definition slot (table i : Z) : Z := table + 8 * i.

(** The index of an address in the table of a level; level 3 is the L4 table. *)
Definition index (level : nat) (v : Z) : Z := v / 2 ^ (12 + 9 * Z.of_nat level) mod 512.

(** The frame of an entry, at the granularity of a page of that level. *)
Definition entry_addr (level : nat) (e : Z) : Z :=
  Z.land e (2 ^ 52 - 2 ^ (12 + 9 * Z.of_nat level)).

Definition entry_present (e : Z) : bool := Z.testbit e 0.
Definition entry_huge (e : Z) : bool := Z.testbit e 7.

(** [PageTableEntry::is_unused]. *)
Definition is_unused (e : Z) : bool := e =? 0.

Definition page_offset (level : nat) (v : Z) : Z := v mod 2 ^ (12 + 9 * Z.of_nat level).

(** The walk from the table of a level: level 1 and level 2 entries may be pages. *)
Fixpoint translate_at (m : words) (level : nat) (table v : Z) : option Z :=
  let e := load m (slot table (index level v)) in
  if negb (entry_present e) then None else
  match level with
  | O => Some (entry_addr 0 e + page_offset 0 v)
  | Datatypes.S level' =>
      if (level <=? 2)%nat && entry_huge e then Some (entry_addr level e + page_offset level v)
      else translate_at m level' (entry_addr 0 e) v
  end.

Definition translate (m : words) (l4 v : Z) : option Z := translate_at m 3 l4 v.

(** The entries that the walk reads. *)
Fixpoint walk_slots (m : words) (level : nat) (table v : Z) : list Z :=
  let a := slot table (index level v) in
  let e := load m a in
  a :: (if negb (entry_present e) then [] else
        match level with
        | O => []
        | Datatypes.S level' =>
            if (level <=? 2)%nat && entry_huge e then []
            else walk_slots m level' (entry_addr 0 e) v
        end).

(** ** The state and the operations *)

Record machine := mkMachine {
  mem : words;
  cr3 : Z;
  cr3_flags : Z;
  PHYS_MEM_OFFSET : option Z;
  PHYS : option PhysicalAllocator;
  ACTIVE_SWITCH_LOCK : bool;
}.

Definition set_mem st m : machine :=
  mkMachine m st.(cr3) st.(cr3_flags) st.(PHYS_MEM_OFFSET) st.(PHYS) st.(ACTIVE_SWITCH_LOCK).
Definition set_phys st p : machine :=
  mkMachine st.(mem) st.(cr3) st.(cr3_flags) st.(PHYS_MEM_OFFSET) p st.(ACTIVE_SWITCH_LOCK).
Definition set_lock st b : machine :=
  mkMachine st.(mem) st.(cr3) st.(cr3_flags) st.(PHYS_MEM_OFFSET) st.(PHYS) b.

(** [Cr3::write]. *)
Definition Cr3_write st frame flags : machine :=
  mkMachine st.(mem) frame flags st.(PHYS_MEM_OFFSET) st.(PHYS) st.(ACTIVE_SWITCH_LOCK).

Definition PRIVATE_REGION_ADDR : Z := 0x111111110000.
Definition PRIVATE_VALUE : Z := 0xC0FFEEC0FFEE.

Record AddressSpace := mkAddressSpace { l4_frame : Z }.

(** An [OffsetPageTable]: the memory it writes, its level-4 frame and the offset at
    which it reaches physical memory. *)
Record table_view := mkView { view_mem : words; view_l4 : Z; view_offset : Z }.

(** [PageTable::zero] and the loop that clones the entries of a table. *)
Definition zero_table (m : words) (table : Z) : words :=
  foldl (λ m i, store m (slot table i) 0) m (seqZ 0 512).

Definition clone_entries (m : words) (active table : Z) : words :=
  foldl (λ m i, store m (slot table i) (load m (slot active i))) m (seqZ 0 512).

Section ops.
Context `{Profile} `{Mapper table_view}.

(** [VirtAddr + u64]: panics on overflow and outside the valid addresses. *)
Definition virt_add (a b : Z) : outcome Z :=
  if a + b <? 2 ^ 64 then virt_addr (a + b) else Panic.

(** Where a pointer into the mapping of physical memory at [offset] points. *)
Definition physical_of (offset v : Z) : Z := v - offset.

(** [paging::active_level_4_table], as the physical address of the table. *)
Definition active_level_4_table (st : machine) (physical_memory_offset : Z) : outcome Z :=
  virt ← virt_add physical_memory_offset st.(cr3);
  Ret (physical_of physical_memory_offset virt).

(** [AddressSpace::new]. *)
Definition AddressSpace_new (nx : bool) (st : machine) : outcome (machine * option AddressSpace) :=
  match st.(PHYS_MEM_OFFSET) with
  | None => Ret (st, None)
  | Some phys_offset =>
  match st.(PHYS) with
  | None => Ret (st, None)
  | Some phys =>
      r ← allocate phys 0;
      let st := set_phys st (Some r.1) in
      match r.2 with
      | Err _ => Ret (st, None)
      | Ok new_l4_phys =>
          let new_l4_frame := frame_of new_l4_phys in
          new_l4_virt ← virt_add phys_offset new_l4_phys;
          let new_l4_table := physical_of phys_offset new_l4_virt in
          let st := set_mem st (zero_table st.(mem) new_l4_table) in
          active ← active_level_4_table st phys_offset;
          let st := set_mem st (clone_entries st.(mem) active new_l4_table) in
          let new_mapper := mkView st.(mem) new_l4_table phys_offset in
          let flags := Z.lor (Z.lor PRESENT WRITABLE) (nx_flag nx) in
          vaddr ← virt_addr PRIVATE_REGION_ADDR;
          out ← map_page_with adapter_allocate_frame new_mapper r.1 vaddr flags;
          let '(new_mapper, phys, res) := (out : table_view * PhysicalAllocator * result Z MemoryError) in
          let st := set_phys (set_mem st (view_mem new_mapper)) (Some phys) in
          match res with
          | Err _ => Ret (st, None)
          | Ok new_frame =>
              frame_virt ← virt_add phys_offset new_frame;
              let st := set_mem st (store st.(mem) (physical_of phys_offset frame_virt) PRIVATE_VALUE) in
              Ret (st, Some (mkAddressSpace new_l4_frame))
          end
      end
  end
  end.

(** [AddressSpace::switch_to] and [restore]. *)
Definition switch_to (st : machine) (self : AddressSpace) : machine * Z :=
  let prev_frame := st.(cr3) in
  let flags := st.(cr3_flags) in
  (Cr3_write st (l4_frame self) flags, prev_frame).

Definition restore (st : machine) (frame : Z) : machine :=
  let flags := st.(cr3_flags) in
  Cr3_write st frame flags.

Definition private_region_absent_from_active (st : machine) : outcome bool :=
  match st.(PHYS_MEM_OFFSET) with
  | None => Ret false
  | Some phys_offset =>
      vaddr ← virt_addr PRIVATE_REGION_ADDR;
      let i := index 3 (page_of vaddr) in
      active ← active_level_4_table st phys_offset;
      Ret (is_unused (load st.(mem) (slot active i)))
  end.

(** [with_lock]: a spin lock, which waits for ever when it is already held. *)
Definition with_lock {R : Type} (st : machine) (f : machine → outcome (machine * R)) :
    outcome (machine * R) :=
  if st.(ACTIVE_SWITCH_LOCK) then Diverge else
  r ← f (set_lock st true);
  Ret (set_lock r.1 false, r.2).

(** A load through the tables that are active; an address that has no translation
    faults, outside the demand-paged region, and the kernel panics. *)
Definition read_volatile (st : machine) (v : Z) : outcome Z :=
  match translate st.(mem) st.(cr3) v with
  | Some a => Ret (load st.(mem) a)
  | None => Panic
  end.

(** The check of [kernel_main]. *)
Definition address_space_ok (nx : bool) (st : machine) : outcome (machine * bool) :=
  with_lock st (λ st,
    absent_before ← private_region_absent_from_active st;
    r ← AddressSpace_new nx st;
    match r with
    | (st, None) => Ret (st, false)
    | (st, Some new_space) =>
        let '(st, prev_frame) := switch_to st new_space in
        value_in_new ← read_volatile st PRIVATE_REGION_ADDR;
        let st := restore st prev_frame in
        Ret (st, absent_before && (value_in_new =? PRIVATE_VALUE))
    end).
End ops.

(** ** The interface of [OffsetPageTable] *)

(** A new table with one entry. *)
Definition add_table (m : words) (table i entry : Z) : words :=
  store (zero_table m table) (slot table i) entry.

(** The memory after a page was mapped under an unused level-4 entry, with the
    tables [t3], [t2] and [t1] created for it: the entries of tables carry the flags
    PRESENT, WRITABLE and USER of the page's. *)
Definition map_chain (m : words) (l4 t3 t2 t1 page frame flags : Z) : words :=
  let parent := Z.land flags 7 in
  let m := store m (slot l4 (index 3 page)) (Z.lor t3 parent) in
  let m := add_table m t3 (index 2 page) (Z.lor t2 parent) in
  let m := add_table m t2 (index 1 page) (Z.lor t1 parent) in
  add_table m t1 (index 0 page) (Z.lor frame flags).

(** A frame that the view can reach. *)
Definition frame_ok (offset t : Z) : Prop :=
  (PAGE_SIZE | t) ∧ 0 <= t ∧ t + PAGE_SIZE <= 2 ^ 52 ∧ offset + t + PAGE_SIZE <= 2 ^ 47.

(** What the crate documents of [map_to] in the case used here, and of the address
    constructors. *)
Class ViewLaws `{Mapper table_view} := {
  view_virt_addr : ∀ a, 0 <= a < 2 ^ 47 → virt_addr a = Ret a;
  view_page_of : ∀ v, page_of v = v - v mod PAGE_SIZE;
  view_frame_of : ∀ a, frame_of a = a - a mod PAGE_SIZE;
  view_map_to : ∀ S (alloc : frame_source S) m l4 off s page frame fl s1 s2 s3 t3 t2 t1,
    0 <= off → load m (slot l4 (index 3 page)) = 0 →
    alloc s = Ret (s1, Some t3) → alloc s1 = Ret (s2, Some t2) → alloc s2 = Ret (s3, Some t1) →
    NoDup [l4; t3; t2; t1] → Forall (frame_ok off) [l4; t3; t2; t1; frame] →
    ∃ m', map_to alloc (mkView m l4 off) s page frame fl = Ret (mkView m' l4 off, s3, Ok tt) ∧
          ∀ a, load m' a = load (map_chain m l4 t3 t2 t1 page frame fl) a;
  (** At most three page tables are created, from the given source. *)
  view_map_draws : ∀ S (alloc : frame_source S) v s page frame fl v' s' r,
    map_to alloc v s page frame fl = Ret (v', s', r) → ∃ n, (n <= 3)%nat ∧ draws alloc n s s';
}.

(** ** Memory and walks *)

Lemma load_store m a x b : load (store m a x) b = if decide (a = b) then x else load m b.
Proof. unfold load, store, words in *. destruct (decide (a = b)) as [->|Hne].
  - by rewrite lookup_insert_eq.
  - by rewrite lookup_insert_ne. Qed.

Lemma load_store_eq m a x : load (store m a x) a = x.
Proof. rewrite load_store. by case_decide. Qed.

Lemma load_store_ne m a x b : a ≠ b → load (store m a x) b = load m b.
Proof. intros. rewrite load_store. by case_decide. Qed.

(** Addresses of a table's page. *)
Definition in_page (t a : Z) : Prop := t <= a < t + PAGE_SIZE.

Lemma slot_in_page t i : 0 <= i < 512 → in_page t (slot t i).
Proof. unfold in_page, slot, PAGE_SIZE. lia. Qed.

Lemma index_range level v : 0 <= index level v < 512.
Proof. unfold index. apply Z.mod_pos_bound. lia. Qed.
#[export] Hint Resolve slot_in_page index_range : uosc.

(** A loop that writes the entries of a table from the memory it runs in. *)
Lemma fill_table (f : words → Z → Z) t n m :
  let m' := foldl (λ m i, store m (slot t i) (f m i)) m (seqZ 0 (Z.of_nat n)) in
  (∀ m1 m2 i, 0 <= i < Z.of_nat n →
     (∀ a, (∀ j, 0 <= j < Z.of_nat n → a ≠ slot t j) → load m1 a = load m2 a) → f m1 i = f m2 i) →
  (∀ i, 0 <= i < Z.of_nat n → load m' (slot t i) = f m i) ∧
  (∀ a, (∀ i, 0 <= i < Z.of_nat n → a ≠ slot t i) → load m' a = load m a).
Proof.
  cbn zeta. induction n as [|n IH]; intros Hf; [split; [lia|done]|].
  rewrite Nat2Z.inj_succ, <- Z.add_1_r, seqZ_app by lia.
  replace (seqZ (0 + Z.of_nat n) 1) with [Z.of_nat n] by (unfold seqZ; simpl; f_equal; lia).
  rewrite foldl_app. simpl.
  destruct IH as [Hin Hout].
  { intros m1 m2 i Hi Ha. apply Hf; [lia|]. intros a Hn. apply Ha. intros j Hj. apply Hn. lia. }
  split.
  - intros i Hi. destruct (decide (i = Z.of_nat n)) as [->|Hne].
    + rewrite load_store_eq. apply Hf; [lia|]. intros a Hn. apply Hout. intros j Hj. apply Hn. lia.
    + rewrite load_store_ne by (unfold slot; lia). apply Hin. lia.
  - intros a Ha. rewrite load_store_ne; [|intros <-; apply (Ha (Z.of_nat n)); lia].
    apply Hout. intros i Hi. apply Ha. lia.
Qed.

Lemma zero_table_in m t i : 0 <= i < 512 → load (zero_table m t) (slot t i) = 0.
Proof. apply (fill_table (λ _ _, 0) t 512 m). done. Qed.

Lemma zero_table_out m t a : ¬ in_page t a → load (zero_table m t) a = load m a.
Proof.
  intros Ha. apply (fill_table (λ _ _, 0) t 512 m); [done|]. intros i Hi ->. by apply Ha, slot_in_page.
Qed.

Lemma add_table_in m t i x j :
  0 <= j < 512 → load (add_table m t i x) (slot t j) = if decide (j = i) then x else 0.
Proof.
  intros Hj. unfold add_table. rewrite load_store, zero_table_in by done.
  repeat case_decide; unfold slot in *; (done || lia).
Qed.

Lemma add_table_out m t i x a :
  0 <= i < 512 → ¬ in_page t a → load (add_table m t i x) a = load m a.
Proof.
  intros Hi Ha. unfold add_table. rewrite load_store_ne; [by apply zero_table_out|].
  intros <-. by apply Ha, slot_in_page.
Qed.

Lemma clone_entries_spec m s t :
  (∀ i, 0 <= i < 512 → ¬ in_page t (slot s i)) →
  (∀ i, 0 <= i < 512 → load (clone_entries m s t) (slot t i) = load m (slot s i)) ∧
  (∀ a, ¬ in_page t a → load (clone_entries m s t) a = load m a).
Proof.
  intros Hd. destruct (fill_table (λ m i, load m (slot s i)) t 512 m) as [Hin Hout].
  { intros m1 m2 i Hi Ha. apply Ha. intros j Hj Heq. apply (Hd i); [lia|].
    rewrite Heq. apply slot_in_page. lia. }
  split; [exact Hin|]. intros a Ha. apply Hout. intros i Hi ->. apply Ha, slot_in_page. lia.
Qed.

(** One step of the walk, given the entry. *)
Definition walk_step (m : words) (level : nat) (e v : Z) : option Z :=
  if negb (entry_present e) then None else
  match level with
  | O => Some (entry_addr 0 e + page_offset 0 v)
  | Datatypes.S level' =>
      if (level <=? 2)%nat && entry_huge e then Some (entry_addr level e + page_offset level v)
      else translate_at m level' (entry_addr 0 e) v
  end.

Lemma translate_at_step m level t v :
  translate_at m level t v = walk_step m level (load m (slot t (index level v))) v.
Proof. by destruct level. Qed.

(** The walk depends on nothing but the entries it reads. *)
Lemma translate_agree m m' level t v :
  (∀ a, a ∈ walk_slots m level t v → load m' a = load m a) →
  translate_at m' level t v = translate_at m level t v.
Proof.
  revert t. induction level as [|level IH]; intros t Ha; rewrite !translate_at_step;
    (rewrite Ha; [|left]); unfold walk_step; [done|].
  destruct (entry_present _) eqn:Ep; [|done]. destruct (_ && _) eqn:Eh; [done|].
  apply IH. intros a Hin. apply Ha. cbn -[Nat.leb entry_addr entry_present entry_huge].
  rewrite Ep, Eh. by right.
Qed.

(** ** Entries *)

Lemma aligned_low_bit t k : (PAGE_SIZE | t) → 0 <= k < 12 → Z.testbit t k = false.
Proof.
  intros [q ->] Hk. change PAGE_SIZE with (2 ^ 12). apply Z.mul_pow2_bits_low. lia.
Qed.

Lemma land_frame t : (PAGE_SIZE | t) → 0 <= t < 2 ^ 52 → Z.land t (2 ^ 52 - 2 ^ 12) = t.
Proof.
  intros Hd Ht. change (2 ^ 52 - 2 ^ 12) with (Z.ldiff (Z.ones 52) (Z.ones 12)).
  apply Z.bits_inj'. intros k Hk. rewrite Z.land_spec, Z.ldiff_spec, !Z.testbit_ones by lia.
  destruct (Z.lt_ge_cases k 12); [by rewrite aligned_low_bit by (done || lia)|].
  destruct (Z.lt_ge_cases k 52).
  - rewrite (proj2 (Z.leb_le 0 k)), (proj2 (Z.ltb_lt k 52)), (proj2 (Z.ltb_ge k 12)) by lia.
    apply andb_true_r.
  - rewrite <- (Z.mod_small t (2 ^ 52)), Z.mod_pow2_bits_high by lia. done.
Qed.

(** An entry made of a frame and flags that do not reach into its address. *)
Lemma entry_made t fl :
  (PAGE_SIZE | t) → 0 <= t < 2 ^ 52 → Z.land fl (2 ^ 52 - 2 ^ 12) = 0 →
  Z.testbit fl 0 = true → Z.testbit fl 7 = false →
  entry_present (Z.lor t fl) = true ∧ entry_huge (Z.lor t fl) = false ∧
  entry_addr 0 (Z.lor t fl) = t.
Proof.
  intros Hd Ht Hfl H0 H7. unfold entry_present, entry_huge, entry_addr. rewrite !Z.lor_spec, H0, H7.
  split_and!; [apply orb_true_r|by rewrite aligned_low_bit by (done || lia)|].
  change (12 + 9 * Z.of_nat 0) with 12.
  by rewrite Z.land_lor_distr_l, Hfl, Z.lor_0_r, land_frame.
Qed.

(** The part of an address that the walk looks at. *)
Lemma index_determines v w :
  (∀ level, (level < 4)%nat → index level v = index level w) →
  (v / 2 ^ 12) mod 2 ^ 36 = (w / 2 ^ 12) mod 2 ^ 36.
Proof.
  intros Hi.
  assert (∀ x, (x / 2 ^ 12) mod 2 ^ 36 =
            index 0 x + 512 * (index 1 x + 512 * (index 2 x + 512 * index 3 x))) as Hx.
  { intros x. unfold index.
    change (2 ^ (12 + 9 * Z.of_nat 0)) with (2 ^ 12). change (2 ^ (12 + 9 * Z.of_nat 1)) with (2 ^ 12 * 512).
    change (2 ^ (12 + 9 * Z.of_nat 2)) with (2 ^ 12 * 512 * 512).
    change (2 ^ (12 + 9 * Z.of_nat 3)) with (2 ^ 12 * 512 * 512 * 512).
    rewrite <- !Z.div_div by lia. generalize (x / 2 ^ 12). intros y.
    change (2 ^ 36) with (512 * (512 * (512 * 512))). by rewrite !Z.rem_mul_r by lia. }
  rewrite !Hx. by rewrite !Hi by lia.
Qed.

(** ** Frames that nothing uses *)

(** An address of the arena that is in no allocated block. *)
Definition unowned (p : PhysicalAllocator) (a : Z) : Prop :=
  base p <= a < base p + total_pages p * PAGE_SIZE ∧
  ∀ b o, live_blocks p !! b = Some o → ¬ (b <= a < b + 2 ^ o * PAGE_SIZE).

(** [p'] is [p] after the frame [f] was taken from it. *)
Record took (p p' : PhysicalAllocator) (f : Z) : Prop := {
  took_frames : same_frames p p';
  took_fresh : live_blocks p !! f = None;
  took_live : live_blocks p' = <[f := 0]> (live_blocks p);
  took_aligned : (PAGE_SIZE | f);
  took_range : base p <= f ∧ f + PAGE_SIZE <= base p + total_pages p * PAGE_SIZE;
  took_unowned : ∀ a, in_page f a → unowned p a;
  took_rest : ∀ a, unowned p' a → unowned p a ∧ ¬ in_page f a;
}.

Lemma took_pages p p' f : took p p' f → live_pages p' = live_pages p + 1.
Proof. intros [_ Hf Hl _ _ _ _]. apply (live_pages_insert p p' f 0 Hf Hl). Qed.

Section frames.
Context `{Profile}.

Lemma allocate_took p :
  phys_wf p → (PAGE_SIZE | base p) → live_pages p < total_pages p →
  ∃ p' f, allocate p 0 = Ret (p', Ok f) ∧ took p p' f.
Proof.
  intros Hp Hd Hn. destruct (allocate_frame p Hp Hn) as (p' & f & Ha & Hsame & Hf & Hl).
  exists p', f. split; [done|]. pose proof Hsame as (Hp' & Hb & Ht).
  assert ((f, 0) ∈ blocks p') as Hin by (apply elem_of_blocks_live; by rewrite Hl, lookup_insert_eq).
  destruct (block_at _ _ _ (wf_tiled _ Hp') f 0 Hin) as (_ & i & Hi & Hi0 & _ & Hfit & _).
  rewrite Hb in Hi. rewrite Ht in Hfit. change (2 ^ 0) with 1 in Hfit.
  assert (base p <= f ∧ f + PAGE_SIZE <= base p + total_pages p * PAGE_SIZE) as Hr
    by (unfold PAGE_SIZE in *; lia).
  split; try done.
  - rewrite Hi. apply Z.divide_add_r; [done|by exists i].
  - intros a Hpage. split; [unfold in_page in Hpage; lia|]. intros b o Hlb Hao.
    assert (b ≠ f) by congruence.
    destruct (blocks_apart _ _ _ f 0 b o (wf_tiled _ Hp') Hin) as [Hx|Hx];
      [apply elem_of_blocks_live; by rewrite Hl, lookup_insert_ne|congruence|..];
      unfold in_page in *; change (2 ^ 0) with 1 in Hx; lia.
  - intros a [Har Hno]. rewrite Hb, Ht in Har. split; [split; [done|]|].
    + intros b o Hlb. apply Hno. rewrite Hl, lookup_insert_ne; [done|congruence].
    + intros Hpage. apply (Hno f 0); [by rewrite Hl, lookup_insert_eq|].
      unfold in_page in Hpage. change (2 ^ 0) with 1. lia.
Qed.

Lemma adapter_took `{Mapper table_view, !ViewLaws} p :
  phys_wf p → (PAGE_SIZE | base p) → live_pages p < total_pages p →
  ∃ p' f, adapter_allocate_frame p = Ret (p', Some f) ∧ took p p' f.
Proof.
  intros Hp Hd Hn. destruct (allocate_took p Hp Hd Hn) as (p' & f & Ha & T).
  exists p', f. split; [|done]. unfold adapter_allocate_frame. rewrite Ha. cbn.
  rewrite view_frame_of. pose proof (took_aligned _ _ _ T) as Hf.
  apply Z.mod_divide in Hf; [|done]. by rewrite Hf, Z.sub_0_r.
Qed.
End frames.

(** The next frame to take, when pages are left. *)
Lemma took_next p p' f :
  phys_wf p → (PAGE_SIZE | base p) → took p p' f →
  phys_wf p' ∧ (PAGE_SIZE | base p') ∧ total_pages p' = total_pages p ∧ base p' = base p ∧
  live_pages p' = live_pages p + 1.
Proof.
  intros Hp Hd T. pose proof (took_frames _ _ _ T) as (? & Hb & ?). rewrite Hb.
  split_and!; [done..|by eapply took_pages].
Qed.

(** Frames taken one after the other, the first first. *)
Inductive takes : PhysicalAllocator → list Z → PhysicalAllocator → Prop :=
| takes_nil p : takes p [] p
| takes_cons p p1 p2 f fs : took p p1 f → takes p1 fs p2 → takes p (f :: fs) p2.

(** A frame of the arena of [p] that was free in [p]. *)
Definition free_frame (p : PhysicalAllocator) (f : Z) : Prop :=
  (PAGE_SIZE | f) ∧ base p <= f ∧ f + PAGE_SIZE <= base p + total_pages p * PAGE_SIZE ∧
  ∀ a, in_page f a → unowned p a.

Lemma takes_spec p fs p' :
  phys_wf p → (PAGE_SIZE | base p) → takes p fs p' →
  phys_wf p' ∧ live_pages p' = live_pages p + Z.of_nat (length fs) ∧ NoDup fs ∧
  Forall (free_frame p) fs.
Proof.
  intros Hp Hd Ht. induction Ht as [p|p p1 p2 f fs T _ IH]; [by split_and!; [|simpl; lia|constructor..]|].
  destruct (took_next _ _ _ Hp Hd T) as (Hp1 & Hd1 & Ht1 & Hb1 & Hl1).
  destruct (IH Hp1 Hd1) as (Hp2 & Hl & Hnd & Hf). destruct T as [_ _ _ A (G & G') U S].
  split_and!; [done|simpl; lia| |].
  - constructor; [|done]. intros Hin. rewrite Forall_forall in Hf. destruct (Hf _ Hin) as (_ & _ & _ & Hu).
    assert (in_page f f) as Hff by (unfold in_page, PAGE_SIZE; lia).
    by destruct (S f (Hu f Hff)).
  - constructor; [done|]. eapply Forall_impl; [exact Hf|]. intros x (Ax & G1 & G2 & Ux).
    rewrite Hb1, Ht1 in *. split_and!; [done..|]. intros a Ha. by apply S, Ux.
Qed.

(** Aligned pages that share an address are the same. *)
Lemma page_unique x y a :
  (PAGE_SIZE | x) → (PAGE_SIZE | y) → in_page x a → in_page y a → x = y.
Proof. unfold in_page, PAGE_SIZE. intros [i ->] [j ->] ? ?. nia. Qed.

(** ** The memory of a new address space *)

Section chain.
Context (m : words) (l4 t3 t2 t1 page frame fl : Z).
Context (Hal : Forall (λ t, (PAGE_SIZE | t)) [l4; t3; t2; t1]) (Hnd : NoDup [l4; t3; t2; t1]).

Let apart x y a : x ∈ [l4; t3; t2; t1] → y ∈ [l4; t3; t2; t1] → x ≠ y → in_page x a → ¬ in_page y a.
Proof.
  rewrite Forall_forall in Hal. intros Hx Hy Hne Hax Hay. by apply Hne, (page_unique x y a); auto.
Qed.

(** A later table leaves the entries of the page [x] alone. *)
Ltac skip_table x :=
  rewrite add_table_out;
  [|apply index_range|apply (apart x); [rewrite !elem_of_cons; tauto|rewrite !elem_of_cons; tauto|congruence|by apply slot_in_page; auto using index_range]].

(** The pages the chain does not concern, and its four entries. *)
Lemma map_chain_spec :
  let parent := Z.land fl 7 in
  let m' := map_chain m l4 t3 t2 t1 page frame fl in
  (∀ a, a ≠ slot l4 (index 3 page) → ¬ in_page t3 a → ¬ in_page t2 a → ¬ in_page t1 a →
        load m' a = load m a) ∧
  load m' (slot l4 (index 3 page)) = Z.lor t3 parent ∧
  (∀ i, 0 <= i < 512 → load m' (slot t3 i) = if decide (i = index 2 page) then Z.lor t2 parent else 0) ∧
  (∀ i, 0 <= i < 512 → load m' (slot t2 i) = if decide (i = index 1 page) then Z.lor t1 parent else 0) ∧
  (∀ i, 0 <= i < 512 → load m' (slot t1 i) = if decide (i = index 0 page) then Z.lor frame fl else 0).
Proof.
  cbn zeta. unfold map_chain.
  assert (l4 ≠ t3 ∧ l4 ≠ t2 ∧ l4 ≠ t1 ∧ t3 ≠ t2 ∧ t3 ≠ t1 ∧ t2 ≠ t1) as (?&?&?&?&?&?).
  { rewrite !NoDup_cons, !not_elem_of_cons in Hnd. tauto. }
  split_and!.
  - intros a Ha A3 A2 A1. rewrite !add_table_out by auto using index_range. by apply load_store_ne.
  - do 3 skip_table l4. apply load_store_eq.
  - intros i Hi. do 2 skip_table t3. by apply add_table_in.
  - intros i Hi. skip_table t2. by apply add_table_in.
  - intros i Hi. by apply add_table_in.
Qed.
End chain.

(** Membership in a list of a few elements. *)
Ltac in_list := rewrite !elem_of_cons; tauto.

(** What memory holds once an address space is made: [n] is its level-4 table, [f]
    its private page, and [t3], [t2], [t1] the tables between. *)
Record space_made (nx : bool) (m m' : words) (active n f t3 t2 t1 : Z) : Prop := {
  sm_aligned : Forall (λ t, (PAGE_SIZE | t) ∧ 0 <= t < 2 ^ 52) [n; t3; t2; t1; f];
  sm_rest : ∀ a, Forall (λ t, ¬ in_page t a) [n; t3; t2; t1; f] → load m' a = load m a;
  sm_l4 : ∀ i, 0 <= i < 512 → load m' (slot n i) =
    if decide (i = index 3 PRIVATE_REGION_ADDR) then Z.lor t3 3 else load m (slot active i);
  sm_t3 : ∀ i, 0 <= i < 512 → load m' (slot t3 i) =
    if decide (i = index 2 PRIVATE_REGION_ADDR) then Z.lor t2 3 else 0;
  sm_t2 : ∀ i, 0 <= i < 512 → load m' (slot t2 i) =
    if decide (i = index 1 PRIVATE_REGION_ADDR) then Z.lor t1 3 else 0;
  sm_t1 : ∀ i, 0 <= i < 512 → load m' (slot t1 i) =
    if decide (i = index 0 PRIVATE_REGION_ADDR) then Z.lor f (data_flags nx) else 0;
  sm_value : load m' f = PRIVATE_VALUE;
}.

(** The memory operations of [AddressSpace::new], for any memory that reads as the
    chain of tables does. *)
Lemma space_made_intro nx m active n f t3 t2 t1 mc :
  Forall (λ t, (PAGE_SIZE | t) ∧ 0 <= t < 2 ^ 52) [n; t3; t2; t1; f] → NoDup [n; t3; t2; t1; f] →
  (∀ i, 0 <= i < 512 → ¬ in_page n (slot active i)) →
  (∀ a, load mc a = load (map_chain (clone_entries (zero_table m n) active n) n t3 t2 t1
                            PRIVATE_REGION_ADDR f (data_flags nx)) a) →
  space_made nx m (store mc f PRIVATE_VALUE) active n f t3 t2 t1.
Proof.
  intros Hal Hnd Hact Hmc.
  assert (∀ x y a, x ∈ [n; t3; t2; t1; f] → y ∈ [n; t3; t2; t1; f] → x ≠ y →
                   in_page x a → ¬ in_page y a) as Hap.
  { rewrite Forall_forall in Hal. intros x y a Hx Hy Hne Hax Hay.
    apply Hne, (page_unique x y a); [by apply Hal..|done|done]. }
  destruct (clone_entries_spec (zero_table m n) active n Hact) as [Hci Hco].
  destruct (map_chain_spec (clone_entries (zero_table m n) active n) n t3 t2 t1
              PRIVATE_REGION_ADDR f (data_flags nx)) as (Mr & M4 & M3 & M2 & M1).
  { rewrite !Forall_cons in Hal. rewrite !Forall_cons. naive_solver. }
  { apply (NoDup_app [n; t3; t2; t1] [f]) in Hnd. apply Hnd. }
  replace (Z.land (data_flags nx) 7) with 3 in * by (by destruct nx).
  assert (n ≠ t3 ∧ n ≠ t2 ∧ n ≠ t1 ∧ n ≠ f ∧ t3 ≠ f ∧ t2 ≠ f ∧ t1 ≠ f) as (N3&N2&N1&Nf&Tf3&Tf2&Tf1).
  { rewrite !NoDup_cons, !not_elem_of_cons in Hnd. tauto. }
  assert (in_page f f) as Hff by (unfold in_page, PAGE_SIZE; lia).
  assert (∀ t, t ∈ [n; t3; t2; t1; f] → t ≠ f → ∀ i, 0 <= i < 512 → f ≠ slot t i) as Hsf.
  { intros t Hin Hne i Hi Heq. apply (Hap t f f); [done|in_list|done| |done].
    rewrite Heq. by apply slot_in_page. }
  assert (∀ i, 0 <= i < 512 → i ≠ index 3 PRIVATE_REGION_ADDR →
          load mc (slot n i) = load m (slot active i)) as Hn.
  { intros i Hi Hne. rewrite Hmc, Mr; [rewrite Hci by done; by apply zero_table_out, Hact|
      unfold slot; lia|apply (Hap n); [in_list|in_list|done|by apply slot_in_page]..]. }
  split; [done| |intros i Hi; rewrite load_store_ne by (apply Hsf; [in_list|done..])..|].
  - intros a Ha. rewrite !Forall_cons in Ha. destruct Ha as (An & A3 & A2 & A1 & Af & _).
    rewrite load_store_ne by (intros <-; done).
    rewrite Hmc, Mr, Hco, zero_table_out; try done.
    intros ->. apply An, slot_in_page, index_range.
  - case_decide as Hi4; [|by apply Hn]. rewrite Hmc. by subst i.
  - rewrite Hmc. by apply M3.
  - rewrite Hmc. by apply M2.
  - rewrite Hmc. by apply M1.
  - apply load_store_eq.
Qed.

(** The entries of the tables of a chain lead to the next table. *)
Lemma chain_entry t fl :
  (PAGE_SIZE | t) → 0 <= t < 2 ^ 52 → fl = 3 ∨ (∃ nx, fl = data_flags nx) →
  entry_present (Z.lor t fl) = true ∧ entry_huge (Z.lor t fl) = false ∧
  entry_addr 0 (Z.lor t fl) = t.
Proof.
  intros Hd Ht Hfl. apply entry_made; [done..| | |];
    by destruct Hfl as [->|[[] ->]].
Qed.

(** A kernel that can make an address space: [paging::init] and [store_globals] have
    run, the mapping of physical memory reaches the arena and the active table,
    five frames are left, no page table lies in free memory, and nothing is mapped
    in the 512 GiB of the private region. *)
Record space_ready (st : machine) (off : Z) (p : PhysicalAllocator) : Prop := {
  sr_offset : PHYS_MEM_OFFSET st = Some off ∧ 0 <= off;
  sr_phys : PHYS st = Some p ∧ phys_wf p;
  sr_base : (PAGE_SIZE | base p) ∧ 0 <= base p;
  sr_reach : off + base p + total_pages p * PAGE_SIZE <= 2 ^ 47;
  sr_cr3 : 0 <= cr3 st ∧ off + cr3 st < 2 ^ 47;
  sr_frames : live_pages p + 5 <= total_pages p;
  sr_tables : ∀ v a, a ∈ walk_slots (mem st) 3 (cr3 st) v → ¬ unowned p a;
  sr_absent : load (mem st) (slot (cr3 st) (index 3 PRIVATE_REGION_ADDR)) = 0;
}.

(** Every entry of the active level-4 table is read by some walk. *)
Lemma slot_walked m l4 i : 0 <= i < 512 → slot l4 i ∈ walk_slots m 3 l4 (i * 2 ^ 39).
Proof.
  intros Hi. assert (index 3 (i * 2 ^ 39) = i) as Hx.
  { unfold index. change (12 + 9 * Z.of_nat 3) with 39. rewrite Z.div_mul by done.
    by apply Z.mod_small. }
  cbn [walk_slots]. rewrite Hx. left.
Qed.

Section new.
Context `{Profile} `{Mapper table_view, !ViewLaws}.

(** Five frames in a row. *)
Lemma five_frames p :
  phys_wf p → (PAGE_SIZE | base p) → live_pages p + 5 <= total_pages p →
  ∃ p1 p2 p3 p4 p5 n f t3 t2 t1,
    allocate p 0 = Ret (p1, Ok n) ∧ adapter_allocate_frame p1 = Ret (p2, Some f) ∧
    adapter_allocate_frame p2 = Ret (p3, Some t3) ∧ adapter_allocate_frame p3 = Ret (p4, Some t2) ∧
    adapter_allocate_frame p4 = Ret (p5, Some t1) ∧ takes p [n; f; t3; t2; t1] p5.
Proof.
  intros Hp Hd Hn. destruct (allocate_took p Hp Hd ltac:(lia)) as (p1 & n & R1 & T1).
  destruct (took_next _ _ _ Hp Hd T1) as (Hp1 & Hd1 & Ht1 & Hb1 & Hl1).
  destruct (adapter_took p1 Hp1 Hd1 ltac:(lia)) as (p2 & f & R2 & T2).
  destruct (took_next _ _ _ Hp1 Hd1 T2) as (Hp2 & Hd2 & Ht2 & Hb2 & Hl2).
  destruct (adapter_took p2 Hp2 Hd2 ltac:(lia)) as (p3 & t3 & R3 & T3).
  destruct (took_next _ _ _ Hp2 Hd2 T3) as (Hp3 & Hd3 & Ht3 & Hb3 & Hl3).
  destruct (adapter_took p3 Hp3 Hd3 ltac:(lia)) as (p4 & t2 & R4 & T4).
  destruct (took_next _ _ _ Hp3 Hd3 T4) as (Hp4 & Hd4 & Ht4 & Hb4 & Hl4).
  destruct (adapter_took p4 Hp4 Hd4 ltac:(lia)) as (p5 & t1 & R5 & T5).
  exists p1, p2, p3, p4, p5, n, f, t3, t2, t1. split_and!; [done..|].
  by repeat (econstructor; [eassumption|]); constructor.
Qed.

Lemma virt_add_low a b : 0 <= a → 0 <= b → a + b < 2 ^ 47 → virt_add a b = Ret (a + b).
Proof.
  intros. unfold virt_add. rewrite (proj2 (Z.ltb_lt _ _)) by lia. by apply view_virt_addr; lia.
Qed.

Lemma view_frame_aligned t : (PAGE_SIZE | t) → frame_of t = t.
Proof. intros Ht%Z.mod_divide; [|done]. by rewrite view_frame_of, Ht, Z.sub_0_r. Qed.

Lemma active_table st off :
  0 <= off → 0 <= cr3 st → off + cr3 st < 2 ^ 47 → active_level_4_table st off = Ret (cr3 st).
Proof.
  intros. unfold active_level_4_table. rewrite virt_add_low by done. cbn. unfold physical_of.
  f_equal. lia.
Qed.

(** The page of the private region, with its tables, through the view. *)
Lemma private_page_mapped m off fl s s1 s2 s3 s4 n f t3 t2 t1 :
  0 <= off → load m (slot n (index 3 PRIVATE_REGION_ADDR)) = 0 →
  adapter_allocate_frame s = Ret (s1, Some f) → adapter_allocate_frame s1 = Ret (s2, Some t3) →
  adapter_allocate_frame s2 = Ret (s3, Some t2) → adapter_allocate_frame s3 = Ret (s4, Some t1) →
  NoDup [n; t3; t2; t1] → Forall (frame_ok off) [n; t3; t2; t1; f] →
  ∃ m', map_page_with adapter_allocate_frame (mkView m n off) s PRIVATE_REGION_ADDR fl =
          Ret (mkView m' n off, s4, Ok f) ∧
        ∀ a, load m' a = load (map_chain m n t3 t2 t1 PRIVATE_REGION_ADDR f fl) a.
Proof.
  intros Ho Hz R1 R2 R3 R4 Hnd Hok.
  destruct (view_map_to _ adapter_allocate_frame m n off s1 PRIVATE_REGION_ADDR f fl s2 s3 s4 t3 t2 t1)
    as (m' & Hmap & Hm'); try done.
  exists m'. split; [|done]. unfold map_page_with. rewrite R1. cbn [mbind outcome_bind snd fst].
  rewrite view_page_of. change (PRIVATE_REGION_ADDR - _) with PRIVATE_REGION_ADDR. by rewrite Hmap.
Qed.

(** The run of [AddressSpace::new] when it is possible. *)
Lemma AddressSpace_new_made nx st off p :
  space_ready st off p →
  ∃ m' p' n f t3 t2 t1,
    AddressSpace_new nx st = Ret (set_phys (set_mem st m') (Some p'), Some (mkAddressSpace n)) ∧
    space_made nx (mem st) m' (cr3 st) n f t3 t2 t1 ∧
    Forall (free_frame p) [n; f; t3; t2; t1] ∧ NoDup [n; f; t3; t2; t1] ∧
    phys_wf p' ∧ live_pages p' = live_pages p + 5.
Proof.
  intros [[Ho Ho0] [Hph Hp] [Hd Hb] Hreach Hcr3 Hn Htab Habs].
  destruct (five_frames p Hp Hd Hn) as (p1&p2&p3&p4&p5&n&f&t3&t2&t1&R1&R2&R3&R4&R5&HT).
  destruct (takes_spec _ _ _ Hp Hd HT) as (Hp5 & Hl5 & Hnd & Hfree).
  assert (∀ x, x ∈ [n; f; t3; t2; t1] →
            (PAGE_SIZE | x) ∧ 0 <= x ∧ off + x + PAGE_SIZE <= 2 ^ 47) as Hx.
  { rewrite Forall_forall in Hfree. intros x Hin. destruct (Hfree x Hin) as (? & ? & ? & _).
    split_and!; [done|lia|lia]. }
  assert (Forall (λ t, (PAGE_SIZE | t) ∧ 0 <= t < 2 ^ 52) [n; t3; t2; t1; f]) as Hal.
  { apply Forall_forall. intros x Hin. destruct (Hx x) as (? & ? & ?);
      [revert Hin; rewrite !elem_of_cons; tauto|]. unfold PAGE_SIZE in *. split; [done|lia]. }
  assert (NoDup [n; t3; t2; t1; f]) as Hnd'.
  { change (NoDup ([n] ++ ([t3; t2; t1] ++ [f]))). by rewrite (Permutation_app_comm [t3; t2; t1]). }
  assert (∀ i, 0 <= i < 512 → ¬ in_page n (slot (cr3 st) i)) as Hact.
  { intros i Hi Hin. apply (Htab (i * 2 ^ 39) (slot (cr3 st) i)); [by apply slot_walked|].
    rewrite Forall_cons in Hfree. by apply Hfree. }
  set (m2 := clone_entries (zero_table (mem st) n) (cr3 st) n).
  destruct (private_page_mapped m2 off (data_flags nx) p1 p2 p3 p4 p5 n f t3 t2 t1)
    as (mc & Hmap & Hmc); try done.
  { unfold m2. rewrite (proj1 (clone_entries_spec _ _ _ Hact)) by apply index_range.
    rewrite zero_table_out by (apply Hact, index_range). done. }
  { by apply (NoDup_app [n; t3; t2; t1] [f]) in Hnd' as [? _]. }
  { apply Forall_forall. intros x Hin. destruct (Hx x) as (? & ? & ?);
      [revert Hin; rewrite !elem_of_cons; tauto|]. unfold frame_ok, PAGE_SIZE in *. split_and!; [done|lia..]. }
  destruct (Hx n) as (Hn1 & Hn2 & Hn3); [in_list|]. destruct (Hx f) as (Hf1 & Hf2 & Hf3); [in_list|].
  exists (store mc f PRIVATE_VALUE), p5, n, f, t3, t2, t1.
  split_and!; [|by apply space_made_intro|done|done|done|simpl in Hl5; lia].
  unfold AddressSpace_new. rewrite Ho, Hph, R1. cbn [mbind outcome_bind fst snd].
  rewrite virt_add_low, view_frame_aligned by (done || unfold PAGE_SIZE in *; lia).
  cbn [mbind outcome_bind]. rewrite active_table by (cbn; lia). cbn [mbind outcome_bind].
  rewrite view_virt_addr by done. cbn [mbind outcome_bind].
  assert (∀ x, physical_of off (off + x) = x) as Hphys by (intros; unfold physical_of; lia).
  rewrite Hphys. change (Z.lor (Z.lor PRESENT WRITABLE) (nx_flag nx)) with (data_flags nx).
  cbn [mem set_mem set_phys cr3]. fold m2. rewrite Hmap. cbn [mbind outcome_bind].
  rewrite virt_add_low by (unfold PAGE_SIZE in *; lia). cbn [mbind outcome_bind].
  by rewrite Hphys.
Qed.
End new.

(** ** Translations of a new address space *)

Lemma walk_step_unused m level v : walk_step m level 0 v = None.
Proof. done. Qed.

Lemma walk_step_table m level t fl v :
  (PAGE_SIZE | t) → 0 <= t < 2 ^ 52 → fl = 3 ∨ (∃ nx, fl = data_flags nx) →
  walk_step m (Datatypes.S level) (Z.lor t fl) v = translate_at m level t v.
Proof.
  intros Hd Ht Hfl. destruct (chain_entry t fl Hd Ht Hfl) as (Hp & Hh & Ha).
  unfold walk_step. by rewrite Hp, Hh, Ha, andb_false_r.
Qed.

Lemma walk_step_page m f fl v :
  (PAGE_SIZE | f) → 0 <= f < 2 ^ 52 → fl = 3 ∨ (∃ nx, fl = data_flags nx) →
  walk_step m 0 (Z.lor f fl) v = Some (f + page_offset 0 v).
Proof.
  intros Hd Hf Hfl. destruct (chain_entry f fl Hd Hf Hfl) as (Hp & _ & Ha).
  unfold walk_step. by rewrite Hp, Ha.
Qed.

(** The 36 bits of an address that choose the page. *)
Definition page_bits (v : Z) : Z := (v / 2 ^ 12) mod 2 ^ 36.

Lemma index_page_bits v w level :
  page_bits v = page_bits w → (level < 4)%nat → index level v = index level w.
Proof.
  intros Hp Hl.
  assert (∀ x, index level x = page_bits x / 2 ^ (9 * Z.of_nat level) mod 2 ^ 9) as Hx.
  { intros x. unfold index, page_bits. rewrite Z.pow_add_r by lia. rewrite <- Z.div_div by lia.
    generalize (x / 2 ^ 12). intros y. apply Z.bits_inj'. intros k Hk. change 512 with (2 ^ 9).
    destruct (Z.lt_ge_cases k 9); [|by rewrite !Z.mod_pow2_bits_high by lia].
    rewrite !(Z.mod_pow2_bits_low _ 9) by lia. rewrite !Z.div_pow2_bits by lia.
    by rewrite Z.mod_pow2_bits_low by lia. }
  by rewrite !Hx, Hp.
Qed.

Section made.
Context (nx : bool) (m m' : words) (cr : Z) (p : PhysicalAllocator) (n f t3 t2 t1 : Z).
Context (Hmade : space_made nx m m' cr n f t3 t2 t1).
Context (Hfree : Forall (free_frame p) [n; f; t3; t2; t1]).
Context (Htab : ∀ v a, a ∈ walk_slots m 3 cr v → ¬ unowned p a).
Context (Habs : load m (slot cr (index 3 PRIVATE_REGION_ADDR)) = 0).

Lemma made_rest a : ¬ unowned p a → load m' a = load m a.
Proof.
  intros Ha. apply (sm_rest _ _ _ _ _ _ _ _ _ Hmade). apply Forall_forall. intros x Hin Hpage.
  apply Ha. rewrite Forall_forall in Hfree. apply (Hfree x); [|done].
  revert Hin. rewrite !elem_of_cons. tauto.
Qed.

(** The active table translates as before. *)
Lemma made_active v : translate m' cr v = translate m cr v.
Proof. apply translate_agree. intros a Ha. eapply made_rest, Htab, Ha. Qed.

(** Away from the private region, the new table translates as the active one. *)
Lemma made_shared v :
  index 3 v ≠ index 3 PRIVATE_REGION_ADDR → translate m' n v = translate m cr v.
Proof.
  intros Hv. pose proof (made_active v) as Ha. unfold translate in *.
  rewrite (translate_at_step m' 3 cr), (translate_at_step m 3 cr) in Ha.
  rewrite (translate_at_step m' 3 n), (translate_at_step m 3 cr).
  rewrite (sm_l4 _ _ _ _ _ _ _ _ _ Hmade) by apply index_range.
  rewrite decide_False by done. rewrite <- Ha. f_equal. symmetry. eapply made_rest, Htab.
  cbn [walk_slots]. left.
Qed.

Lemma made_region v :
  index 3 v = index 3 PRIVATE_REGION_ADDR →
  translate m cr v = None ∧
  translate m' n v = if decide (page_bits v = page_bits PRIVATE_REGION_ADDR)
                     then Some (f + page_offset 0 v) else None.
Proof.
  intros Hv. unfold translate. rewrite (translate_at_step m 3 cr), Hv, Habs. split; [done|].
  pose proof (sm_aligned _ _ _ _ _ _ _ _ _ Hmade) as Hal. rewrite !Forall_cons in Hal.
  destruct Hal as ((?&?)&(?&?)&(?&?)&(?&?)&(?&?)&_).
  rewrite (translate_at_step m' 3 n), (sm_l4 _ _ _ _ _ _ _ _ _ Hmade) by apply index_range.
  rewrite decide_True, walk_step_table by (done || by left).
  rewrite translate_at_step, (sm_t3 _ _ _ _ _ _ _ _ _ Hmade) by apply index_range.
  destruct (decide (index 2 v = _)) as [I2|I2].
  2:{ rewrite decide_False; [done|]. intros Hp. apply I2. apply index_page_bits; [done|lia]. }
  rewrite walk_step_table by (done || by left).
  rewrite translate_at_step, (sm_t2 _ _ _ _ _ _ _ _ _ Hmade) by apply index_range.
  destruct (decide (index 1 v = _)) as [I1|I1].
  2:{ rewrite decide_False; [done|]. intros Hp. apply I1. apply index_page_bits; [done|lia]. }
  rewrite walk_step_table by (done || by left).
  rewrite translate_at_step, (sm_t1 _ _ _ _ _ _ _ _ _ Hmade) by apply index_range.
  destruct (decide (index 0 v = _)) as [I0|I0].
  2:{ rewrite decide_False; [done|]. intros Hp. apply I0. apply index_page_bits; [done|lia]. }
  rewrite walk_step_page by (done || (right; by exists nx)).
  rewrite decide_True; [done|]. apply index_determines.
  intros [|[|[|[|level]]]] Hl; (done || lia).
Qed.

(** A new space differs from the active one in the private page and in nothing else. *)
Lemma made_translate v :
  translate m' n v = if decide (page_bits v = page_bits PRIVATE_REGION_ADDR)
                     then Some (f + page_offset 0 v) else translate m cr v.
Proof.
  destruct (decide (index 3 v = index 3 PRIVATE_REGION_ADDR)) as [Hi|Hi].
  - destruct (made_region v Hi) as [-> ->]. done.
  - rewrite made_shared by done. rewrite decide_False; [done|].
    intros Hp. apply Hi. apply index_page_bits; [done|lia].
Qed.
End made.

(** Two tables that share an entry share everything below it, whatever is mapped
    there later. *)
Lemma shared_entry m l4 l4' v :
  load m (slot l4 (index 3 v)) = load m (slot l4' (index 3 v)) → translate m l4 v = translate m l4' v.
Proof. intros He. unfold translate. by rewrite !(translate_at_step m 3), He. Qed.

(** ** A concrete view

    The reading of the interface that the witnesses run: a page under an unused
    level-4 entry gets its chain of tables, any other request is refused. *)
Definition chain_map_to (S : Type) (alloc : frame_source S) (v : table_view) (s : S)
    (page frame flags : Z) : outcome (table_view * S * result unit unit) :=
  if negb (load (view_mem v) (slot (view_l4 v) (index 3 page)) =? 0) then Ret (v, s, Err tt) else
  r3 ← alloc s;
  match r3 with
  | (s, None) => Ret (v, s, Err tt)
  | (s, Some t3) =>
      r2 ← alloc s;
      match r2 with
      | (s, None) => Ret (v, s, Err tt)
      | (s, Some t2) =>
          r1 ← alloc s;
          match r1 with
          | (s, None) => Ret (v, s, Err tt)
          | (s, Some t1) =>
              Ret (mkView (map_chain (view_mem v) (view_l4 v) t3 t2 t1 page frame flags)
                     (view_l4 v) (view_offset v), s, Ok tt)
          end
      end
  end.

#[export] Instance chain_mapper : Mapper table_view := {
  walk v p := (λ a, (a, 0)) <$> translate (view_mem v) (view_l4 v) p;
  map_to := chain_map_to;
  unmap v p := (v, Err tt);
  virt_addr a := if (0 <=? a) && (a <? 2 ^ 47) || (2 ^ 64 - 2 ^ 47 <=? a) && (a <? 2 ^ 64)
                 then Ret a else Panic;
  page_of v := v - v mod PAGE_SIZE;
  frame_of a := a - a mod PAGE_SIZE;
}.

#[export] Instance chain_laws : ViewLaws.
Proof.
  split; [|done|done| |].
  - intros a Ha. simpl. by rewrite (proj2 (Z.leb_le 0 a)), (proj2 (Z.ltb_lt a (2 ^ 47))) by lia.
  - intros S alloc m l4 off s page frame fl s1 s2 s3 t3 t2 t1 _ Hz R3 R2 R1 _ _.
    eexists. split; [|done]. cbn [map_to chain_mapper]. unfold chain_map_to. cbn [view_mem view_l4].
    rewrite Hz, R3. cbn [Z.eqb negb mbind outcome_bind]. rewrite R2. cbn [mbind outcome_bind]. by rewrite R1.
  - intros S alloc v s page frame fl v' s' r Hm. cbn [map_to chain_mapper] in Hm. unfold chain_map_to in Hm.
    destruct (negb _); [injection Hm as _ <- _; exists 0%nat; split; [lia|constructor]|].
    apply outcome_bind_ret in Hm as ([s1 [t3|]] & R3 & Hm);
      [|injection Hm as _ <- _; exists 1%nat; split; [lia|by repeat econstructor]].
    apply outcome_bind_ret in Hm as ([s2 [t2|]] & R2 & Hm);
      [|injection Hm as _ <- _; exists 2%nat; split; [lia|by repeat econstructor]].
    apply outcome_bind_ret in Hm as ([s3 [t1|]] & R1 & Hm); injection Hm as _ <- _;
      exists 3%nat; (split; [lia|by repeat econstructor]).
Qed.

(** One page of level-4 table, outside the arena, with an entry for the first 512 GiB
    that maps 2 MiB as a huge page. *)
Definition demo_words : words :=
  store (store (store ∅ (slot 0x1000 0) 0x2003) (slot 0x2000 0) 0x3003) (slot 0x3000 0) 0x83.

Definition demo_machine : machine :=
  mkMachine demo_words 0x1000 0 (Some 0x10000000000) (Some demo_phys) false.

Lemma walk_slots_closed m (P : Z → Prop) level t v :
  (∀ t i, P t → 0 <= i < 512 → entry_present (load m (slot t i)) = true →
          P (entry_addr 0 (load m (slot t i)))) →
  P t → Forall (λ a, ∃ t i, P t ∧ 0 <= i < 512 ∧ a = slot t i) (walk_slots m level t v).
Proof.
  intros Hc. revert t. induction level as [|level IH]; intros t Ht; cbn [walk_slots].
  - constructor; [exists t, (index 0 v); auto using index_range|]. by destruct (negb _).
  - constructor; [exists t, (index (Datatypes.S level) v); auto using index_range|].
    destruct (entry_present _) eqn:Ep; cbn [negb]; [|done].
    destruct (_ && _); [done|]. apply IH, Hc; auto using index_range.
Qed.

(** Its tables are in the first five pages. *)
Lemma demo_walk_low v a : a ∈ walk_slots demo_words 3 0x1000 v → a < 0x5000.
Proof.
  intros Ha.
  pose proof (walk_slots_closed demo_words (λ t, t ∈ [0; 0x1000; 0x2000; 0x3000]) 3 0x1000 v) as Hall.
  rewrite Forall_forall in Hall. destruct (Hall) with (x := a) as (t & i & Ht & Hi & ->); [|cbn beta; in_list|done|].
  - intros t i _ _. unfold demo_words. rewrite !load_store.
    repeat case_decide; [intros _; cbn beta; eapply bool_decide_eq_true_1; vm_compute; reflexivity..|done].
  - rewrite !elem_of_cons in Ht. unfold slot.
    destruct Ht as [->|[->|[->|[->|Ht]]]]; try lia. by apply elem_of_nil in Ht.
Qed.

Lemma demo_walk v a : a ∈ walk_slots demo_words 3 0x1000 v → ¬ unowned demo_phys a.
Proof. intros Ha%demo_walk_low [[Hlo _] _]. change (base demo_phys) with 0x100000 in Hlo. lia. Qed.

Lemma demo_ready : space_ready demo_machine 0x10000000000 demo_phys.
Proof.
  split; cbn [demo_machine PHYS_MEM_OFFSET PHYS cr3 mem].
  - done.
  - split; [done|apply demo_phys_wf].
  - split; [apply Z.mod_divide; [discriminate|reflexivity]|discriminate].
  - discriminate.
  - done.
  - discriminate.
  - intros v a. apply demo_walk.
  - reflexivity.
Qed.

(** ** Properties *)

(** [C15] [AddressSpace::new] makes a second address space that differs from the
    active one in the private page and in nothing else, and the active one is
    untouched.  It takes exactly five frames.  Every address outside the private
    page translates in the new space as in the active one; the private page has no
    translation in the active space and resolves in the new one to a fresh frame that
    holds [PRIVATE_VALUE].  Whatever memory becomes later, what hangs under an entry
    that both tables kept is seen in both; a region whose entry was unused when the
    space was made stays invisible in it, wherever the active table maps it later. *)
Theorem new_space_isolated `{Profile} `{Mapper table_view, !ViewLaws} nx st off p
    (Hready : space_ready st off p) :
  ∃ m' p' n f, AddressSpace_new nx st =
      Ret (set_phys (set_mem st m') (Some p'), Some (mkAddressSpace n)) ∧
    phys_wf p' ∧ live_pages p' = live_pages p + 5 ∧ free_frame p n ∧ free_frame p f ∧ n ≠ f ∧
    load m' f = PRIVATE_VALUE ∧
    (∀ v, translate m' (cr3 st) v = translate (mem st) (cr3 st) v) ∧
    (∀ v, page_bits v = page_bits PRIVATE_REGION_ADDR → translate (mem st) (cr3 st) v = None) ∧
    (∀ v, translate m' n v = if decide (page_bits v = page_bits PRIVATE_REGION_ADDR)
                             then Some (f + page_offset 0 v) else translate (mem st) (cr3 st) v) ∧
    (∀ later v, index 3 v ≠ index 3 PRIVATE_REGION_ADDR →
       load later (slot n (index 3 v)) = load m' (slot n (index 3 v)) →
       (load later (slot (cr3 st) (index 3 v)) = load m' (slot (cr3 st) (index 3 v)) →
          translate later n v = translate later (cr3 st) v) ∧
       (load m' (slot (cr3 st) (index 3 v)) = 0 → translate later n v = None)).
Proof.
  destruct (AddressSpace_new_made nx st off p Hready)
    as (m' & p' & n & f & t3 & t2 & t1 & Hrun & Hmade & Hfree & Hnd & Hp' & Hl).
  destruct Hready as [_ _ _ _ _ _ Htab Habs].
  pose proof (made_active _ _ _ _ _ _ _ _ _ _ Hmade Hfree Htab) as Hact.
  pose proof (made_rest _ _ _ _ _ _ _ _ _ _ Hmade Hfree) as Hrest.
  exists m', p', n, f. rewrite !Forall_cons in Hfree. rewrite NoDup_cons, not_elem_of_cons in Hnd.
  split_and!; try tauto; [apply (sm_value _ _ _ _ _ _ _ _ _ Hmade)| | |].
  - intros v Hv. apply (made_region _ _ _ _ _ _ _ _ _ Hmade Habs). by apply index_page_bits; [|lia].
  - apply (made_translate _ _ _ _ p _ _ _ _ _ Hmade); [by rewrite !Forall_cons|done|done].
  - intros later v Hv Hn.
    assert (load m' (slot n (index 3 v)) = load m' (slot (cr3 st) (index 3 v))) as Heq.
    { rewrite (sm_l4 _ _ _ _ _ _ _ _ _ Hmade), decide_False by (done || apply index_range).
      symmetry. eapply Hrest, (Htab v). left. }
    split; intros Hc.
    + apply shared_entry. congruence.
    + unfold translate. rewrite translate_at_step. by replace (load later _) with 0 by congruence.
Qed.

Lemma new_space_isolated_witness :
  ∃ m' p' n f, @AddressSpace_new true chain_mapper true demo_machine =
      Ret (set_phys (set_mem demo_machine m') (Some p'), Some (mkAddressSpace n)) ∧
    load m' f = PRIVATE_VALUE ∧ translate m' n 0x123456 = Some 0x123456 ∧
    translate m' n 0x111111110010 = Some (f + 0x10) ∧ translate m' 0x1000 0x111111110010 = None.
Proof.
  destruct (@new_space_isolated true chain_mapper chain_laws true demo_machine _ _ demo_ready)
    as (m' & p' & n & f & Hrun & _ & _ & _ & _ & _ & Hv & Hact & _ & Hnew & _).
  exists m', p', n, f. split; [exact Hrun|]. split; [exact Hv|].
  rewrite !Hnew. change (cr3 demo_machine) with 0x1000 in Hact. rewrite Hact.
  split; [vm_compute; reflexivity|]. split; [|vm_compute; reflexivity].
  rewrite decide_True by (vm_compute; reflexivity). reflexivity.
Defined.

(** The check of [kernel_main] passes whenever an address space can be made: it
    reads [PRIVATE_VALUE] through the new tables, and leaves CR3, the lock and every
    translation of the active space as they were. *)
Theorem address_space_check_passes `{Profile} `{Mapper table_view, !ViewLaws} nx st off p
    (Hready : space_ready st off p) (Hlock : ACTIVE_SWITCH_LOCK st = false) :
  ∃ st', address_space_ok nx st = Ret (st', true) ∧
    cr3 st' = cr3 st ∧ cr3_flags st' = cr3_flags st ∧ ACTIVE_SWITCH_LOCK st' = false ∧
    ∀ v, translate (mem st') (cr3 st') v = translate (mem st) (cr3 st) v.
Proof.
  assert (space_ready (set_lock st true) off p) as Hready' by (by destruct Hready).
  destruct (AddressSpace_new_made nx _ off p Hready')
    as (m' & p' & n & f & t3 & t2 & t1 & Hrun & Hmade & Hfree & _).
  destruct Hready' as [[Ho ?] _ _ _ [? ?] _ Htab Habs].
  unfold address_space_ok, with_lock. rewrite Hlock.
  unfold private_region_absent_from_active. rewrite Ho, view_virt_addr by done.
  cbn [mbind outcome_bind]. rewrite active_table by done. cbn [mbind outcome_bind].
  rewrite view_page_of. change (PRIVATE_REGION_ADDR - _) with PRIVATE_REGION_ADDR.
  rewrite Habs, Hrun. cbn [mbind outcome_bind]. unfold switch_to, read_volatile. cbn [mem cr3 Cr3_write set_phys set_mem l4_frame].
  rewrite (made_translate _ _ _ _ p _ _ _ _ _ Hmade Hfree Htab Habs), decide_True by done.
  change (page_offset 0 PRIVATE_REGION_ADDR) with 0. rewrite Z.add_0_r, (sm_value _ _ _ _ _ _ _ _ _ Hmade).
  cbn [mbind outcome_bind]. eexists. split; [done|]. split_and!; try done.
  apply (made_active _ _ _ _ _ _ _ _ _ _ Hmade Hfree Htab).
Qed.

Lemma address_space_check_passes_witness :
  ∃ st', @address_space_ok true chain_mapper true demo_machine = Ret (st', true) ∧ cr3 st' = 0x1000.
Proof.
  destruct (@address_space_check_passes true chain_mapper chain_laws true demo_machine _ _ demo_ready
              eq_refl) as (st' & Hrun & Hc & _).
  exists st'. exact (conj Hrun Hc).
Defined.

(** *** However it ends *)

Section frames_kept.
Context `{Profile} `{Mapper table_view, !ViewLaws}.

Lemma draws_frames n phys phys' :
  phys_wf phys → draws adapter_allocate_frame n phys phys' → same_frames phys phys'.
Proof.
  intros Hs Hd. induction Hd as [s|n s s1 o s2 Ha _ IH]; [done|].
  unfold adapter_allocate_frame in Ha.
  destruct (decide (live_pages s < total_pages s)) as [Hlt|Hge].
  - destruct (allocate_frame s Hs Hlt) as (s1' & a & Ha' & Hsame & _). rewrite Ha' in Ha. injection Ha as <- _.
    eapply same_frames_trans; [exact Hsame|]. apply IH, Hsame.
  - pose proof (live_pages_le s Hs). pose proof (pages_in_nonneg (free_blocks s)).
    rewrite allocate_exhausted in Ha by (done || lia). injection Ha as <- _. by apply IH.
Qed.

(** Whatever it answers, [AddressSpace::new] leaves a consistent allocator and nothing
    changed but the allocator and memory. *)
Lemma AddressSpace_new_frames nx st p st' o :
  PHYS st = Some p → phys_wf p → AddressSpace_new nx st = Ret (st', o) →
  ∃ m' p', st' = set_phys (set_mem st m') (Some p') ∧ same_frames p p'.
Proof.
  intros Hph Hp Hrun. unfold AddressSpace_new in Hrun.
  destruct (PHYS_MEM_OFFSET st) as [off|]; [|injection Hrun as <- _; exists (mem st), p; by destruct st; cbn in *; subst].
  rewrite Hph in Hrun. apply outcome_bind_ret in Hrun as ([p1 r1] & Ha & Hrun). cbn [fst snd] in Hrun.
  assert (same_frames p p1) as Hs1.
  { destruct (decide (live_pages p < total_pages p)) as [Hlt|Hge].
    - destruct (allocate_frame p Hp Hlt) as (s1' & a & Ha' & Hsame & _). rewrite Ha' in Ha. by injection Ha as <- _.
    - pose proof (live_pages_le p Hp). pose proof (pages_in_nonneg (free_blocks p)).
      rewrite allocate_exhausted in Ha by (done || lia). by injection Ha as <- _. }
  destruct r1 as [n|e]; [|injection Hrun as <- _; exists (mem st), p1; by destruct st].
  apply outcome_bind_ret in Hrun as (v1 & _ & Hrun). apply outcome_bind_ret in Hrun as (act & _ & Hrun).
  apply outcome_bind_ret in Hrun as (va & _ & Hrun). apply outcome_bind_ret in Hrun as ([[nm p2] res] & Hm & Hrun).
  assert (same_frames p1 p2) as Hs2.
  { clear Hrun. match type of Hm with map_page_with _ ?v _ _ _ = _ => generalize dependent v end. intros v0 Hm.
    unfold map_page_with in Hm. apply outcome_bind_ret in Hm as ([p1' fr] & Hfr & Hm). cbn [fst snd] in Hm.
    assert (same_frames p1 p1') as Hs1' by (apply (draws_frames 1); [apply Hs1|by repeat econstructor]).
    destruct fr as [fr|]; [|injection Hm as _ <- _; exact Hs1'].
    apply outcome_bind_ret in Hm as ([[v2 p2'] r2] & Hmt & Hm).
    destruct (view_map_draws _ _ _ _ _ _ _ _ _ _ Hmt) as (n' & _ & Hd).
    eapply same_frames_trans; [exact Hs1'|]. apply draws_frames in Hd; [|apply Hs1'].
    destruct r2 as [[]|[]]; injection Hm as _ <- _; done. }
  assert (same_frames p p2) as Hs by (by eapply same_frames_trans).
  destruct res as [fr|e]; [|injection Hrun as <- _; exists (view_mem nm), p2; by destruct st].
  apply outcome_bind_ret in Hrun as (fv & _ & Hrun). injection Hrun as <- _.
  eexists _, p2. by destruct st.
Qed.

(** The same of the check, which puts CR3 back. *)
Lemma address_space_ok_frames nx st p st' ok :
  PHYS st = Some p → phys_wf p → address_space_ok nx st = Ret (st', ok) →
  ∃ m' p', st' = set_phys (set_mem st m') (Some p') ∧ same_frames p p' ∧ ACTIVE_SWITCH_LOCK st = false.
Proof.
  intros Hph Hp Hrun. unfold address_space_ok, with_lock in Hrun.
  destruct (ACTIVE_SWITCH_LOCK st) eqn:El; [done|].
  apply outcome_bind_ret in Hrun as ([st1 ok1] & Hf & Hrun). injection Hrun as <- _. cbn [fst snd] in *.
  apply outcome_bind_ret in Hf as (ab & _ & Hf). apply outcome_bind_ret in Hf as ([st2 o] & Hnew & Hf).
  destruct (AddressSpace_new_frames nx (set_lock st true) p st2 o Hph Hp Hnew) as (m' & p' & -> & Hs).
  exists m', p'. split; [|done]. destruct o as [sp|]; [|injection Hf as <- _; destruct st; cbn in *; by subst].
  apply outcome_bind_ret in Hf as (v & _ & Hf). injection Hf as <- _. destruct st; cbn in *; by subst.
Qed.
End frames_kept.

(** What is returned when no address space can be made, and what is lost. *)
Lemma new_space_refused `{Profile} `{Mapper table_view, !ViewLaws} nx st :
  (PHYS_MEM_OFFSET st = None ∨ PHYS st = None → AddressSpace_new nx st = Ret (st, None)) ∧
  (∀ off p, PHYS_MEM_OFFSET st = Some off → PHYS st = Some p → phys_wf p →
     live_pages p = total_pages p → AddressSpace_new nx st = Ret (st, None)).
Proof.
  unfold AddressSpace_new. split.
  - intros [->| ->]; [done|]. by destruct (PHYS_MEM_OFFSET st).
  - intros off p -> Hph Hp Hfull. rewrite Hph, allocate_exhausted by done. cbn.
    destruct st. cbn in *. by subst.
Qed.
