(* ===== verification/Context.v ===== *)
(** * Context switching

    Model of [src/kernel-x86_64/src/context.rs]: the instructions of [switch_to]
    and [task_trampoline] run on a machine with byte-addressed memory, and
    [init_stack] writes the frame a new task starts from. *)
From S2P Require Import Prelude.

(** ** Memory *)

Definition memory : Type := Z → Z.

Definition store_byte (m : memory) (a v : Z) : memory := λ b, if b =? a then v else m b.

(** Little-endian loads and stores of [n] bytes. *)
Fixpoint load_bytes (n : nat) (m : memory) (a : Z) : Z :=
  match n with
  | O => 0
  | S n => m a + 256 * load_bytes n m (a + 1)
  end.

Fixpoint store_bytes (n : nat) (m : memory) (a v : Z) : memory :=
  match n with
  | O => m
  | S n => store_bytes n (store_byte m a (v mod 256)) (a + 1) (v / 256)
  end.

Definition load64 (m : memory) (a : Z) : Z := load_bytes 8 m a.
Definition store64 (m : memory) (a v : Z) : memory := store_bytes 8 m a v.
Arguments load64 : simpl never.
Arguments store64 : simpl never.

(** ** The machine *)

Inductive reg := RSP | RBP | RBX | R12 | R13 | R14 | R15 | RDI | RSI | RAX | RCX | RDX.

(** The registers these routines touch, the code and stack selectors, memory. *)
Record cpu := mkCpu {
  rsp : Z; rbp : Z; rbx : Z; r12 : Z; r13 : Z; r14 : Z; r15 : Z; rdi : Z; rsi : Z;
  rax : Z; rcx : Z; rdx : Z;
  rip : Z;
  rflags : Z;
  cs : Z;
  ss : Z;
  mem : memory;
}.

Definition interrupts_enabled (c : cpu) : bool := Z.testbit c.(rflags) 9.

Definition get_reg (r : reg) (c : cpu) : Z :=
  match r with
  | RSP => c.(rsp) | RBP => c.(rbp) | RBX => c.(rbx) | R12 => c.(r12) | R13 => c.(r13)
  | R14 => c.(r14) | R15 => c.(r15) | RDI => c.(rdi) | RSI => c.(rsi) | RAX => c.(rax)
  | RCX => c.(rcx) | RDX => c.(rdx)
  end.

Definition set_reg (r : reg) (v : Z) (c : cpu) : cpu :=
  let 'mkCpu sp bp bx a b d e di si ax cx dx ip fl cs ss m := c in
  match r with
  | RSP => mkCpu v bp bx a b d e di si ax cx dx ip fl cs ss m
  | RBP => mkCpu sp v bx a b d e di si ax cx dx ip fl cs ss m
  | RBX => mkCpu sp bp v a b d e di si ax cx dx ip fl cs ss m
  | R12 => mkCpu sp bp bx v b d e di si ax cx dx ip fl cs ss m
  | R13 => mkCpu sp bp bx a v d e di si ax cx dx ip fl cs ss m
  | R14 => mkCpu sp bp bx a b v e di si ax cx dx ip fl cs ss m
  | R15 => mkCpu sp bp bx a b d v di si ax cx dx ip fl cs ss m
  | RDI => mkCpu sp bp bx a b d e v si ax cx dx ip fl cs ss m
  | RSI => mkCpu sp bp bx a b d e di v ax cx dx ip fl cs ss m
  | RAX => mkCpu sp bp bx a b d e di si v cx dx ip fl cs ss m
  | RCX => mkCpu sp bp bx a b d e di si ax v dx ip fl cs ss m
  | RDX => mkCpu sp bp bx a b d e di si ax cx v ip fl cs ss m
  end.

Definition set_rip (v : Z) (c : cpu) : cpu :=
  let 'mkCpu sp bp bx a b d e di si ax cx dx _ fl cs ss m := c in
  mkCpu sp bp bx a b d e di si ax cx dx v fl cs ss m.
Definition set_rflags (v : Z) (c : cpu) : cpu :=
  let 'mkCpu sp bp bx a b d e di si ax cx dx ip _ cs ss m := c in
  mkCpu sp bp bx a b d e di si ax cx dx ip v cs ss m.
Definition set_selectors (v w : Z) (c : cpu) : cpu :=
  let 'mkCpu sp bp bx a b d e di si ax cx dx ip fl _ _ m := c in
  mkCpu sp bp bx a b d e di si ax cx dx ip fl v w m.
Definition set_mem (m : memory) (c : cpu) : cpu :=
  let 'mkCpu sp bp bx a b d e di si ax cx dx ip fl cs ss _ := c in
  mkCpu sp bp bx a b d e di si ax cx dx ip fl cs ss m.

Inductive instr :=
| Push (r : reg)
| Pop (r : reg)
| MovStore (base src : reg)   (** [mov \[base\], src] *)
| MovLoad (dst base : reg)    (** [mov dst, \[base\]] *)
| MovReg (dst src : reg)
| Lea (dst : reg) (a : Z)     (** the address of a symbol *)
| PushFq
| OrImm (dst : reg) (i : Z)
| RetNear
| Sti
| Jmp (r : reg)
| Iretq.

Definition push (v : Z) (c : cpu) : cpu :=
  let sp := (c.(rsp) - 8) mod 2 ^ 64 in
  set_reg RSP sp (set_mem (store64 c.(mem) sp v) c).

Definition exec (c : cpu) (i : instr) : cpu :=
  match i with
  | Push r => push (get_reg r c) c
  | Pop r =>
      let v := load64 c.(mem) c.(rsp) in
      set_reg r v (set_reg RSP ((c.(rsp) + 8) mod 2 ^ 64) c)
  | MovStore base src => set_mem (store64 c.(mem) (get_reg base c) (get_reg src c)) c
  | MovLoad dst base => set_reg dst (load64 c.(mem) (get_reg base c)) c
  | MovReg dst src => set_reg dst (get_reg src c) c
  | Lea dst a => set_reg dst a c
  | PushFq => push c.(rflags) c
  | OrImm dst i => set_reg dst (Z.lor (get_reg dst c) i) c
  | RetNear =>
      let v := load64 c.(mem) c.(rsp) in
      set_rip v (set_reg RSP ((c.(rsp) + 8) mod 2 ^ 64) c)
  | Sti => set_rflags (Z.lor c.(rflags) 0x200) c
  | Jmp r => set_rip (get_reg r c) c
  | Iretq =>
      let frame i := load64 c.(mem) (c.(rsp) + 8 * i) in
      set_rip (frame 0) (set_selectors (frame 1) (frame 4)
        (set_rflags (frame 2) (set_reg RSP (frame 3) c)))
  end.

(** A straight-line routine that ends with its control transfer. *)
Definition run_code (code : list instr) (c : cpu) : cpu := foldl exec c code.

(** ** The code *)

Definition switch_to : list instr :=
  [Push RBP; Push RBX; Push R12; Push R13; Push R14; Push R15;
   MovStore RDI RSP;
   MovReg RSP RSI;
   Pop R15; Pop R14; Pop R13; Pop R12; Pop RBX; Pop RBP;
   RetNear].

Definition task_trampoline : list instr := [Sti; Jmp R15].

(** The pointer writes of [init_stack], downwards from [sp]. *)
Fixpoint write_down `{Profile} (m : memory) (sp : Z) (ws : list Z) : outcome (memory * Z) :=
  match ws with
  | [] => Ret (m, sp)
  | w :: ws' =>
      sp ← u64_sub sp 8;
      write_down (store64 m sp w) sp ws'
  end.

(** [init_stack] on the slice of [len] bytes at [base]; [trampoline] is the address
    of [task_trampoline], and the result is the memory and the context's [rsp]. *)
Definition init_stack `{Profile} (trampoline : Z) (m : memory) (base len entry : Z) :
    outcome (memory * Z) :=
  e ← u64_add base len;
  let top16 := Z.land e (Z.lnot 0xF) in
  stack_top ← u64_sub top16 8;
  write_down m stack_top [trampoline; 0; 0; 0; 0; 0; entry].

(** ** Memory: lemmas *)

Lemma store_bytes_out n m a v b : ¬ (a <= b < a + Z.of_nat n) → store_bytes n m a v b = m b.
Proof.
  revert m a v. induction n as [|n IH]; intros m a v Hb; [done|].
  cbn [store_bytes]. rewrite IH by lia. unfold store_byte.
  destruct (Z.eqb_spec b a); [lia|done].
Qed.

Lemma load_bytes_ext n m m' a :
  (∀ b, a <= b < a + Z.of_nat n → m b = m' b) → load_bytes n m a = load_bytes n m' a.
Proof.
  revert a. induction n as [|n IH]; intros a Hb; [done|].
  cbn [load_bytes]. rewrite Hb, (IH (a + 1)) by (intros; try apply Hb; lia). done.
Qed.

Lemma load_store_bytes n m a v :
  0 <= v < 256 ^ Z.of_nat n → load_bytes n (store_bytes n m a v) a = v.
Proof.
  revert m a v. induction n as [|n IH]; intros m a v Hv.
  - change (256 ^ Z.of_nat 0) with 1 in Hv. simpl. lia.
  - rewrite Nat2Z.inj_succ, Z.pow_succ_r in Hv by lia.
    cbn [load_bytes store_bytes]. rewrite store_bytes_out by lia.
    rewrite IH; [|split; [apply Z.div_pos; lia|apply Z.div_lt_upper_bound; lia]].
    unfold store_byte. rewrite Z.eqb_refl. pose proof (Z.div_mod v 256). lia.
Qed.

Lemma load_store64 m a b v : b = a → 0 <= v < 2 ^ 64 → load64 (store64 m a v) b = v.
Proof. intros ->. apply (load_store_bytes 8). Qed.

Lemma load_store64_apart m a b v : b + 8 <= a ∨ a + 8 <= b → load64 (store64 m a v) b = load64 m b.
Proof. intros Hb. apply load_bytes_ext. intros i Hi. apply store_bytes_out. lia. Qed.

Lemma store64_out m a v b : ¬ (a <= b < a + 8) → store64 m a v b = m b.
Proof. apply (store_bytes_out 8). Qed.

Lemma load64_ext m m' a : (∀ b, a <= b < a + 8 → m b = m' b) → load64 m a = load64 m' a.
Proof. apply (load_bytes_ext 8). Qed.

(** Read back what was stored at another or at the same address. *)
Ltac simpl_mem :=
  repeat first [rewrite load_store64 by lia | rewrite load_store64_apart by lia
               | rewrite store64_out by lia].

(** The words [ws] at ascending addresses from [a]. *)
Fixpoint words_at (m : memory) (a : Z) (ws : list Z) : Prop :=
  match ws with
  | [] => True
  | w :: ws' => load64 m a = w ∧ words_at m (a + 8) ws'
  end.

Lemma words_at_ext m m' a ws :
  (∀ b, a <= b < a + 8 * Z.of_nat (length ws) → m b = m' b) → words_at m a ws → words_at m' a ws.
Proof.
  revert a. induction ws as [|w ws IH]; intros a Hb; [done|]. cbn [words_at length] in *.
  intros [<- Hws]. split; [symmetry; apply load64_ext; intros; apply Hb; lia|].
  apply IH; [|done]. intros. apply Hb. lia.
Qed.

Lemma words_at_app m a ws us :
  words_at m a (ws ++ us) ↔ words_at m a ws ∧ words_at m (a + 8 * Z.of_nat (length ws)) us.
Proof.
  revert a. induction ws as [|w ws IH]; intros a; cbn [app words_at length].
  - replace (a + 8 * Z.of_nat 0) with a by lia. tauto.
  - rewrite IH. replace (a + 8 + 8 * Z.of_nat (length ws)) with
      (a + 8 * Z.of_nat (S (length ws))) by lia. tauto.
Qed.

Lemma words_at_inj m a ws us :
  length ws = length us → words_at m a ws → words_at m a us → ws = us.
Proof.
  revert a us. induction ws as [|w ws IH]; intros a [|u us] Hl; try done.
  cbn [words_at]. intros [<- Hw] [<- Hu]. f_equal. injection Hl as Hl. by apply (IH (a + 8)).
Qed.

Lemma testbit_lor_if f : Z.testbit (Z.lor f 0x200) 9 = true.
Proof. by rewrite Z.lor_spec, orb_true_r. Qed.

(** ** Switching *)

(** Callee-saved registers in the order of the frame, then the return address. *)
Definition saved_frame (c : cpu) (ret : Z) : list Z :=
  [r15 c; r14 c; r13 c; r12 c; rbx c; rbp c; ret].

Record word_regs (c : cpu) : Prop := {
  wr_rbp : 0 <= rbp c < 2 ^ 64; wr_rbx : 0 <= rbx c < 2 ^ 64;
  wr_r12 : 0 <= r12 c < 2 ^ 64; wr_r13 : 0 <= r13 c < 2 ^ 64;
  wr_r14 : 0 <= r14 c < 2 ^ 64; wr_r15 : 0 <= r15 c < 2 ^ 64;
}.

Definition apart (a n b k : Z) : Prop := a + n <= b ∨ b + k <= a.

(** The conditions under which a switch is well defined: the frame fits below the
    stack pointer, the save slot and the target frame are outside it. *)
Record switchable (c : cpu) : Prop := {
  sw_regs : word_regs c;
  sw_rsp : 48 <= rsp c <= 2 ^ 64 - 8;
  sw_next : 0 <= rsi c <= 2 ^ 64 - 64;
  sw_slot : apart (rdi c) 8 (rsp c - 48) 56;
  sw_slot_next : apart (rdi c) 8 (rsi c) 56;
  sw_stacks : apart (rsi c) 56 (rsp c - 48) 56;
}.

(** One switch: the outgoing frame and stack pointer are in memory, the incoming
    registers are those of the frame at [rsi]. *)
Lemma switch_to_spec c ws ret :
  switchable c → ws = saved_frame (run_code switch_to c) (rip (run_code switch_to c)) →
  ret = load64 (mem c) (rsp c) →
  let c' := run_code switch_to c in
  words_at (mem c) (rsi c) ws ∧ rsp c' = rsi c + 56 ∧
  load64 (mem c') (rdi c) = rsp c - 48 ∧
  words_at (mem c') (rsp c - 48) (saved_frame c ret) ∧
  rflags c' = rflags c ∧
  ∀ b, ¬ (rsp c - 48 <= b < rsp c) → ¬ (rdi c <= b < rdi c + 8) → mem c' b = mem c b.
Proof.
  intros [[] Hrsp Hnext Hslot Hsn Hst] -> ->. unfold apart in *.
  destruct c as [sp bp bx a12 a13 a14 a15 di si ax cx dx ip fl cs0 ss0 m]. cbn in *.
  unfold run_code, switch_to, saved_frame. cbn [foldl exec push get_reg set_reg set_mem set_rip
    rsp mem rbp rbx r12 r13 r14 r15 rdi rsi rip rflags words_at].
  repeat rewrite (Z.mod_small (_ - 8)) by lia. repeat rewrite (Z.mod_small (_ + 8)) by lia.
  replace (sp - 8 - 8 - 8 - 8 - 8 - 8) with (sp - 48) by lia.
  simpl_mem. split_and!; first [reflexivity | lia | f_equal; lia | exact I | intros b Hb Hd; by simpl_mem].
Qed.

(** ** The first switch into a task *)

Lemma write_down_ret `{Profile} m sp ws :
  8 * Z.of_nat (length ws) <= sp < 2 ^ 64 → Forall (λ w, 0 <= w < 2 ^ 64) ws →
  ∃ m', write_down m sp ws = Ret (m', sp - 8 * Z.of_nat (length ws)) ∧
    words_at m' (sp - 8 * Z.of_nat (length ws)) (reverse ws) ∧
    ∀ b, ¬ (sp - 8 * Z.of_nat (length ws) <= b < sp) → m' b = m b.
Proof.
  revert m sp. induction ws as [|w ws IH]; intros m sp Hsp Hws.
  - exists m. cbn [length]. replace (sp - 8 * Z.of_nat 0) with sp by lia. done.
  - apply Forall_cons in Hws as [Hw Hws]. cbn [length] in *. cbn [write_down].
    rewrite u64_sub_ret by lia. cbn [mbind outcome_bind].
    destruct (IH (store64 m (sp - 8) w) (sp - 8)) as (m' & Hm & Hat & Hout); [lia|done|].
    replace (sp - 8 - 8 * Z.of_nat (length ws)) with (sp - 8 * Z.of_nat (S (length ws))) in * by lia.
    exists m'. split; [done|]. split.
    + rewrite reverse_cons. apply words_at_app. split; [done|].
      rewrite length_reverse. cbn [words_at]. split; [|done].
      replace (sp - 8 * Z.of_nat (S (length ws)) + 8 * Z.of_nat (length ws)) with (sp - 8) by lia.
      rewrite (load64_ext m' (store64 m (sp - 8) w)) by (intros; apply Hout; lia).
      by apply load_store64.
    + intros b Hb. rewrite Hout by lia. apply store64_out. lia.
Qed.

Lemma init_stack_ret `{Profile} trampoline m base len entry :
  0 <= base → 80 <= len → base + len < 2 ^ 64 →
  0 <= trampoline < 2 ^ 64 → 0 <= entry < 2 ^ 64 →
  let top := (base + len) / 16 * 16 in
  ∃ m', init_stack trampoline m base len entry = Ret (m', top - 64) ∧
    base <= top - 64 ∧ top <= base + len ∧
    words_at m' (top - 64) [entry; 0; 0; 0; 0; 0; trampoline] ∧
    ∀ b, ¬ (base <= b < base + len) → m' b = m b.
Proof.
  intros Hb Hl Hfit Ht He top. unfold init_stack. rewrite u64_add_ret by lia. cbn [mbind outcome_bind].
  replace (Z.land (base + len) (Z.lnot 0xF)) with top.
  2:{ rewrite <- Z.ldiff_land. change 0xF with (Z.ones 4). rewrite Z.ldiff_ones_r by lia.
      by rewrite Z.shiftr_div_pow2, Z.shiftl_mul_pow2 by lia. }
  pose proof (Z.div_mod (base + len) 16 ltac:(lia)). pose proof (Z.mod_pos_bound (base + len) 16 ltac:(lia)).
  assert (top = (base + len) / 16 * 16) as Htop by done. clearbody top.
  rewrite u64_sub_ret by lia. cbn [mbind outcome_bind].
  destruct (write_down_ret m (top - 8) [trampoline; 0; 0; 0; 0; 0; entry]) as (m' & Hm & Hat & Hout).
  { cbn. lia. }
  { repeat constructor; lia. }
  cbn [length] in *. replace (top - 8 - 8 * Z.of_nat 7) with (top - 64) in * by lia.
  exists m'. split_and!; [done|lia|lia|done|]. intros b Hbb. apply Hout. lia.
Qed.

(** ** Properties *)

(** [C6] Switching away and back.  A context that calls [switch_to] and is later
    switched back to, by any context whatever and whatever happened in between
    except to its own frame, finds its six callee-saved registers, its stack
    pointer and its return address exactly as they were. *)
Theorem switch_to_round_trip c c2
    (Hc : switchable c) (Hc2 : switchable c2)
    (Hkept : ∀ b, rsp c - 48 <= b < rsp c + 8 → mem c2 b = mem (run_code switch_to c) b)
    (Hback : rsi c2 = load64 (mem (run_code switch_to c)) (rdi c)) :
  let c3 := run_code switch_to c2 in
  rbp c3 = rbp c ∧ rbx c3 = rbx c ∧ r12 c3 = r12 c ∧ r13 c3 = r13 c ∧ r14 c3 = r14 c ∧
  r15 c3 = r15 c ∧ rsp c3 = rsp c + 8 ∧ rip c3 = load64 (mem c) (rsp c) ∧
  load64 (mem c3) (rdi c2) = rsp c2 - 48.
Proof.
  intros c3.
  destruct (switch_to_spec c _ _ Hc eq_refl eq_refl) as (_ & _ & Hsaved & Hframe & _ & _).
  destruct (switch_to_spec c2 _ _ Hc2 eq_refl eq_refl) as (Hat & Hsp & Hsaved2 & _).
  fold c3 in Hat, Hsp, Hsaved2. rewrite Hback, Hsaved in Hat, Hsp.
  apply (words_at_ext _ (mem c2)) in Hframe; [|intros b Hb; symmetry; apply Hkept; cbn in Hb; lia].
  pose proof (words_at_inj (mem c2) (rsp c - 48) (saved_frame c (load64 (mem c) (rsp c)))
    (saved_frame c3 (rip c3)) eq_refl Hframe Hat) as Heq. unfold saved_frame in Heq.
  clearbody c3. clear - Heq Hsp Hsaved2. injection Heq as -> -> -> -> -> -> ->.
  rewrite Hsp. repeat split; [lia|exact Hsaved2].
Qed.

(** The first switch into a task.  [init_stack] on a slice of at least 80
    bytes never panics, writes only inside the slice, and the first switch to the
    context it returns goes to the trampoline, which jumps to the entry point with
    interrupts enabled, the other callee-saved registers zero, and the stack
    pointer inside the slice, 8 below a multiple of 16 as after a [call]. *)
Theorem first_switch_enters_task `{Profile} trampoline m base len entry c
    (Hbase : 0 <= base) (Hlen : 80 <= len) (Hfit : base + len < 2 ^ 64)
    (Ht : 0 <= trampoline < 2 ^ 64) (He : 0 <= entry < 2 ^ 64) :
  ∃ m' sp, init_stack trampoline m base len entry = Ret (m', sp) ∧
    base <= sp < base + len ∧ (∀ b, ¬ (base <= b < base + len) → m' b = m b) ∧
    (switchable c → rsi c = sp → (∀ b, base <= b < base + len → mem c b = m' b) →
     let c1 := run_code switch_to c in
     let c2 := run_code task_trampoline c1 in
     rip c1 = trampoline ∧ rip c2 = entry ∧ interrupts_enabled c2 = true ∧
     rsp c2 mod 16 = 8 ∧ base < rsp c2 < base + len ∧
     rbp c2 = 0 ∧ rbx c2 = 0 ∧ r12 c2 = 0 ∧ r13 c2 = 0 ∧ r14 c2 = 0).
Proof.
  destruct (init_stack_ret trampoline m base len entry) as (m' & Hm & Hlo & Hhi & Hat & Hout); try done.
  set (top := (base + len) / 16 * 16) in *.
  exists m', (top - 64). split_and!; [done|lia|lia|done|]. intros Hc Hsi Hmem c1 c2.
  destruct (switch_to_spec c _ _ Hc eq_refl eq_refl) as (Hat1 & Hsp & _). fold c1 in Hat1, Hsp.
  apply (words_at_ext _ (mem c)) in Hat; [|intros b Hb; symmetry; apply Hmem; cbn in Hb; lia].
  rewrite Hsi in Hat1, Hsp.
  pose proof (words_at_inj (mem c) (top - 64) [entry; 0; 0; 0; 0; 0; trampoline]
    (saved_frame c1 (rip c1)) eq_refl Hat Hat1) as Heq.
  assert (rsp c2 = rsp c1 ∧ rip c2 = r15 c1 ∧ interrupts_enabled c2 = true ∧ rbp c2 = rbp c1 ∧
          rbx c2 = rbx c1 ∧ r12 c2 = r12 c1 ∧ r13 c2 = r13 c1 ∧ r14 c2 = r14 c1)
    as (-> & -> & -> & -> & -> & -> & -> & ->) by (unfold c2; destruct c1; split_and!; try done; apply testbit_lor_if).
  clearbody c1. clear - Heq Hsp Hlo Hhi. unfold saved_frame in Heq.
  injection Heq as <- <- <- <- <- <- <-. rewrite Hsp.
  repeat split; [|lia|lia].
  replace (top - 64 + 56) with (8 + ((base + len) / 16 - 1) * 16) by (unfold top; lia).
  by rewrite Z.mod_add by lia.
Qed.

(** Two stacks: a boot context at 0x9000 whose slot is at 0x100, and a task on a
    fresh stack of 4096 bytes at 0x10000. *)
Definition demo_cpu : cpu :=
  let m := store64 (store64 (λ _, 0) 0x9000 0x1234) 0x200 0 in
  match @init_stack true 0x7000 m 0x10000 4096 0x5555 with
  | Ret (m', sp) => mkCpu 0x9000 1 2 3 4 5 6 0x100 sp 0 0 0 0 2 0x8 0 m'
  | _ => mkCpu 0 0 0 0 0 0 0 0 0 0 0 0 0 0 0 0 m
  end.

(** A task with registers 11 to 16 that is about to switch back to the boot
    context; its own context's slot is at 0x200. *)
Definition about_to_return (c : cpu) : cpu :=
  mkCpu (rsp c - 8) 11 12 13 14 15 16 0x200 (load64 (mem c) 0x100)
    0 0 0 0 0x202 0x8 0 (mem c).

Lemma about_to_return_mem c : mem (about_to_return c) = mem c.
Proof. done. Qed.

Definition demo_back : cpu := about_to_return (run_code switch_to demo_cpu).

Ltac check_switchable :=
  split; [split|..]; first [split; first [discriminate|reflexivity] | left; discriminate | right; discriminate].

Lemma switch_to_round_trip_witness :
  let c3 := run_code switch_to demo_back in
  rbp c3 = 1 ∧ r15 c3 = 6 ∧ rsp c3 = 0x9008 ∧ rip c3 = 0x1234.
Proof.
  assert (switchable demo_cpu) as H1 by check_switchable.
  assert (switchable demo_back) as H2 by check_switchable.
  assert (mem demo_back = mem (run_code switch_to demo_cpu)) as Hm by apply about_to_return_mem.
  assert (rsi demo_back = load64 (mem (run_code switch_to demo_cpu)) (rdi demo_cpu)) as Hr
    by (vm_compute; reflexivity).
  destruct (switch_to_round_trip demo_cpu demo_back H1 H2 (λ b _, f_equal (λ m, m b) Hm) Hr)
    as (Hbp & _ & _ & _ & _ & H15 & Hsp & Hip & _).
  cbn zeta. rewrite Hbp, H15, Hsp, Hip. repeat split; vm_compute; reflexivity.
Defined.

Lemma first_switch_enters_task_witness :
  let c2 := run_code task_trampoline (run_code switch_to demo_cpu) in
  rip c2 = 0x5555 ∧ interrupts_enabled c2 = true ∧ rsp c2 mod 16 = 8.
Proof.
  destruct (@first_switch_enters_task true 0x7000 (store64 (store64 (λ _, 0) 0x9000 0x1234) 0x200 0)
    0x10000 4096 0x5555 demo_cpu) as (m' & sp & Hi & _ & _ & Hsw);
    [lia|lia|lia|split; [lia|reflexivity]|split; [lia|reflexivity]|].
  assert (mem demo_cpu = m') as Hm by (unfold demo_cpu; rewrite Hi; reflexivity).
  assert (rsi demo_cpu = sp) as Hr by (unfold demo_cpu; rewrite Hi; reflexivity).
  assert (switchable demo_cpu) as H1 by check_switchable.
  destruct (Hsw H1 Hr (λ b _, f_equal (λ m, m b) Hm)) as (_ & Hip & Hif & Hal & _).
  exact (conj Hip (conj Hif Hal)).
Defined.
