(* ===== verification/Tasks.v ===== *)
(** * Tasks: guarded stacks, the task pool and the timer-driven scheduler

    Model of [src/kernel-x86_64/src/task_stack.rs] and [scheduler_bridge.rs]: the
    task pool and its statics as one record, spawning, exiting and the timer tick
    as whole handlers over the run queue, the page tables and the stacks. *)
From S2P Require Import Prelude Buddy Scheduler Paging Context.

(** ** Guarded stacks: [task_stack.rs] *)

Definition MAX_SLOTS : Z := 8.
Definition STACK_SIZE : Z := 64 * 1024.
Definition STACK_PAGES : Z := STACK_SIZE / PAGE_SIZE.
Definition GUARD_PAGES : Z := 1.
Definition SLOT_STRIDE : Z := (GUARD_PAGES + STACK_PAGES) * PAGE_SIZE.
Definition REGION_BASE : Z := 0x333333330000.

(** ** The state *)

Definition BOOT_PID : Z := u64_max.
Definition MAX_TASKS : Z := MAX_SLOTS.
Definition SWITCH_TICK_BUDGET : Z := 400.

(** A slot of the pool; [context] is the [rsp] of the saved [Context]. *)
Record TaskSlot := mkSlot {
  slot_pid : option Z;
  context : Z;
  address_space : option Z;
}.

Definition TaskSlot_EMPTY : TaskSlot := mkSlot None 0 None.

(** The statics of the two files, the globals of [paging.rs], the [CR3] register
    and the memory of the stacks. *)
Record kernel (M : Type) := mkKernel {
  globals : option (M * PhysicalAllocator);
  mapped : list bool;
  task_slots : list TaskSlot;
  boot_context : Z;
  next_pid : Z;
  scheduler : option RunQueue;
  current : Z;
  ticks : Z;
  default_l4_frame : option Z;
  cr3 : Z;
  task_exit_slot : option Z;
  task_c_exited : bool;
  task_d_spawned : bool;
  task_d_spawn_slot : option Z;
  stacks : memory;
}.
Arguments mkKernel {M}.
Arguments globals {M}. Arguments mapped {M}. Arguments task_slots {M}.
Arguments boot_context {M}. Arguments next_pid {M}. Arguments scheduler {M}.
Arguments current {M}. Arguments ticks {M}. Arguments default_l4_frame {M}.
Arguments cr3 {M}. Arguments task_exit_slot {M}. Arguments task_c_exited {M}.
Arguments task_d_spawned {M}. Arguments task_d_spawn_slot {M}. Arguments stacks {M}.

Section setters.
Context {M : Type}.
Implicit Type k : kernel M.

Definition set_memory k g mp : kernel M :=
  let 'mkKernel _ _ ts bc np sc cu ti dl c3 es ce ds dss st := k in
  mkKernel g mp ts bc np sc cu ti dl c3 es ce ds dss st.
Definition set_slots k ts : kernel M :=
  let 'mkKernel g mp _ bc np sc cu ti dl c3 es ce ds dss st := k in
  mkKernel g mp ts bc np sc cu ti dl c3 es ce ds dss st.
Definition set_boot_context k bc : kernel M :=
  let 'mkKernel g mp ts _ np sc cu ti dl c3 es ce ds dss st := k in
  mkKernel g mp ts bc np sc cu ti dl c3 es ce ds dss st.
Definition set_next_pid k np : kernel M :=
  let 'mkKernel g mp ts bc _ sc cu ti dl c3 es ce ds dss st := k in
  mkKernel g mp ts bc np sc cu ti dl c3 es ce ds dss st.
Definition set_scheduler k sc : kernel M :=
  let 'mkKernel g mp ts bc np _ cu ti dl c3 es ce ds dss st := k in
  mkKernel g mp ts bc np sc cu ti dl c3 es ce ds dss st.
Definition set_current k cu : kernel M :=
  let 'mkKernel g mp ts bc np sc _ ti dl c3 es ce ds dss st := k in
  mkKernel g mp ts bc np sc cu ti dl c3 es ce ds dss st.
Definition set_ticks k ti : kernel M :=
  let 'mkKernel g mp ts bc np sc cu _ dl c3 es ce ds dss st := k in
  mkKernel g mp ts bc np sc cu ti dl c3 es ce ds dss st.
Definition set_default_l4 k dl : kernel M :=
  let 'mkKernel g mp ts bc np sc cu ti _ c3 es ce ds dss st := k in
  mkKernel g mp ts bc np sc cu ti dl c3 es ce ds dss st.
Definition set_cr3 k c3 : kernel M :=
  let 'mkKernel g mp ts bc np sc cu ti dl _ es ce ds dss st := k in
  mkKernel g mp ts bc np sc cu ti dl c3 es ce ds dss st.
Definition set_exit_slot k es : kernel M :=
  let 'mkKernel g mp ts bc np sc cu ti dl c3 _ ce ds dss st := k in
  mkKernel g mp ts bc np sc cu ti dl c3 es ce ds dss st.
Definition set_c_exited k ce : kernel M :=
  let 'mkKernel g mp ts bc np sc cu ti dl c3 es _ ds dss st := k in
  mkKernel g mp ts bc np sc cu ti dl c3 es ce ds dss st.
Definition set_d_spawned k ds : kernel M :=
  let 'mkKernel g mp ts bc np sc cu ti dl c3 es ce _ dss st := k in
  mkKernel g mp ts bc np sc cu ti dl c3 es ce ds dss st.
Definition set_d_spawn_slot k dss : kernel M :=
  let 'mkKernel g mp ts bc np sc cu ti dl c3 es ce ds _ st := k in
  mkKernel g mp ts bc np sc cu ti dl c3 es ce ds dss st.
Definition set_stacks k st : kernel M :=
  let 'mkKernel g mp ts bc np sc cu ti dl c3 es ce ds dss _ := k in
  mkKernel g mp ts bc np sc cu ti dl c3 es ce ds dss st.
End setters.

(** ** Operations

    [nx] is whether the CPU forbids execution of data pages, [trampoline] the
    address of [context::task_trampoline]. *)
Section operations.
Context `{Profile} {M : Type} `{Mapper M} (nx : bool) (trampoline : Z).
Implicit Type k : kernel M.

Definition slot_guard_page_addr (slot : Z) : outcome Z :=
  off ← u64_mul slot SLOT_STRIDE;
  u64_add REGION_BASE off.

Definition slot_stack_base (slot : Z) : outcome Z :=
  g ← slot_guard_page_addr slot;
  u64_add g PAGE_SIZE.

(** The result is the top of the slot's stack. *)
Definition ensure_slot_mapped k (slot : Z) : outcome (kernel M * Z) :=
  stack_base ← slot_stack_base slot;
  b ← vec_get k.(mapped) slot;
  k ← (if negb b then
         match k.(globals) with
         | None => Panic
         | Some g =>
             g ← map_range adapter_allocate_frame stack_base (data_flags nx)
                   (seqZ 0 STACK_PAGES) g;
             mapped ← vec_set k.(mapped) slot true;
             Ret (set_memory k (Some g) mapped)
         end
       else Ret k);
  top ← u64_add stack_base STACK_SIZE;
  Ret (k, top).

(** [s.pid == Some(pid)]. *)
Definition has_pid (pid : Z) (s : TaskSlot) : bool := bool_decide (slot_pid s = Some pid).

Definition slot_index_for_pid k (pid : Z) : option nat := position (has_pid pid) k.(task_slots).

(** The context a pid's [rsp] is saved in: [None] is [BOOT_CONTEXT]. *)
Definition context_ptr k (pid : Z) : option nat :=
  if pid =? BOOT_PID then None else position (has_pid pid) k.(task_slots).

(** The write of [switch_to] through the pointer. *)
Definition write_context k (p : option nat) (rsp : Z) : kernel M :=
  match p with
  | None => set_boot_context k rsp
  | Some i =>
      set_slots k (alter (λ s, mkSlot s.(slot_pid) rsp s.(address_space)) i k.(task_slots))
  end.

Definition context_rsp k (pid : Z) : Z :=
  if pid =? BOOT_PID then k.(boot_context)
  else match position (has_pid pid) k.(task_slots) ≫= λ i, k.(task_slots) !! i with
       | Some s => s.(context)
       | None => 0
       end.

Definition spawn_task_impl k (entry : Z) (space : option Z) : outcome (kernel M * option Z) :=
  let pid := k.(next_pid) in
  let k := set_next_pid k ((pid + 1) mod 2 ^ 64) in
  match position (λ s, bool_decide (slot_pid s = None)) k.(task_slots) with
  | None => Ret (k, None)
  | Some free_index =>
      r ← ensure_slot_mapped k (Z.of_nat free_index);
      let (k, stack_top) := (r : kernel M * Z) in
      stack_base ← u64_sub stack_top STACK_SIZE;
      r ← init_stack trampoline k.(stacks) stack_base STACK_SIZE entry;
      let (stacks, rsp) := (r : memory * Z) in
      slots ← vec_set k.(task_slots) (Z.of_nat free_index) (mkSlot (Some pid) rsp space);
      let k := set_slots (set_stacks k stacks) slots in
      let k := match k.(scheduler) with
               | Some rq => set_scheduler k (Some (add_process rq (mkProcess pid Normal Ready 0)))
               | None => k
               end in
      Ret (k, Some pid)
  end.

Definition spawn_task k (entry : Z) : outcome (kernel M * option Z) :=
  spawn_task_impl k entry None.

Definition spawn_task_with_address_space k (entry l4_frame : Z) : outcome (kernel M * option Z) :=
  spawn_task_impl k entry (Some l4_frame).

Definition desired_l4_frame k (pid : Z) : option Z :=
  let default := k.(default_l4_frame) in
  if pid =? BOOT_PID then default
  else match (position (has_pid pid) k.(task_slots) ≫= λ i, k.(task_slots) !! i)
               ≫= address_space with
       | Some f => Some f
       | None => default
       end.

Definition switch_address_space_to k (pid : Z) : kernel M :=
  match desired_l4_frame k pid with
  | None => k
  | Some desired => if negb (k.(cr3) =? desired) then set_cr3 k desired else k
  end.

(** The result is the stack pointer [switch_to] loads; what it saves is discarded. *)
Definition exit_current_task k : kernel M * Z :=
  let pid := k.(current) in
  let k := match k.(scheduler) with
           | Some rq => set_scheduler k (Some (remove_process rq pid).1)
           | None => k
           end in
  let k := match position (has_pid pid) k.(task_slots) with
           | Some idx =>
               set_exit_slot
                 (set_slots k (alter (λ s, mkSlot None s.(context) s.(address_space)) idx
                                 k.(task_slots)))
                 (Some (Z.of_nat idx))
           | None => k
           end in
  let k := set_c_exited k true in
  let next := if SWITCH_TICK_BUDGET <? k.(ticks) then BOOT_PID
              else default BOOT_PID (k.(scheduler) ≫= pick_next_task) in
  let k := switch_address_space_to (set_current k next) next in
  (k, context_rsp k next).

(** [rsp] is the stack pointer [switch_to] saves, should it be called; the result
    is the stack pointer it then loads, or [None] when the tick returns into the
    interrupted context. *)
Definition on_timer_tick k (rsp : Z) : outcome (kernel M * option Z) :=
  tick ← u64_add k.(ticks) 1;
  let k := set_ticks k tick in
  match k.(scheduler) with
  | None => Ret (k, None)
  | Some rq =>
      let prev := k.(current) in
      let next := if SWITCH_TICK_BUDGET <? tick then BOOT_PID
                  else default BOOT_PID (pick_next_task rq) in
      rq ← (if negb (prev =? BOOT_PID) then update_vruntime rq prev 1 else Ret rq);
      let k := set_scheduler k (Some rq) in
      if prev =? next then Ret (k, None)
      else
        let k := switch_address_space_to (set_current k next) next in
        let prev_ptr := context_ptr k prev in
        let next_rsp := context_rsp k next in
        Ret (write_context k prev_ptr rsp, Some next_rsp)
  end.

(** [init], with the entry points of the four tasks; [new_space] is
    [AddressSpace::new] with the frame of its top-level table. *)
Definition init k (new_space : kernel M → outcome (kernel M * option Z))
    (task_a task_b task_c task_e : Z) : outcome (kernel M * option Z) :=
  let k := set_default_l4 (set_scheduler k (Some RunQueue_new)) (Some k.(cr3)) in
  r ← spawn_task k task_a;
  r ← spawn_task r.1 task_b;
  rc ← spawn_task r.1 task_c;
  r ← new_space rc.1;
  match r.2 with
  | Some frame =>
      re ← spawn_task_with_address_space r.1 task_e frame;
      Ret (re.1, rc.2)
  | None => Ret (r.1, rc.2)
  end.

(** The critical section of [task_a_entry]. *)
Definition task_a_poll k (task_d : Z) : outcome (kernel M) :=
  if k.(task_c_exited) && negb k.(task_d_spawned) then
    r ← spawn_task (set_d_spawned k true) task_d;
    match r.2 with
    | Some pid => Ret (set_d_spawn_slot r.1 (Z.of_nat <$> slot_index_for_pid r.1 pid))
    | None => Ret r.1
    end
  else Ret k.
End operations.

(** ** The layout of the stacks *)

Definition guard_page (i : nat) : Z := REGION_BASE + Z.of_nat i * SLOT_STRIDE.
Definition stack_base (i : nat) : Z := guard_page i + PAGE_SIZE.
Definition stack_page (i : nat) (j : Z) : Z := stack_base i + j * PAGE_SIZE.

(** A saved stack pointer with its frame inside the stack of slot [i]. *)
Definition in_stack (i : nat) (rsp : Z) : Prop :=
  stack_base i <= rsp ∧ rsp + 56 <= stack_base i + STACK_SIZE.

Ltac layout := unfold stack_page, stack_base, guard_page, in_stack, SLOT_STRIDE, STACK_PAGES,
  GUARD_PAGES, REGION_BASE, STACK_SIZE, PAGE_SIZE in *; change (64 * 1024 / 0x1000) with 16 in *.

(** Stacks and guard pages of the eight slots: pages of their own, aligned, and
    below the non-canonical half of the address space. *)
Lemma stack_page_inj i i' j j' :
  (i < 8)%nat → (i' < 8)%nat → 0 <= j < STACK_PAGES → 0 <= j' < STACK_PAGES →
  stack_page i j = stack_page i' j' → i = i' ∧ j = j'.
Proof. layout. intros. nia. Qed.

Lemma guard_not_stack i i' j : 0 <= j < STACK_PAGES → guard_page i ≠ stack_page i' j.
Proof. layout. intros. nia. Qed.

Lemma stack_page_canonical i : (i < 8)%nat → 0 <= stack_base i ∧ stack_base i + STACK_SIZE < 2 ^ 47.
Proof. layout. intros. lia. Qed.

Lemma stack_base_aligned i : (PAGE_SIZE | stack_base i).
Proof. exists (REGION_BASE / PAGE_SIZE + Z.of_nat i * 17 + 1). layout. change (0x333333330000 / 0x1000) with 0x333333330. lia. Qed.

Section stacks.
Context `{Profile} {M : Type} `{MapperLaws M}.

(** Mapping a range from the buddy allocator: the pages of the range, and no
    others, become mapped. *)
Lemma map_range_adapter fl start n i m phys m' phys' :
  phys_wf phys → 0 <= start → 0 <= i → (PAGE_SIZE | start) →
  start + (i + Z.of_nat n) * PAGE_SIZE < 2 ^ 47 →
  map_range adapter_allocate_frame start fl (seqZ i (Z.of_nat n)) (m, phys) = Ret (m', phys') →
  same_frames phys phys' ∧
  (∀ j, i <= j < i + Z.of_nat n → walk m (start + j * PAGE_SIZE) = None ∧
     ∃ f, walk m' (start + j * PAGE_SIZE) = Some (f, fl)) ∧
  (∀ q, (∀ j, i <= j < i + Z.of_nat n → q ≠ start + j * PAGE_SIZE) → walk m' q = walk m q).
Proof.
  intros Hs Hst Hi Hd. revert i m phys Hs Hi. induction n as [|n IH]; intros i m phys Hs Hi Hfit Hrun.
  { injection Hrun as <- <-. split; [done|]. split; [intros j Hj; lia|done]. }
  rewrite seqZ_cons in Hrun by lia. cbn [map_range fst snd] in Hrun. unfold PAGE_SIZE in Hrun, Hfit.
  rewrite u64_mul_ret in Hrun by lia. cbn [mbind outcome_bind] in Hrun.
  rewrite u64_add_ret in Hrun by lia. cbn [mbind outcome_bind] in Hrun.
  rewrite virt_addr_low in Hrun by lia. cbn [mbind outcome_bind] in Hrun.
  change 0x1000 with PAGE_SIZE in Hrun, Hfit. fold (map_page m phys (start + i * PAGE_SIZE) fl) in Hrun.
  destruct (map_page_cases m phys (start + i * PAGE_SIZE) fl Hs)
    as (m1 & p1 & r & Hm & Hsame & _ & Hr). rewrite Hm in Hrun. cbn [mbind outcome_bind] in Hrun.
  destruct r as [f|e]; [|discriminate Hrun]. cbn [expect mbind outcome_bind] in Hrun.
  destruct Hr as (a & _ & _ & _ & Hw & Hw1 & Hrest & _).
  rewrite page_of_range in * by done.
  replace (Z.succ i) with (i + 1) in Hrun by lia.
  replace (Z.pred (Z.of_nat (S n))) with (Z.of_nat n) in Hrun by lia.
  destruct (IH (i + 1) m1 p1) as (Hsame2 & Hin & Hout); [apply Hsame|lia| |done|].
  { unfold PAGE_SIZE in *. lia. }
  split; [by eapply same_frames_trans|]. split.
  - intros j Hj. destruct (decide (j = i)) as [->|Hne].
    + split; [done|]. exists f. rewrite Hout; [done|]. unfold PAGE_SIZE. intros j' Hj'. lia.
    + destruct (Hin j) as [Hn Hsome]; [lia|]. split; [|done].
      rewrite <- Hn. symmetry. apply Hrest. unfold PAGE_SIZE. lia.
  - intros q Hq. rewrite Hout by (intros j Hj; apply Hq; lia). apply Hrest. apply Hq. lia.
Qed.

Lemma slot_stack_base_ret slot : (slot < 8)%nat → slot_stack_base (Z.of_nat slot) = Ret (stack_base slot).
Proof.
  intros Hs. unfold slot_stack_base, slot_guard_page_addr. layout.
  rewrite u64_mul_ret by lia. cbn [mbind outcome_bind]. rewrite !u64_add_ret by lia. cbn [mbind outcome_bind].
  rewrite u64_add_ret by lia. done.
Qed.

(** The page tables agree with [MAPPED]: the sixteen pages of a mapped slot are
    mapped and no guard page is. *)
Record mem_inv (g : option (M * PhysicalAllocator)) (mp : list bool) : Prop := {
  mi_len : length mp = 8%nat;
  mi_globals : ∃ m phys, g = Some (m, phys) ∧ phys_wf phys ∧
    (∀ i j, mp !! i = Some true → 0 <= j < STACK_PAGES → walk m (stack_page i j) ≠ None) ∧
    (∀ i, (i < 8)%nat → walk m (guard_page i) = None);
}.

Definition same_but_stack (i : nat) (k k' : kernel M) : Prop :=
  ∃ m phys m' phys', globals k = Some (m, phys) ∧ globals k' = Some (m', phys') ∧
    same_frames phys phys' ∧
    ∀ q, (∀ j, 0 <= j < STACK_PAGES → q ≠ stack_page i j) → walk m' q = walk m q.

Lemma ensure_slot_mapped_again nx k i :
  (i < 8)%nat → mapped k !! i = Some true →
  ensure_slot_mapped nx k (Z.of_nat i) = Ret (k, stack_base i + STACK_SIZE).
Proof.
  intros Hi Hm. unfold ensure_slot_mapped. rewrite slot_stack_base_ret by done. cbn [mbind outcome_bind].
  rewrite (proj2 (vec_get_ret (mapped k) (Z.of_nat i) true)) by (rewrite Nat2Z.id; split; [lia|done]).
  cbn [mbind outcome_bind negb]. pose proof (stack_page_canonical i Hi).
  rewrite u64_add_ret by (unfold STACK_SIZE in *; lia). done.
Qed.

Lemma ensure_slot_mapped_inv nx k i k' top :
  (i < 8)%nat → mem_inv (globals k) (mapped k) →
  ensure_slot_mapped nx k (Z.of_nat i) = Ret (k', top) →
  top = stack_base i + STACK_SIZE ∧ mem_inv (globals k') (mapped k') ∧
  k' = set_memory k (globals k') (mapped k') ∧ mapped k' = <[i := true]> (mapped k) ∧
  same_but_stack i k k'.
Proof.
  intros Hi Hinv Hrun. pose proof (stack_page_canonical i Hi) as Hc.
  destruct Hinv as [Hlen (m & phys & Hg & Hs & Hmap & Hguard)].
  destruct (lookup_lt_is_Some_2 (mapped k) i) as [b Hb]; [lia|].
  destruct b.
  { rewrite ensure_slot_mapped_again in Hrun by done. injection Hrun as <- <-.
    rewrite list_insert_id by done. split; [done|].
    split; [split; [done|by exists m, phys]|]. split; [by destruct k|]. split; [done|].
    exists m, phys, m, phys. done. }
  unfold ensure_slot_mapped in Hrun. rewrite slot_stack_base_ret in Hrun by done.
  cbn [mbind outcome_bind] in Hrun.
  rewrite (proj2 (vec_get_ret (mapped k) (Z.of_nat i) false)) in Hrun
    by (rewrite Nat2Z.id; split; [lia|done]).
  cbn [mbind outcome_bind negb] in Hrun. rewrite Hg in Hrun.
  apply outcome_bind_ret in Hrun as (k1 & Hk1 & Hrun).
  apply outcome_bind_ret in Hk1 as ([m' phys'] & Hrange & Hk1).
  rewrite vec_set_ret in Hk1 by lia. rewrite Nat2Z.id in Hk1. injection Hk1 as <-.
  rewrite u64_add_ret in Hrun by (unfold STACK_SIZE in *; lia). injection Hrun as <- <-.
  change (seqZ 0 STACK_PAGES) with (seqZ 0 (Z.of_nat 16)) in Hrange.
  destruct (map_range_adapter _ _ 16 0 _ _ _ _ Hs (proj1 Hc) ltac:(done) (stack_base_aligned i)
    ltac:(unfold STACK_SIZE, PAGE_SIZE in *; lia) Hrange) as (Hsame & Hin & Hout).
  assert (∀ q, (∀ j, 0 <= j < STACK_PAGES → q ≠ stack_page i j) → walk m' q = walk m q) as Hrest.
  { intros q Hq. apply Hout. intros j Hj. apply Hq. layout. lia. }
  assert (globals (set_memory k (Some (m', phys')) (<[i:=true]> (mapped k))) = Some (m', phys') ∧
          mapped (set_memory k (Some (m', phys')) (<[i:=true]> (mapped k))) = <[i:=true]> (mapped k))
    as [-> ->] by (by destruct k).
  split; [done|]. split; [split; [by rewrite length_insert|]|].
  - exists m', phys'. split; [done|]. split; [apply Hsame|]. split.
    + intros i' j Hmp Hj. destruct (decide (i' = i)) as [->|Hne].
      * destruct (Hin j) as [_ [f Hf]]; [layout; lia|]. unfold stack_page. by rewrite Hf.
      * rewrite list_lookup_insert_ne in Hmp by done. rewrite Hrest; [by apply Hmap|].
        intros j' Hj' Heq. apply Hne. apply lookup_lt_Some in Hmp. 
        by apply (stack_page_inj i' i j j'); [lia|..].
    + intros i' Hi'. rewrite Hrest; [by apply Hguard|]. intros j Hj. by apply guard_not_stack.
  - split; [done|]. split; [done|]. unfold same_but_stack.
    exists m, phys, m', phys'. split; [done|]. split; [by destruct k|]. done.
Qed.
End stacks.

(** ** The pool and the run queue *)

Definition slot_of (l : list TaskSlot) (p : Z) (i : nat) (s : TaskSlot) : Prop :=
  l !! i = Some s ∧ slot_pid s = Some p.

Definition live (l : list TaskSlot) (p : Z) : Prop := ∃ i s, slot_of l p i s.

(** Slots and run queue hold the same tasks, each once, all of the fair class, with
    virtual runtimes bounded by the ticks; pids are below the next one. *)
Record pool_wf (l : list TaskSlot) (rq : RunQueue) (np ti : Z) (mp : list bool) : Prop := {
  pw_len : length l = 8%nat;
  pw_uniq : ∀ p i j s t, slot_of l p i s → slot_of l p j t → i = j;
  pw_rq : rq_wf rq;
  pw_live : ∀ p, live l p ↔ is_Some (processes rq !! p);
  pw_class : ∀ p q, processes rq !! p = Some q → class q = Normal ∧ 0 <= vruntime q <= ti;
  pw_pids : ∀ p, live l p → 0 <= p < np;
  pw_next : 0 <= np <= BOOT_PID;
  pw_ticks : 0 <= ti;
  pw_mapped : ∀ p i s, slot_of l p i s → mp !! i = Some true;
}.

Lemma has_pid_spec p s : has_pid p s = true ↔ slot_pid s = Some p.
Proof. unfold has_pid. by rewrite bool_decide_eq_true. Qed.

Lemma position_slot l p :
  match position (has_pid p) l with
  | Some i => ∃ s, slot_of l p i s
  | None => ¬ live l p
  end.
Proof.
  destruct (position (has_pid p) l) as [i|] eqn:E.
  - apply position_Some in E as (s & Hs & Hp & _). exists s. split; [done|]. by apply has_pid_spec.
  - intros (i & s & Hi & Hs). rewrite position_None in E.
    specialize (E s (list_elem_of_lookup_2 _ _ _ Hi)). apply has_pid_spec in Hs. congruence.
Qed.

Lemma position_slot_of l p i s :
  (∀ i j s t, slot_of l p i s → slot_of l p j t → i = j) →
  slot_of l p i s → position (has_pid p) l = Some i.
Proof.
  intros Hu Hi. pose proof (position_slot l p) as Hp.
  destruct (position (has_pid p) l) as [j|]; [|destruct Hp; by exists i, s].
  destruct Hp as [t Ht]. f_equal. by eapply Hu.
Qed.

(** Changing a slot without its pid. *)
Lemma slot_of_alter f l i p j s :
  (∀ s, slot_pid (f s) = slot_pid s) →
  slot_of (alter f i l) p j s ↔ ∃ s0, slot_of l p j s0 ∧ s = if decide (j = i) then f s0 else s0.
Proof.
  intros Hf. unfold slot_of. destruct (decide (j = i)) as [->|Hne].
  - rewrite list_lookup_alter_eq, fmap_Some. split.
    + intros ((s0 & Hs & ->) & Hp). exists s0. by rewrite <- Hf.
    + intros (s0 & (Hs & Hp) & ->). split; [by exists s0|]. by rewrite Hf.
  - rewrite list_lookup_alter_ne by done. split; [intros ?; by exists s|]. by intros (s0 & ? & ->).
Qed.

Lemma live_alter f l i p : (∀ s, slot_pid (f s) = slot_pid s) → live (alter f i l) p ↔ live l p.
Proof.
  intros Hf. split.
  - intros (j & s & Hs). apply slot_of_alter in Hs as (s0 & Hs & _); [|done]. by exists j, s0.
  - intros (j & s & Hs). eexists j, _. apply slot_of_alter; [done|]. by eexists.
Qed.

Lemma pool_wf_alter f l i rq np ti mp :
  (∀ s, slot_pid (f s) = slot_pid s) → pool_wf l rq np ti mp → pool_wf (alter f i l) rq np ti mp.
Proof.
  intros Hf [Hlen Hu Hrq Hlive Hc Hp Hn Ht Hm]. split; try done.
  - by rewrite length_alter.
  - intros p j1 j2 s t Hs1 Hs2. apply slot_of_alter in Hs1 as (s1 & Hs1 & _); [|done].
    apply slot_of_alter in Hs2 as (s2 & Hs2 & _); [|done]. by eapply Hu.
  - intros p. by rewrite live_alter.
  - intros p. rewrite live_alter by done. apply Hp.
  - intros p j s Hs. apply slot_of_alter in Hs as (s1 & Hs1 & _); [|done]. by eapply Hm.
Qed.

(** Emptying a slot: its task leaves the queue too. *)
Lemma slot_of_clear l p i s q j t :
  (∀ p i j s t, slot_of l p i s → slot_of l p j t → i = j) → slot_of l p i s →
  slot_of (alter (λ s, mkSlot None (context s) (address_space s)) i l) q j t ↔
  slot_of l q j t ∧ q ≠ p.
Proof.
  intros Hu Hs. unfold slot_of. destruct (decide (j = i)) as [->|Hne].
  - rewrite list_lookup_alter_eq, fmap_Some. split.
    + intros ((s0 & _ & ->) & Hp). done.
    + intros ((Ht & Hq) & Hne). destruct Hs as [Hs Hp]. rewrite Hs in Ht. injection Ht as <-.
      rewrite Hp in Hq. injection Hq as <-. done.
  - rewrite list_lookup_alter_ne by done. split; [|by intros [? _]].
    intros Ht. split; [done|]. intros ->. apply Hne. by eapply Hu.
Qed.

Lemma pool_wf_exit l rq np ti mp p i s :
  pool_wf l rq np ti mp → slot_of l p i s →
  pool_wf (alter (λ s, mkSlot None (context s) (address_space s)) i l) (remove_process rq p).1
    np ti mp.
Proof.
  intros [Hlen Hu Hrq Hlive Hc Hp Hn Ht Hm] Hs.
  assert (∀ q, live (alter (λ s, mkSlot None (context s) (address_space s)) i l) q ↔
               live l q ∧ q ≠ p) as Hl.
  { intros q. unfold live. setoid_rewrite (slot_of_clear l p i s q _ _ Hu Hs). naive_solver. }
  assert (∀ q, processes (remove_process rq p).1 !! q = (delete p (processes rq)) !! q) as Hpr.
  { intros q. unfold remove_process. destruct (processes rq !! p) as [x|] eqn:E.
    - by destruct (class x).
    - simpl. rewrite lookup_delete. case_decide; [by subst|done]. }
  split; try done.
  - by rewrite length_alter.
  - intros q j1 j2 s1 s2 H1 H2. apply (slot_of_clear l p i s) in H1 as [H1 _]; [|done..].
    apply (slot_of_clear l p i s) in H2 as [H2 _]; [|done..]. by eapply Hu.
  - eauto with uosc.
  - intros q. rewrite Hl, Hpr, Hlive, lookup_delete. case_decide as Hd.
    + subst q. split; [by intros [_ ?]|by intros [? ?]].
    + split; [by intros [? _]|]. intros ?. by split.
  - intros q x. rewrite Hpr. intros [_ Hx]%lookup_delete_Some. by apply Hc in Hx.
  - intros q Hq. apply Hl in Hq as [Hq _]. by apply Hp.
  - intros q j t Hq. apply (slot_of_clear l p i s) in Hq as [Hq _]; [|done..]. by eapply Hm.
Qed.

(** Filling a free slot with the next pid. *)
Lemma pool_wf_spawn l rq np ti mp i c sp :
  pool_wf l rq np ti mp → (i < 8)%nat → (∀ s, l !! i = Some s → slot_pid s = None) →
  np < BOOT_PID → mp !! i = Some true →
  pool_wf (<[i := mkSlot (Some np) c sp]> l) (add_process rq (mkProcess np Normal Ready 0))
    (np + 1) ti mp.
Proof.
  intros [Hlen Hu Hrq Hlive Hc Hp Hn Ht Hm] Hi Hfree Hnp Hmi.
  assert (∀ q j t, slot_of (<[i := mkSlot (Some np) c sp]> l) q j t ↔
            (q = np ∧ j = i ∧ t = mkSlot (Some np) c sp) ∨ slot_of l q j t) as Hs.
  { intros q j t. unfold slot_of. destruct (decide (j = i)) as [->|Hne].
    - rewrite list_lookup_insert_eq by lia. split.
      + intros [[= <-] Hq]. injection Hq as <-. by left.
      + intros [(-> & _ & ->)|[Ht' Hq]]; [done|]. apply Hfree in Ht'. congruence.
    - rewrite list_lookup_insert_ne by done. naive_solver. }
  assert (∀ q, live (<[i := mkSlot (Some np) c sp]> l) q ↔ q = np ∨ live l q) as Hl.
  { intros q. unfold live. setoid_rewrite Hs. split; [naive_solver|].
    intros [->|(j & t & ?)]; [|naive_solver]. eexists i, _. left. done. }
  assert (¬ live l np) as Hnew by (intros ?%Hp; lia).
  split.
  - by rewrite length_insert.
  - intros q j1 j2 s t [(-> & -> & ->)|H1]%Hs [(Hq & -> & ->)|H2]%Hs; [done| | |by eapply Hu].
    + destruct Hnew. by exists j2, t.
    + subst q. destruct Hnew. by exists j1, s.
  - assert (processes rq !! np = None) by (apply eq_None_not_Some; by rewrite <- Hlive).
    eauto with uosc.
  - intros q. rewrite Hl, Hlive. simpl. rewrite lookup_insert. case_decide as Hq; [|naive_solver].
    split; [by eexists|by left].
  - intros q x. simpl. intros [[<- <-]|[_ Hx]]%lookup_insert_Some; [simpl; split; [done|lia]|].
    by apply Hc in Hx.
  - intros q [->|Hq]%Hl; [lia|]. apply Hp in Hq. lia.
  - lia.
  - done.
  - intros q j t [(_ & -> & _)|Hq]%Hs; [done|by eapply Hm].
Qed.

Section scheduling.
Context `{Profile}.

(** Charging one tick to a task. *)
Lemma pool_wf_charge l rq np ti mp p :
  pool_wf l rq np ti mp → live l p → ti < u64_max →
  ∃ rq', update_vruntime rq p 1 = Ret rq' ∧ pool_wf l rq' np (ti + 1) mp.
Proof.
  intros [Hlen Hu Hrq Hlive Hc Hp Hn Ht Hm] Hl Hti. unfold u64_max in Hti.
  pose proof Hl as [q Hq]%Hlive. destruct (Hc p q Hq) as [Hcl Hv].
  assert (∃ rq', update_vruntime rq p 1 = Ret rq') as [rq' Hup].
  { unfold update_vruntime. rewrite Hq, bool_decide_true by done. cbn [negb].
    rewrite u64_add_ret by lia. by eexists. }
  exists rq'. split; [done|]. pose proof (update_vruntime_wf rq p 1 rq' Hrq Hup) as Hwf.
  apply update_vruntime_inv in Hup as [->|(q' & v & Hq' & _ & Hv' & ->)].
  { split; try done; [|lia]. intros r x Hx. apply Hc in Hx as [? ?]. split; [done|lia]. }
  rewrite Hq in Hq'. injection Hq' as <-. rewrite u64_add_ret in Hv' by lia. injection Hv' as <-.
  split; try done; [| |lia].
  - intros r. rewrite Hlive. simpl. rewrite lookup_insert. case_decide as Hr; [subst r|done].
    rewrite Hq. split; by eexists.
  - intros r x. simpl. intros [[<- <-]|[_ Hx]]%lookup_insert_Some; [split; [done|simpl; lia]|].
    apply Hc in Hx as [? ?]. split; [done|lia].
Qed.

(** The task the scheduler picks is live; it picks one unless there is none. *)
Lemma pool_pick l rq np ti mp :
  pool_wf l rq np ti mp →
  match pick_next_task rq with
  | Some p => live l p ∧ ∀ r q x, processes rq !! p = Some x → processes rq !! r = Some q →
                key_le (vruntime x, p) (vruntime q, r)
  | None => ∀ p, ¬ live l p
  end.
Proof.
  intros [_ _ Hrq Hlive Hc _ _ _ _].
  destruct (pick_next_task_cases rq Hrq) as [(d & i & x & -> & Hi & Hcl & _)|[_ Hcase]].
  - apply Hc in Hi as [? _]. congruence.
  - destruct Hcase as [(i & x & -> & Hi & Hcl & Hmin)|[-> Hidle]].
    + split; [apply Hlive; by eexists|]. intros r q y Hy Hr. rewrite Hi in Hy. injection Hy as <-.
      apply Hmin; [done|]. exact (proj1 (Hc _ _ Hr)).
    + intros p [q Hq]%Hlive. pose proof (Hidle _ _ Hq). apply Hc in Hq as [? _]. congruence.
Qed.
End scheduling.

(** ** The invariant of the scheduler *)

Section invariant.
Context `{Profile} {M : Type} `{MapperLaws M}.
(** The stack pointers at which the boot flow can be suspended. *)
Variable boot_stack : Z → Prop.
Implicit Type k : kernel M.

(** [f] is the top-level page table [p] is meant to run in. *)
Definition home k (p f : Z) : Prop :=
  (p = BOOT_PID ∧ default_l4_frame k = Some f) ∨
  (p ≠ BOOT_PID ∧ ∃ i s, slot_of (task_slots k) p i s ∧
     (address_space s = Some f ∨ address_space s = None ∧ default_l4_frame k = Some f)).

Record tasks_inv k : Prop := {
  ti_mem : mem_inv (globals k) (mapped k);
  ti_pool : ∃ rq, scheduler k = Some rq ∧
    pool_wf (task_slots k) rq (next_pid k) (ticks k) (mapped k);
  ti_ctx : ∀ p i s, slot_of (task_slots k) p i s → p ≠ current k → in_stack i (context s);
  ti_boot : current k ≠ BOOT_PID → boot_stack (boot_context k);
  ti_default : is_Some (default_l4_frame k);
  ti_cr3 : home k (current k) (cr3 k);
}.

(** [r] is where [p] was suspended: the boot flow's stack or the task's own. *)
Definition resumes k (p r : Z) : Prop :=
  (p = BOOT_PID ∧ r = boot_context k ∧ boot_stack r) ∨
  (p ≠ BOOT_PID ∧ ∃ i s, slot_of (task_slots k) p i s ∧ r = context s ∧ in_stack i r).

Definition saved k (p r : Z) : Prop :=
  (p = BOOT_PID ∧ boot_context k = r) ∨
  (p ≠ BOOT_PID ∧ ∃ i s, slot_of (task_slots k) p i s ∧ context s = r).

Lemma slot_not_boot l rq np ti mp p i s : pool_wf l rq np ti mp → slot_of l p i s → p ≠ BOOT_PID.
Proof.
  intros Hw Hs. destruct (pw_pids _ _ _ _ _ Hw p) as [_ ?]; [by exists i, s|].
  destruct (pw_next _ _ _ _ _ Hw). lia.
Qed.

Lemma home_exists k rq np ti mp p :
  pool_wf (task_slots k) rq np ti mp → is_Some (default_l4_frame k) →
  p = BOOT_PID ∨ live (task_slots k) p → ∃ f, home k p f.
Proof.
  intros Hw [d Hd] [->|(i & s & Hs)]; [exists d; by left|].
  pose proof (slot_not_boot _ _ _ _ _ _ _ _ Hw Hs).
  destruct (address_space s) as [f|] eqn:E; [exists f|exists d]; right; (split; [done|]);
    exists i, s; auto.
Qed.

Lemma desired_home k rq np ti mp p f :
  pool_wf (task_slots k) rq np ti mp → home k p f → desired_l4_frame k p = Some f.
Proof.
  intros Hw Hh. unfold desired_l4_frame. destruct Hh as [[-> Hd]|(Hp & i & s & Hs & Hf)]; [by rewrite Z.eqb_refl|].
  rewrite (proj2 (Z.eqb_neq _ _) Hp).
  rewrite (position_slot_of _ p i s) by (done || apply Hw). cbn. destruct Hs as [-> _]. cbn.
  by destruct Hf as [->|[-> ->]].
Qed.

Lemma switch_address_space_home k rq np ti mp p f :
  pool_wf (task_slots k) rq np ti mp → home k p f → switch_address_space_to k p = set_cr3 k f.
Proof.
  intros Hw Hh. unfold switch_address_space_to. erewrite desired_home by done.
  destruct (Z.eqb_spec (cr3 k) f) as [<-|]; [|done]. by destruct k.
Qed.

Lemma context_rsp_resumes k rq np ti mp p :
  pool_wf (task_slots k) rq np ti mp → p = BOOT_PID ∨ live (task_slots k) p →
  (p = BOOT_PID → boot_stack (boot_context k)) →
  (∀ i s, slot_of (task_slots k) p i s → in_stack i (context s)) →
  resumes k p (context_rsp k p).
Proof.
  intros Hw Hp Hb Hs. unfold context_rsp. destruct Hp as [->|(i & s & Hi)].
  - rewrite Z.eqb_refl. left. auto.
  - pose proof (slot_not_boot _ _ _ _ _ _ _ _ Hw Hi) as Hne. rewrite (proj2 (Z.eqb_neq _ _) Hne).
    rewrite (position_slot_of _ p i s) by (done || apply Hw). cbn. right. split; [done|].
    exists i, s. pose proof (Hs i s Hi). destruct Hi as [Hi Hpid]. by rewrite Hi.
Qed.

(** The choice both handlers make. *)
Definition next_of (tick : Z) (rq : RunQueue) : Z :=
  if SWITCH_TICK_BUDGET <? tick then BOOT_PID else default BOOT_PID (pick_next_task rq).

Lemma next_of_live tick l rq np ti mp :
  pool_wf l rq np ti mp → next_of tick rq = BOOT_PID ∨ live l (next_of tick rq).
Proof.
  intros Hw. unfold next_of. destruct (_ <? _); [by left|].
  pose proof (pool_pick _ _ _ _ _ Hw) as Hpick.
  destruct (pick_next_task rq) as [p|]; [|by left]. right. apply Hpick.
Qed.

Lemma current_live k rq :
  tasks_inv k → scheduler k = Some rq →
  current k = BOOT_PID ∨ (current k ≠ BOOT_PID ∧ ∃ i s, slot_of (task_slots k) (current k) i s).
Proof.
  intros Hi _. destruct (ti_cr3 k Hi) as [[? _]|(? & i & s & ? & _)]; [by left|right].
  split; [done|]. by exists i, s.
Qed.

(** [write_context] through [context_ptr]. *)
Lemma write_context_saved k rq np ti mp p rsp :
  pool_wf (task_slots k) rq np ti mp → p = BOOT_PID ∨ live (task_slots k) p →
  saved (write_context k (context_ptr k p) rsp) p rsp ∧
  ((p = BOOT_PID ∧ write_context k (context_ptr k p) rsp = set_boot_context k rsp) ∨
   ∃ i, (∃ s, slot_of (task_slots k) p i s) ∧
    write_context k (context_ptr k p) rsp =
    set_slots k (alter (λ s, mkSlot (slot_pid s) rsp (address_space s)) i (task_slots k))).
Proof.
  intros Hw Hp. unfold context_ptr. destruct Hp as [->|(i & s & Hi)].
  - rewrite Z.eqb_refl. cbn. split; [left; split; [done|by destruct k]|by left].
  - pose proof (slot_not_boot _ _ _ _ _ _ _ _ Hw Hi) as Hne. rewrite (proj2 (Z.eqb_neq _ _) Hne).
    rewrite (position_slot_of _ p i s) by (done || apply Hw). cbn. split.
    + right. split; [done|]. exists i, (mkSlot (slot_pid s) rsp (address_space s)).
      split; [|done]. replace (task_slots (set_slots k _)) with
        (alter (λ s, mkSlot (slot_pid s) rsp (address_space s)) i (task_slots k)) by by destruct k.
      apply slot_of_alter; [done|]. exists s. by rewrite decide_True.
    + right. exists i. split; [by exists s|done].
Qed.

Lemma pool_wf_tick l rq np ti ti' mp : ti <= ti' → pool_wf l rq np ti mp → pool_wf l rq np ti' mp.
Proof.
  intros Hle [? ? ? ? Hc ? ? ? ?]. split; try done; [|lia].
  intros p q Hq. destruct (Hc p q Hq). split; [done|lia].
Qed.

(** Saving [rsp] in the context of [p] changes no pid and no address space. *)
Lemma write_context_frame k rq np ti mp p rsp :
  pool_wf (task_slots k) rq np ti mp → p = BOOT_PID ∨ live (task_slots k) p →
  let k' := write_context k (context_ptr k p) rsp in
  globals k' = globals k ∧ mapped k' = mapped k ∧ scheduler k' = scheduler k ∧
  next_pid k' = next_pid k ∧ ticks k' = ticks k ∧ current k' = current k ∧
  default_l4_frame k' = default_l4_frame k ∧ cr3 k' = cr3 k ∧
  pool_wf (task_slots k') rq np ti mp ∧ (∀ q f, home k q f → home k' q f) ∧
  (∀ q i s, slot_of (task_slots k') q i s → q ≠ p → slot_of (task_slots k) q i s) ∧
  (p ≠ BOOT_PID → boot_context k' = boot_context k).
Proof.
  intros Hw Hp k'. destruct (write_context_saved k rq np ti mp p rsp Hw Hp)
    as [_ [[-> Hk]|(i & [s Hs] & Hk)]]; fold k' in Hk; rewrite Hk; clear Hk k'; destruct k; cbn in *.
  - split_and!; done.
  - split_and!; try done.
    + by apply pool_wf_alter.
    + intros q f [[-> Hd]|(Hq & j & t & Ht & Hf)]; [by left|right; split; [done|]].
      exists j. eexists. cbn. split; [apply slot_of_alter; [done|]; by exists t|].
      by destruct (decide (j = i)).
    + intros q j t Ht Hne. apply slot_of_alter in Ht as (t0 & Ht & ->); [|done].
      destruct (decide (j = i)) as [->|]; [|done]. destruct Hne. destruct Hs, Ht. congruence.
Qed.

(** The end of both handlers: [next] becomes current, in its own page tables, and
    the outgoing context [prev], unless it has exited, has its [rsp] saved. *)
Lemma dispatch_next k rq np ti mp next :
  pool_wf (task_slots k) rq np ti mp → is_Some (default_l4_frame k) →
  next = BOOT_PID ∨ live (task_slots k) next →
  ∃ f, switch_address_space_to (set_current k next) next = set_cr3 (set_current k next) f ∧
       home (set_current k next) next f.
Proof.
  intros Hw Hd Hn.
  assert (pool_wf (task_slots (set_current k next)) rq np ti mp) as Hw' by (by destruct k).
  destruct (home_exists (set_current k next) rq np ti mp next) as [f Hf];
    [done|by destruct k|by destruct k|].
  exists f. split; [by eapply switch_address_space_home|done].
Qed.

(** The stack pointer at a tick is on the stack of what is running. *)
Definition rsp_ok k (rsp : Z) : Prop :=
  (current k = BOOT_PID → boot_stack rsp) ∧
  (∀ i s, slot_of (task_slots k) (current k) i s → in_stack i rsp).

Lemma charge_current k rq :
  tasks_inv k → scheduler k = Some rq → ticks k < u64_max →
  ∃ rq', (if negb (current k =? BOOT_PID) then update_vruntime rq (current k) 1 else Ret rq) = Ret rq' ∧
    pool_wf (task_slots k) rq' (next_pid k) (ticks k + 1) (mapped k).
Proof.
  intros Hi Hsc Ht. destruct (ti_pool k Hi) as (rq0 & Hsc' & Hw). rewrite Hsc in Hsc'. injection Hsc' as <-.
  destruct (current_live k rq Hi Hsc) as [->|[Hne (i & s & Hs)]].
  - rewrite Z.eqb_refl. exists rq. split; [done|]. eapply pool_wf_tick; [|done]. lia.
  - rewrite (proj2 (Z.eqb_neq _ _) Hne). apply pool_wf_charge; [done|by exists i, s|done].
Qed.

Lemma tick_ret k rsp :
  tasks_inv k → rsp_ok k rsp → ticks k < u64_max →
  ∃ k' o, on_timer_tick k rsp = Ret (k', o) ∧ tasks_inv k' ∧ ticks k' = ticks k + 1 ∧
    globals k' = globals k ∧ mapped k' = mapped k ∧
    (∃ rq, scheduler k = Some rq ∧ current k' = next_of (ticks k + 1) rq) ∧
    match o with
    | None => current k' = current k
    | Some r => current k' ≠ current k ∧ resumes k (current k') r ∧ saved k' (current k) rsp
    end.
Proof.
  intros Hi [Hrb Hrs] Ht. destruct (ti_pool k Hi) as (rq & Hsc & Hw).
  destruct (charge_current k rq Hi Hsc Ht) as (rq' & Hch & Hw').
  pose proof (pw_ticks _ _ _ _ _ Hw) as Ht0. unfold u64_max in Ht.
  pose proof (next_of_live (ticks k + 1) _ _ _ _ _ Hw) as Hnext.
  pose proof (current_live k rq Hi Hsc) as Hcur.
  destruct Hi as [Hmem _ Hctx Hboot Hdef Hcr3].
  destruct k as [g mp ts bc np sc cu ti dl c3 es ce ds dss st]. cbn in *. subst sc.
  unfold on_timer_tick. cbn. rewrite u64_add_ret by lia. cbn. fold (next_of (ti + 1) rq).
  rewrite Hch. cbn. remember (next_of (ti + 1) rq) as next eqn:Hdef_next.
  destruct (Z.eqb_spec cu next) as [->|Hne].
  { eexists _, None. split; [reflexivity|]. cbn. split_and!; try done; [|by exists rq].
    split; cbn; [done|by exists rq'|done..]. }
  set (k1 := mkKernel g mp ts bc np (Some rq') cu (ti + 1) dl c3 es ce ds dss st).
  destruct (dispatch_next k1 rq' np (ti + 1) mp next) as (f & Hsw & Hf); [done..|].
  cbn in Hsw. rewrite Hsw. cbn. clear Hsw.
  set (k2 := mkKernel g mp ts bc np (Some rq') next (ti + 1) dl f es ce ds dss st) in *.
  assert (cu = BOOT_PID ∨ live ts cu) as Hcu by (destruct Hcur as [?|(? & i & s & ?)]; [by left|right; by exists i, s]).
  destruct (write_context_saved k2 rq' np (ti + 1) mp cu rsp Hw' Hcu) as [Hsaved _].
  pose proof (write_context_frame k2 rq' np (ti + 1) mp cu rsp Hw' Hcu) as Hfr.
  cbn zeta in Hfr. set (k3 := write_context k2 (context_ptr k2 cu) rsp) in *.
  destruct Hfr as (Hg & Hmp & Hsc & Hnp & Hti & Hc & Hdl & Hc3 & Hw3 & Hhome & Hslots & Hbc).
  assert (∀ p i s, slot_of ts p i s → p = next → in_stack i (context s)) as Hin.
  { intros p i s Hs ->. by apply (Hctx next). }
  exists k3, (Some (context_rsp k2 next)). split; [reflexivity|]. cbn in *.
  split_and!; try done; [|exists rq; by rewrite Hc|by rewrite Hc|].
  - split.
    + by rewrite Hg, Hmp.
    + exists rq'. split; [done|]. by rewrite Hnp, Hti, Hmp.
    + intros p i s Hs Hp. rewrite Hc in Hp. destruct (decide (p = cu)) as [->|Hpc].
      * destruct Hsaved as [[-> _]|(_ & j & t & Ht' & Hr)]; [by destruct (slot_not_boot _ _ _ _ _ _ _ _ Hw3 Hs)|].
        assert (i = j) as <- by (by eapply (pw_uniq _ _ _ _ _ Hw3)).
        assert (s = t) as <- by (destruct Hs, Ht'; congruence). rewrite Hr.
        destruct Hcur as [->|(_ & i' & s' & Hs')]; [by destruct (slot_not_boot _ _ _ _ _ _ _ _ Hw3 Hs)|].
        destruct (write_context_saved k2 rq' np (ti + 1) mp cu rsp Hw' Hcu) as [_ [[-> _]|(i0 & [s0 Hs0] & Hk)]];
          [by destruct (slot_not_boot _ _ _ _ _ _ _ _ Hw3 Hs)|].
        fold k3 in Hk. rewrite Hk in Hs. cbn in Hs. apply slot_of_alter in Hs as (s1 & Hs1 & _); [|done].
        by apply (Hrs i s1).
      * by apply (Hctx p i s); [apply Hslots|].
    + intros Hp. rewrite Hc in Hp. destruct (decide (cu = BOOT_PID)) as [->|Hcb].
      * destruct Hsaved as [[_ ->]|[? _]]; [by apply Hrb|done].
      * rewrite Hbc by done. by apply Hboot.
    + by rewrite Hdl.
    + rewrite Hc, Hc3. apply Hhome. destruct Hf as [[? ?]|(? & ?)]; [by left|by right].
  - rewrite Hc. apply (context_rsp_resumes k2 rq' np (ti + 1) mp next); [done|done| |].
    + intros ->. apply Hboot. done.
    + intros i s Hs. by apply (Hin next).
Qed.

(** A tick stores nothing but the interrupted context's stack pointer. *)
Lemma tick_contexts k rsp k' o :
  tasks_inv k → ticks k < u64_max → on_timer_tick k rsp = Ret (k', o) →
  (∀ p i s, slot_of (task_slots k') p i s → p ≠ current k → slot_of (task_slots k) p i s) ∧
  (current k ≠ BOOT_PID → boot_context k' = boot_context k) ∧
  (o = None → task_slots k' = task_slots k ∧ boot_context k' = boot_context k).
Proof.
  intros Hi Ht Hrun. destruct (ti_pool k Hi) as (rq & Hsc & Hw).
  destruct (charge_current k rq Hi Hsc Ht) as (rq' & Hch & Hw').
  pose proof (pw_ticks _ _ _ _ _ Hw) as Ht0. unfold u64_max in Ht.
  pose proof (next_of_live (ticks k + 1) _ _ _ _ _ Hw) as Hnext.
  assert (current k = BOOT_PID ∨ live (task_slots k) (current k)) as Hcu.
  { destruct (current_live k rq Hi Hsc) as [?|(_ & i & s & ?)]; [by left|right; by exists i, s]. }
  pose proof (ti_default k Hi) as Hdef. clear Hi.
  destruct k as [g mp ts bc np sc cu ti dl c3 es ce ds dss st]. cbn in *. subst sc.
  unfold on_timer_tick in Hrun. cbn in Hrun. rewrite u64_add_ret in Hrun by lia. cbn in Hrun.
  fold (next_of (ti + 1) rq) in Hrun. rewrite Hch in Hrun. cbn in Hrun.
  remember (next_of (ti + 1) rq) as next eqn:Hdef_next. clear Hdef_next.
  destruct (cu =? next); [by injection Hrun as <- <-|].
  destruct (dispatch_next (mkKernel g mp ts bc np (Some rq') cu (ti + 1) dl c3 es ce ds dss st)
              rq' np (ti + 1) mp next) as (f & Hsw & _); [done..|].
  cbn in Hsw. rewrite Hsw in Hrun. cbn in Hrun. clear Hsw.
  set (k2 := mkKernel g mp ts bc np (Some rq') next (ti + 1) dl f es ce ds dss st) in *.
  destruct (write_context_frame k2 rq' np (ti + 1) mp cu rsp Hw' Hcu)
    as (_ & _ & _ & _ & _ & _ & _ & _ & _ & _ & Hslots & Hbc).
  injection Hrun as <- <-. done.
Qed.

Lemma exit_ret k i s :
  tasks_inv k → slot_of (task_slots k) (current k) i s →
  let '(k', r) := exit_current_task k in
  tasks_inv k' ∧ ¬ live (task_slots k') (current k) ∧ resumes k' (current k') r ∧
  (∀ q j t, slot_of (task_slots k') q j t ↔ slot_of (task_slots k) q j t ∧ q ≠ current k) ∧
  (∃ rq, scheduler k = Some rq ∧
         current k' = next_of (ticks k) (remove_process rq (current k)).1) ∧
  task_exit_slot k' = Some (Z.of_nat i) ∧ task_c_exited k' = true ∧
  globals k' = globals k ∧ mapped k' = mapped k ∧ ticks k' = ticks k ∧
  next_pid k' = next_pid k ∧ task_d_spawned k' = task_d_spawned k ∧
  boot_context k' = boot_context k.
Proof.
  intros Hi Hs. destruct (ti_pool k Hi) as (rq & Hsc & Hw).
  pose proof (slot_not_boot _ _ _ _ _ _ _ _ Hw Hs) as Hcb.
  destruct Hi as [Hmem _ Hctx Hboot Hdef Hcr3].
  destruct k as [g mp ts bc np sc cu ti dl c3 es ce ds dss st]. cbn in *. subst sc.
  pose proof (pool_wf_exit ts rq np ti mp cu i s Hw Hs) as Hw'.
  set (rq' := (remove_process rq cu).1) in *.
  set (ts' := alter (λ s, mkSlot None (context s) (address_space s)) i ts) in *.
  assert (∀ q j t, slot_of ts' q j t ↔ slot_of ts q j t ∧ q ≠ cu) as Hslots
    by (intros q j t; apply (slot_of_clear ts cu i s); [apply Hw|done]).
  unfold exit_current_task. cbn.
  rewrite (position_slot_of ts cu i s) by (done || apply Hw). cbn. fold rq' ts'.
  fold (next_of ti rq'). pose proof (next_of_live ti _ _ _ _ _ Hw') as Hnext.
  assert (next_of ti rq' ≠ cu) as Hne.
  { intros Heq. rewrite Heq in Hnext. destruct Hnext as [?|(j & t & [_ ?]%Hslots)]; done. }
  remember (next_of ti rq') as next eqn:Hdef_next.
  set (k1 := mkKernel g mp ts' bc np (Some rq') cu ti dl c3 (Some (Z.of_nat i)) true ds dss st).
  destruct (dispatch_next k1 rq' np ti mp next) as (f & Hsw & Hf); [done..|].
  cbn in Hsw. rewrite Hsw. cbn. clear Hsw.
  set (k2 := mkKernel g mp ts' bc np (Some rq') next ti dl f (Some (Z.of_nat i)) true ds dss st).
  assert (resumes k2 next (context_rsp k2 next)) as Hres.
  { apply (context_rsp_resumes k2 rq' np ti mp next); [done|done|by intros; apply Hboot|].
    intros j t Hj. apply Hslots in Hj as [Hj ?]. by apply (Hctx next). }
  split_and!; try done; [| |by exists rq].
  - split; cbn; try done.
    + by exists rq'.
    + intros q j t Hq Hqn. apply Hslots in Hq as [Hq ?]. by apply (Hctx q).
    + by intros; apply Hboot.
  - intros (j & t & [_ ?]%Hslots). done.
Qed.

(** The kernel when [init] runs: an empty pool, nothing mapped for it. *)
Definition boot_kernel (g : option (M * PhysicalAllocator)) (cr3 : Z) (st : memory) : kernel M :=
  mkKernel g (replicate (Z.to_nat MAX_SLOTS) false) (replicate (Z.to_nat MAX_TASKS) TaskSlot_EMPTY)
    0 0 None BOOT_PID 0 None cr3 None false false None st.

(** The first two statements of [init]. *)
Definition init_begin k : kernel M :=
  set_default_l4 (set_scheduler k (Some RunQueue_new)) (Some (cr3 k)).

Lemma tasks_inv_init g c st :
  mem_inv g (replicate (Z.to_nat MAX_SLOTS) false) → tasks_inv (init_begin (boot_kernel g c st)).
Proof.
  intros Hg. assert (∀ p i s, ¬ slot_of (replicate 8 TaskSlot_EMPTY) p i s) as Hno.
  { intros p i s [Hi Hp]. apply lookup_replicate in Hi as [-> _]. discriminate Hp. }
  split; cbn; try done.
  - exists RunQueue_new. split; [done|].
    split.
    + done.
    + intros p i j s t []%Hno.
    + auto with uosc.
    + intros p. simpl. rewrite lookup_empty. split; [by intros (i & s & []%Hno)|by intros [? ?]].
    + intros p q. simpl. by rewrite lookup_empty.
    + by intros p (i & s & []%Hno).
    + done.
    + done.
    + by intros p i s []%Hno.
  - by intros p i s []%Hno.
  - left. done.
Qed.

(** The first free slot. *)
Lemma position_free l :
  match position (λ s, bool_decide (slot_pid s = None)) l with
  | Some i => (∃ s, l !! i = Some s ∧ slot_pid s = None) ∧
              ∀ j t, (j < i)%nat → l !! j = Some t → slot_pid t ≠ None
  | None => ∀ s, s ∈ l → slot_pid s ≠ None
  end.
Proof.
  destruct (position _ l) as [i|] eqn:E.
  - apply position_Some in E as (s & Hs & Hp & Hlt). apply bool_decide_eq_true in Hp.
    split; [by exists s|]. intros j t Hj Ht. specialize (Hlt j t Hj Ht).
    by apply bool_decide_eq_false in Hlt.
  - intros s Hs. rewrite position_None in E. specialize (E s Hs). by apply bool_decide_eq_false in E.
Qed.

(** The stack of a slot, as the slice [init_stack] gets. *)
Lemma init_stack_slot trampoline m i entry :
  (i < 8)%nat → 0 <= trampoline < 2 ^ 64 → 0 <= entry < 2 ^ 64 →
  ∃ m', init_stack trampoline m (stack_base i) STACK_SIZE entry =
          Ret (m', stack_base i + STACK_SIZE - 64) ∧
    words_at m' (stack_base i + STACK_SIZE - 64) [entry; 0; 0; 0; 0; 0; trampoline] ∧
    ∀ b, ¬ (stack_base i <= b < stack_base i + STACK_SIZE) → m' b = m b.
Proof.
  intros Hi Ht He. pose proof (stack_page_canonical i Hi).
  destruct (init_stack_ret trampoline m (stack_base i) STACK_SIZE entry) as (m' & Hm & _ & _ & Hat & Hout);
    try (unfold STACK_SIZE in *; lia).
  exists m'. rewrite Hm.
  assert ((stack_base i + STACK_SIZE) mod 16 = 0) as Hmod.
  { apply Z.mod_divide; [done|]. exists ((REGION_BASE + PAGE_SIZE + STACK_SIZE) / 16 + Z.of_nat i * 4352).
    layout. change ((0x333333330000 + 0x1000 + 64 * 1024) / 16) with 0x33333334100. lia. }
  replace ((stack_base i + STACK_SIZE) / 16 * 16) with (stack_base i + STACK_SIZE) in *
    by (pose proof (Z.div_mod (stack_base i + STACK_SIZE) 16); lia).
  done.
Qed.

Definition words_ok (trampoline entry : Z) : Prop := 0 <= trampoline < 2 ^ 64 ∧ 0 <= entry < 2 ^ 64.

(** What a spawn leaves: slot [i], which was free, holds the new task. *)
Record spawned k k' (p : Z) (i : nat) (space : option Z) (trampoline entry : Z) : Prop := {
  sp_free : ∃ s, task_slots k !! i = Some s ∧ slot_pid s = None;
  sp_lowest : ∀ j t, (j < i)%nat → task_slots k !! j = Some t → slot_pid t ≠ None;
  sp_slots : task_slots k' =
    <[i := mkSlot (Some p) (stack_base i + STACK_SIZE - 64) space]> (task_slots k);
  sp_queue : ∃ rq, scheduler k = Some rq ∧
    scheduler k' = Some (add_process rq (mkProcess p Normal Ready 0));
  sp_frame : words_at (stacks k') (stack_base i + STACK_SIZE - 64)
    [entry; 0; 0; 0; 0; 0; trampoline];
  sp_stacks : ∀ b, ¬ (stack_base i <= b < stack_base i + STACK_SIZE) → stacks k' b = stacks k b;
  sp_mapped : mapped k' = <[i := true]> (mapped k);
  sp_pages : same_but_stack i k k';
  sp_again : mapped k !! i = Some true → globals k' = globals k;
}.

Lemma spawn_inv nx trampoline k entry space k' o :
  tasks_inv k → next_pid k < BOOT_PID → words_ok trampoline entry →
  spawn_task_impl nx trampoline k entry space = Ret (k', o) →
  tasks_inv k' ∧ next_pid k' = next_pid k + 1 ∧ current k' = current k ∧ ticks k' = ticks k ∧
  cr3 k' = cr3 k ∧ task_exit_slot k' = task_exit_slot k ∧ task_c_exited k' = task_c_exited k ∧
  task_d_spawned k' = task_d_spawned k ∧
  match o with
  | Some p => p = next_pid k ∧ ∃ i, (i < 8)%nat ∧ spawned k k' p i space trampoline entry
  | None => (∀ s, s ∈ task_slots k → slot_pid s ≠ None) ∧ k' = set_next_pid k (next_pid k + 1)
  end.
Proof.
  intros Hi Hnp [Ht He] Hrun. destruct (ti_pool k Hi) as (rq & Hsc & Hw).
  destruct (pw_next _ _ _ _ _ Hw) as [Hnp0 _]. unfold BOOT_PID, u64_max in Hnp.
  unfold spawn_task_impl in Hrun. rewrite Z.mod_small in Hrun by lia.
  replace (task_slots (set_next_pid k (next_pid k + 1))) with (task_slots k) in Hrun by by destruct k.
  pose proof (position_free (task_slots k)) as Hfree.
  destruct (position _ (task_slots k)) as [i|].
  2:{ injection Hrun as <- <-. destruct Hi as [Hmem _ Hctx Hboot Hdef Hcr3]. destruct k; cbn in *.
      split_and!; try done. split; cbn; try done. exists rq. split; [done|].
      destruct Hw as [? ? ? ? ? Hp ? ? ?]. split; try done; [|unfold BOOT_PID, u64_max in *; lia].
      intros p Hp'. apply Hp in Hp'. lia. }
  destruct Hfree as [(s & Hs & Hsp) Hlow].
  assert (i < 8)%nat as Hi8.
  { rewrite <- (pw_len _ _ _ _ _ Hw). by eapply lookup_lt_Some. }
  apply outcome_bind_ret in Hrun as ([k1 top] & Hmap & Hrun).
  set (k0 := set_next_pid k (next_pid k + 1)) in *.
  assert (mapped k !! i = Some true → k1 = k0) as Hagain.
  { intros Hmi. rewrite ensure_slot_mapped_again in Hmap by (done || by destruct k).
    by injection Hmap as <- _. }
  apply ensure_slot_mapped_inv in Hmap as (-> & Hmem1 & Hk1 & Hmp & Hsame); [|done|].
  2:{ replace (globals k0) with (globals k) by by destruct k.
      replace (mapped k0) with (mapped k) by by destruct k. apply (ti_mem k Hi). }
  rewrite u64_sub_ret in Hrun.
  2:{ pose proof (stack_page_canonical i Hi8). unfold STACK_SIZE in *. lia. }
  cbn [mbind outcome_bind] in Hrun. replace (stack_base i + STACK_SIZE - STACK_SIZE) with (stack_base i) in Hrun by lia.
  destruct (init_stack_slot trampoline (stacks k1) i entry Hi8 Ht He) as (m' & Hst & Hframe & Hstacks).
  rewrite Hst in Hrun. cbn [mbind outcome_bind] in Hrun.
  destruct Hi as [Hmem _ Hctx Hboot Hdef Hcr3].
  destruct k as [g mp ts bc np sc cu ti dl c3 es ce ds dss st]. cbn in *. subst sc.
  unfold k0 in *. clear k0. cbn in *. rewrite Hk1 in Hrun. cbn in Hrun.
  pose proof (pw_len _ _ _ _ _ Hw) as Hlen. rewrite vec_set_ret in Hrun by lia.
  rewrite Nat2Z.id in Hrun. cbn in Hrun. injection Hrun as <- <-. cbn.
  set (new := mkSlot (Some np) (stack_base i + STACK_SIZE - 64) space) in *.
  pose proof Hmem as [Hmlen _].
  assert (pool_wf ts rq np ti (mapped k1)) as Hw1.
  { rewrite Hmp. destruct Hw as [? ? ? ? ? ? ? ? Hm]. split; try done.
    intros p j t Hj. destruct (decide (j = i)) as [->|]; [by rewrite list_lookup_insert_eq by lia|].
    rewrite list_lookup_insert_ne by done. by eapply Hm. }
  assert (pool_wf (<[i:=new]> ts) (add_process rq (mkProcess np Normal Ready 0)) (np + 1) ti (mapped k1)) as Hw2.
  { apply pool_wf_spawn; [done|done| |done|by rewrite Hmp, list_lookup_insert_eq by lia].
    intros t Ht'. congruence. }
  assert (∀ q j t, slot_of (<[i:=new]> ts) q j t → q ≠ np → slot_of ts q j t) as Hold.
  { intros q j t [Hj Hq] Hne. apply list_lookup_insert_Some in Hj as [(-> & <- & _)|[_ Hj]]; [|done].
    injection Hq as <-. done. }
  split_and!; try done.
  - split; cbn; try done; [by eexists| |].
    + intros q j t Hj Hne. destruct (decide (q = np)) as [->|Hq]; [|by eapply Hctx; [apply Hold|]].
      destruct Hj as [Hj Hq]. apply list_lookup_insert_Some in Hj as [(-> & <- & _)|[_ Hj]].
      * cbn. unfold in_stack. unfold STACK_SIZE. lia.
      * destruct (pw_pids _ _ _ _ _ Hw np); [by exists j, t|lia].
    + destruct Hcr3 as [[? ?]|(Hcb & j & t & Hj & Hf)]; [by left|right]. split; [done|].
      exists j, t. split; [|done]. destruct Hj as [Hj Hq]. split; [|done]. cbn.
      rewrite list_lookup_insert_ne; [done|]. intros <-. cbn in Hj. rewrite Hs in Hj. congruence.
  - exists i. split; [done|]. split; cbn; try done.
    + by exists s.
    + by exists rq.
    + intros b Hb. rewrite Hstacks by done. by rewrite Hk1.
    + intros Hmi. rewrite (Hagain Hmi). done.
Qed.

(** A spawn does not touch [BOOT_CONTEXT] or [TASK_D_SPAWN_SLOT]. *)
Lemma spawn_keeps nx trampoline k entry sp k' o :
  spawn_task_impl nx trampoline k entry sp = Ret (k', o) →
  boot_context k' = boot_context k ∧ task_d_spawn_slot k' = task_d_spawn_slot k.
Proof.
  unfold spawn_task_impl. destruct (position _ _) as [i|]; [|intros [= <- _]; by destruct k].
  intros ([k1 top] & Hmap & Hrun)%outcome_bind_ret.
  assert (boot_context k1 = boot_context k ∧ task_d_spawn_slot k1 = task_d_spawn_slot k) as [<- <-].
  { unfold ensure_slot_mapped in Hmap. apply outcome_bind_ret in Hmap as (sb & _ & Hmap).
    apply outcome_bind_ret in Hmap as (b & _ & Hmap). apply outcome_bind_ret in Hmap as (k2 & Hk2 & Hmap).
    apply outcome_bind_ret in Hmap as (? & _ & [= <- _]). destruct b; cbn in Hk2.
    - injection Hk2 as <-. by destruct k.
    - destruct (globals _) as [g|]; [|done]. apply outcome_bind_ret in Hk2 as (? & _ & Hk2).
      apply outcome_bind_ret in Hk2 as (? & _ & [= <-]). by destruct k. }
  apply outcome_bind_ret in Hrun as (sb & _ & Hrun). apply outcome_bind_ret in Hrun as ([st rsp] & _ & Hrun).
  apply outcome_bind_ret in Hrun as (sl & _ & [= <- _]). destruct k1; cbn. by case_match.
Qed.

(** With the slot's stack mapped, a spawn returns. *)
Lemma spawn_total nx trampoline k entry space :
  tasks_inv k → words_ok trampoline entry →
  (∀ i, (i < 8)%nat → (∃ s, task_slots k !! i = Some s ∧ slot_pid s = None) →
        (∀ j t, (j < i)%nat → task_slots k !! j = Some t → slot_pid t ≠ None) →
        mapped k !! i = Some true) →
  ∃ out, spawn_task_impl nx trampoline k entry space = Ret out.
Proof.
  intros Hi [Ht He] Hmi. destruct (ti_pool k Hi) as (rq & Hsc & Hw).
  unfold spawn_task_impl.
  replace (task_slots (set_next_pid k _)) with (task_slots k) by by destruct k.
  pose proof (position_free (task_slots k)) as Hfree.
  destruct (position _ (task_slots k)) as [i|]; [|by eexists].
  destruct Hfree as [Hs Hlow].
  assert (i < 8)%nat as Hi8.
  { rewrite <- (pw_len _ _ _ _ _ Hw). destruct Hs as (s & Hs & _). by eapply lookup_lt_Some. }
  rewrite ensure_slot_mapped_again; [|done|destruct k; by apply Hmi]. cbn [mbind outcome_bind].
  rewrite u64_sub_ret by (pose proof (stack_page_canonical i Hi8); unfold STACK_SIZE in *; lia).
  cbn [mbind outcome_bind].
  replace (stack_base i + STACK_SIZE - STACK_SIZE) with (stack_base i) by lia.
  destruct (init_stack_slot trampoline (stacks (set_next_pid k ((next_pid k + 1) mod 2 ^ 64))) i entry Hi8 Ht He)
    as (m' & -> & _). cbn [mbind outcome_bind].
  rewrite vec_set_ret by (replace (task_slots (set_next_pid k _)) with (task_slots k)
    by (by destruct k); rewrite (pw_len _ _ _ _ _ Hw); lia).
  cbn [mbind outcome_bind]. by eexists.
Qed.
End invariant.

(** ** Histories *)

(** What happens to the scheduler: a timer interrupt with the stack pointer
    [switch_to] would save, the running task's exit, a spawn, and the poll of
    [task_a_entry].  A step yields the stack pointer that was loaded, if any. *)
Inductive kernel_event :=
| EvTick (rsp : Z)
| EvExit
| EvSpawn (entry : Z) (space : option Z)
| EvPoll (entry : Z).

Section history.
Context `{Profile} {M : Type} `{MapperLaws M} (nx : bool) (trampoline : Z).
Variable boot_stack : Z → Prop.
Implicit Type k : kernel M.

Definition kernel_step (ev : kernel_event) k : outcome (kernel M * option Z) :=
  match ev with
  | EvTick rsp => on_timer_tick k rsp
  | EvExit => let '(k', r) := exit_current_task k in Ret (k', Some r)
  | EvSpawn entry space => (λ r, (r.1, None)) <$> spawn_task_impl nx trampoline k entry space
  | EvPoll entry => (λ k', (k', None)) <$> task_a_poll nx trampoline k entry
  end.

(** A tick interrupts what is running, on its own stack; only a task exits; pids
    and ticks have not run out. *)
Definition event_ok (ev : kernel_event) k : Prop :=
  match ev with
  | EvTick rsp => rsp_ok boot_stack k rsp ∧ ticks k < u64_max
  | EvExit => current k ≠ BOOT_PID
  | EvSpawn entry _ | EvPoll entry => words_ok trampoline entry ∧ next_pid k < BOOT_PID
  end.

(** The log of where each pid, or the boot flow, was suspended last: at the stack
    pointer of the interrupt that switched away from it, or, when it has not run yet, at
    the frame its spawn made at the top of its stack.  It is kept from the events and
    from who runs before and after, not from the contexts the kernel stores. *)
Definition note ev k k' (log : gmap Z Z) : gmap Z Z :=
  match ev with
  | EvTick rsp => if current k' =? current k then log else <[current k := rsp]> log
  | EvExit => delete (current k) log
  | EvSpawn _ _ | EvPoll _ =>
      match slot_index_for_pid k' (next_pid k) with
      | Some i => <[next_pid k := stack_base i + STACK_SIZE - 64]> log
      | None => log
      end
  end.

Inductive history : kernel M → kernel M → gmap Z Z → Prop :=
| history_0 k : history k k ∅
| history_S k k1 log ev k2 loaded :
    history k k1 log → event_ok ev k1 → kernel_step ev k1 = Ret (k2, loaded) →
    history k k2 (note ev k1 k2 log).

Lemma set_d_spawned_inv k b : tasks_inv boot_stack k → tasks_inv boot_stack (set_d_spawned k b).
Proof. intros [Hm Hp Hc Hb Hd Hh]. destruct k. by split. Qed.

Lemma set_d_spawn_slot_inv k o :
  tasks_inv boot_stack k → tasks_inv boot_stack (set_d_spawn_slot k o).
Proof. intros [Hm Hp Hc Hb Hd Hh]. destruct k. by split. Qed.

Lemma exit_slot k : tasks_inv boot_stack k → current k ≠ BOOT_PID →
  ∃ i s, slot_of (task_slots k) (current k) i s.
Proof.
  intros Hi Hne. destruct (ti_pool _ k Hi) as (rq & Hsc & _).
  by destruct (current_live boot_stack k rq Hi Hsc) as [|[_ ?]].
Qed.

Lemma poll_inv k entry k' :
  tasks_inv boot_stack k → words_ok trampoline entry → next_pid k < BOOT_PID →
  task_a_poll nx trampoline k entry = Ret k' → tasks_inv boot_stack k'.
Proof.
  intros Hi Hw Hnp. unfold task_a_poll. destruct (_ && _); [|by intros [= <-]].
  intros Hrun. apply outcome_bind_ret in Hrun as ([k1 o] & Hs & Hrun).
  assert (tasks_inv boot_stack k1) as Hi1.
  { eapply (spawn_inv boot_stack) in Hs as (? & _); [done| |by destruct k|done]. by apply set_d_spawned_inv. }
  cbn in Hrun. destruct o; injection Hrun as <-; [|done]. by apply set_d_spawn_slot_inv.
Qed.

Lemma step_inv k ev k' loaded :
  tasks_inv boot_stack k → event_ok ev k → kernel_step ev k = Ret (k', loaded) →
  tasks_inv boot_stack k' ∧ ∀ r, loaded = Some r → current k' ≠ current k ∧ resumes boot_stack k (current k') r.
Proof.
  intros Hi Hok Hstep. destruct ev as [rsp| |entry space|entry]; cbn [kernel_step event_ok] in *.
  - destruct Hok as [Hrsp Ht]. destruct (tick_ret boot_stack k rsp Hi Hrsp Ht)
      as (k1 & o & Hk & Hi' & _ & _ & _ & _ & Ho). rewrite Hk in Hstep. injection Hstep as <- <-.
    split; [done|]. intros r ->. by destruct Ho as (? & ? & _).
  - destruct (exit_slot k Hi Hok) as (i & s & Hs). pose proof (exit_ret boot_stack k i s Hi Hs) as Hex.
    destruct (exit_current_task k) as [k1 r1]. injection Hstep as <- <-.
    destruct Hex as (Hi1 & Hdead & Hres & Hslots & Hrq & Hex).
    split; [done|]. intros r [= <-]. split.
    + intros Heq. apply Hdead. destruct (ti_cr3 _ k1 Hi1) as [[? _]|(_ & j & t & Hj & _)]; [congruence|].
      rewrite Heq in Hj. by exists j, t.
    + destruct Hex as (_ & _ & _ & _ & _ & _ & _ & Hbc).
      destruct Hres as [(? & -> & ?)|(? & j & t & Hj & -> & ?)]; [left|right].
      * by rewrite Hbc in *.
      * split; [done|]. exists j, t. apply Hslots in Hj as [? _]. done.
  - apply outcome_fmap_ret in Hstep as ([k1 o] & Hs & [= -> ->]). split; [|done].
    destruct Hok as [Hw Hnp]. by eapply (spawn_inv boot_stack) in Hs as (? & _).
  - apply outcome_fmap_ret in Hstep as (k1 & Hs & [= -> ->]). split; [|done].
    destruct Hok as [Hw Hnp]. by eapply poll_inv.
Qed.

(** The stored contexts of what is suspended are those of the log. *)
Definition log_ok k (log : gmap Z Z) : Prop :=
  (∀ p i s, slot_of (task_slots k) p i s → p ≠ current k → log !! p = Some (context s)) ∧
  (current k ≠ BOOT_PID → log !! BOOT_PID = Some (boot_context k)).

Lemma log_ok_resumes k log p r :
  log_ok k log → resumes boot_stack k p r → p ≠ current k → log !! p = Some r.
Proof.
  intros [Hs Hb] [(-> & -> & _)|(_ & i & s & Hi & -> & _)] Hp; [by apply Hb|by apply (Hs p i s)].
Qed.

Lemma slot_unique k p i s j t :
  tasks_inv boot_stack k → slot_of (task_slots k) p i s → slot_of (task_slots k) p j t → s = t.
Proof.
  intros Hi Hs Ht. destruct (ti_pool _ k Hi) as (rq & _ & Hw).
  assert (i = j) as <- by (by eapply (pw_uniq _ _ _ _ _ Hw)). destruct Hs, Ht. congruence.
Qed.

Lemma tick_log k rsp k' o log :
  tasks_inv boot_stack k → event_ok (EvTick rsp) k → log_ok k log →
  on_timer_tick k rsp = Ret (k', o) → log_ok k' (note (EvTick rsp) k k' log).
Proof.
  intros Hi [Hr Ht] [Hs Hb] Hrun.
  destruct (tick_contexts boot_stack k rsp k' o Hi Ht Hrun) as (Hslots & Hbc & Hsame).
  destruct (tick_ret boot_stack k rsp Hi Hr Ht) as (k1 & o1 & Hk & Hi' & _ & _ & _ & _ & Ho).
  rewrite Hrun in Hk. injection Hk as <- <-. cbn [note]. destruct o as [r|].
  2:{ destruct Hsame as [E1 E2]; [done|]. rewrite Ho, Z.eqb_refl. unfold log_ok. by rewrite E1, E2, Ho. }
  destruct Ho as (Hne & _ & Hsaved). rewrite (proj2 (Z.eqb_neq _ _) Hne). split.
  - intros p i s Hp Hpc. destruct (decide (p = current k)) as [->|Hpk].
    + rewrite lookup_insert_eq. f_equal. destruct Hsaved as [[Hcb _]|(_ & j & t & Ht' & <-)].
      * destruct (ti_pool _ k' Hi') as (rq & _ & Hw). by destruct (slot_not_boot _ _ _ _ _ _ _ _ Hw Hp).
      * by rewrite (slot_unique k' (current k) i s j t).
    + rewrite lookup_insert_ne by done. by apply (Hs p i s); [apply Hslots|].
  - intros _. destruct (decide (current k = BOOT_PID)) as [Hcb|Hcb].
    + rewrite Hcb, lookup_insert_eq. destruct Hsaved as [[_ ->]|[? _]]; [done|congruence].
    + rewrite lookup_insert_ne, Hbc by done. by apply Hb.
Qed.

Lemma exit_log k log :
  tasks_inv boot_stack k → current k ≠ BOOT_PID → log_ok k log →
  log_ok (exit_current_task k).1 (note EvExit k (exit_current_task k).1 log).
Proof.
  intros Hi Hok [Hs Hb]. destruct (exit_slot k Hi Hok) as (i & s & Hslot).
  pose proof (exit_ret boot_stack k i s Hi Hslot) as Hex.
  destruct (exit_current_task k) as [k1 r1]. cbn [fst note].
  destruct Hex as (_ & _ & _ & Hslots & _ & _ & _ & _ & _ & _ & _ & _ & Hbc). split.
  - intros p j t [Hp Hpk]%Hslots _. rewrite lookup_delete_ne by done. by apply (Hs p j t).
  - intros _. rewrite lookup_delete_ne, Hbc by done. by apply Hb.
Qed.

(** A spawn, noted under the pid it uses. *)
Lemma spawn_log k entry space k' o log :
  tasks_inv boot_stack k → words_ok trampoline entry → next_pid k < BOOT_PID → log_ok k log →
  spawn_task_impl nx trampoline k entry space = Ret (k', o) →
  log_ok k' (note (EvSpawn entry space) k k' log).
Proof.
  intros Hi Hw Hnp [Hs Hb] Hrun. destruct (spawn_keeps _ _ _ _ _ _ _ Hrun) as [Hbc _].
  destruct (spawn_inv boot_stack _ _ _ _ _ _ _ Hi Hnp Hw Hrun) as (Hi' & _ & Hc & _ & _ & _ & _ & _ & Ho).
  destruct (ti_pool _ k Hi) as (rq & _ & Hwk). pose proof (pw_pids _ _ _ _ _ Hwk) as Hpids.
  cbn [note]. unfold slot_index_for_pid. destruct o as [p|].
  - destruct Ho as (-> & i & Hi8 & Hsp).
    assert (slot_of (task_slots k') (next_pid k) i
              (mkSlot (Some (next_pid k)) (stack_base i + STACK_SIZE - 64) space)) as Hnew.
    { split; [|done]. rewrite (sp_slots _ _ _ _ _ _ _ Hsp). apply list_lookup_insert_eq.
      rewrite (pw_len _ _ _ _ _ Hwk). lia. }
    destruct (ti_pool _ k' Hi') as (rq' & _ & Hw').
    rewrite (position_slot_of _ (next_pid k) i _ (pw_uniq _ _ _ _ _ Hw' (next_pid k)) Hnew). split; rewrite ?Hc, ?Hbc.
    + intros q j t Hj Hq. destruct (decide (q = next_pid k)) as [->|Hne].
      * rewrite lookup_insert_eq. by rewrite (slot_unique k' _ j t i _ Hi' Hj Hnew).
      * rewrite lookup_insert_ne by done. apply (Hs q j t); [|done]. destruct Hj as [Hj Hqp].
        rewrite (sp_slots _ _ _ _ _ _ _ Hsp) in Hj.
        apply list_lookup_insert_Some in Hj as [(-> & <- & _)|[_ Hj]]; [|done]. injection Hqp as <-. done.
    + intros Hcb. rewrite lookup_insert_ne by lia. by apply Hb.
  - destruct Ho as [_ ->]. replace (task_slots (set_next_pid k _)) with (task_slots k) by by destruct k.
    pose proof (position_slot (task_slots k) (next_pid k)) as Hp.
    destruct (position _ _) as [i|]; [destruct Hp as [s Hsl]; destruct (Hpids (next_pid k)); [by exists i, s|lia]|].
    destruct k. split; [exact Hs|exact Hb].
Qed.

Lemma poll_log k entry k' log :
  tasks_inv boot_stack k → words_ok trampoline entry → next_pid k < BOOT_PID → log_ok k log →
  task_a_poll nx trampoline k entry = Ret k' → log_ok k' (note (EvPoll entry) k k' log).
Proof.
  intros Hi Hw Hnp Hlog. unfold task_a_poll. destruct (_ && _) eqn:Ecd.
  - intros ([k1 o] & Hs & Hrun)%outcome_bind_ret.
    assert (log_ok (set_d_spawned k true) log) as Hlog0 by by destruct k.
    assert (next_pid (set_d_spawned k true) = next_pid k) as Hn by by destruct k.
    pose proof (spawn_log _ _ _ _ _ _ (set_d_spawned_inv k true Hi) Hw ltac:(by rewrite Hn) Hlog0 Hs) as Hl.
    cbn [note] in *. rewrite Hn in Hl.
    cbn in Hrun. destruct o; injection Hrun as <-; [|done]. by destruct k1.
  - intros [= <-]. cbn [note]. unfold slot_index_for_pid.
    destruct (ti_pool _ k Hi) as (rq & _ & Hwk). pose proof (position_slot (task_slots k) (next_pid k)) as Hp.
    destruct (position _ _) as [i|]; [|done].
    destruct Hp as [s Hsl]. destruct (pw_pids _ _ _ _ _ Hwk (next_pid k)); [by exists i, s|lia].
Qed.

Lemma step_log k ev k' loaded log :
  tasks_inv boot_stack k → event_ok ev k → log_ok k log → kernel_step ev k = Ret (k', loaded) →
  log_ok k' (note ev k k' log).
Proof.
  intros Hi Hok Hlog Hstep. destruct ev as [rsp| |entry space|entry]; cbn [kernel_step event_ok] in *.
  - by eapply tick_log.
  - pose proof (exit_log k log Hi Hok Hlog) as Hl. destruct (exit_current_task k). by injection Hstep as <- _.
  - apply outcome_fmap_ret in Hstep as ([k1 o] & Hs & [= -> ->]). destruct Hok. by eapply spawn_log.
  - apply outcome_fmap_ret in Hstep as (k1 & Hs & [= -> ->]). destruct Hok. by eapply poll_log.
Qed.

(** A step that loads nothing leaves what runs. *)
Lemma step_stays k ev k' :
  tasks_inv boot_stack k → event_ok ev k → kernel_step ev k = Ret (k', None) → current k' = current k.
Proof.
  intros Hi Hok Hstep. destruct ev as [rsp| |entry space|entry]; cbn [kernel_step event_ok] in *.
  - destruct Hok as [Hrsp Ht]. destruct (tick_ret boot_stack k rsp Hi Hrsp Ht)
      as (k1 & o & Hk & _ & _ & _ & _ & _ & Ho). rewrite Hk in Hstep. by injection Hstep as <- ->.
  - by destruct (exit_current_task k).
  - apply outcome_fmap_ret in Hstep as ([k1 o] & Hs & [= ->]). destruct Hok as [Hw Hnp].
    by eapply (spawn_inv boot_stack) in Hs as (_ & _ & ? & _).
  - apply outcome_fmap_ret in Hstep as (k1 & Hs & [= ->]). destruct Hok as [Hw Hnp].
    unfold task_a_poll in Hs. destruct (_ && _); [|by injection Hs as ->].
    apply outcome_bind_ret in Hs as ([k2 o] & Hs & Hrun).
    eapply (spawn_inv boot_stack) in Hs as (_ & _ & Hc & _); [|by apply set_d_spawned_inv|by destruct k|done].
    replace (current (set_d_spawned k true)) with (current k) in Hc by by destruct k.
    cbn in Hrun. destruct o; injection Hrun as <-; [|done]. by destruct k2.
Qed.

Lemma history_inv k k' log :
  tasks_inv boot_stack k → (∀ p, ¬ live (task_slots k) p) → current k = BOOT_PID →
  history k k' log → tasks_inv boot_stack k' ∧ log_ok k' log.
Proof.
  intros Hi Hno Hcb Hh. induction Hh as [k|k k1 log ev k2 loaded _ IH Hok Hs].
  - split; [done|]. split; [|done]. intros p i s Hp. destruct (Hno p). by exists i, s.
  - destruct (IH Hi Hno Hcb) as [Hi1 Hl1]. split; [by eapply step_inv|by eapply step_log].
Qed.
End history.

(** ** Properties *)

Section properties.
Context `{Profile} {M : Type} `{MapperLaws M} (nx : bool) (trampoline : Z).
Variable boot_stack : Z → Prop.
Implicit Type k : kernel M.

(** [C2] Whatever sequence of ticks, exits, spawns and polls follows [init], ticks
    and exits never panic, and every step keeps the scheduler consistent: slots and
    run queue hold the same tasks, every suspended context is a frame on its own
    task's guarded stack, no guard page is mapped, and [CR3] is the table the
    running task is bound to.  What runs changes exactly when a stack pointer is
    loaded, and every stack pointer that is loaded is the one at which the new current
    task (or the boot flow) was suspended last: the stack pointer of the timer interrupt
    that switched away from it, or the frame its spawn made if it has not run yet, as
    logged from the events alone; it lies on that task's own stack. *)
Theorem scheduler_history g c st k log ev
    (Hg : mem_inv g (replicate (Z.to_nat MAX_SLOTS) false))
    (Hk : history nx trampoline boot_stack (init_begin (boot_kernel g c st)) k log)
    (Hev : event_ok trampoline boot_stack ev k) :
  tasks_inv boot_stack k ∧
  (∀ k' loaded, kernel_step nx trampoline ev k = Ret (k', loaded) →
     tasks_inv boot_stack k' ∧
     match loaded with
     | None => current k' = current k
     | Some r => current k' ≠ current k ∧ log !! current k' = Some r ∧ resumes boot_stack k (current k') r
     end) ∧
  (match ev with EvTick _ | EvExit => True | _ => False end →
   ∃ out, kernel_step nx trampoline ev k = Ret out).
Proof.
  destruct (history_inv nx trampoline boot_stack (init_begin (boot_kernel g c st)) k log
              (tasks_inv_init boot_stack g c st Hg)) as [Hi Hlog];
    [|done|exact Hk|].
  { intros p (i & s & Hs & Hp). apply lookup_replicate in Hs as [-> _]. discriminate Hp. }
  split; [done|]. split.
  - intros k' loaded Hs. destruct (step_inv nx trampoline boot_stack k ev k' loaded Hi Hev Hs) as [Hi' Hl].
    split; [done|]. destruct loaded as [r|]; [|by eapply step_stays].
    destruct (Hl r eq_refl) as [Hne Hres]. split; [done|]. split; [|done]. by eapply log_ok_resumes.
  - destruct ev as [rsp| |entry space|entry]; [..|done|done]; intros _; cbn [kernel_step event_ok] in *.
    + destruct Hev as [Hr Ht]. destruct (tick_ret boot_stack k rsp Hi Hr Ht) as (k' & o & -> & _). by eexists.
    + destruct (exit_current_task k). by eexists.
Qed.

(** [C32] One timer tick in a consistent state.  Within the tick budget the task with
    the least virtual runtime (then the least pid) runs next, or the boot flow when
    there is none; after the budget it is always the boot flow.  When that is
    not what was running, the interrupted context's stack pointer is stored in its
    own slot and the one stored for the next context is loaded. *)
Theorem timer_tick_spec k rsp
    (Hi : tasks_inv boot_stack k) (Hr : rsp_ok boot_stack k rsp) (Ht : ticks k < u64_max) :
  ∃ k' o rq, on_timer_tick k rsp = Ret (k', o) ∧ scheduler k = Some rq ∧
    ticks k' = ticks k + 1 ∧
    (SWITCH_TICK_BUDGET < ticks k + 1 → current k' = BOOT_PID) ∧
    (ticks k + 1 <= SWITCH_TICK_BUDGET → ∀ q y, processes rq !! q = Some y →
       ∃ x, processes rq !! current k' = Some x ∧ key_le (vruntime x, current k') (vruntime y, q)) ∧
    match o with
    | None => current k' = current k
    | Some r => current k' ≠ current k ∧ resumes boot_stack k (current k') r ∧
                saved k' (current k) rsp
    end.
Proof.
  destruct (tick_ret boot_stack k rsp Hi Hr Ht)
    as (k' & o & Hk & _ & Hti & _ & _ & (rq & Hsc & Hcur) & Ho).
  exists k', o, rq. rewrite Hcur in *. split_and!; try done.
  - intros Hb. unfold next_of. by rewrite (proj2 (Z.ltb_lt _ _) Hb).
  - intros Hb q y Hq. unfold next_of. rewrite (proj2 (Z.ltb_ge _ _) Hb).
    destruct (ti_pool boot_stack k Hi) as (rq' & Hsc' & Hw). rewrite Hsc in Hsc'. injection Hsc' as <-.
    pose proof (pool_pick _ _ _ _ _ Hw) as Hpick. destruct (pick_next_task rq) as [p|].
    + destruct Hpick as [[x Hx]%(pw_live _ _ _ _ _ Hw) Hmin]. exists x. split; [done|]. by eapply Hmin.
    + destruct (Hpick q). apply (pw_live _ _ _ _ _ Hw). by exists y.
Qed.

(** [C17] Spawning in a consistent state in which pids remain.  A call that returns is
    refused exactly when all eight slots are taken (the pid is used up all the same);
    otherwise the lowest free slot gets the next pid, the address space asked for and a
    stack from which the first switch reaches the trampoline and the entry point, and
    the task enters the run queue with virtual runtime 0; the pages of that stack are the
    only ones that may become mapped, and none is if the slot was used before.  It never
    panics when every free slot was used before. *)
Theorem spawn_spec k entry space
    (Hi : tasks_inv boot_stack k) (Hnp : next_pid k < BOOT_PID) (Hw : words_ok trampoline entry) :
  (∀ k' o, spawn_task_impl nx trampoline k entry space = Ret (k', o) →
     next_pid k' = next_pid k + 1 ∧
     match o with
     | Some p => p = next_pid k ∧ ∃ i, (i < 8)%nat ∧ spawned k k' p i space trampoline entry
     | None => (∀ s, s ∈ task_slots k → slot_pid s ≠ None) ∧ k' = set_next_pid k (next_pid k + 1)
     end) ∧
  ((∀ i s, task_slots k !! i = Some s → slot_pid s = None → mapped k !! i = Some true) →
   ∃ out, spawn_task_impl nx trampoline k entry space = Ret out).
Proof.
  split.
  - intros k' o Hs. eapply (spawn_inv boot_stack) in Hs as (_ & ? & _ & _ & _ & _ & _ & _ & Ho); done.
  - intros Hm. apply (spawn_total boot_stack); [done|done|]. intros i _ (s & Hs & Hn) _. by eapply Hm.
Qed.

(** After the exit of the task in slot [i], that slot is the lowest free one. *)
Lemma exit_lowest_free k k1 i s :
  tasks_inv boot_stack k → tasks_inv boot_stack k1 → slot_of (task_slots k) (current k) i s →
  (∀ q j t, slot_of (task_slots k1) q j t ↔ slot_of (task_slots k) q j t ∧ q ≠ current k) →
  (∀ j t, (j < i)%nat → task_slots k !! j = Some t → slot_pid t ≠ None) →
  (∃ t, task_slots k1 !! i = Some t ∧ slot_pid t = None) ∧
  (∀ j t, (j < i)%nat → task_slots k1 !! j = Some t → slot_pid t ≠ None).
Proof.
  intros Hi Hi1 Hs Hslots Hlow. destruct (ti_pool boot_stack k Hi) as (rq & _ & Hw).
  destruct (ti_pool boot_stack k1 Hi1) as (rq1 & _ & Hw1).
  assert (i < 8)%nat as Hi8.
  { rewrite <- (pw_len _ _ _ _ _ Hw). destruct Hs as [Hs _]. by eapply lookup_lt_Some. }
  split.
  - destruct (lookup_lt_is_Some_2 (task_slots k1) i) as [t Ht]; [by rewrite (pw_len _ _ _ _ _ Hw1)|].
    exists t. split; [done|]. destruct (slot_pid t) as [q|] eqn:E; [|done].
    destruct (proj1 (Hslots q i t)) as [[Ht' Hq] Hne]; [done|]. destruct Hs as [Hs Hp]. congruence.
  - intros j t Hj Ht.
    destruct (lookup_lt_is_Some_2 (task_slots k) j) as [u Hu]; [rewrite (pw_len _ _ _ _ _ Hw); lia|].
    pose proof (Hlow j u Hj Hu) as Hn. destruct (slot_pid u) as [q|] eqn:E; [|done].
    destruct (proj2 (Hslots q j u)) as [Hu1 Hq1]; [|congruence]. split; [done|]. intros ->.
    assert (j = i); [|lia]. by eapply (pw_uniq _ _ _ _ _ Hw).
Qed.

(** A poll after an exit spawns into the lowest free slot. *)
Lemma poll_spawns k i entry :
  tasks_inv boot_stack k → task_c_exited k = true → task_d_spawned k = false →
  next_pid k < BOOT_PID → words_ok trampoline entry → mapped k !! i = Some true →
  (∃ t, task_slots k !! i = Some t ∧ slot_pid t = None) →
  (∀ j t, (j < i)%nat → task_slots k !! j = Some t → slot_pid t ≠ None) →
  ∃ k2, task_a_poll nx trampoline k entry = Ret k2 ∧ task_d_spawn_slot k2 = Some (Z.of_nat i) ∧
    task_exit_slot k2 = task_exit_slot k ∧ globals k2 = globals k ∧
    live (task_slots k2) (next_pid k).
Proof.
  intros Hi Hc Hd Hnp Hw Hm (t & Ht & Htn) Hlow. unfold task_a_poll. rewrite Hc, Hd. cbn [andb negb].
  set (k0 := set_d_spawned k true).
  assert (tasks_inv boot_stack k0) as Hi0 by by apply set_d_spawned_inv.
  assert (task_slots k0 = task_slots k ∧ mapped k0 = mapped k ∧ next_pid k0 = next_pid k ∧
          globals k0 = globals k ∧ task_exit_slot k0 = task_exit_slot k)
    as (Ets & Emp & Enp & Eg & Ees) by (unfold k0; by destruct k).
  clearbody k0.
  assert (∀ i', (∃ s, task_slots k0 !! i' = Some s ∧ slot_pid s = None) →
           (∀ j u, (j < i')%nat → task_slots k0 !! j = Some u → slot_pid u ≠ None) → i' = i) as Huniq.
  { rewrite Ets. intros i' (u & Hu & Hun) Hl. destruct (Nat.lt_trichotomy i' i) as [?|[?|?]]; [|done|].
    - by destruct (Hlow i' u).
    - by destruct (Hl i t). }
  destruct (spawn_total boot_stack nx trampoline k0 entry None Hi0 Hw) as [[k2 o] Hs].
  { intros i' _ Hf Hl. by rewrite (Huniq i' Hf Hl), Emp. }
  unfold spawn_task. rewrite Hs. cbn [mbind outcome_bind fst snd].
  destruct (spawn_inv boot_stack _ _ _ _ _ _ _ Hi0 ltac:(by rewrite Enp) Hw Hs)
    as (Hi2 & _ & _ & _ & _ & Hes2 & _ & _ & Ho).
  destruct o as [p|]; [|destruct Ho as [Hfull _]; exfalso; apply (Hfull t); [|done];
                        apply list_elem_of_lookup; exists i; by rewrite Ets].
  destruct Ho as (-> & i' & Hi8 & Hsp). pose proof (Huniq i' (sp_free _ _ _ _ _ _ _ Hsp) (sp_lowest _ _ _ _ _ _ _ Hsp)) as ->.
  pose proof (sp_slots _ _ _ _ _ _ _ Hsp) as Hts.
  assert (slot_of (task_slots k2) (next_pid k0) i
            (mkSlot (Some (next_pid k0)) (stack_base i + STACK_SIZE - 64) None)) as Hslot.
  { split; [|done]. rewrite Hts, Ets. apply list_lookup_insert_eq. by eapply lookup_lt_Some. }
  destruct (ti_pool boot_stack k2 Hi2) as (rq2 & _ & Hw2).
  eexists. split; [reflexivity|]. unfold slot_index_for_pid.
  rewrite (position_slot_of _ (next_pid k0) i _ (pw_uniq _ _ _ _ _ Hw2 (next_pid k0)) Hslot).
  pose proof (sp_again _ _ _ _ _ _ _ Hsp ltac:(by rewrite Emp)) as Hg2.
  rewrite Enp in Hslot.
  destruct k2; cbn in *. rewrite Hes2, Ees, Hg2, Eg. split_and!; try done. by eexists _, _.
Qed.

(** Exit and reuse of the guarded slot.  When the task in slot [i] exits it is
    gone from the slots and from the run queue and is not what runs next; if every
    lower slot is taken, the poll of [task_a] then spawns task_d into that very
    slot, on the same stack pages, with nothing newly mapped. *)
Theorem exited_slot_reused k i s entry
    (Hi : tasks_inv boot_stack k) (Hs : slot_of (task_slots k) (current k) i s)
    (Hlow : ∀ j t, (j < i)%nat → task_slots k !! j = Some t → slot_pid t ≠ None)
    (Hd : task_d_spawned k = false) (Hnp : next_pid k < BOOT_PID) (Hw : words_ok trampoline entry) :
  let k1 := (exit_current_task k).1 in
  current k1 ≠ current k ∧ ¬ live (task_slots k1) (current k) ∧
  (∃ rq, scheduler k1 = Some rq ∧ processes rq !! current k = None) ∧
  ∃ k2, task_a_poll nx trampoline k1 entry = Ret k2 ∧
    task_d_spawn_slot k2 = Some (Z.of_nat i) ∧ task_exit_slot k2 = Some (Z.of_nat i) ∧
    globals k2 = globals k ∧ live (task_slots k2) (next_pid k).
Proof.
  cbn zeta. pose proof (exit_ret boot_stack k i s Hi Hs) as Hex.
  destruct (exit_current_task k) as [k1 r] eqn:Ek. cbn [fst].
  destruct Hex as (Hi1 & Hdead & _ & Hslots & _ & Hes & Hce & Hg & Hmp & _ & Hnp1 & Hds & _).
  destruct (ti_pool boot_stack k1 Hi1) as (rq1 & Hsc1 & Hw1).
  split.
  { intros Heq. apply Hdead. destruct (ti_cr3 boot_stack k1 Hi1) as [[Hb _]|(_ & j & t & Hj & _)].
    - destruct (ti_pool boot_stack k Hi) as (rq & _ & Hwk).
      destruct (slot_not_boot _ _ _ _ _ _ _ _ Hwk Hs). congruence.
    - rewrite Heq in Hj. by exists j, t. }
  split; [done|]. split.
  { exists rq1. split; [done|]. apply eq_None_not_Some. by rewrite <- (pw_live _ _ _ _ _ Hw1). }
  destruct (exit_lowest_free k k1 i s) as (Hfree & Htaken); [done|done|done|done|done|].
  destruct (poll_spawns k1 i entry) as (k2 & Hpoll & Hd2 & He2 & Hg2 & Hl2); try done.
  - by rewrite Hds.
  - by rewrite Hnp1.
  - rewrite Hmp. destruct (ti_pool boot_stack k Hi) as (rq & _ & Hwk).
    by eapply (pw_mapped _ _ _ _ _ Hwk).
  - exists k2. rewrite Hd2, He2, Hg2, <- Hnp1. done.
Qed.
(** The guarded stacks.  [ensure_slot_mapped] on a slot that succeeds leaves all
    sixteen pages of its stack mapped, in the canonical lower half, maps no other
    page, and in particular no guard page of any slot; a second call changes
    nothing. *)
Theorem guarded_stack_mapping k i k' top
    (Hi : (i < 8)%nat) (Hm : mem_inv (globals k) (mapped k))
    (Hrun : ensure_slot_mapped nx k (Z.of_nat i) = Ret (k', top)) :
  mem_inv (globals k') (mapped k') ∧ top = stack_base i + STACK_SIZE ∧
  0 <= guard_page i ∧ top < 2 ^ 47 ∧
  (∃ m phys m' phys', globals k = Some (m, phys) ∧ globals k' = Some (m', phys') ∧
     same_frames phys phys' ∧
     (∀ j, 0 <= j < STACK_PAGES → walk m' (stack_page i j) ≠ None) ∧
     (∀ i', (i' < 8)%nat → walk m' (guard_page i') = None) ∧
     (∀ q, (∀ j, 0 <= j < STACK_PAGES → q ≠ stack_page i j) → walk m' q = walk m q)) ∧
  ensure_slot_mapped nx k' (Z.of_nat i) = Ret (k', top).
Proof.
  pose proof (mi_len _ _ Hm) as Hlen.
  destruct (ensure_slot_mapped_inv nx k i k' top Hi Hm Hrun) as (-> & Hm' & _ & Hmp & Hsame).
  assert (mapped k' !! i = Some true) as Hmi by (rewrite Hmp; apply list_lookup_insert_eq; lia).
  split; [done|]. split; [done|]. split; [layout; lia|]. split; [by apply stack_page_canonical|].
  split; [|by apply ensure_slot_mapped_again].
  destruct Hsame as (m & phys & m' & phys' & Hg & Hg' & Hfr & Hrest).
  destruct Hm' as [_ (m2 & p2 & Hg2 & _ & Hmap & Hguard)]. rewrite Hg' in Hg2. injection Hg2 as <- <-.
  exists m, phys, m', phys'. split_and!; try done. intros j Hj. by apply Hmap.
Qed.
End properties.

(** ** Witnesses *)

Definition demo_globals : option (radix * PhysicalAllocator) := Some (mkRadix ∅ ∅, demo_phys).

Definition demo_boot : kernel radix := boot_kernel demo_globals 0x5000 (λ _, 0).

Definition demo_stack (r : Z) : Prop := r = 0x9000.

Lemma demo_globals_ok : mem_inv demo_globals (replicate (Z.to_nat MAX_SLOTS) false).
Proof.
  split; [done|]. exists (mkRadix ∅ ∅), demo_phys. split; [done|]. split; [exact demo_phys_wf|].
  split; [|done]. intros i j Hi. by apply lookup_replicate in Hi as [? _].
Qed.

(** [init] has begun and one task has been spawned. *)
Definition demo_kernel : kernel radix :=
  match @spawn_task_impl true radix radix_mapper true 0x7000 (init_begin demo_boot) 0x5555 None with
  | Ret (k, _) => k
  | _ => demo_boot
  end.

Lemma demo_spawn :
  @spawn_task_impl true radix radix_mapper true 0x7000 (init_begin demo_boot) 0x5555 None =
  Ret (demo_kernel, Some 0).
Proof.
  unfold demo_kernel.
  assert (match @spawn_task_impl true radix radix_mapper true 0x7000 (init_begin demo_boot) 0x5555 None with
          | Ret (_, Some p) => p =? 0
          | _ => false
          end = true) as Hrun by (vm_compute; reflexivity).
  destruct (spawn_task_impl _ _ _ _ _) as [[k [p|]]| |]; [|discriminate Hrun..].
  apply Z.eqb_eq in Hrun as ->. reflexivity.
Qed.

Lemma demo_words : words_ok 0x7000 0x5555.
Proof. split; (split; [discriminate|reflexivity]). Qed.

Lemma demo_init_inv : @tasks_inv radix radix_mapper demo_stack (init_begin demo_boot).
Proof. apply tasks_inv_init, demo_globals_ok. Qed.

Lemma demo_inv : @tasks_inv radix radix_mapper demo_stack demo_kernel.
Proof.
  apply (@spawn_inv true radix radix_mapper radix_laws demo_stack true 0x7000 _ 0x5555 None _ _
    demo_init_inv ltac:(reflexivity) demo_words demo_spawn).
Qed.

Lemma demo_rsp : rsp_ok demo_stack demo_kernel 0x9000.
Proof.
  split; [done|]. intros i s Hs. exfalso.
  destruct (ti_pool _ _ demo_inv) as (rq & _ & Hw).
  apply (slot_not_boot _ _ _ _ _ _ _ _ Hw Hs). vm_compute. reflexivity.
Qed.

(** The first tick goes from the boot flow to the task, at the frame its spawn made. *)
Lemma scheduler_history_witness :
  @tasks_inv radix radix_mapper demo_stack demo_kernel ∧
  ∃ k' r, @kernel_step true radix radix_mapper true 0x7000 (EvTick 0x9000) demo_kernel = Ret (k', Some r) ∧
    current k' = 0 ∧ r = stack_base 0 + STACK_SIZE - 64.
Proof.
  assert (@history true radix radix_mapper true 0x7000 demo_stack (init_begin demo_boot) demo_kernel
            {[0 := stack_base 0 + STACK_SIZE - 64]}) as Hh.
  { assert (note (EvSpawn 0x5555 None) (init_begin demo_boot) demo_kernel ∅ =
            {[0 := stack_base 0 + STACK_SIZE - 64]}) as <- by (vm_compute; reflexivity).
    apply (history_S true 0x7000 demo_stack _ (init_begin demo_boot) ∅ (EvSpawn 0x5555 None) demo_kernel None).
    - apply history_0.
    - split; [exact demo_words|reflexivity].
    - cbn [kernel_step]. rewrite demo_spawn. reflexivity. }
  destruct (@scheduler_history true radix radix_mapper radix_laws true 0x7000 demo_stack
    demo_globals 0x5000 (λ _, 0) demo_kernel _ (EvTick 0x9000) demo_globals_ok Hh) as (Hi & Hstep & Hret).
  { split; [exact demo_rsp|]. vm_compute. reflexivity. }
  split; [exact Hi|]. destruct (Hret I) as [[k' o] Hk].
  destruct (Hstep k' o Hk) as [_ Ho].
  assert (match @kernel_step true radix radix_mapper true 0x7000 (EvTick 0x9000) demo_kernel with
          | Ret (k', Some _) => current k' =? 0
          | _ => false
          end = true) as Hrun by (vm_compute; reflexivity).
  rewrite Hk in Hrun. destruct o as [r|]; [|discriminate Hrun].
  apply Z.eqb_eq in Hrun. exists k', r. split; [exact Hk|]. split; [exact Hrun|].
  destruct Ho as (_ & Hlog & _). rewrite Hrun, lookup_singleton_eq in Hlog. injection Hlog as <-. reflexivity.
Defined.

Lemma timer_tick_spec_witness :
  ∃ k' o, @on_timer_tick true radix demo_kernel 0x9000 = Ret (k', o) ∧
    current k' = 0 ∧ saved k' BOOT_PID 0x9000.
Proof.
  destruct (@timer_tick_spec true radix radix_mapper demo_stack demo_kernel 0x9000
    demo_inv demo_rsp ltac:(vm_compute; reflexivity))
    as (k' & o & rq & Hk & _ & _ & _ & _ & Ho).
  assert (match @on_timer_tick true radix demo_kernel 0x9000 with
          | Ret (k', Some _) => current k' =? 0
          | _ => false
          end = true) as Hrun by (vm_compute; reflexivity).
  rewrite Hk in Hrun. destruct o as [r|]; [|discriminate Hrun]. apply Z.eqb_eq in Hrun.
  exists k', (Some r). split; [exact Hk|]. split; [exact Hrun|].
  replace BOOT_PID with (current demo_kernel) by (vm_compute; reflexivity). apply Ho.
Defined.

Lemma spawn_spec_witness :
  ∃ i, spawned (init_begin demo_boot) demo_kernel 0 i None 0x7000 0x5555.
Proof.
  destruct (proj1 (@spawn_spec true radix radix_mapper radix_laws true 0x7000 demo_stack
    (init_begin demo_boot) 0x5555 None demo_init_inv ltac:(reflexivity) demo_words)
    demo_kernel (Some 0) demo_spawn) as (_ & _ & i & _ & Hs).
  exists i. exact Hs.
Defined.

(** The task is running: the first tick has switched to it. *)
Definition demo_running : kernel radix :=
  match @on_timer_tick true radix demo_kernel 0x9000 with
  | Ret (k, _) => k
  | _ => demo_kernel
  end.

Lemma demo_running_inv :
  @tasks_inv radix radix_mapper demo_stack demo_running ∧ current demo_running = 0.
Proof.
  destruct (@tick_ret true radix radix_mapper demo_stack demo_kernel 0x9000
    demo_inv demo_rsp ltac:(vm_compute; reflexivity)) as (k' & o & Hk & Hi & _).
  assert (match @on_timer_tick true radix demo_kernel 0x9000 with
          | Ret (k', _) => current k' =? 0
          | _ => false
          end = true) as Hrun by (vm_compute; reflexivity).
  unfold demo_running. rewrite Hk in *. split; [exact Hi|]. by apply Z.eqb_eq.
Qed.

Lemma exited_slot_reused_witness :
  ∃ k2, @task_a_poll true radix radix_mapper true 0x7000 (exit_current_task demo_running).1 0x5555 =
    Ret k2 ∧ task_d_spawn_slot k2 = Some 0.
Proof.
  destruct demo_running_inv as [Hi Hc].
  assert (∃ s, slot_of (task_slots demo_running) (current demo_running) 0 s) as [s Hs].
  { destruct (ti_cr3 _ _ Hi) as [[Hb _]|(_ & i & s & Hs & _)]; [rewrite Hc in Hb; discriminate Hb|].
    exists s. assert (match task_slots demo_running with
                      | s0 :: rest => forallb (λ t, negb (has_pid 0 t)) rest
                      | [] => false
                      end = true) as Hrest by (vm_compute; reflexivity).
    destruct i as [|i]; [exact Hs|]. exfalso. destruct Hs as [Hs Hp]. rewrite Hc in Hp.
    destruct (task_slots demo_running) as [|s0 rest]; [discriminate Hrest|].
    pose proof (proj1 (forallb_forall _ _) Hrest s
      (proj1 (list_elem_of_In _ _) (list_elem_of_lookup_2 rest i s Hs))) as Hn.
    cbn beta in Hn. apply has_pid_spec in Hp. rewrite Hp in Hn. discriminate Hn. }
  destruct (@exited_slot_reused true radix radix_mapper radix_laws true 0x7000 demo_stack
    demo_running 0 s 0x5555 Hi Hs ltac:(intros j t Hj; inversion Hj) ltac:(vm_compute; reflexivity)
    ltac:(vm_compute; reflexivity) demo_words) as (_ & _ & _ & k2 & Hk & Hd1 & Hd2 & _).
  exists k2. split; [exact Hk|exact Hd1].
Defined.

Lemma guarded_stack_mapping_witness :
  ∃ k' top, @ensure_slot_mapped true radix radix_mapper true demo_boot 3 = Ret (k', top) ∧
    ∃ m' phys', globals k' = Some (m', phys') ∧ walk m' (stack_page 3 15) ≠ None ∧
                walk m' (guard_page 4) = None.
Proof.
  destruct (@ensure_slot_mapped true radix radix_mapper true demo_boot 3) as [[k' top]| |] eqn:E;
    [|vm_compute in E; discriminate E..].
  destruct (@guarded_stack_mapping true radix radix_mapper radix_laws true demo_boot 3 k' top
    ltac:(repeat constructor) demo_globals_ok E)
    as (_ & _ & _ & _ & (m & phys & m' & phys' & _ & Hg & _ & Hmap & Hguard & _) & _).
  exists k', top. split; [reflexivity|]. exists m', phys'. split; [exact Hg|].
  split; [apply Hmap; vm_compute; split; [discriminate|reflexivity]|apply Hguard; repeat constructor].
Defined.
