(* ===== verification/Interrupts.v ===== *)
(** * Segments, gates and interrupts

    Model of [src/kernel-x86_64/src/gdt.rs] and [interrupts.rs], of
    [cpu_features.rs], and of the interrupt set-up in [main.rs].  The descriptor table
    of the [x86_64] crate is an interface with laws; the registers of a core, the gates
    and the interrupt controllers are the hardware's. *)
From S2P Require Import Prelude Paging Context Tasks.

Definition DOUBLE_FAULT_IST_INDEX : Z := 0.
Definition GDT_STACK_SIZE : Z := 4096 * 5.

(** ** Segments *)

(** [TaskStateSegment]: the stacks of the interrupt stack table and of the privilege
    levels. *)
Record TaskStateSegment := mkTss {
  interrupt_stack_table : list Z;
  privilege_stack_table : list Z;
}.

Definition TaskStateSegment_new : TaskStateSegment := mkTss (replicate 7 0) (replicate 3 0).

Inductive Descriptor :=
| KernelCodeSegment | UserDataSegment | UserCodeSegment | TssSegment (tss : TaskStateSegment).

(** The privilege level of a descriptor, and how many entries it takes. *)
Definition descriptor_dpl (d : Descriptor) : Z :=
  match d with
  | UserDataSegment | UserCodeSegment => 3
  | KernelCodeSegment | TssSegment _ => 0
  end.

Definition descriptor_size (d : Descriptor) : Z :=
  match d with
  | TssSegment _ => 2
  | _ => 1
  end.

(** A canonical address: bits 47 to 63 are equal. *)
Definition canonical (a : Z) : Prop := 0 <= a < 2 ^ 47 ∨ 2 ^ 64 - 2 ^ 47 <= a < 2 ^ 64.

(** [GlobalDescriptorTable] and [VirtAddr + u64]. *)
Class GdtOps (G : Type) := {
  gdt_new : G;
  gdt_append : G → Descriptor → outcome (G * Z);
  gdt_used : G → Z;
  gdt_entry : G → Z → option Descriptor;
  virt_plus : Z → Z → outcome Z;
}.

(** [append] puts a descriptor in the next free entries of eight and returns its
    selector, with the descriptor's privilege level; it panics when it does not fit. *)
Class GdtLaws (G : Type) `{GdtOps G} := {
  gdt_new_used : gdt_used (@gdt_new G _) = 1;
  gdt_append_fits : ∀ g d, gdt_used g + descriptor_size d <= 8 →
    ∃ g', gdt_append g d = Ret (g', gdt_used g * 8 + descriptor_dpl d) ∧
      gdt_used g' = gdt_used g + descriptor_size d ∧
      gdt_entry g' (gdt_used g) = Some d ∧
      ∀ i, i < gdt_used g → gdt_entry g' i = gdt_entry g i;
  virt_plus_ok : ∀ a b, 0 <= a → 0 <= b → canonical (a + b) → virt_plus a b = Ret (a + b);
}.

(** ** Gates *)

Inductive Handler :=
| BreakpointHandler | DoubleFaultHandler | PageFaultHandler
| TimerInterruptHandler | KeyboardInterruptHandler | SyscallEntryStub.

#[export] Instance Handler_eq_dec : EqDecision Handler.
Proof. solve_decision. Defined.

Record gate := mkGate { gate_handler : Handler; gate_dpl : Z; gate_ist : option Z }.

Definition PIC_1_OFFSET : Z := 32.
Definition PIC_2_OFFSET : Z := PIC_1_OFFSET + 8.

Inductive InterruptIndex := TimerIndex | KeyboardIndex.

Definition interrupt_vector (i : InterruptIndex) : Z :=
  match i with
  | TimerIndex => PIC_1_OFFSET
  | KeyboardIndex => PIC_1_OFFSET + 1
  end.

(** [set_handler_fn]: a gate for the kernel only, on the current stack. *)
Definition handler_fn (h : Handler) : gate := mkGate h 0 None.

(** [static IDT]: the exceptions 3, 8 and 14, the two lines, and the system call. *)
Definition IDT : gmap Z gate :=
  let idt := <[3 := handler_fn BreakpointHandler]> ∅ in
  let idt := <[8 := mkGate DoubleFaultHandler 0 (Some DOUBLE_FAULT_IST_INDEX)]> idt in
  let idt := <[14 := handler_fn PageFaultHandler]> idt in
  let idt := <[interrupt_vector TimerIndex := handler_fn TimerInterruptHandler]> idt in
  let idt := <[interrupt_vector KeyboardIndex := handler_fn KeyboardInterruptHandler]> idt in
  <[0x80 := mkGate SyscallEntryStub 3 None]> idt.

(** ** A core *)

Record core (G : Type) := mkCore {
  gdtr : option G;
  idtr : gmap Z gate;
  reg_cs : Z; reg_ds : Z; reg_es : Z; reg_fs : Z; reg_gs : Z; reg_ss : Z;
  reg_tr : Z;
}.
Arguments mkCore {G}. Arguments gdtr {G}. Arguments idtr {G}. Arguments reg_cs {G}.
Arguments reg_ds {G}. Arguments reg_es {G}. Arguments reg_fs {G}. Arguments reg_gs {G}.
Arguments reg_ss {G}. Arguments reg_tr {G}.

Section segments.
Context {G : Type} `{GdtOps G}.

(** [lgdt], [lidt]. *)
Definition load_gdt (c : core G) (g : G) : core G :=
  mkCore (Some g) c.(idtr) c.(reg_cs) c.(reg_ds) c.(reg_es) c.(reg_fs) c.(reg_gs) c.(reg_ss) c.(reg_tr).
Definition init_idt (c : core G) : core G :=
  mkCore c.(gdtr) IDT c.(reg_cs) c.(reg_ds) c.(reg_es) c.(reg_fs) c.(reg_gs) c.(reg_ss) c.(reg_tr).

(** The descriptor a selector refers to. *)
Definition selected (c : core G) (selector : Z) : option Descriptor :=
  g ← c.(gdtr); gdt_entry g (selector / 8).

(** Loading CS and TR faults unless the descriptor is of the right kind. *)
Definition set_cs (c : core G) (selector : Z) : outcome (core G) :=
  match selected c selector with
  | Some KernelCodeSegment =>
      Ret (mkCore c.(gdtr) c.(idtr) selector c.(reg_ds) c.(reg_es) c.(reg_fs) c.(reg_gs)
             c.(reg_ss) c.(reg_tr))
  | _ => Panic
  end.

Definition load_tss (c : core G) (selector : Z) : outcome (core G) :=
  match selected c selector with
  | Some (TssSegment _) =>
      Ret (mkCore c.(gdtr) c.(idtr) c.(reg_cs) c.(reg_ds) c.(reg_es) c.(reg_fs) c.(reg_gs)
             c.(reg_ss) selector)
  | _ => Panic
  end.

(** The data segment registers take the null selector, which loads without a look at
    the table. *)
Definition null_selector : Z := 0.
Definition set_ds (c : core G) (selector : Z) : core G :=
  mkCore c.(gdtr) c.(idtr) c.(reg_cs) selector c.(reg_es) c.(reg_fs) c.(reg_gs) c.(reg_ss) c.(reg_tr).
Definition set_es (c : core G) (selector : Z) : core G :=
  mkCore c.(gdtr) c.(idtr) c.(reg_cs) c.(reg_ds) selector c.(reg_fs) c.(reg_gs) c.(reg_ss) c.(reg_tr).
Definition set_fs (c : core G) (selector : Z) : core G :=
  mkCore c.(gdtr) c.(idtr) c.(reg_cs) c.(reg_ds) c.(reg_es) selector c.(reg_gs) c.(reg_ss) c.(reg_tr).
Definition set_gs (c : core G) (selector : Z) : core G :=
  mkCore c.(gdtr) c.(idtr) c.(reg_cs) c.(reg_ds) c.(reg_es) c.(reg_fs) selector c.(reg_ss) c.(reg_tr).
Definition set_ss (c : core G) (selector : Z) : core G :=
  mkCore c.(gdtr) c.(idtr) c.(reg_cs) c.(reg_ds) c.(reg_es) c.(reg_fs) c.(reg_gs) selector c.(reg_tr).

(** A TSS with the double-fault stack and the stack of ring 0, from where the arrays
    were put. *)
Definition make_tss (double_fault_stack priv_stack : Z) : outcome TaskStateSegment :=
  let tss := TaskStateSegment_new in
  a ← virt_plus double_fault_stack GDT_STACK_SIZE;
  ist ← vec_set tss.(interrupt_stack_table) DOUBLE_FAULT_IST_INDEX a;
  let tss := mkTss ist tss.(privilege_stack_table) in
  a ← virt_plus priv_stack GDT_STACK_SIZE;
  pst ← vec_set tss.(privilege_stack_table) 0 a;
  Ret (mkTss tss.(interrupt_stack_table) pst).

Record Selectors := mkSelectors {
  code_selector : Z;
  tss_selector : Z;
  user_code_selector : Z;
  user_data_selector : Z;
}.

(** [static GDT]. *)
Definition make_gdt (tss : TaskStateSegment) : outcome (G * Selectors) :=
  let gdt := gdt_new in
  r ← gdt_append gdt KernelCodeSegment;
  let '(gdt, code_selector) := (r : G * Z) in
  r ← gdt_append gdt (TssSegment tss);
  let '(gdt, tss_selector) := (r : G * Z) in
  r ← gdt_append gdt UserDataSegment;
  let '(gdt, user_data_selector) := (r : G * Z) in
  r ← gdt_append gdt UserCodeSegment;
  let '(gdt, user_code_selector) := (r : G * Z) in
  Ret (gdt, mkSelectors code_selector tss_selector user_code_selector user_data_selector).

(** [gdt::init], with the lazily built tables; [selectors] is its second result. *)
Definition gdt_init (c : core G) (double_fault_stack priv_stack : Z) : outcome (core G * Selectors) :=
  tss ← make_tss double_fault_stack priv_stack;
  r ← make_gdt tss;
  let c := load_gdt c r.1 in
  c ← set_cs c (code_selector r.2);
  c ← load_tss c (tss_selector r.2);
  let c := set_ds c null_selector in
  let c := set_es c null_selector in
  let c := set_fs c null_selector in
  let c := set_gs c null_selector in
  Ret (set_ss c null_selector, r.2).

(** [gdt::init_for_ap], with where the heap puts the two stacks. *)
Definition init_for_ap (c : core G) (double_fault_stack priv_stack : Z) : outcome (core G) :=
  tss ← make_tss double_fault_stack priv_stack;
  let gdt := gdt_new in
  r ← gdt_append gdt KernelCodeSegment;
  let '(gdt, code_selector) := (r : G * Z) in
  r ← gdt_append gdt (TssSegment tss);
  let '(gdt, tss_selector) := (r : G * Z) in
  let c := load_gdt c gdt in
  c ← set_cs c code_selector;
  c ← load_tss c tss_selector;
  let c := set_ds c null_selector in
  let c := set_es c null_selector in
  let c := set_fs c null_selector in
  let c := set_gs c null_selector in
  Ret (set_ss c null_selector).

(** ** What the hardware does with them *)

(** The task state segment of a core. *)
Definition current_tss (c : core G) : option TaskStateSegment :=
  match selected c c.(reg_tr) with
  | Some (TssSegment tss) => Some tss
  | _ => None
  end.

(** Where a trap through a gate starts: the handler, and the stack pointer it finds,
    from the level and the stack of the interrupted code.  [None] is a further fault:
    no gate, a software interrupt below the gate's level, or no usable stack. *)
Definition enter_gate (c : core G) (software : bool) (cpl rsp vector : Z) : option (Handler * Z) :=
  g ← c.(idtr) !! vector;
  if software && (g.(gate_dpl) <? cpl) then None else
  match g.(gate_ist) with
  | Some i =>
      tss ← current_tss c; sp ← tss.(interrupt_stack_table) !! Z.to_nat i;
      Some (g.(gate_handler), sp)
  | None =>
      if 0 <? cpl then
        tss ← current_tss c; sp ← tss.(privilege_stack_table) !! O;
        Some (g.(gate_handler), sp)
      else Some (g.(gate_handler), rsp)
  end.
End segments.

(** ** The interrupt controllers

    [ChainedPics] of the [pic8259] crate, with what the controllers behind it hold: for
    each of the sixteen lines its vector, and whether it is masked or in service. *)
Class PicOps (P : Type) := {
  pics_new : Z → Z → P;
  pics_initialize : P → P;
  write_masks : P → Z → Z → P;
  notify_end_of_interrupt : P → Z → P;
  irq_vector : P → Z → Z;
  irq_masked : P → Z → bool;
  irq_in_service : P → Z → bool;
  irq_accepted : P → Z → P;
}.

(** [initialize] gives the vectors and keeps the masks; an accepted line is in service
    until the end of interrupt for its vector, which ends the first line in service. *)
Class PicLaws (P : Type) `{PicOps P} := {
  pics_new_vector : ∀ o1 o2 i, 0 <= i < 16 →
    irq_vector (pics_initialize (pics_new o1 o2)) i = (if i <? 8 then o1 + i else o2 + (i - 8)) ∧
    irq_in_service (pics_initialize (pics_new o1 o2)) i = false;
  write_masks_spec : ∀ p m1 m2 i, 0 <= i < 16 →
    irq_masked (write_masks p m1 m2) i = Z.testbit (if i <? 8 then m1 else m2) (i mod 8) ∧
    irq_vector (write_masks p m1 m2) i = irq_vector p i ∧
    irq_in_service (write_masks p m1 m2) i = irq_in_service p i;
  accepted_spec : ∀ p j i, 0 <= i < 16 → 0 <= j < 16 →
    irq_in_service (irq_accepted p j) i = (i =? j) || irq_in_service p i ∧
    irq_masked (irq_accepted p j) i = irq_masked p i ∧
    irq_vector (irq_accepted p j) i = irq_vector p i;
  end_of_interrupt_spec : ∀ p j i, 0 <= i < 16 → 0 <= j < 8 → irq_in_service p j = true →
    (∀ k, 0 <= k < j → irq_in_service p k = false) →
    let p' := notify_end_of_interrupt p (irq_vector p j) in
    irq_in_service p' i = negb (i =? j) && irq_in_service p i ∧
    irq_masked p' i = irq_masked p i ∧ irq_vector p' i = irq_vector p i;
}.

Section pics.
Context {P : Type} `{PicOps P}.

(** A line interrupts when it is not masked and neither it nor one before it is in
    service. *)
Definition irq_deliverable (p : P) (irq : Z) : bool :=
  negb (irq_masked p irq) && forallb (λ i, negb (irq_in_service p i)) (seqZ 0 (irq + 1)).

(** [PICS], as [kernel_main] leaves them at the end of LateBoot. *)
Definition late_boot_pics : P :=
  write_masks (pics_initialize (pics_new PIC_1_OFFSET PIC_2_OFFSET)) 0xFE 0xFF.

(** The calls of a handler, in order. *)
Inductive handler_call := NotifyEndOfInterrupt (i : InterruptIndex) | OnTimerTick.

(** [timer_interrupt_handler]: the end of interrupt first, then the tick, which may load
    another stack. *)
Definition timer_interrupt_handler : list handler_call :=
  [NotifyEndOfInterrupt TimerIndex; OnTimerTick].

Definition keyboard_interrupt_handler : list handler_call := [NotifyEndOfInterrupt KeyboardIndex].

(** A handler runs until it returns or a tick loads another stack; what comes after such
    a tick in the handler waits until the interrupted context is resumed.  The result is
    the state at that point, the stack pointer that was loaded, if any, and the calls
    that are still to be made. *)
Fixpoint run_handler `{Profile} {M : Type} (calls : list handler_call) (pics : P) (k : kernel M)
    (rsp : Z) : outcome (P * kernel M * option Z * list handler_call) :=
  match calls with
  | [] => Ret (pics, k, None, [])
  | NotifyEndOfInterrupt i :: calls =>
      run_handler calls (notify_end_of_interrupt pics (interrupt_vector i)) k rsp
  | OnTimerTick :: calls =>
      r ← on_timer_tick k rsp;
      match r.2 with
      | Some loaded => Ret (pics, r.1, Some loaded, calls)
      | None => run_handler calls pics r.1 rsp
      end
  end.
End pics.

(** ** Processor features *)

Record CpuSecurityFeatures := mkFeatures { nx : bool; smep : bool; smap : bool }.

(** The registers EFER and CR4, and [NX_ENABLED]. *)
Record control := mkControl { efer : Z; cr4 : Z; NX_ENABLED : bool }.

Definition NO_EXECUTE_ENABLE : Z := 11.
Definition SUPERVISOR_MODE_EXECUTION_PROTECTION : Z := 20.
Definition SUPERVISOR_MODE_ACCESS_PREVENTION : Z := 21.

Definition set_bit_to (x i : Z) (b : bool) : Z := if b then Z.setbit x i else Z.clearbit x i.

(** [cpu_features::init]; [cpuid] gives EBX and EDX of a leaf. *)
Definition cpu_features_init (cpuid : Z → Z * Z) (c : control) : control * CpuSecurityFeatures :=
  let ext := cpuid 0x80000001 in
  let nx := negb (Z.land ext.2 (Z.shiftl 1 20) =? 0) in
  let c := if nx then mkControl (Z.setbit c.(efer) NO_EXECUTE_ENABLE) c.(cr4) c.(NX_ENABLED) else c in
  let c := mkControl c.(efer) c.(cr4) nx in
  let ext_features := cpuid 7 in
  let smep := negb (Z.land ext_features.1 (Z.shiftl 1 7) =? 0) in
  let smap := negb (Z.land ext_features.1 (Z.shiftl 1 20) =? 0) in
  let cr4 := set_bit_to c.(cr4) SUPERVISOR_MODE_EXECUTION_PROTECTION smep in
  let cr4 := set_bit_to cr4 SUPERVISOR_MODE_ACCESS_PREVENTION smap in
  (mkControl c.(efer) cr4 c.(NX_ENABLED), mkFeatures nx smep smap).

(** [cpu_security_ok] of [kernel_main]. *)
Definition cpu_security_ok (c : control) (f : CpuSecurityFeatures) : bool :=
  Bool.eqb f.(nx) (Z.testbit c.(efer) NO_EXECUTE_ENABLE) &&
  Bool.eqb f.(smep) (Z.testbit c.(cr4) SUPERVISOR_MODE_EXECUTION_PROTECTION) &&
  Bool.eqb f.(smap) (Z.testbit c.(cr4) SUPERVISOR_MODE_ACCESS_PREVENTION).

(** ** Concrete tables and controllers *)

(** The entries as a list, each descriptor at its first entry. *)
Record gdt_list := mkGdtList { gl_entries : list (Z * Descriptor); gl_used : Z }.

#[export] Instance gdt_list_ops : GdtOps gdt_list := {
  gdt_new := mkGdtList [] 1;
  gdt_append g d :=
    if gl_used g + descriptor_size d <=? 8
    then Ret (mkGdtList ((gl_used g, d) :: gl_entries g) (gl_used g + descriptor_size d),
              gl_used g * 8 + descriptor_dpl d)
    else Panic;
  gdt_used := gl_used;
  gdt_entry g i := snd <$> find (λ e, e.1 =? i) (gl_entries g);
  virt_plus a b :=
    if (a + b <? 2 ^ 47) || (2 ^ 64 - 2 ^ 47 <=? a + b) && (a + b <? 2 ^ 64) then Ret (a + b) else Panic;
}.

#[export] Instance gdt_list_laws : GdtLaws gdt_list.
Proof.
  split; [done| |].
  - intros g d Hfit. simpl in *. rewrite (proj2 (Z.leb_le _ _)) by done. eexists. split; [done|].
    simpl. split_and!; [done|by rewrite Z.eqb_refl|]. intros i Hi.
    rewrite (proj2 (Z.eqb_neq _ _)) by lia. done.
  - intros a b Ha Hb [Hc|Hc]; simpl.
    + by rewrite (proj2 (Z.ltb_lt _ _)) by lia.
    + rewrite (proj2 (Z.leb_le _ _)), (proj2 (Z.ltb_lt (a + b) (2 ^ 64))) by lia. by rewrite orb_true_r.
Qed.

(** Controllers as their two vectors, the masks and the lines in service. *)
Record pic_bits := mkPicBits { pb_1 : Z; pb_2 : Z; pb_masks : Z → bool; pb_service : Z → bool }.

Definition first_in_service (p : pic_bits) : option Z :=
  find (λ i, pb_service p i) (seqZ 0 16).

#[export] Instance pic_bits_ops : PicOps pic_bits := {
  pics_new o1 o2 := mkPicBits o1 o2 (λ _, false) (λ _, false);
  pics_initialize p := p;
  write_masks p m1 m2 :=
    mkPicBits (pb_1 p) (pb_2 p) (λ i, Z.testbit (if i <? 8 then m1 else m2) (i mod 8)) (pb_service p);
  notify_end_of_interrupt p v :=
    match first_in_service p with
    | Some j => mkPicBits (pb_1 p) (pb_2 p) (pb_masks p) (λ i, negb (i =? j) && pb_service p i)
    | None => p
    end;
  irq_vector p i := if i <? 8 then pb_1 p + i else pb_2 p + (i - 8);
  irq_masked := pb_masks;
  irq_in_service := pb_service;
  irq_accepted p j := mkPicBits (pb_1 p) (pb_2 p) (pb_masks p) (λ i, (i =? j) || pb_service p i);
}.

Lemma find_first (f : Z → bool) j n m :
  0 <= j - m < Z.of_nat n → f j = true → (∀ k, m <= k < j → f k = false) →
  find f (seqZ m (Z.of_nat n)) = Some j.
Proof.
  revert m. induction n as [|n IH]; intros m Hj Hf Hlt; [lia|].
  rewrite seqZ_cons by lia. simpl. destruct (decide (j = m)) as [->|Hne]; [by rewrite Hf|].
  rewrite Hlt by lia. replace (Z.pred (Z.of_nat (S n))) with (Z.of_nat n) by lia.
  apply IH; [lia|done|]. intros k Hk. apply Hlt. lia.
Qed.

#[export] Instance pic_bits_laws : PicLaws pic_bits.
Proof.
  split; try done.
  intros p j i Hi Hj Hs Hlt. simpl. unfold first_in_service.
  by rewrite (find_first _ j 16 0) by (done || lia).
Qed.

(** ** Lemmas *)

Section segment_lemmas.
Context {G : Type} `{GdtLaws G}.

(** Where the two stacks are put. *)
Definition stacks_ok (double_fault_stack priv_stack : Z) : Prop :=
  0 <= double_fault_stack ∧ canonical (double_fault_stack + GDT_STACK_SIZE) ∧
  0 <= priv_stack ∧ canonical (priv_stack + GDT_STACK_SIZE).

Definition built_tss (double_fault_stack priv_stack : Z) : TaskStateSegment :=
  mkTss (double_fault_stack + GDT_STACK_SIZE :: replicate 6 0)
        (priv_stack + GDT_STACK_SIZE :: replicate 2 0).

Lemma make_tss_ret df pr : stacks_ok df pr → make_tss df pr = Ret (built_tss df pr).
Proof.
  intros (Hd & Cd & Hp & Cp). unfold make_tss.
  rewrite !virt_plus_ok by (done || (unfold GDT_STACK_SIZE; lia)). done.
Qed.

(** The kernel's first two entries, in either table. *)
Lemma append_kernel_entries tss :
  ∃ g1 g2, gdt_append gdt_new KernelCodeSegment = Ret (g1, 8) ∧
    gdt_append g1 (TssSegment tss) = Ret (g2, 16) ∧
    gdt_used g2 = 4 ∧ gdt_entry g2 1 = Some KernelCodeSegment ∧ gdt_entry g2 2 = Some (TssSegment tss).
Proof.
  pose proof gdt_new_used as H0u.
  destruct (gdt_append_fits (gdt_new : G) KernelCodeSegment) as (g1 & R1 & U1 & E1 & _); [rewrite H0u; done|].
  rewrite H0u in *. cbn in U1.
  destruct (gdt_append_fits g1 (TssSegment tss)) as (g2 & R2 & U2 & E2 & L2); [rewrite U1; done|].
  rewrite U1 in *. cbn in *.
  exists g1, g2. split_and!; [done|done|done| |done]. rewrite L2 by lia. done.
Qed.

Lemma make_gdt_ret tss :
  ∃ g, make_gdt tss = Ret (g : G, mkSelectors 8 16 0x2B 0x23) ∧
    gdt_entry g 1 = Some KernelCodeSegment ∧ gdt_entry g 2 = Some (TssSegment tss) ∧
    gdt_entry g 4 = Some UserDataSegment ∧ gdt_entry g 5 = Some UserCodeSegment.
Proof.
  destruct (append_kernel_entries tss) as (g1 & g2 & R1 & R2 & U2 & E1 & E2).
  destruct (gdt_append_fits g2 UserDataSegment) as (g3 & R3 & U3 & E3 & L3); [rewrite U2; done|].
  rewrite U2 in *. cbn in R3, U3.
  destruct (gdt_append_fits g3 UserCodeSegment) as (g4 & R4 & U4 & E4 & L4); [rewrite U3; done|].
  rewrite U3 in *. cbn in R4, U4.
  exists g4. unfold make_gdt. rewrite R1. cbn [mbind outcome_bind]. rewrite R2. cbn [mbind outcome_bind].
  rewrite R3. cbn [mbind outcome_bind]. rewrite R4. cbn [mbind outcome_bind].
  split_and!; [done|rewrite L4, L3 by lia; done..|rewrite L4 by lia; done|done].
Qed.

Lemma gdt_init_ret (c : core G) df pr :
  stacks_ok df pr →
  ∃ g, gdt_init c df pr = Ret (mkCore (Some g) (idtr c) 8 0 0 0 0 0 16, mkSelectors 8 16 0x2B 0x23) ∧
    gdt_entry g 1 = Some KernelCodeSegment ∧ gdt_entry g 2 = Some (TssSegment (built_tss df pr)) ∧
    gdt_entry g 4 = Some UserDataSegment ∧ gdt_entry g 5 = Some UserCodeSegment.
Proof.
  intros Hs. destruct (make_gdt_ret (built_tss df pr)) as (g & Hg & E1 & E2 & E4 & E5).
  exists g. split; [|done]. unfold gdt_init. rewrite make_tss_ret by done. cbn [mbind outcome_bind]. rewrite Hg. cbn [mbind outcome_bind fst snd].
  unfold set_cs, load_tss, selected, load_gdt. cbn.
  change (8 / 8) with 1. change (16 / 8) with 2. rewrite E1. cbn. by rewrite E2.
Qed.

Lemma init_for_ap_ret (c : core G) df pr :
  stacks_ok df pr →
  ∃ g, init_for_ap c df pr = Ret (mkCore (Some g) (idtr c) 8 0 0 0 0 0 16) ∧
    gdt_entry g 1 = Some KernelCodeSegment ∧ gdt_entry g 2 = Some (TssSegment (built_tss df pr)).
Proof.
  intros Hs. destruct (append_kernel_entries (built_tss df pr)) as (g1 & g & R1 & R2 & _ & E1 & E2).
  exists g. split; [|done]. unfold init_for_ap. rewrite make_tss_ret by done. cbn [mbind outcome_bind]. rewrite R1. cbn [mbind outcome_bind].
  rewrite R2. cbn [mbind outcome_bind]. unfold set_cs, load_tss, selected, load_gdt. cbn.
  change (8 / 8) with 1. change (16 / 8) with 2. rewrite E1. cbn. by rewrite E2.
Qed.

(** Every gate but the system call's is the kernel's. *)
Lemma IDT_level n g : IDT !! n = Some g → n = 0x80 ∨ gate_dpl g = 0.
Proof.
  unfold IDT. intros Hg.
  repeat (apply lookup_insert_Some in Hg as [[<- <-]|[_ Hg]]; [by left + right|]).
  by rewrite lookup_empty in Hg.
Qed.

(** Gates of a core whose task register is set. *)
Lemma enter_gate_user (c : core G) tss rsp n :
  idtr c = IDT → current_tss c = Some tss →
  enter_gate c true 3 rsp n =
    if decide (n = 0x80) then (λ sp, (SyscallEntryStub, sp)) <$> head (privilege_stack_table tss) else None.
Proof.
  intros Hidt Htss. unfold enter_gate. rewrite Hidt. case_decide as Hn.
  - subst n. replace (IDT !! 0x80) with (Some (mkGate SyscallEntryStub 3 None)) by done. cbn.
    rewrite Htss. cbn. by destruct (privilege_stack_table tss).
  - destruct (IDT !! n) as [g|] eqn:Eg; [|done]. apply IDT_level in Eg as [?|Eg]; [done|]. cbn. by rewrite Eg.
Qed.

Lemma enter_gate_double_fault (c : core G) tss cpl rsp :
  idtr c = IDT → current_tss c = Some tss →
  enter_gate c false cpl rsp 8 = (λ sp, (DoubleFaultHandler, sp)) <$> head (interrupt_stack_table tss).
Proof.
  intros Hidt Htss. unfold enter_gate. rewrite Hidt.
  replace (IDT !! 8) with (Some (mkGate DoubleFaultHandler 0 (Some 0))) by done. cbn.
  rewrite Htss. cbn. by destruct (interrupt_stack_table tss).
Qed.
End segment_lemmas.

(** ** Properties *)

(** [C28] The segment tables of both processors.  On any core, [gdt::init] and
    [init_for_ap] load every register without a fault: kernel code at 8, the task
    state at 16, the null selector in all five data segment registers, and for [gdt::init] ring-3 selectors that refer to
    the user descriptors.  With the gates installed, a double fault starts on that
    core's own fault stack whatever the interrupted stack was, and a software interrupt
    from ring 3 reaches the kernel through vector 0x80 and through no other, on
    that core's own kernel stack. *)
Theorem segments_and_gates {G : Type} `{GdtLaws G} (bsp other : core G) df pr df' pr'
    (Hs : stacks_ok df pr) (Hs' : stacks_ok df' pr') :
  ∃ c c' sel, gdt_init bsp df pr = Ret (c, sel) ∧ init_for_ap other df' pr' = Ret c' ∧
    (reg_cs c, reg_tr c) = (8, 16) ∧
    (reg_ds c, reg_es c, reg_fs c, reg_gs c, reg_ss c) = (0, 0, 0, 0, 0) ∧
    (reg_cs c', reg_tr c') = (8, 16) ∧
    (reg_ds c', reg_es c', reg_fs c', reg_gs c', reg_ss c') = (0, 0, 0, 0, 0) ∧
    user_code_selector sel mod 4 = 3 ∧ selected c (user_code_selector sel) = Some UserCodeSegment ∧
    user_data_selector sel mod 4 = 3 ∧ selected c (user_data_selector sel) = Some UserDataSegment ∧
    (∀ cpl rsp, enter_gate (init_idt c) false cpl rsp 8 = Some (DoubleFaultHandler, df + GDT_STACK_SIZE)) ∧
    (∀ cpl rsp, enter_gate (init_idt c') false cpl rsp 8 = Some (DoubleFaultHandler, df' + GDT_STACK_SIZE)) ∧
    (∀ rsp n, enter_gate (init_idt c) true 3 rsp n =
       if decide (n = 0x80) then Some (SyscallEntryStub, pr + GDT_STACK_SIZE) else None) ∧
    (∀ rsp n, enter_gate (init_idt c') true 3 rsp n =
       if decide (n = 0x80) then Some (SyscallEntryStub, pr' + GDT_STACK_SIZE) else None).
Proof.
  destruct (gdt_init_ret bsp df pr Hs) as (g & Hg & E1 & E2 & E4 & E5).
  destruct (init_for_ap_ret other df' pr' Hs') as (g' & Hg' & E1' & E2').
  eexists _, _, _. split; [exact Hg|]. split; [exact Hg'|]. cbn [user_code_selector user_data_selector].
  assert (∀ i (g : G) gates d t, gdt_entry g 2 = Some (TssSegment (built_tss d t)) →
            current_tss (init_idt (mkCore (Some g) gates i 0 0 0 0 0 16)) = Some (built_tss d t)) as Htss.
  { intros i g0 gates d t He. unfold current_tss, selected. cbn. change (16 / 8) with 2. by rewrite He. }
  split_and!; try done.
  - intros. rewrite (enter_gate_double_fault _ (built_tss df pr)); [done|done|by apply Htss].
  - intros. rewrite (enter_gate_double_fault _ (built_tss df' pr')); [done|done|by apply Htss].
  - intros. rewrite (enter_gate_user _ (built_tss df pr)); [done|done|by apply Htss].
  - intros. rewrite (enter_gate_user _ (built_tss df' pr')); [done|done|by apply Htss].
Qed.

Lemma segments_and_gates_witness :
  let c0 : core gdt_list := mkCore None ∅ 0x10 1 1 1 1 1 0 in
  ∃ c sel, gdt_init c0 0xFFFFFF8000200000 0xFFFFFF8000300000 = Ret (c, sel) ∧
    enter_gate (init_idt c) true 3 0x777777770FF8 0x80 = Some (SyscallEntryStub, 0xFFFFFF8000305000) ∧
    enter_gate (init_idt c) true 3 0x777777770FF8 14 = None.
Proof.
  intros c0.
  destruct (@segments_and_gates gdt_list gdt_list_ops gdt_list_laws c0 c0 0xFFFFFF8000200000
              0xFFFFFF8000300000 0x444444441000 0x444444448000)
    as (c & _ & sel & Hr & _ & _ & _ & _ & _ & _ & _ & _ & _ & _ & _ & Hu & _).
  - split; [discriminate|]. split; [right; split; [discriminate|reflexivity]|].
    split; [discriminate|right; split; [discriminate|reflexivity]].
  - split; [discriminate|]. split; [left; split; [discriminate|reflexivity]|].
    split; [discriminate|left; split; [discriminate|reflexivity]].
  - exists c, sel. split; [exact Hr|]. split; [rewrite Hu; reflexivity|rewrite Hu; reflexivity].
Defined.

Section line_lemmas.
Context {P : Type} `{PicLaws P}.

(** What LateBoot sets up: the sixteen lines at the vectors from 32 on, the timer's
    alone unmasked, and none in service. *)
Definition pics_armed (p : P) : Prop :=
  ∀ i, 0 <= i < 16 →
    irq_vector p i = PIC_1_OFFSET + i ∧ irq_masked p i = negb (i =? 0) ∧ irq_in_service p i = false.

(** [write_masks(0xFE, 0xFF)] masks every line but the first. *)
Lemma mask_bits i : 0 <= i < 16 → Z.testbit (if i <? 8 then 0xFE else 0xFF) (i mod 8) = negb (i =? 0).
Proof.
  intros Hi.
  assert (forallb (λ i, Bool.eqb (Z.testbit (if i <? 8 then 0xFE else 0xFF) (i mod 8)) (negb (i =? 0)))
            (seqZ 0 16) = true) as Hall by done.
  apply eqb_prop. rewrite forallb_forall in Hall. apply Hall, list_elem_of_In, elem_of_seqZ. lia.
Qed.

Lemma late_boot_armed : pics_armed late_boot_pics.
Proof.
  intros i Hi. unfold late_boot_pics.
  destruct (write_masks_spec (pics_initialize (pics_new PIC_1_OFFSET PIC_2_OFFSET)) 0xFE 0xFF i Hi)
    as (Hm & Hv & Hs).
  destruct (pics_new_vector PIC_1_OFFSET PIC_2_OFFSET i Hi) as [Hv' Hs'].
  rewrite Hm, Hv, Hs, Hv', Hs'. split_and!; [|by apply mask_bits|done].
  unfold PIC_2_OFFSET. destruct (Z.ltb_spec i 8); lia.
Qed.

Lemma armed_deliverable p i : pics_armed p → 0 <= i < 16 → irq_deliverable p i = (i =? 0).
Proof.
  intros Ha Hi. unfold irq_deliverable. destruct (Ha i Hi) as (_ & -> & _). rewrite negb_involutive.
  destruct (Z.eqb_spec i 0) as [->|]; [|done]. simpl.
  change (Z.of_nat 0 + 0) with 0. destruct (Ha 0) as (_ & _ & ->); [lia|done].
Qed.

(** Until the end of interrupt, no line interrupts. *)
Lemma accepted_blocks p i : pics_armed p → 0 <= i < 16 → irq_deliverable (irq_accepted p 0) i = false.
Proof.
  intros Ha Hi. unfold irq_deliverable. rewrite seqZ_cons by lia. simpl.
  destruct (accepted_spec p 0 0) as (-> & _); [lia..|]. apply andb_false_r.
Qed.

Lemma end_of_timer_armed p :
  pics_armed p → pics_armed (notify_end_of_interrupt (irq_accepted p 0) (interrupt_vector TimerIndex)).
Proof.
  intros Ha.
  assert (interrupt_vector TimerIndex = irq_vector (irq_accepted p 0) 0) as ->.
  { destruct (accepted_spec p 0 0) as (_ & _ & ->); [lia..|]. by destruct (Ha 0) as (-> & _). }
  intros i Hi. destruct (end_of_interrupt_spec (irq_accepted p 0) 0 i) as (Hs & Hm & Hv); [lia..| |lia|].
  { destruct (accepted_spec p 0 0) as (-> & _); [lia..|done]. }
  destruct (accepted_spec p 0 i) as (Hs' & Hm' & Hv'); [lia..|].
  destruct (Ha i Hi) as (Hv0 & Hm0 & Hs0). rewrite Hs, Hm, Hv, Hs', Hm', Hv', Hs0.
  split_and!; [done|done|]. by destruct (i =? 0).
Qed.
End line_lemmas.

Lemma land_bit_testbit x i : 0 <= i → negb (Z.land x (Z.shiftl 1 i) =? 0) = Z.testbit x i.
Proof.
  intros Hi. rewrite Z.shiftl_1_l. destruct (Z.testbit x i) eqn:Ex.
  - apply negb_true_iff, Z.eqb_neq. intros Hz.
    assert (Z.testbit (Z.land x (2 ^ i)) i = true) as Hb.
    { by rewrite Z.land_spec, Ex, Z.pow2_bits_true. }
    by rewrite Hz, Z.bits_0 in Hb.
  - apply negb_false_iff, Z.eqb_eq. apply Z.bits_inj_0. intros j. rewrite Z.land_spec.
    destruct (decide (i = j)) as [<-|Hne]; [by rewrite Ex|].
    by rewrite Z.pow2_bits_false, andb_false_r.
Qed.

Lemma set_bit_to_spec x i b j : 0 <= i → 0 <= j →
  Z.testbit (set_bit_to x i b) j = if j =? i then b else Z.testbit x j.
Proof.
  intros Hi Hj. unfold set_bit_to. destruct (Z.eqb_spec j i) as [->|Hne]; destruct b.
  - by rewrite Z.setbit_eq.
  - by rewrite Z.clearbit_eq.
  - by rewrite Z.setbit_neq.
  - by rewrite Z.clearbit_neq.
Qed.

(** [C27] The interrupt lines after LateBoot, and the timer's handler.  Only line 0 can
    interrupt, and its vector 32 has the timer's gate.  While the interrupt is being
    serviced nothing can.  In a consistent kernel the handler leaves the processor to
    other code in one way only, by returning or by the tick loading the stack of another
    task, and at that point the timer can interrupt again and nothing of the handler
    is left to do: the end of interrupt comes before a tick that may not come back for
    long. *)
Theorem timer_line_rearmed `{Profile} {P M : Type} `{PicLaws P} `{MapperLaws M}
    (boot_stack : Z → Prop) (p : P) (k : kernel M) rsp
    (Ha : pics_armed p) (Hi : tasks_inv boot_stack k) (Hr : rsp_ok boot_stack k rsp)
    (Ht : ticks k < u64_max) :
  pics_armed (late_boot_pics : P) ∧
  (∀ i, 0 <= i < 16 → irq_deliverable p i = (i =? 0)) ∧
  (gate_handler <$> IDT !! irq_vector p 0) = Some TimerInterruptHandler ∧
  (∀ i, 0 <= i < 16 → irq_deliverable (irq_accepted p 0) i = false) ∧
  ∃ p' k' o, run_handler timer_interrupt_handler (irq_accepted p 0) k rsp = Ret (p', k', o, []) ∧
    ticks k' = ticks k + 1 ∧ tasks_inv boot_stack k' ∧
    pics_armed p' ∧ irq_deliverable p' 0 = true ∧
    match o with
    | Some r => current k' ≠ current k ∧ resumes boot_stack k (current k') r
    | None => current k' = current k
    end.
Proof.
  destruct (tick_ret boot_stack k rsp Hi Hr Ht) as (k' & o & Hk & Hi' & Hti & _ & _ & _ & Ho).
  pose proof (end_of_timer_armed p Ha) as Ha'.
  split; [apply late_boot_armed|]. split; [intros; by apply armed_deliverable|].
  split; [by destruct (Ha 0) as (-> & _)|]. split; [intros; by apply accepted_blocks|].
  cbn [timer_interrupt_handler run_handler]. rewrite Hk. cbn [mbind outcome_bind fst snd].
  eexists _, k', o. split; [by destruct o|]. split_and!; [done|done|done|by rewrite armed_deliverable|].
  destruct o as [r|]; [by destruct Ho as (? & ? & _)|done].
Qed.

Lemma timer_line_rearmed_witness :
  ∃ p' k' r, @run_handler pic_bits pic_bits_ops true radix timer_interrupt_handler
      (irq_accepted late_boot_pics 0) demo_kernel 0x9000 = Ret (p', k', Some r, []) ∧
    irq_deliverable p' 0 = true ∧ ticks k' = ticks demo_kernel + 1.
Proof.
  destruct (@timer_line_rearmed true pic_bits radix pic_bits_ops pic_bits_laws radix_mapper radix_laws
    demo_stack late_boot_pics demo_kernel 0x9000 late_boot_armed demo_inv demo_rsp
    ltac:(vm_compute; reflexivity))
    as (_ & _ & _ & _ & p' & k' & o & Hh & Ht & _ & _ & Hd & _).
  assert (match @run_handler pic_bits pic_bits_ops true radix timer_interrupt_handler
      (irq_accepted late_boot_pics 0) demo_kernel 0x9000 with
          | Ret (_, _, Some _, _) => true
          | _ => false
          end = true) as Hrun by (vm_compute; reflexivity).
  rewrite Hh in Hrun. destruct o as [r|]; [|discriminate Hrun].
  exists p', k', r. split; [exact Hh|]. split; [exact Hd|exact Ht].
Defined.

(** Enabling the processor's protections.  NX, SMEP and SMAP are set exactly as
    the processor reports them, every other bit of EFER and CR4 is kept, the flag that
    data pages get no-execute from is set only with EFER.NXE, and the boot's read-back
    fails in one case only: a processor without NX whose EFER.NXE was set already. *)
Theorem cpu_features_init_spec (cpuid : Z → Z * Z) (c : control) :
  let '(c', f) := cpu_features_init cpuid c in
  f = mkFeatures (Z.testbit (cpuid 0x80000001).2 20) (Z.testbit (cpuid 7).1 7) (Z.testbit (cpuid 7).1 20) ∧
  (NX_ENABLED c' = true → Z.testbit (efer c') NO_EXECUTE_ENABLE = true) ∧
  (∀ i, 0 <= i → Z.testbit (efer c') i =
     ((i =? NO_EXECUTE_ENABLE) && nx f) || Z.testbit (efer c) i) ∧
  (∀ i, 0 <= i → Z.testbit (cr4 c') i =
     if i =? SUPERVISOR_MODE_EXECUTION_PROTECTION then smep f
     else if i =? SUPERVISOR_MODE_ACCESS_PREVENTION then smap f else Z.testbit (cr4 c) i) ∧
  cpu_security_ok c' f = nx f || negb (Z.testbit (efer c) NO_EXECUTE_ENABLE).
Proof.
  unfold cpu_features_init. rewrite !land_bit_testbit by lia.
  set (n := Z.testbit (cpuid _).2 20). set (e := Z.testbit (cpuid 7).1 7). set (a := Z.testbit (cpuid 7).1 20).
  assert (∀ i, 0 <= i → Z.testbit (efer (if n then mkControl (Z.setbit (efer c) NO_EXECUTE_ENABLE) (cr4 c)
             (NX_ENABLED c) else c)) i = ((i =? NO_EXECUTE_ENABLE) && n) || Z.testbit (efer c) i) as He.
  { intros i Hi. destruct n; [|by rewrite andb_false_r]. simpl. rewrite Z.setbit_eqb by done.
    by rewrite Z.eqb_sym, andb_true_r. }
  assert (∀ i, 0 <= i → Z.testbit (set_bit_to (set_bit_to (cr4 c) 20 e) 21 a) i =
             if i =? 20 then e else if i =? 21 then a else Z.testbit (cr4 c) i) as Hc.
  { intros i Hi. rewrite !set_bit_to_spec by lia.
    destruct (Z.eqb_spec i 21) as [->|]; [done|]. by destruct (i =? 20). }
  split; [done|]. cbn [nx smep smap efer cr4 NX_ENABLED]. split; [|split; [exact He|split]].
  - intros Hn. rewrite He by done. by rewrite Hn.
  - intros i Hi. unfold SUPERVISOR_MODE_EXECUTION_PROTECTION, SUPERVISOR_MODE_ACCESS_PREVENTION.
    rewrite <-Hc by done. by destruct n.
  - unfold cpu_security_ok. cbn [nx smep smap efer cr4]. rewrite He by done. unfold NO_EXECUTE_ENABLE.
    unfold SUPERVISOR_MODE_EXECUTION_PROTECTION, SUPERVISOR_MODE_ACCESS_PREVENTION.
    assert (cr4 (if n then mkControl (Z.setbit (efer c) 11) (cr4 c) (NX_ENABLED c) else c) = cr4 c) as -> by by destruct n.
    rewrite !Hc by lia. simpl. rewrite !eqb_reflx, !andb_true_r. by destruct n, (Z.testbit (efer c) 11).
Qed.
