(* ===== verification/TickLocks.v ===== *)
(** * The locks the timer interrupt takes

    The statics of [src/kernel-x86_64/src/scheduler_bridge.rs] are spin locks, taken by
    the timer's handler and by code that runs with interrupts enabled.  This file models
    the order in which each takes and releases them, and what a timer interrupt between
    two such steps does. *)
From S2P Require Import Prelude.

(** The locks; [PICS] is the one of [interrupts.rs], [ALLOCATOR] the kernel heap's, which
    the run queue's indices take when they allocate or free a node. *)
Inductive static := PICS | TICKS | SCHEDULER | CURRENT | ALLOCATOR | DEFAULT_L4_FRAME | TASK_C_PID.

#[export] Instance static_eq_dec : EqDecision static.
Proof. solve_decision. Defined.

Inductive access := Acquire (s : static) | Release (s : static).

(** One core runs the accesses; [held] are the locks taken.  A lock that is taken is
    tried again and again. *)
Fixpoint run_accesses (fuel : nat) (p : list access) (held : list static) : option (list static) :=
  match fuel with
  | O => None
  | S n =>
      match p with
      | [] => Some held
      | Acquire s :: p' => if decide (s ∈ held) then run_accesses n p held else run_accesses n p' (s :: held)
      | Release s :: p' => run_accesses n p' (filter (λ s', s' ≠ s) held)
      end
  end.

(** The ways through [on_timer_tick]: it ends early when there is no scheduler, or when
    what runs goes on running; otherwise it switches. *)
Inductive way := NoScheduler | Stays | Switches.

#[export] Instance way_eq_dec : EqDecision way.
Proof. solve_decision. Defined.

Definition pass (s : static) : list access := [Acquire s; Release s].

(** [switch_address_space_to] takes a lock in [desired_l4_frame] only. *)
Definition switch_address_space_locks : list access := pass DEFAULT_L4_FRAME.

(** [on_timer_tick] up to the call of [switch_to], which takes no lock.  [nodes] is how
    often [update_vruntime] allocates or frees a node of the index.  When it returns
    early, the two guards go in the reverse of the order they were taken in. *)
Definition on_timer_tick_locks (w : way) (nodes : nat) : list access :=
  let charge := concat (replicate nodes (pass ALLOCATOR)) in
  pass TICKS ++ [Acquire SCHEDULER] ++
  match w with
  | NoScheduler => [Release SCHEDULER]
  | Stays => [Acquire CURRENT] ++ charge ++ [Release CURRENT; Release SCHEDULER]
  | Switches =>
      [Acquire CURRENT] ++ charge ++ [Release CURRENT; Release SCHEDULER] ++ switch_address_space_locks
  end.

Definition timer_handler_locks (w : way) (nodes : nat) : list access :=
  pass PICS ++ on_timer_tick_locks w nodes.

Definition tick_count_locks : list access := pass TICKS.

(** [task_c_really_exited], past its first test. *)
Definition task_c_really_exited_locks (pid_known : bool) : list access :=
  pass TASK_C_PID ++ (if pid_known then pass SCHEDULER else []).

(** The handler, entered after [i] accesses of [p]: it gets to its end, or to
    [switch_to], before [p] goes on, so what [p] holds stays held. *)
Definition interrupted (fuel : nat) (p : list access) (i : nat) (w : way) (nodes : nat) :
    option (list static) :=
  held ← run_accesses (S i) (take i p) [];
  run_accesses fuel (timer_handler_locks w nodes) held.

(** Enough for the handler, one step for each access and one at the end. *)
Definition handler_fuel (nodes : nat) : nat := 11 + 2 * nodes.

(** ** Lemmas *)

Definition handler_takes (w : way) (nodes : nat) (s : static) : bool :=
  match s with
  | PICS | TICKS | SCHEDULER => true
  | CURRENT => negb (bool_decide (w = NoScheduler))
  | ALLOCATOR => negb (bool_decide (w = NoScheduler)) && (0 <? nodes)%nat
  | DEFAULT_L4_FRAME => bool_decide (w = Switches)
  | TASK_C_PID => false
  end.

(** A lock that is held is never got. *)
Lemma spin_forever fuel s p held : s ∈ held → run_accesses fuel (Acquire s :: p) held = None.
Proof. intros Hs. induction fuel as [|n IH]; [done|]. cbn [run_accesses]. by rewrite decide_True. Qed.

Lemma filter_absent (s : static) (held : list static) : s ∉ held → filter (λ s', s' ≠ s) held = held.
Proof.
  induction held as [|x held IH]; [done|]. rewrite not_elem_of_cons. intros [Hx Hs].
  rewrite filter_cons_True by done. by rewrite IH.
Qed.

Lemma acquire_free n s p held :
  s ∉ held → run_accesses (S n) (Acquire s :: p) held = run_accesses n p (s :: held).
Proof. intros Hs. cbn [run_accesses]. by rewrite decide_False. Qed.

Lemma release_top n s p held :
  s ∉ held → run_accesses (S n) (Release s :: p) (s :: held) = run_accesses n p held.
Proof.
  intros Hs. cbn [run_accesses]. rewrite filter_cons_False by (intros Hn; by apply Hn). by rewrite filter_absent.
Qed.

(** More fuel changes nothing. *)
Lemma more_fuel m p held r : run_accesses m p held = Some r → ∀ n, run_accesses (m + n) p held = Some r.
Proof.
  revert p held. induction m as [|m IH]; intros p held Hr n; [done|]. cbn [run_accesses Nat.add] in *.
  destruct p as [|[s|s] p]; [done| |by apply IH]. case_decide; by apply IH.
Qed.

Lemma pass_lock n s p held :
  s ∉ held → run_accesses (S (S n)) (pass s ++ p) held = run_accesses n p held.
Proof. intros Hs. cbn [pass app]. by rewrite acquire_free, release_top. Qed.

Lemma pass_locks nodes n s p held :
  s ∉ held → run_accesses (2 * nodes + n) (concat (replicate nodes (pass s)) ++ p) held = run_accesses n p held.
Proof.
  intros Hs. induction nodes as [|k IH]; [done|]. cbn [replicate concat]. rewrite <- app_assoc.
  replace (2 * S k + n)%nat with (S (S (2 * k + n))) by lia. by rewrite pass_lock.
Qed.

(** What the handler does depends on the locks that are held when it starts. *)
Lemma handler_runs w nodes held :
  (∀ s, s ∈ held → handler_takes w nodes s = false) →
  run_accesses (handler_fuel nodes) (timer_handler_locks w nodes) held = Some held.
Proof.
  intros Hfree.
  assert (∀ s, handler_takes w nodes s = true → s ∉ held) as Hn
    by (intros s Hs Hin; apply Hfree in Hin; congruence).
  assert (∀ s, s ≠ SCHEDULER → s ∉ held → s ∉ SCHEDULER :: held) as Hn'
    by (intros s Hne Hs; rewrite not_elem_of_cons; auto).
  assert (w ≠ NoScheduler → CURRENT ∉ SCHEDULER :: held) as Hcur.
  { intros Hw. apply Hn'; [done|]. apply Hn. cbn. by rewrite bool_decide_false. }
  assert (∀ n p, w ≠ NoScheduler →
    run_accesses (2 * nodes + n) (concat (replicate nodes (pass ALLOCATOR)) ++ p) (CURRENT :: SCHEDULER :: held) =
    run_accesses n p (CURRENT :: SCHEDULER :: held)) as Hcharge.
  { intros n p Hw. destruct nodes as [|m]; [done|]. apply pass_locks.
    rewrite not_elem_of_cons. split; [done|]. apply Hn'; [done|]. apply Hn. cbn. by rewrite bool_decide_false. }
  unfold timer_handler_locks, on_timer_tick_locks, handler_fuel, switch_address_space_locks. cbn [Nat.add].
  rewrite !pass_lock by by apply Hn. cbn [app]. rewrite acquire_free by by apply Hn. destruct w; cbn [app].
  - by rewrite release_top by by apply Hn.
  - rewrite acquire_free by by apply Hcur. replace (S (S (S (S (S (2 * nodes))))))%nat with (2 * nodes + 5)%nat by lia.
    rewrite Hcharge by done. rewrite release_top by by apply Hcur. by rewrite release_top by by apply Hn.
  - rewrite acquire_free by by apply Hcur. replace (S (S (S (S (S (2 * nodes))))))%nat with (2 * nodes + 5)%nat by lia.
    rewrite Hcharge by done. rewrite release_top by by apply Hcur. rewrite release_top by by apply Hn.
    by rewrite <- (app_nil_r (pass DEFAULT_L4_FRAME)), pass_lock by (apply Hn; cbn; by rewrite bool_decide_true).
Qed.

(** A lock on the way that is taken stops what comes after it. *)
Lemma acquire_stuck s' p held :
  (s' ∉ held → ∀ fuel, run_accesses fuel p (s' :: held) = None) →
  ∀ fuel, run_accesses fuel (Acquire s' :: p) held = None.
Proof.
  intros Hp fuel. destruct (decide (s' ∈ held)) as [?|Hn]; [by apply spin_forever|].
  destruct fuel as [|fuel]; [done|]. rewrite acquire_free by done. by apply Hp.
Qed.

Lemma release_stuck s' p held :
  s' ∉ held → (∀ fuel, run_accesses fuel p held = None) →
  ∀ fuel, run_accesses fuel (Release s' :: p) (s' :: held) = None.
Proof. intros Hn Hp [|fuel]; [done|]. by rewrite release_top. Qed.

Lemma pass_stuck s' p held :
  (s' ∉ held → ∀ fuel, run_accesses fuel p held = None) → ∀ fuel, run_accesses fuel (pass s' ++ p) held = None.
Proof.
  intros Hp. apply acquire_stuck. intros Hn. apply release_stuck; [done|]. by apply Hp.
Qed.

(** The index's locks, then more. *)
Lemma charge_stuck nodes p held :
  (ALLOCATOR ∈ held ∧ (0 < nodes)%nat) ∨ (∀ fuel, run_accesses fuel p held = None) →
  ∀ fuel, run_accesses fuel (concat (replicate nodes (pass ALLOCATOR)) ++ p) held = None.
Proof.
  induction nodes as [|n IH]; intros Hor; [destruct Hor as [[_ ?]|]; [lia|done]|]. cbn [replicate concat].
  rewrite <- app_assoc. apply pass_stuck. intros Hn. apply IH. destruct Hor as [[? _]|]; [done|by right].
Qed.

Lemma handler_stuck w nodes held s :
  s ∈ held → handler_takes w nodes s = true →
  ∀ fuel, run_accesses fuel (timer_handler_locks w nodes) held = None.
Proof.
  intros Hs Ht. unfold timer_handler_locks, on_timer_tick_locks.
  apply pass_stuck. intros Hp. apply pass_stuck. intros Hti. cbn [app]. apply acquire_stuck. intros Hsc.
  assert (s ≠ PICS ∧ s ≠ TICKS ∧ s ≠ SCHEDULER) as (? & ? & ?) by (split_and!; by intros ->).
  destruct w; [by destruct s|..]; cbn [app]; apply acquire_stuck; rewrite not_elem_of_cons; intros [_ Hcu];
    apply charge_stuck.
  - left. destruct s; try done. split; [rewrite !elem_of_cons; auto|]. cbn in Ht. by apply Nat.ltb_lt.
  - destruct (decide (s = ALLOCATOR)) as [->|Ha].
    { left. split; [rewrite !elem_of_cons; auto|]. cbn in Ht. by apply Nat.ltb_lt. }
    right. apply release_stuck; [by apply not_elem_of_cons|]. apply release_stuck; [done|].
    destruct s; try done. intros fuel. by apply spin_forever.
Qed.

(** ** Properties *)

(** [C23] A timer interrupt amid code that takes the scheduler's locks.  On each of its
    ways (no scheduler yet, the running task goes on, or a switch, which also looks up
    the default page table; the heap's lock, when charging the task allocates) the
    handler gets to its end, or to the switch, exactly when the interrupted code holds
    none of the locks that way takes, and then leaves the locks as they were; otherwise
    it spins for ever, with interrupts off, and nothing can release the lock.
    [tick_count], which [busy_wait_ticks] and the waits of [bring_up_ap] call in a loop
    with interrupts on, holds such a lock between its two accesses, and so does
    [task_c_really_exited] while it looks at the run queue. *)
Theorem tick_needs_its_locks p i w nodes held
    (Hp : run_accesses (S i) (take i p) [] = Some held) :
  ((∀ s, s ∈ held → handler_takes w nodes s = false) ↔
   interrupted (handler_fuel nodes) p i w nodes = Some held) ∧
  ((∃ s, s ∈ held ∧ handler_takes w nodes s = true) ↔ ∀ fuel, interrupted fuel p i w nodes = None) ∧
  (∀ fuel, interrupted fuel tick_count_locks 1 w nodes = None) ∧
  (∀ fuel, interrupted fuel (task_c_really_exited_locks true) 3 w nodes = None) ∧
  (∀ i, (i ≠ 1)%nat → interrupted (handler_fuel nodes) tick_count_locks i w nodes = Some []).
Proof.
  assert (∀ fuel, interrupted fuel p i w nodes = run_accesses fuel (timer_handler_locks w nodes) held) as Hint
    by (intros fuel; unfold interrupted; by rewrite Hp).
  assert ((∀ s, s ∈ held → handler_takes w nodes s = false) ∨
          ∃ s, s ∈ held ∧ handler_takes w nodes s = true) as Hcase.
  { destruct (decide (Forall (λ s, handler_takes w nodes s = false) held)) as [Hf|Hf].
    - left. by apply Forall_forall.
    - right. apply not_Forall_Exists, Exists_exists in Hf as (s & Hs & Ht); [|apply _].
      exists s. split; [done|]. by apply not_false_is_true. }
  split_and!.
  - rewrite Hint. split; [apply handler_runs|]. intros Hrun. destruct Hcase as [|(s & Hs & Ht)]; [done|].
    by rewrite (handler_stuck w nodes held s) in Hrun.
  - split; [intros (s & Hs & Ht) fuel; rewrite Hint; by apply (handler_stuck _ _ _ s)|].
    intros Hnone. destruct Hcase as [Hf|]; [|done]. specialize (Hnone (handler_fuel nodes)).
    by rewrite Hint, handler_runs in Hnone.
  - intros fuel. by apply (handler_stuck _ _ _ TICKS); [left|].
  - intros fuel. by apply (handler_stuck _ _ _ SCHEDULER); [left|].
  - assert (run_accesses (handler_fuel nodes) (timer_handler_locks w nodes) [] = Some []) as Hrun
      by (apply handler_runs; intros s Hs; by apply elem_of_nil in Hs).
    intros j Hj. unfold interrupted. destruct j as [|[|j]]; [exact Hrun|done|].
    rewrite take_ge by (cbn; lia).
    replace (run_accesses _ _ _) with (Some (@nil static)) by by destruct j. exact Hrun.
Qed.

Lemma tick_needs_its_locks_witness :
  interrupted (handler_fuel 2) (task_c_really_exited_locks true) 1 Switches 2 = Some [TASK_C_PID] ∧
  (∀ fuel, interrupted fuel (task_c_really_exited_locks true) 3 Switches 2 = None) ∧
  (∀ fuel, interrupted fuel switch_address_space_locks 1 Switches 0 = None) ∧
  interrupted (handler_fuel 0) switch_address_space_locks 1 Stays 0 = Some [DEFAULT_L4_FRAME].
Proof.
  split_and!.
  - apply (tick_needs_its_locks (task_c_really_exited_locks true) 1 Switches 2 [TASK_C_PID] eq_refl).
    intros s Hs. apply list_elem_of_singleton in Hs as ->. reflexivity.
  - apply (tick_needs_its_locks (task_c_really_exited_locks true) 3 Switches 2 [SCHEDULER] eq_refl).
  - apply (tick_needs_its_locks switch_address_space_locks 1 Switches 0 [DEFAULT_L4_FRAME] eq_refl).
    exists DEFAULT_L4_FRAME. split; [left|reflexivity].
  - apply (tick_needs_its_locks switch_address_space_locks 1 Stays 0 [DEFAULT_L4_FRAME] eq_refl).
    intros s Hs. apply list_elem_of_singleton in Hs as ->. reflexivity.
Defined.
