(* ===== verification/SerialLock.v ===== *)
(** * The serial port's lock

    Model of [src/kernel-x86_64/src/serial.rs]: [_print] takes the port's spin lock with
    interrupts disabled and writes its text.  The processors share the lock and the port:
    the boot processor, whose threads a timer interrupt switches wherever interrupts are
    enabled, and the one that [smp.rs] starts, which prints from [ap_entry64] and from its
    breakpoint handler.  What they do is interleaved access by access.  An exception inside
    [_print] is not among the events. *)
From S2P Require Import Prelude.

(** ** Processors that print *)

(** Where a thread is in [_print]; [enabled] is what [without_interrupts] found, [text]
    and [rest] what is still to be written. *)
Inductive point :=
| Outside
| Masked (enabled : bool) (text : list Z)    (** about to lock *)
| Holding (enabled : bool) (rest : list Z)   (** the guard is alive *)
| Released (enabled : bool).                 (** the guard is dropped *)

(** A thread, with the interrupt flag it runs or will be resumed with. *)
Record thread := mkThread { at_point : point; interrupts : bool }.

(** A processor: the running thread and all its threads. *)
Record core := mkCore { current : nat; threads : nat → thread }.

(** What the processors share: the lock of [SERIAL1] and the bytes that went to the port.
    [texts] are the texts in the order in which the lock was taken for them, [calls] those
    of the calls made, each with its processor; the code keeps neither. *)
Record system := mkSystem {
  locked : bool;
  cores : nat → core;
  port : list Z;
  texts : list (nat * list Z);
  calls : list (nat * list Z);
}.

Definition update_at {A : Type} (f : nat → A) (i : nat) (a : A) : nat → A :=
  λ j, if decide (j = i) then a else f j.

Definition running (s : system) (c : nat) : thread := (s.(cores) c).(threads) (s.(cores) c).(current).

Definition set_core (s : system) (c : nat) (k : core) : system :=
  mkSystem s.(locked) (update_at s.(cores) c k) s.(port) s.(texts) s.(calls).
Definition set_running (s : system) (c : nat) (t : thread) : system :=
  set_core s c (mkCore (s.(cores) c).(current) (update_at (s.(cores) c).(threads) (s.(cores) c).(current) t)).
Definition set_current (s : system) (c j : nat) : system := set_core s c (mkCore j (s.(cores) c).(threads)).
Definition lock (s : system) (c : nat) (text : list Z) : system :=
  mkSystem true s.(cores) s.(port) (s.(texts) ++ [(c, text)]) s.(calls).
Definition unlock (s : system) : system := mkSystem false s.(cores) s.(port) s.(texts) s.(calls).
Definition send (s : system) (b : Z) : system :=
  mkSystem s.(locked) s.(cores) (s.(port) ++ [b]) s.(texts) s.(calls).
Definition called (s : system) (c : nat) (text : list Z) : system :=
  mkSystem s.(locked) s.(cores) s.(port) s.(texts) (s.(calls) ++ [(c, text)]).

Definition outside (p : point) : bool := if p is Outside then true else false.

Section system.
(** What the panic handler prints. *)
Context (panic_text : list Z).

(** A call of [_print] on processor [c], which disables interrupts first. *)
Definition print_call (c : nat) (text : list Z) (s : system) : system :=
  match running s c with
  | mkThread Outside f => set_running (called s c text) c (mkThread (Masked f text) false)
  | _ => s
  end.

(** The next access of [_print] on processor [c]; [written] is whether the byte it writes
    succeeds.  A lock that is taken is tried again.  When a write fails, [expect] panics
    with the guard alive, and the panic handler prints: it enters [_print] anew. *)
Definition print_step (c : nat) (written : bool) (s : system) : system :=
  match running s c with
  | mkThread Outside f => s
  | mkThread (Masked f text) i =>
      if s.(locked) then s else lock (set_running s c (mkThread (Holding f text) i)) c text
  | mkThread (Holding f []) i => unlock (set_running s c (mkThread (Released f) i))
  | mkThread (Holding f (b :: rest)) i =>
      if written then send (set_running s c (mkThread (Holding f rest) i)) b
      else set_running (called s c panic_text) c (mkThread (Masked i panic_text) false)
  | mkThread (Released f) i => set_running s c (mkThread Outside (f || i))
  end.

(** The two macros. *)
Definition serial_print (c : nat) (text : list Z) : system → system := print_call c text.
Definition serial_println (c : nat) (text : option (list Z)) : system → system :=
  match text with
  | None => serial_print c [10]
  | Some text => serial_print c (text ++ [13; 10])
  end.

(** What can happen next on a processor: an access; a call; a timer interrupt, which needs
    them enabled and resumes thread [j]; outside [_print], a switch the thread makes
    itself or a change of its interrupt flag. *)
Inductive event :=
| Go (written : bool)
| Print (text : list Z)
| Println (text : option (list Z))
| Tick (j : nat)
| Yield (j : nat)
| SetFlag (f : bool).

#[export] Instance event_eq_dec : EqDecision event.
Proof. solve_decision. Defined.

Definition core_step (s : system) (e : nat * event) : system :=
  let c := e.1 in
  match e.2 with
  | Go written => print_step c written s
  | Print text => serial_print c text s
  | Println text => serial_println c text s
  | Tick j => if (running s c).(interrupts) then set_current s c j else s
  | Yield j => if outside (running s c).(at_point) then set_current s c j else s
  | SetFlag f => if outside (running s c).(at_point) then set_running s c (mkThread Outside f) else s
  end.

Definition core_run (s : system) (es : list (nat * event)) : system := foldl core_step s es.
End system.

(** Every thread of every processor outside [_print], the lock free, nothing logged. *)
Definition quiet (s : system) : Prop :=
  s.(locked) = false ∧ s.(texts) = [] ∧ s.(calls) = [] ∧
  ∀ c i, at_point ((s.(cores) c).(threads) i) = Outside.

(** ** The invariant *)

(** The rest of the text of a thread that holds the lock; the text of one that waits. *)
Definition holds (t : thread) : option (list Z) := if t.(at_point) is Holding _ rest then Some rest else None.
Definition waits (t : thread) : list (list Z) := if t.(at_point) is Masked _ text then [text] else [].

(** The texts of one processor. *)
Definition of_core (c : nat) (l : list (nat * list Z)) : list (list Z) := (filter (λ e, e.1 = c) l).*2.

(** Who is not running is outside; who is inside runs with interrupts off. *)
Record placed (s : system) : Prop := {
  others_outside : ∀ c i, i ≠ current (cores s c) → at_point (threads (cores s c) i) = Outside;
  inside_masked : ∀ c, outside (at_point (running s c)) = false → interrupts (running s c) = false;
}.

(** One processor at most holds the lock, and it is taken exactly then; the port has the
    texts in the order of the locking, but for what the holder has not written yet; each
    processor has locked once for every call it made, but for the one that waits. *)
Record serial_inv (port0 : list Z) (s : system) : Prop := {
  si_placed : placed s;
  si_held : ∀ c rest, holds (running s c) = Some rest → locked s = true;
  si_one : ∀ c c' rest rest', holds (running s c) = Some rest → holds (running s c') = Some rest' → c = c';
  si_port : ∃ unsent, port s ++ unsent = port0 ++ concat (texts s).*2 ∧
    if locked s then ∃ c, holds (running s c) = Some unsent else unsent = [];
  si_calls : ∀ c, of_core c (calls s) = of_core c (texts s) ++ waits (running s c);
}.

Lemma update_at_same {A : Type} (f : nat → A) i a : update_at f i a i = a.
Proof. unfold update_at. by rewrite decide_True. Qed.

Lemma update_at_other {A : Type} (f : nat → A) i j a : j ≠ i → update_at f i a j = f j.
Proof. intros Hj. unfold update_at. by rewrite decide_False. Qed.

Lemma of_core_app c l c' text : of_core c (l ++ [(c', text)]) = of_core c l ++ (if decide (c' = c) then [text] else []).
Proof.
  unfold of_core. rewrite filter_app, fmap_app. f_equal. rewrite filter_cons. cbn. by destruct (decide (c' = c)).
Qed.

(** The running threads after a change; those of the other processors stay. *)
Lemma running_set s c t c' : running (set_running s c t) c' = if decide (c' = c) then t else running s c'.
Proof.
  unfold running, set_running, set_core. cbn. destruct (decide (c' = c)) as [->|Hc].
  - rewrite update_at_same. cbn. by rewrite update_at_same.
  - by rewrite update_at_other.
Qed.

Lemma running_same s c t : running (set_running s c t) c = t.
Proof. by rewrite running_set, decide_True. Qed.

Lemma placed_set s c t :
  placed s → (outside (at_point t) = false → interrupts t = false) → placed (set_running s c t).
Proof.
  intros [Ho Hm] Ht. split.
  - intros c' i Hi. unfold set_running, set_core, update_at in *. cbn in *.
    destruct (decide (c' = c)) as [->|]; cbn in *; [rewrite decide_False by done|]; by apply Ho.
  - intros c'. rewrite running_set. destruct (decide (c' = c)); [done|apply Hm].
Qed.

(** Only the processors' part of the state matters to [placed]. *)
Lemma placed_cores s s' : cores s' = cores s → placed s → placed s'.
Proof. intros E [Ho Hm]. split; unfold running in *; by rewrite E. Qed.

(** A thread outside gives way to another one. *)
Lemma placed_switch s c j :
  placed s → at_point (running s c) = Outside →
  placed (set_current s c j) ∧ ∀ c', holds (running (set_current s c j) c') = holds (running s c') ∧
                                      waits (running (set_current s c j) c') = waits (running s c').
Proof.
  intros [Ho Hm] Hp.
  assert (∀ i, at_point (threads (cores s c) i) = Outside) as Hall.
  { intros i. destruct (decide (i = current (cores s c))) as [-> | Hi]; [done|by apply Ho]. }
  assert (∀ c', running (set_current s c j) c' = if decide (c' = c) then threads (cores s c) j else running s c') as Hr.
  { intros c'. unfold running, set_current, set_core. cbn. unfold update_at. by destruct (decide (c' = c)). }
  split; [split|].
  - intros c' i Hi. unfold set_current, set_core, update_at in *. cbn in *.
    destruct (decide (c' = c)) as [->|]; [apply Hall|by apply Ho].
  - intros c'. rewrite Hr. destruct (decide (c' = c)); [by rewrite Hall|apply Hm].
  - intros c'. rewrite Hr. destruct (decide (c' = c)) as [->|]; [|done].
    unfold holds, waits. by rewrite Hall, Hp.
Qed.

Section lemmas.
Context (panic_text : list Z) (port0 : list Z).
Abbreviation inv := (serial_inv port0).
Abbreviation step := (core_step panic_text).
Abbreviation run := (core_run panic_text).

(** ** Steps *)

Lemma running_cores s s' c t c' :
  cores s' = cores (set_running s c t) → running s' c' = if decide (c' = c) then t else running s c'.
Proof. intros E. rewrite <- running_set. unfold running. by rewrite E. Qed.

(** A thread that neither takes nor drops the lock, nor writes. *)
Lemma inv_keep s s' c t :
  inv s → cores s' = cores (set_running s c t) → (outside (at_point t) = false → interrupts t = false) →
  holds t = holds (running s c) → locked s' = locked s → port s' = port s → texts s' = texts s →
  (∀ c', of_core c' (calls s') = of_core c' (texts s) ++ waits (if decide (c' = c) then t else running s c')) → inv s'.
Proof.
  intros [Hpl Hh Ho (unsent & Hp & Hu) Hc] E Ht Hsame El Ep Et Hc'.
  assert (∀ c', holds (running s' c') = holds (running s c')) as Hall.
  { intros c'. rewrite (running_cores _ _ _ _ c' E). by destruct (decide (c' = c)) as [->|]. }
  split; [by apply (placed_cores _ _ E), placed_set|..].
  - intros c' rest. rewrite Hall, El. apply Hh.
  - intros c1 c2 r1 r2. rewrite !Hall. apply Ho.
  - exists unsent. rewrite Ep, Et, El. split; [done|]. destruct (locked s); [|done].
    destruct Hu as [c' Hc1]. exists c'. by rewrite Hall.
  - intros c'. rewrite (running_cores _ _ _ _ c' E), Et. apply Hc'.
Qed.

Lemma call_inv c text s : inv s → inv (print_call c text s).
Proof.
  intros Hs. unfold print_call. destruct (running s c) as [[|f t|f rest|f] i] eqn:Er; try done.
  apply (inv_keep s _ c (mkThread (Masked i text) false)); try done; [by rewrite Er|].
  intros c'. cbn [calls called set_running set_core]. rewrite of_core_app, (si_calls _ _ Hs).
  destruct (decide (c' = c)) as [->|Hc]; [rewrite Er, decide_True by done|rewrite decide_False by done].
  - unfold waits. cbn. by rewrite app_nil_r.
  - by rewrite app_nil_r.
Qed.

Lemma lock_inv c f text i s :
  inv s → running s c = mkThread (Masked f text) i → locked s = false →
  inv (lock (set_running s c (mkThread (Holding f text) i)) c text).
Proof.
  intros [Hpl Hh Ho (unsent & Hp & Hu) Hc] Er Hl. rewrite Hl in Hu. subst unsent.
  assert (∀ c' rest, holds (running s c') = Some rest → False) as Hnone by (intros c' rest H1%Hh; congruence).
  set (s' := lock _ _ _). pose proof (λ c', running_cores s s' c _ c' eq_refl) as Hr.
  split.
  - apply (placed_cores (set_running s c (mkThread (Holding f text) i))); [done|]. apply placed_set; [done|].
    intros _. pose proof (inside_masked _ Hpl c) as Hm. rewrite Er in Hm. by apply Hm.
  - done.
  - intros c1 c2 r1 r2. rewrite !Hr.
    destruct (decide (c1 = c)), (decide (c2 = c)); try (intros; exfalso; by eapply Hnone). by subst.
  - exists text. cbn. rewrite fmap_app, concat_app. cbn. rewrite app_nil_r, app_assoc, <- Hp, app_nil_r. split; [done|].
    exists c. rewrite Hr, decide_True by done. done.
  - intros c'. rewrite Hr. subst s'. cbn [calls texts lock set_running set_core]. rewrite Hc, of_core_app.
    destruct (decide (c' = c)) as [->|Hne].
    + rewrite Er, decide_True by done. unfold waits. cbn. by rewrite app_nil_r.
    + rewrite decide_False by done. by rewrite app_nil_r.
Qed.

(** The holder, and the state of the lock for it. *)
Lemma holder_port s c rest :
  inv s → holds (running s c) = Some rest →
  locked s = true ∧ port s ++ rest = port0 ++ concat (texts s).*2 ∧
  ∀ c' r, holds (running s c') = Some r → c' = c.
Proof.
  intros [_ Hh Ho (unsent & Hp & Hu) _] Hc. pose proof (Hh _ _ Hc) as Hl. rewrite Hl in Hu.
  destruct Hu as [c' Hc']. assert (c' = c) as -> by (by eapply Ho). rewrite Hc in Hc'. injection Hc' as ->.
  split; [done|]. split; [done|]. intros c2 r H2. by eapply Ho.
Qed.

Lemma unlock_inv c f i s :
  inv s → running s c = mkThread (Holding f []) i → inv (unlock (set_running s c (mkThread (Released f) i))).
Proof.
  intros Hs Er. destruct (holder_port s c [] Hs ltac:(by rewrite Er)) as (Hl & Hp & Hone).
  set (s' := unlock _). pose proof (λ c', running_cores s s' c _ c' eq_refl) as Hr.
  assert (∀ c' rest, holds (running s' c') = Some rest → False) as Hnone.
  { intros c' rest. rewrite Hr. destruct (decide (c' = c)) as [|Hne]; [done|]. by intros Hx%Hone. }
  destruct Hs as [Hpl _ _ _ Hc]. split.
  - apply (placed_cores (set_running s c (mkThread (Released f) i))); [done|]. apply placed_set; [done|].
    intros _. pose proof (inside_masked _ Hpl c) as Hm. rewrite Er in Hm. by apply Hm.
  - intros c' rest Hx. by destruct (Hnone c' rest).
  - intros c1 c2 r1 r2 Hx. by destruct (Hnone c1 r1).
  - exists []. done.
  - intros c'. rewrite Hr. subst s'. cbn [calls texts unlock set_running set_core]. rewrite Hc.
    destruct (decide (c' = c)) as [->|]; [by rewrite Er|done].
Qed.

Lemma send_inv c f b rest i s :
  inv s → running s c = mkThread (Holding f (b :: rest)) i →
  inv (send (set_running s c (mkThread (Holding f rest) i)) b).
Proof.
  intros Hs Er. destruct (holder_port s c (b :: rest) Hs ltac:(by rewrite Er)) as (Hl & Hp & Hone).
  set (s' := send _ _). pose proof (λ c', running_cores s s' c _ c' eq_refl) as Hr.
  destruct Hs as [Hpl _ _ _ Hc]. split.
  - apply (placed_cores (set_running s c (mkThread (Holding f rest) i))); [done|]. apply placed_set; [done|].
    intros _. pose proof (inside_masked _ Hpl c) as Hm. rewrite Er in Hm. by apply Hm.
  - done.
  - intros c1 c2 r1 r2. rewrite !Hr.
    destruct (decide (c1 = c)) as [->|], (decide (c2 = c)) as [->|]; intros H1 H2;
      [done|by apply Hone in H2|by apply Hone in H1|apply Hone in H1, H2; congruence].
  - exists rest. cbn. rewrite Hl, <- app_assoc. split; [done|]. exists c. by rewrite Hr, decide_True.
  - intros c'. rewrite Hr. subst s'. cbn [calls texts send set_running set_core]. rewrite Hc.
    destruct (decide (c' = c)) as [->|]; [by rewrite Er|done].
Qed.

Lemma switch_inv s c j : inv s → at_point (running s c) = Outside → inv (set_current s c j).
Proof.
  intros Hs Hp. destruct (placed_switch s c j (si_placed _ _ Hs) Hp) as [Hpl Hr].
  destruct Hs as [_ Hh Ho (unsent & Hpt & Hu) Hc]. split; [done|..].
  - intros c' rest. rewrite (proj1 (Hr c')). apply Hh.
  - intros c1 c2 r1 r2. rewrite (proj1 (Hr c1)), (proj1 (Hr c2)). apply Ho.
  - exists unsent. split; [done|]. cbn [locked set_current set_core]. destruct (locked s); [|done].
    destruct Hu as [c' Hc']. exists c'. by rewrite (proj1 (Hr c')).
  - intros c'. rewrite (proj2 (Hr c')). apply Hc.
Qed.

Lemma go_inv c s : inv s → inv (print_step panic_text c true s).
Proof.
  intros Hs. unfold print_step. destruct (running s c) as [[|f t|f [|b rest]|f] i] eqn:Er; [done|..].
  - destruct (locked s) eqn:Hl; [done|]. by apply lock_inv.
  - by apply unlock_inv.
  - by apply send_inv.
  - apply (inv_keep s _ c (mkThread Outside (f || i))); try done; [by rewrite Er|].
    intros c'. cbn [calls texts set_running set_core]. rewrite (si_calls _ _ Hs). by destruct (decide (c' = c)) as [->|]; [rewrite Er|].
Qed.

(** A step that switches or changes the flag is one of a thread outside. *)
Lemma tick_outside s c : placed s → interrupts (running s c) = true → at_point (running s c) = Outside.
Proof.
  intros Hpl Hi. pose proof (inside_masked _ Hpl c) as Hm.
  destruct (at_point (running s c)); [done|..]; specialize (Hm eq_refl); congruence.
Qed.

Lemma core_step_inv s e : e.2 ≠ Go false → inv s → inv (step s e).
Proof.
  intros He Hs. destruct e as [c e]. unfold core_step. cbn [fst snd] in *. destruct e as [w|t|[t|]|j|j|f]; try by apply call_inv.
  - destruct w; [by apply go_inv|done].
  - destruct (interrupts (running s c)) eqn:Ei; [|done]. apply switch_inv; [done|].
    by apply tick_outside; [apply (si_placed _ _ Hs)|].
  - destruct (at_point (running s c)) eqn:Ep; cbn [outside]; [by apply switch_inv|done..].
  - destruct (running s c) as [[] i] eqn:Er; cbn [outside at_point]; try done.
    apply (inv_keep s _ c (mkThread Outside f)); try done; [by rewrite Er|].
    intros c'. cbn [calls texts set_running set_core]. rewrite (si_calls _ _ Hs). by destruct (decide (c' = c)) as [->|]; [rewrite Er|].
Qed.

Lemma core_run_inv es s : Forall (λ e, e.2 ≠ Go false) es → inv s → inv (run s es).
Proof.
  intros Hes. revert s. induction Hes as [|e es He _ IH]; intros s Hs; [done|].
  apply IH. by apply core_step_inv.
Qed.

(** ** Progress *)

(** The accesses of one processor. *)
Definition accesses (c : nat) (es : list (nat * event)) : nat := length (filter (λ e, e = (c, Go true)) es).

Lemma accesses_cons c e es :
  accesses c (e :: es) = ((if decide (e = (c, Go true)) then 1 else 0) + accesses c es)%nat.
Proof. unfold accesses. rewrite filter_cons. by destruct (decide _). Qed.

(** What leaves processor [c] where it is inside [_print]. *)
Record kept (c : nat) (s s' : system) : Prop := {
  ke_core : cores s' c = cores s c;
  ke_calls : of_core c (calls s') = of_core c (calls s);
}.

Lemma kept_refl c s : kept c s s.
Proof. done. Qed.

(** Everything but its own accesses does: the other processors, and timer interrupts. *)
Lemma step_kept s e c :
  placed s → outside (at_point (running s c)) = false → (∀ w, e ≠ (c, Go w)) → kept c s (step s e).
Proof.
  intros Hpl Hin Hne. pose proof (inside_masked _ Hpl c Hin) as Hm.
  assert (∀ c' t, c' ≠ c → kept c s (set_running s c' t)) as Hset.
  { intros c' t Hc. split; [|done]. cbn. by apply update_at_other. }
  assert (∀ c' j, c' ≠ c → kept c s (set_current s c' j)) as Hcur.
  { intros c' j Hc. split; [|done]. cbn. by apply update_at_other. }
  assert (∀ c' text t, c' ≠ c → kept c s (set_running (called s c' text) c' t)) as Hcall.
  { intros c' text t Hc. split; [by apply Hset|]. cbn [calls called set_running set_core]. rewrite of_core_app, decide_False by done. by rewrite app_nil_r. }
  assert (∀ c' text, kept c s (print_call c' text s)) as Hprint.
  { intros c' text. unfold print_call. destruct (running s c') as [[] i] eqn:Er; try done.
    apply Hcall. intros ->. by rewrite Er in Hin. }
  destruct e as [c' e]. unfold core_step. cbn [fst snd]. destruct e as [w|t|[t|]|j|j|f]; [|apply Hprint..| | |].
  - assert (c' ≠ c) as Hc by (intros ->; by apply (Hne w)). unfold print_step.
    destruct (running s c') as [[|f t|f [|b rest]|f] i]; try (split; [by apply Hset|done]); [done| |].
    + destruct (locked s); [done|]. split; [by apply Hset|done].
    + destruct w; [split; [by apply Hset|done]|by apply Hcall].
  - destruct (decide (c' = c)) as [->|]; [by rewrite Hm|]. case_match; [by apply Hcur|done].
  - destruct (decide (c' = c)) as [->|]; [by rewrite Hin|]. case_match; [by apply Hcur|done].
  - destruct (decide (c' = c)) as [->|]; [by rewrite Hin|]. case_match; [by apply Hset|done].
Qed.

Lemma kept_running c s s' : kept c s s' → running s' c = running s c.
Proof. intros [E _]. unfold running. by rewrite E. Qed.

(** The accesses a thread that holds or has just dropped the lock still makes. *)
Definition left (p : point) (f : bool) (n : nat) : Prop :=
  match p with
  | Holding g rest => g = f ∧ n = (length rest + 2)%nat
  | Released g => g = f ∧ n = 1%nat
  | _ => False
  end.

(** It came back, with its interrupt flag as it was. *)
Record finished (s s' : system) (c : nat) (f : bool) : Prop := {
  fi_running : running s' c = mkThread Outside f;
  fi_current : current (cores s' c) = current (cores s c);
  fi_calls : of_core c (calls s') = of_core c (calls s);
}.

Lemma finished_kept s s1 s' c f :
  current (cores s1 c) = current (cores s c) → of_core c (calls s1) = of_core c (calls s) →
  finished s1 s' c f → finished s s' c f.
Proof. intros E1 E2 [? ? ?]. split; congruence. Qed.

(** An access inside. *)
Lemma go_left s c f n :
  placed s → left (at_point (running s c)) f (S n) →
  let s' := print_step panic_text c true s in
  current (cores s' c) = current (cores s c) ∧ of_core c (calls s') = of_core c (calls s) ∧
  match n with
  | O => running s' c = mkThread Outside f
  | _ => left (at_point (running s' c)) f n
  end.
Proof.
  intros Hpl Hn. pose proof (inside_masked _ Hpl c) as Hm. unfold print_step.
  destruct (running s c) as [[|g t|g [|b rest]|g] i] eqn:Er; cbn in Hn, Hm; try done; destruct Hn as [-> Hn].
  - injection Hn as ->. cbn. rewrite !update_at_same. split_and!; try done.
    change (left (at_point (running (set_running s c (mkThread (Released f) i)) c)) f 1). by rewrite running_same.
  - injection Hn as ->. cbn. rewrite !update_at_same. split_and!; try done. rewrite Nat.add_comm. cbn.
    change (left (at_point (running (set_running s c (mkThread (Holding f rest) i)) c)) f (S (S (length rest)))).
    rewrite running_same. cbn. split; [done|lia].
  - injection Hn as ->. rewrite (Hm eq_refl), orb_false_r. cbn [set_running set_core cores calls].
    rewrite update_at_same. by rewrite running_same.
Qed.

Lemma left_inside p f n : left p f n → outside p = false.
Proof. by destruct p. Qed.

Lemma placed_go s e : e.2 ≠ Go false → inv s → placed (step s e).
Proof. intros He Hs. apply (si_placed port0). by apply core_step_inv. Qed.

(** Whatever else happens, a thread inside comes back after the accesses left to it. *)
Lemma left_completes es s c f n :
  inv s → Forall (λ e, e.2 ≠ Go false) es → left (at_point (running s c)) f n →
  accesses c es = n → last es = Some (c, Go true) → finished s (run s es) c f.
Proof.
  intros Hs Hes. revert s n Hs. induction Hes as [|e es He Hes IH]; intros s n Hs Hn Ha Hlast; [done|].
  rewrite accesses_cons in Ha. change (run s (e :: es)) with (run (step s e) es).
  pose proof (core_step_inv s e He Hs) as Hs'. destruct (decide (e = (c, Go true))) as [->|Hne].
  - destruct n as [|n]; [lia|]. destruct (go_left s c f n (si_placed _ _ Hs) Hn) as (Hcu & Hca & Hr).
    change (print_step panic_text c true s) with (step s (c, Go true)) in Hcu, Hca, Hr.
    destruct n as [|n].
    + destruct es as [|e' es]; [by split|]. exfalso. change (last (e' :: es) = Some (c, Go true)) in Hlast.
      apply last_Some_elem_of in Hlast. injection Ha as Ha. unfold accesses in Ha.
      apply nil_length_inv in Ha. apply (elem_of_nil (A := nat * event) (c, Go true)).
      rewrite <- Ha. by apply list_elem_of_filter.
    + eapply finished_kept; [exact Hcu|exact Hca|]. eapply IH; [exact Hs'|exact Hr|lia|].
      destruct es; [cbn in Ha; lia|done].
  - assert (kept c s (step s e)) as Hk.
    { apply step_kept; [by apply (si_placed port0)|by eapply left_inside|].
      intros w ->. destruct w; [done|by apply He]. }
    destruct Hk as [Ec Ek]. eapply finished_kept; [by rewrite Ec|exact Ek|].
    eapply IH; [exact Hs'|by rewrite (kept_running c s _ ltac:(by split))|exact Ha|].
    destruct es; [|done]. destruct n as [|n]; [|cbn in Ha; lia]. by destruct (at_point (running s c)); cbn in Hn; [|  |lia|lia].
Qed.

(** Whatever else happens, a holder has dropped the lock after the rest of its text. *)
Lemma holder_frees es s c f rest :
  inv s → Forall (λ e, e.2 ≠ Go false) es → at_point (running s c) = Holding f rest →
  (S (length rest) <= accesses c es)%nat → ∃ es1 es2, es = es1 ++ es2 ∧ locked (run s es1) = false.
Proof.
  intros Hs Hes. revert s rest Hs. induction Hes as [|e es He Hes IH]; intros s rest Hs Hr Ha; [cbn in Ha; lia|].
  rewrite accesses_cons in Ha. pose proof (core_step_inv s e He Hs) as Hs'.
  assert (∀ rest', at_point (running (step s e) c) = Holding f rest' → (S (length rest') <= accesses c es)%nat →
            ∃ es1 es2, e :: es = es1 ++ es2 ∧ locked (run s es1) = false) as Hnext.
  { intros rest' Hr' Hn. destruct (IH _ rest' Hs' Hr' Hn) as (es1 & es2 & -> & Hl). by exists (e :: es1), es2. }
  destruct (decide (e = (c, Go true))) as [->|Hne].
  - destruct (running s c) as [p i] eqn:Er. cbn in Hr. subst p. destruct rest as [|b rest].
    + exists [(c, Go true)], es. split; [done|]. cbn. unfold print_step. by rewrite Er.
    + apply (Hnext rest); [|cbn in Ha; lia]. cbn. unfold print_step. rewrite Er.
      change (at_point (running (set_running s c (mkThread (Holding f rest) i)) c) = Holding f rest).
      by rewrite running_same.
  - apply (Hnext rest); [|lia]. rewrite (kept_running c s); [done|].
    apply step_kept; [by apply (si_placed port0)|by rewrite Hr|]. intros w ->. destruct w; [done|by apply He].
Qed.

(** A call that has found the lock free. *)
Lemma locked_completes es s c f text :
  inv s → Forall (λ e, e.2 ≠ Go false) es → at_point (running s c) = Masked f text → locked s = false →
  accesses c es = (length text + 2)%nat → last es = Some (c, Go true) →
  let s' := run s ((c, Go true) :: es) in
  finished s s' c f ∧ of_core c (texts s') = of_core c (texts s) ++ [text].
Proof.
  intros Hs Hes Hr Hl Ha Hlast s'.
  destruct (running s c) as [p i] eqn:Er. cbn in Hr. subst p.
  assert (step s (c, Go true) = lock (set_running s c (mkThread (Holding f text) i)) c text) as E1.
  { cbn. unfold print_step. by rewrite Er, Hl. }
  pose proof (core_step_inv s (c, Go true) ltac:(done) Hs) as Hs1.
  assert (finished s s' c f) as Hf.
  { assert (s' = run (step s (c, Go true)) es) as -> by done.
    assert (running (step s (c, Go true)) c = mkThread (Holding f text) i) as Er1.
    { rewrite E1. exact (running_same s c _). }
    eapply finished_kept; [| |eapply left_completes; [exact Hs1|done| |exact Ha|done]].
    - rewrite E1. cbn. by rewrite update_at_same.
    - by rewrite E1.
    - by rewrite Er1. }
  split; [done|]. destruct Hf as [Hrun _ Hc].
  assert (inv s') as Hs' by (by apply core_run_inv; [constructor|]).
  rewrite (si_calls _ _ Hs'), Hrun, (si_calls _ _ Hs), Er in Hc. cbn in Hc. by rewrite app_nil_r in Hc.
Qed.

(** The lock is taken and nobody holds it; processor [c] waits for it. *)
Record jammed (s : system) : Prop := {
  ja_placed : placed s;
  ja_locked : locked s = true;
  ja_nobody : ∀ c, holds (running s c) = None;
}.

Lemma jammed_set s s' c t :
  jammed s → cores s' = cores (set_running s c t) → (outside (at_point t) = false → interrupts t = false) →
  holds t = None → locked s' = locked s → jammed s'.
Proof.
  intros [Hpl Hl Hn] E Ht Hh El. split; [by apply (placed_cores _ _ E), placed_set|by rewrite El|].
  intros c'. rewrite (running_cores _ _ _ _ c' E). by destruct (decide (c' = c)).
Qed.

Lemma jammed_switch s c j : jammed s → at_point (running s c) = Outside → jammed (set_current s c j).
Proof.
  intros [Hpl Hl Hn] Hp. destruct (placed_switch s c j Hpl Hp) as [Hpl' Hr]. split; [done|done|].
  intros c'. by rewrite (proj1 (Hr c')).
Qed.

Lemma jammed_call c text s : jammed s → jammed (print_call c text s).
Proof.
  intros Hs. unfold print_call. destruct (running s c) as [[] i]; try done.
  by apply (jammed_set s _ c (mkThread (Masked i text) false)).
Qed.

Lemma jammed_step s e : jammed s → jammed (step s e).
Proof.
  intros Hs. destruct e as [c e]. unfold core_step. cbn [fst snd]. destruct e as [w|t|[t|]|j|j|f]; try by apply jammed_call.
  - unfold print_step. pose proof (ja_nobody _ Hs c) as Hn.
    destruct (running s c) as [[|f t|f rest|f] i]; [done| |done|].
    + by rewrite (ja_locked _ Hs).
    + by apply (jammed_set s _ c (mkThread Outside (f || i))).
  - destruct (interrupts (running s c)) eqn:Ei; [|done]. apply jammed_switch; [done|].
    by apply tick_outside; [apply (ja_placed _ Hs)|].
  - destruct (at_point (running s c)) eqn:Ep; cbn [outside]; [by apply jammed_switch|done..].
  - destruct (at_point (running s c)) eqn:Ep; cbn [outside]; try done.
    by apply (jammed_set s _ c (mkThread Outside f)).
Qed.

(** Who waits then waits for ever. *)
Lemma jammed_forever es s :
  jammed s → locked (run s es) = true ∧ ∀ c f text, at_point (running s c) = Masked f text → running (run s es) c = running s c.
Proof.
  revert s. induction es as [|e es IH]; intros s Hs; [by split; [apply (ja_locked _ Hs)|]|].
  change (run s (e :: es)) with (run (step s e) es). destruct (IH _ (jammed_step s e Hs)) as [Hl Hr]. split; [done|].
  intros c f text Hc. assert (running (step s e) c = running s c) as E.
  { destruct (decide (∃ w, e = (c, Go w))) as [[w ->]|Hne].
    - cbn. unfold print_step. destruct (running s c) as [p i] eqn:Er. cbn in Hc. subst p. by rewrite (ja_locked _ Hs).
    - apply kept_running, step_kept; [apply (ja_placed _ Hs)|by rewrite Hc|]. intros w ->. apply Hne. by exists w. }
  rewrite (Hr c f text) by by rewrite E. done.
Qed.

(** A write that fails. *)
Lemma failed_jams s c f b rest :
  inv s → at_point (running s c) = Holding f (b :: rest) →
  jammed (step s (c, Go false)) ∧ at_point (running (step s (c, Go false)) c) = Masked false panic_text.
Proof.
  intros Hs Hr. pose proof (inside_masked _ (si_placed _ _ Hs) c) as Hm. rewrite Hr in Hm. specialize (Hm eq_refl).
  destruct (holder_port s c (b :: rest) Hs ltac:(by unfold holds; rewrite Hr)) as (Hl & _ & Hone).
  destruct (running s c) as [p i] eqn:Er. cbn in Hr, Hm. subst p i.
  assert (step s (c, Go false) = set_running (called s c panic_text) c (mkThread (Masked false panic_text) false)) as ->.
  { cbn. unfold print_step. by rewrite Er. }
  split; [|by rewrite running_same]. split; [|done|].
  { apply placed_set; [|done]. by apply (placed_cores s), (si_placed _ _ Hs). }
  intros c'. rewrite running_set. destruct (decide (c' = c)) as [|Hne]; [done|].
  change (running (called s c panic_text) c') with (running s c').
  destruct (holds (running s c')) as [r|] eqn:Eh; [|done]. by apply Hone in Eh.
Qed.
End lemmas.

Lemma quiet_inv s : quiet s → serial_inv (port s) s.
Proof.
  intros (Hl & Ht & Hc & Ho). assert (∀ c, at_point (running s c) = Outside) as Hr by (intros; apply Ho).
  split; [split|..].
  - intros c i _. apply Ho.
  - intros c. by rewrite Hr.
  - intros c rest. unfold holds. by rewrite Hr.
  - intros c c' r r'. unfold holds. by rewrite Hr.
  - exists []. by rewrite Hl, Ht.
  - intros c. rewrite Ht, Hc. unfold waits. by rewrite Hr.
Qed.

(** ** Properties *)

(** [C24] Texts are never mixed, and a thread waits for the port only while another
    processor prints.  From a quiet state, after any interleaving, on any number of
    processors, of calls, accesses, timer interrupts, switches and changes of the
    interrupt flag, in which no write fails: a thread that is inside [_print] runs with
    interrupts off; when it waits for a lock that is taken, the running thread of another
    processor holds it, and whatever happens next has dropped it once that processor has
    written the rest of its text and made one access more.  Nobody else holds it, running
    or not.  The port has the texts one after the other, each whole, in the order in which
    the lock was taken, but for the rest of the one that is being printed, and each
    processor's texts are those of its calls, in order, but for the one that waits.  A call
    that finds the lock free comes back within its length and three accesses, with its text
    printed and the interrupt flag as it was, whatever happens in between.  (A write that
    fails hangs the processor for ever, and every one that prints after it: the panic
    handler prints and waits for the lock that the panicking call still holds.) *)
Theorem printing_is_exclusive panic_text s0 es (Hq : quiet s0) (Hes : Forall (λ e, e.2 ≠ Go false) es) :
  let run := core_run panic_text in
  let s := run s0 es in
  (∀ c, outside (at_point (running s c)) = false → interrupts (running s c) = false) ∧
  (∀ c f text, at_point (running s c) = Masked f text → locked s = true →
     ∃ c' f' rest, c' ≠ c ∧ at_point (running s c') = Holding f' rest ∧
       ∀ es', Forall (λ e, e.2 ≠ Go false) es' → (S (length rest) <= accesses c' es')%nat →
         ∃ es1 es2, es' = es1 ++ es2 ∧ locked (run s es1) = false) ∧
  (∀ c f rest, at_point (running s c) = Holding f rest →
     locked s = true ∧
     ∀ c' i f' rest', at_point (threads (cores s c') i) = Holding f' rest' → c' = c ∧ i = current (cores s c)) ∧
  (∃ unsent, port s ++ unsent = port s0 ++ concat (texts s).*2 ∧
     if locked s then ∃ c f, at_point (running s c) = Holding f unsent else unsent = []) ∧
  (∀ c, of_core c (calls s) = of_core c (texts s) ++ waits (running s c)) ∧
  (∀ c f text es', at_point (running s c) = Masked f text → locked s = false →
     Forall (λ e, e.2 ≠ Go false) es' → accesses c es' = (length text + 2)%nat → last es' = Some (c, Go true) →
     let s' := run s ((c, Go true) :: es') in
     finished s s' c f ∧ of_core c (texts s') = of_core c (texts s) ++ [text]) ∧
  (∀ c f b rest, at_point (running s c) = Holding f (b :: rest) → ∀ es',
     let s1 := core_step panic_text s (c, Go false) in
     at_point (running s1 c) = Masked false panic_text ∧ locked (run s1 es') = true ∧
     ∀ c' f' text, at_point (running s1 c') = Masked f' text → running (run s1 es') c' = running s1 c').
Proof.
  intros run s. assert (serial_inv (port s0) s) as Hi by by apply core_run_inv, quiet_inv.
  clearbody s. pose proof Hi as [Hpl Hh Ho (unsent & Hp & Hu) Hc]. split_and!.
  - apply (inside_masked _ Hpl).
  - intros c f text Hr Hl. rewrite Hl in Hu. destruct Hu as [c' Hc']. unfold holds in Hc'.
    destruct (at_point (running s c')) as [| |f' rest|] eqn:Er; try done.
    exists c', f', rest. split; [intros ->; congruence|]. split; [done|].
    intros es' He Ha. by eapply holder_frees.
  - intros c f rest Hr.
    destruct (holder_port _ s c rest Hi ltac:(by unfold holds; rewrite Hr)) as (Hl & _ & Hone). split; [done|].
    intros c' i f' rest' Hi'. assert (i = current (cores s c')) as ->.
    { destruct (decide (i = current (cores s c'))) as [|Hne]; [done|]. apply (others_outside _ Hpl) in Hne. congruence. }
    assert (c' = c) as -> by (apply (Hone c' rest'); unfold holds, running; by rewrite Hi'). done.
  - exists unsent. split; [done|]. destruct (locked s); [|done]. destruct Hu as [c Hr]. unfold holds in Hr.
    destruct (at_point (running s c)) as [| |f rest|] eqn:Er; try done. injection Hr as ->. by exists c, f.
  - exact Hc.
  - intros c f text es' Hr Hl He Ha Hlast. by eapply locked_completes.
  - intros c f b rest Hr es'. destruct (failed_jams panic_text _ s c f b rest Hi Hr) as [Hj Hm].
    destruct (jammed_forever panic_text es' _ Hj) as [Hl Hk]. by split.
Qed.

(** Two processors: the boot processor with two threads, and the other one, which waits
    while thread 1 of the boot processor writes. *)
Definition demo_system : system := mkSystem false (λ _, mkCore 0 (λ _, mkThread Outside true)) [] [] [].
Definition demo_events : list (nat * event) :=
  [(0%nat, Println (Some [72; 105])); (0%nat, Tick 1%nat); (0%nat, Go true); (1%nat, SetFlag false); (1%nat, Print [33; 63]); (1%nat, Go true);
   (0%nat, Go true); (0%nat, Go true); (0%nat, Tick 1%nat); (0%nat, Go true); (1%nat, Go true); (0%nat, Go true); (0%nat, Go true); (0%nat, Go true);
   (0%nat, Tick 1%nat); (0%nat, Print [65; 66]); (0%nat, Go true); (1%nat, Go true); (0%nat, Go true)].

Lemma printing_is_exclusive_witness :
  let run := core_run [] in
  let s := run demo_system demo_events in
  current (cores s 0%nat) = 1%nat ∧ at_point (running s 1%nat) = Masked false [33; 63] ∧
  interrupts (running s 0%nat) = false ∧
  (∃ c' f rest, c' ≠ 1%nat ∧ at_point (running s c') = Holding f rest) ∧
  (∃ unsent, port s ++ unsent = [72; 105; 13; 10] ++ [65; 66] ∧ unsent = [66]) ∧
  ∀ es, locked (run (core_step [] s (0%nat, Go false)) es) = true.
Proof.
  assert (quiet demo_system) as Hq by by split_and!.
  assert (Forall (λ e, e.2 ≠ Go false) demo_events) as He by by repeat constructor.
  destruct (printing_is_exclusive [] demo_system demo_events Hq He) as (H1 & H2 & _ & (unsent & H3 & _) & _ & _ & H5).
  intros run s. split_and!.
  - by vm_compute.
  - by vm_compute.
  - apply H1. by vm_compute.
  - destruct (H2 1%nat false [33; 63]) as (c' & f & rest & Hc & Hr & _); [by vm_compute..|]. exact (ex_intro _ c' (ex_intro _ f (ex_intro _ rest (conj Hc Hr)))).
  - assert (port (core_run [] demo_system demo_events) = [72; 105; 13; 10; 65]) as Ep by (by vm_compute).
    assert (port demo_system ++ concat (texts (core_run [] demo_system demo_events)).*2 =
            [72; 105; 13; 10; 65; 66]) as Et by (by vm_compute).
    rewrite Ep, Et in H3. exists unsent. injection H3 as ->. split; [by subst s run; rewrite Ep|done].
  - intros es. apply (H5 0%nat true 66 []). by vm_compute.
Defined.
