(* ===== verification/DemoTasks.v ===== *)
(** * The demo tasks

    Model of the task bodies of [src/kernel-x86_64/src/scheduler_bridge.rs] with their
    counters, running over the scheduler of [Tasks] under every interleaving of their
    steps with timer interrupts, and of the read-backs of the boot self-test. *)
From S2P Require Import Prelude Buddy Scheduler Paging AddressSpace Context Tasks.

(** ** Threads

    The five entry points, and where in its loop a task is: about to count an iteration,
    at [task_a]'s critical section, before [task_e]'s read, in [hlt], or leaving the loop
    of [task_c].  [rounds] is what is left of that loop. *)
Inductive task_body := TaskA | TaskB | TaskC | TaskD | TaskE.

Inductive point := AtCount | AtPoll | AtRead | AtHlt | AtExit.

Record thread := mkThread { body : task_body; at_point : point; rounds : nat }.

#[export] Instance task_body_eq_dec : EqDecision task_body.
Proof. solve_decision. Defined.
#[export] Instance point_eq_dec : EqDecision point.
Proof. solve_decision. Defined.

(** The first statement of a body. *)
Definition entered (b : task_body) : thread :=
  mkThread b (match b with TaskE => AtRead | _ => AtCount end)
    (match b with TaskC => 5%nat | _ => O end).

(** The statement after [hlt]. *)
Definition resumed (t : thread) : thread :=
  match t.(body), t.(at_point) with
  | TaskC, AtHlt =>
      match t.(rounds) with
      | S (S n) => mkThread TaskC AtCount (S n)
      | _ => mkThread TaskC AtExit O
      end
  | TaskE, AtHlt => mkThread TaskE AtRead t.(rounds)
  | b, AtHlt => mkThread b AtCount t.(rounds)
  | _, _ => t
  end.

Definition move (t : thread) (p : point) : thread := mkThread t.(body) p t.(rounds).

(** The kernel, the counters of the five tasks, [TASK_C_PID], and the thread of each
    pid that was spawned. *)
Record world (M : Type) := mkWorld {
  kern : kernel M;
  counter : task_body → Z;
  task_c_pid : option Z;
  threads : gmap Z thread;
}.
Arguments mkWorld {M}. Arguments kern {M}. Arguments counter {M}. Arguments task_c_pid {M}.
Arguments threads {M}.

(** [fetch_add(1)]. *)
Definition count (c : task_body → Z) (b : task_body) : task_body → Z :=
  λ b', if decide (b' = b) then (c b + 1) mod 2 ^ 64 else c b'.

Section bodies.
Context `{Profile} {M : Type} `{Mapper M} (nx : bool) (trampoline : Z).
(** What the kernel image has at an address: the body that starts there; the entry point
    of [task_d]; and the memory the page tables are in. *)
Context (code : Z → option task_body) (task_d_entry : Z) (tables : words).
Implicit Type w : world M.

Definition set_thread w (t : thread) : world M :=
  mkWorld w.(kern) w.(counter) w.(task_c_pid) (<[current w.(kern) := t]> w.(threads)).

(** The read of [task_e] through its virtual address; it faults where nothing is
    mapped, which the handler answers with a panic. *)
Definition read_private (k : kernel M) : outcome Z :=
  match translate tables (cr3 k) PRIVATE_REGION_ADDR with
  | Some a => Ret (load tables a)
  | None => Panic
  end.

(** What a task that has not run yet will run: its first switch goes through
    [task_trampoline] to the address in the lowest word of the frame its spawn made. *)
Definition fresh_thread (k : kernel M) (pid : Z) : option thread :=
  i ← slot_index_for_pid k pid;
  s ← task_slots k !! i;
  entered <$> code (load64 (stacks k) (context s)).

Definition start_thread (k : kernel M) (pid : Z) (threads : gmap Z thread) : gmap Z thread :=
  match fresh_thread k pid with
  | Some t => <[pid := t]> threads
  | None => threads
  end.

(** A task that [task_a] has just spawned gets a thread of its own. *)
Definition start_task_d w (k : kernel M) : gmap Z thread :=
  start_thread k (next_pid w.(kern)) w.(threads).

(** The next step of the running task; [None] in [hlt] and in the boot flow. *)
Definition task_step w : outcome (option (world M)) :=
  match w.(threads) !! current w.(kern) with
  | None => Ret None
  | Some t =>
      match t.(at_point) with
      | AtHlt => Ret None
      | AtRead =>
          value ← read_private w.(kern);
          Ret (Some (set_thread w (move t (if value =? PRIVATE_VALUE then AtCount else AtHlt))))
      | AtCount =>
          let w := mkWorld w.(kern) (count w.(counter) t.(body)) w.(task_c_pid) w.(threads) in
          Ret (Some (set_thread w (move t (match t.(body) with TaskA => AtPoll | _ => AtHlt end))))
      | AtPoll =>
          k ← task_a_poll nx trampoline w.(kern) task_d_entry;
          Ret (Some (mkWorld k w.(counter) w.(task_c_pid)
                       (<[current w.(kern) := move t AtHlt]> (start_task_d w k))))
      | AtExit =>
          Ret (Some (mkWorld (exit_current_task w.(kern)).1 w.(counter) w.(task_c_pid)
                       (delete (current w.(kern)) w.(threads))))
      end
  end.

(** A timer interrupt: it ends the [hlt] of the task it interrupts. *)
Definition tick_step (rsp : Z) w : outcome (world M) :=
  r ← on_timer_tick w.(kern) rsp;
  Ret (mkWorld r.1 w.(counter) w.(task_c_pid) (alter resumed (current w.(kern)) w.(threads))).

(** [init], with the threads of the pids it used. *)
Definition init_world (k : kernel M) (new_space : kernel M → outcome (kernel M * option Z))
    (task_a task_b task_c task_e : Z) : outcome (world M) :=
  r ← init nx trampoline k new_space task_a task_b task_c task_e;
  let pids := seqZ (next_pid k) (next_pid r.1 - next_pid k) in
  Ret (mkWorld r.1 (λ _, 0) r.2 (foldr (start_thread r.1) ∅ pids)).

(** ** The read-backs *)

Definition both_tasks_made_real_progress w : bool :=
  (0 <? w.(counter) TaskA) && (0 <? w.(counter) TaskB).

Definition task_c_really_exited w : bool :=
  if (w.(counter) TaskC <? 5) || negb (task_c_exited w.(kern)) then false
  else match w.(task_c_pid) with
       | None => false
       | Some pid =>
           let still_queued :=
             match scheduler w.(kern) with
             | Some rq => bool_decide (is_Some (get rq pid))
             | None => false
             end in
           negb still_queued
       end.

Definition task_reused_a_guarded_slot w : bool :=
  let exit_slot := task_exit_slot w.(kern) in
  (0 <? w.(counter) TaskD) && bool_decide (is_Some exit_slot) &&
  bool_decide (exit_slot = task_d_spawn_slot w.(kern)).

Definition task_e_verified_own_address_space w : bool := 0 <? w.(counter) TaskE.

(** The check after the other processor has run. *)
Definition bsp_state_intact w : bool :=
  both_tasks_made_real_progress w && task_c_really_exited w &&
  task_reused_a_guarded_slot w && task_e_verified_own_address_space w.
End bodies.

(** ** What the handlers leave alone *)

Definition pool {M} (k : kernel M) : list (option Z) := slot_pid <$> task_slots k.
Definition spaces {M} (k : kernel M) : list (option Z) := address_space <$> task_slots k.
Definition latches {M} (k : kernel M) : option Z * bool * bool * option Z * Z :=
  (task_exit_slot k, task_c_exited k, task_d_spawned k, task_d_spawn_slot k, next_pid k).

Lemma fmap_alter_keep {A B} (g : A → B) f i (l : list A) :
  (∀ x, g (f x) = g x) → g <$> alter f i l = g <$> l.
Proof.
  intros Hf. revert i. induction l as [|x l IH]; intros [|i]; [done..| |].
  - cbn. by rewrite Hf.
  - cbn. f_equal. apply IH.
Qed.

Lemma fmap_alter_to {A B} (g : A → B) f b i (l : list A) :
  (∀ x, g (f x) = b) → g <$> alter f i l = alter (λ _, b) i (g <$> l).
Proof.
  intros Hf. revert i. induction l as [|x l IH]; intros [|i]; [done..| |].
  - cbn. by rewrite Hf.
  - cbn. f_equal. apply IH.
Qed.

Lemma position_fmap {A B} (g : A → B) f (l : list A) : position f (g <$> l) = position (λ x, f (g x)) l.
Proof. induction l as [|x l IH]; [done|]. cbn. destruct (f (g x)); [done|]. f_equal. apply IH. Qed.

(** The slot of a pid, and the first free one, from the pids alone. *)
Lemma position_pool {M} (k : kernel M) p :
  position (has_pid p) (task_slots k) = position (λ o, bool_decide (o = Some p)) (pool k).
Proof. unfold pool. by rewrite position_fmap. Qed.

Lemma live_pool {M} (k : kernel M) p : live (task_slots k) p ↔ Some p ∈ pool k.
Proof.
  unfold pool. rewrite list_elem_of_fmap. setoid_rewrite list_elem_of_lookup. unfold live, slot_of. naive_solver.
Qed.

Section frames.
Context `{Profile} {M : Type} `{Mapper M}.
Implicit Type k : kernel M.

Lemma switch_space_frame k p :
  pool (switch_address_space_to k p) = pool k ∧ spaces (switch_address_space_to k p) = spaces k ∧
  latches (switch_address_space_to k p) = latches k ∧ mapped (switch_address_space_to k p) = mapped k.
Proof.
  unfold switch_address_space_to. destruct (desired_l4_frame k p) as [f|]; [|done].
  destruct (negb _); [|done]. by destruct k.
Qed.

Lemma write_context_keeps k o rsp :
  pool (write_context k o rsp) = pool k ∧ spaces (write_context k o rsp) = spaces k ∧
  latches (write_context k o rsp) = latches k ∧ mapped (write_context k o rsp) = mapped k.
Proof.
  destruct o as [i|]; [|by destruct k]. unfold pool, spaces. destruct k; cbn.
  split_and!; [by apply fmap_alter_keep..|done|done].
Qed.

Lemma tick_frame k rsp k' o :
  on_timer_tick k rsp = Ret (k', o) →
  pool k' = pool k ∧ spaces k' = spaces k ∧ latches k' = latches k ∧ mapped k' = mapped k.
Proof.
  unfold on_timer_tick. intros (tick & _ & Hrun)%outcome_bind_ret.
  destruct (scheduler (set_ticks k tick)) as [rq|]; [|injection Hrun as <- _; by destruct k].
  apply outcome_bind_ret in Hrun as (rq' & _ & Hrun).
  destruct (_ =? _); [injection Hrun as <- _; by destruct k|]. injection Hrun as <- _.
  match goal with |- context [set_current ?a ?n] => set (next := n); set (ka := set_current a next) end. clearbody next.
  assert (pool ka = pool k ∧ spaces ka = spaces k ∧ latches ka = latches k ∧ mapped ka = mapped k)
    as (E1 & E2 & E3 & E4) by (unfold ka; by destruct k).
  destruct (switch_space_frame ka next) as (<- & <- & <- & <-) in E1, E2, E3, E4.
  destruct (write_context_keeps (switch_address_space_to ka next) (context_ptr (switch_address_space_to ka next)
    (current (set_ticks k tick))) rsp) as (-> & -> & -> & ->). done.
Qed.

(** The exit empties the slot of the running task, in the pids and nowhere else. *)
Lemma exit_frame k i :
  position (λ o, bool_decide (o = Some (current k))) (pool k) = Some i →
  let k' := (exit_current_task k).1 in
  pool k' = alter (λ _, None) i (pool k) ∧ spaces k' = spaces k ∧
  latches k' = (Some (Z.of_nat i), true, task_d_spawned k, task_d_spawn_slot k, next_pid k) ∧
  mapped k' = mapped k.
Proof.
  intros Hp k'. rewrite <-position_pool in Hp. subst k'. unfold exit_current_task.
  set (k1 := match scheduler k with
             | Some rq => set_scheduler k (Some (remove_process rq (current k)).1)
             | None => k
             end).
  assert (pool k1 = pool k ∧ spaces k1 = spaces k ∧ mapped k1 = mapped k ∧ task_slots k1 = task_slots k ∧
    latches k1 = latches k) as (E1 & E2 & E3 & E4 & E5) by (unfold k1; destruct k; cbn; by case_match).
  clearbody k1. rewrite E4, Hp. cbn [fst].
  match goal with |- context [set_current ?a ?n] => set (next := n); set (ka := set_current a next) end. clearbody next.
  destruct (switch_space_frame ka next) as (-> & -> & -> & ->).
  rewrite <-E1, <-E2, <-E3. unfold latches in E5. destruct k1; cbn in *. simplify_eq.
  unfold ka, pool, spaces. cbn. split_and!; [by apply fmap_alter_to|by apply fmap_alter_keep|done|done].
Qed.
End frames.

(** ** The invariant

    The demo goes through three phases: [task_c] is in the pool, its slot is free, and
    [task_d] is in its slot. *)
Inductive phase := Running | Exited | Reused.

#[export] Instance phase_eq_dec : EqDecision phase.
Proof. solve_decision. Defined.

Definition phase_nat (ph : phase) : nat := match ph with Running => 0 | Exited => 1 | Reused => 2 end.

Definition pool_at (ph : phase) : list (option Z) :=
  [Some 0; Some 1; match ph with Running => Some 2 | Exited => None | Reused => Some 4 end; Some 3;
   None; None; None; None].

Definition latches_at (ph : phase) : option Z * bool * bool * option Z * Z :=
  match ph with
  | Running => (None, false, false, None, 4)
  | Exited => (Some 2, true, false, None, 4)
  | Reused => (Some 2, true, true, Some 2, 5)
  end.

Definition body_of (p : Z) : option task_body :=
  if p =? 0 then Some TaskA else if p =? 1 then Some TaskB else if p =? 2 then Some TaskC
  else if p =? 3 then Some TaskE else if p =? 4 then Some TaskD else None.

(** The five bodies at five addresses that fit in a word. *)
Definition entry_ok (trampoline : Z) (code : Z → option task_body) (b : task_body) (entry : Z) : Prop :=
  words_ok trampoline entry ∧ code entry = Some b.

Definition entries_ok (trampoline : Z) (code : Z → option task_body) (entries : list Z) : Prop :=
  Forall2 (entry_ok trampoline code) [TaskA; TaskB; TaskC; TaskD; TaskE] entries.

Lemma entries_ok_inv trampoline code ea eb ec ed ee :
  entries_ok trampoline code [ea; eb; ec; ed; ee] →
  entry_ok trampoline code TaskA ea ∧ entry_ok trampoline code TaskB eb ∧
  entry_ok trampoline code TaskC ec ∧ entry_ok trampoline code TaskD ed ∧ entry_ok trampoline code TaskE ee.
Proof. unfold entries_ok. rewrite !Forall2_cons. tauto. Qed.

(** Where each body can be. *)
Definition thread_ok (t : thread) : bool :=
  match t.(body), t.(at_point) with
  | TaskA, (AtCount | AtPoll | AtHlt) | (TaskB | TaskD), (AtCount | AtHlt)
  | TaskE, (AtRead | AtCount | AtHlt) => true
  | TaskC, (AtCount | AtHlt) => bool_decide (1 <= t.(rounds) <= 5)%nat
  | TaskC, AtExit => bool_decide (t.(rounds) = O)
  | _, _ => false
  end.

(** The iterations [task_c] has still to count. *)
Definition uncounted (t : thread) : Z :=
  match t.(at_point) with
  | AtHlt => Z.of_nat t.(rounds) - 1
  | _ => Z.of_nat t.(rounds)
  end.

(** A task that is about to count was resumed by a tick after its last count. *)
Definition paced (ticks : Z) (c : task_body → Z) (t : thread) : Prop :=
  match t.(at_point) with
  | AtCount | AtRead => c t.(body) = 0 ∨ c t.(body) + 1 <= ticks
  | _ => True
  end.

(** [AddressSpace::new] takes frames and maps pages for its own table, whether it
    succeeds or not. *)
Definition new_space_ok {M : Type} `{Mapper M} (new_space : kernel M → outcome (kernel M * option Z)) : Prop :=
  ∀ k k' o, new_space k = Ret (k', o) → mem_inv (globals k) (mapped k) →
    k' = set_memory k (globals k') (mapped k) ∧ mem_inv (globals k') (mapped k).

Section demo_inv.
Context `{Profile} {M : Type} `{MapperLaws M} (nx : bool) (trampoline : Z).
Context (code : Z → option task_body) (task_d_entry : Z) (tables : words).
(** The stack pointers of the boot flow, and the table [task_e] is bound to. *)
Context (boot_stack : Z → Prop) (space : Z).
Context (Hwords : entry_ok trampoline code TaskD task_d_entry).
Context (Hspace : ∃ a, translate tables space PRIVATE_REGION_ADDR = Some a ∧ load tables a = PRIVATE_VALUE).
Implicit Type w : world M.

Record world_inv w (ph : phase) : Prop := {
  wi_tasks : tasks_inv boot_stack (kern w);
  wi_pool : pool (kern w) = pool_at ph;
  wi_latches : latches (kern w) = latches_at ph;
  wi_mapped : mapped (kern w) !! 2%nat = Some true;
  wi_space : spaces (kern w) !! 3%nat = Some (Some space);
  wi_pid : task_c_pid w = Some 2;
  wi_threads : ∀ p, is_Some (threads w !! p) ↔ Some p ∈ pool_at ph;
  wi_body : ∀ p t, threads w !! p = Some t → body_of p = Some (body t) ∧ thread_ok t = true;
  wi_started : current (kern w) ≠ BOOT_PID → 1 <= ticks (kern w);
  wi_ticks : ticks (kern w) <= u64_max;
  wi_counter : ∀ b, 0 <= counter w b <= ticks (kern w);
  wi_paced : ∀ p t, threads w !! p = Some t → paced (ticks (kern w)) (counter w) t;
  wi_c : ∀ t, threads w !! 2 = Some t → counter w TaskC + uncounted t = 5;
  wi_c_done : ph ≠ Running → counter w TaskC = 5;
  wi_d : ph ≠ Reused → counter w TaskD = 0;
}.

Lemma body_of_inj p q b : body_of p = Some b → body_of q = Some b → p = q.
Proof.
  unfold body_of. intros Hp Hq.
  repeat case_match; simplify_eq; reflect_bools; lia.
Qed.

(** The body of [task_c] runs under pid 2 only, and so on. *)
Lemma body_pid p t : body_of p = Some (body t) →
  p = match body t with TaskA => 0 | TaskB => 1 | TaskC => 2 | TaskE => 3 | TaskD => 4 end.
Proof. intros Hp. eapply body_of_inj; [exact Hp|]. by destruct (body t). Qed.

Lemma pool_at_small ph p : Some p ∈ pool_at ph → 0 <= p <= 4.
Proof.
  unfold pool_at. rewrite !elem_of_cons, elem_of_nil. intros Hp.
  repeat destruct Hp as [Hp|Hp]; try done; try (injection Hp as ->; lia).
  destruct ph; try discriminate Hp; injection Hp as ->; lia.
Qed.

(** What runs is the boot flow or has a thread, and a slot. *)
Lemma current_thread w ph :
  world_inv w ph →
  (current (kern w) = BOOT_PID ∧ threads w !! BOOT_PID = None) ∨
  (current (kern w) ≠ BOOT_PID ∧ ∃ t, threads w !! current (kern w) = Some t).
Proof.
  intros Hi. destruct (ti_cr3 _ _ (wi_tasks _ _ Hi)) as [[Hc _]|(Hc & i & s & Hs & _)].
  - left. split; [done|]. apply eq_None_not_Some. rewrite (wi_threads _ _ Hi).
    intros Hb%pool_at_small. unfold BOOT_PID, u64_max in Hb. lia.
  - right. split; [done|]. change (is_Some (threads w !! current (kern w))). apply (wi_threads _ _ Hi).
    rewrite <-(wi_pool _ _ Hi). apply live_pool. by exists i, s.
Qed.

(** While [task_e] runs, the table of its address space is loaded. *)
Lemma task_e_table w ph t :
  world_inv w ph → threads w !! current (kern w) = Some t → body t = TaskE →
  read_private tables (kern w) = Ret PRIVATE_VALUE.
Proof.
  intros Hi Ht Hb. destruct (wi_body _ _ Hi _ _ Ht) as [Hp _]. apply body_pid in Hp. rewrite Hb in Hp.
  destruct (ti_cr3 _ _ (wi_tasks _ _ Hi)) as [[Hc _]|(_ & i & s & [Hs Hsp] & Hf)]; [by rewrite Hp in Hc|].
  assert (i = 3%nat) as ->.
  { destruct (ti_pool _ _ (wi_tasks _ _ Hi)) as (rq & _ & Hw).
    pose proof (wi_pool _ _ Hi) as Hpool. unfold pool in Hpool.
    assert (pool_at ph !! i = Some (Some 3)) as Hl by (by rewrite <-Hpool, list_lookup_fmap, Hs; cbn; rewrite Hsp, Hp).
    do 8 (destruct i as [|i]; [destruct ph; cbn in Hl; congruence|]). by destruct i, ph. }
  pose proof (wi_space _ _ Hi) as Hspc. unfold spaces in Hspc. rewrite list_lookup_fmap, Hs in Hspc.
  injection Hspc as Hspc. destruct Hf as [Hf|[Hf _]]; [|congruence]. rewrite Hspc in Hf. injection Hf as Hf.
  unfold read_private. rewrite <-Hf. by destruct Hspace as (a & -> & ->).
Qed.

(** The tasks of each phase. *)
Lemma thread_phase w ph p t :
  world_inv w ph → threads w !! p = Some t →
  (body t = TaskC → ph = Running) ∧ (body t = TaskD → ph = Reused).
Proof.
  intros Hi Ht. destruct (wi_body _ _ Hi _ _ Ht) as [Hp _]. apply body_pid in Hp.
  assert (Some p ∈ pool_at ph) as Hin by (apply (wi_threads _ _ Hi); by exists t).
  unfold pool_at in Hin. rewrite !elem_of_cons, elem_of_nil in Hin.
  split; intros Hb; rewrite Hb in Hp; subst p; destruct ph; naive_solver.
Qed.

(** A step of the running task that leaves the kernel as it is. *)
Lemma step_thread w ph t t' c' :
  world_inv w ph → threads w !! current (kern w) = Some t → body t' = body t → thread_ok t' = true →
  (∀ b, b ≠ body t → c' b = counter w b) → 0 <= c' (body t) <= ticks (kern w) →
  paced (ticks (kern w)) c' t' → (body t = TaskC → c' TaskC + uncounted t' = 5) →
  world_inv (mkWorld (kern w) c' (task_c_pid w) (<[current (kern w) := t']> (threads w))) ph.
Proof.
  intros Hi Ht Hb Hok Hc Hcb Hp HC.
  pose proof (wi_body _ _ Hi _ _ Ht) as [Hpid _].
  destruct (thread_phase w ph _ t Hi Ht) as [HphC HphD].
  assert (∀ p u, <[current (kern w) := t']> (threads w) !! p = Some u →
            p = current (kern w) ∧ u = t' ∨ p ≠ current (kern w) ∧ threads w !! p = Some u ∧ body u ≠ body t) as Hcase.
  { intros p u [[<- <-]|[Hne Hu]]%lookup_insert_Some; [by left|right]. split; [done|]. split; [done|].
    intros Heq. destruct (wi_body _ _ Hi _ _ Hu) as [Hu' _]. rewrite Heq in Hu'. apply Hne.
    by eapply body_of_inj. }
  destruct Hi. split; cbn; try done.
  - intros p. rewrite <-wi_threads0, lookup_insert. case_decide as Hd; [subst p|done].
    rewrite Ht. split; by eexists.
  - intros p u [[-> ->]|(_ & Hu & _)]%Hcase; [by rewrite Hb|by apply wi_body0].
  - intros b. destruct (decide (b = body t)) as [->|Hne]; [done|]. rewrite Hc by done. apply wi_counter0.
  - intros p u [[-> ->]|(_ & Hu & Hne)]%Hcase; [done|]. specialize (wi_paced0 p u Hu).
    unfold paced in *. by rewrite Hc.
  - intros u [[Hp2 ->]|(_ & Hu & Hne)]%Hcase.
    + apply HC. apply body_pid in Hpid. rewrite <-Hp2 in Hpid. by destruct (body t).
    + destruct (wi_body0 _ _ Hu) as [Hpu _]. apply body_pid in Hpu.
      assert (body u = TaskC) as Hbu by (by destruct (body u)). rewrite Hc by congruence. by apply wi_c0.
  - intros Hph. rewrite Hc by (intros Heq; by apply Hph, HphC). by apply wi_c_done0.
  - intros Hph. rewrite Hc by (intros Heq; by apply Hph, HphD). by apply wi_d0.
Qed.

(** Counting never wraps. *)
Lemma count_ret w ph t :
  world_inv w ph → threads w !! current (kern w) = Some t → at_point t = AtCount →
  count (counter w) (body t) (body t) = counter w (body t) + 1 ∧ counter w (body t) + 1 <= ticks (kern w).
Proof.
  intros Hi Ht Hat. pose proof (wi_paced _ _ Hi _ _ Ht) as Hp. unfold paced in Hp. rewrite Hat in Hp.
  destruct (current_thread w ph Hi) as [[Hc Hn]|[Hc _]]; [rewrite Hc in Ht; congruence|].
  pose proof (wi_started _ _ Hi Hc). pose proof (wi_counter _ _ Hi (body t)). pose proof (wi_ticks _ _ Hi) as Hu.
  unfold u64_max in Hu. unfold count. rewrite decide_True by done. rewrite Z.mod_small by lia. lia.
Qed.

Lemma resumed_ok t : thread_ok t = true →
  body (resumed t) = body t ∧ thread_ok (resumed t) = true ∧
  (body t = TaskC → uncounted (resumed t) = uncounted t).
Proof.
  destruct t as [[] [] r]; cbn; intros Hok; try (split_and!; done); try done; apply bool_decide_eq_true in Hok.
  destruct r as [|[|r]]; [lia|done|]. cbn. rewrite bool_decide_true by lia. split_and!; [done..|].
  intros _. unfold uncounted. cbn. lia.
Qed.

(** A timer interrupt. *)
Lemma tick_step_inv w ph rsp :
  world_inv w ph → rsp_ok boot_stack (kern w) rsp → ticks (kern w) < u64_max →
  ∃ w', tick_step rsp w = Ret w' ∧ world_inv w' ph ∧ ticks (kern w') = ticks (kern w) + 1 ∧
    counter w' = counter w.
Proof.
  intros Hi Hr Ht.
  destruct (tick_ret boot_stack (kern w) rsp (wi_tasks _ _ Hi) Hr Ht) as (k' & o & Hk & Hi' & Hti & _).
  destruct (tick_frame _ _ _ _ Hk) as (Hpool & Hsp & Hl & Hm).
  unfold tick_step. rewrite Hk. eexists. split; [done|]. cbn. split; [|done].
  assert (∀ p u, alter resumed (current (kern w)) (threads w) !! p = Some u →
            ∃ t, threads w !! p = Some t ∧ (u = t ∨ u = resumed t)) as Hcase.
  { intros p u. destruct (decide (p = current (kern w))) as [->|Hne].
    - rewrite lookup_alter_eq. intros (t & Hu & ->)%fmap_Some. exists t. auto.
    - rewrite lookup_alter_ne by done. intros Hu. exists u. auto. }
  destruct Hi. assert (0 <= ticks (kern w)) by (specialize (wi_counter0 TaskA); lia).
  split; cbn; rewrite ?Hti; try congruence; try lia.
  - intros p. rewrite <-wi_threads0. destruct (decide (p = current (kern w))) as [->|Hne].
    + by rewrite lookup_alter_eq, fmap_is_Some.
    + by rewrite lookup_alter_ne.
  - intros p u (t & Hu & Hut)%Hcase. destruct (wi_body0 _ _ Hu) as [Hb Hok].
    destruct (resumed_ok t Hok) as (E & E' & _). destruct Hut as [-> | ->]; [done|by rewrite E].
  - intros b. specialize (wi_counter0 b). lia.
  - intros p u (t & Hu & Hut)%Hcase. destruct (wi_body0 _ _ Hu) as [Hb Hok].
    specialize (wi_counter0 (body t)). unfold paced.
    destruct (resumed_ok t Hok) as (E & _ & _).
    assert (body u = body t) as -> by by destruct Hut as [-> | ->].
    destruct (at_point u); [lia|done|lia|done|done].
  - intros u (t & Hu & Hut)%Hcase. destruct (wi_body0 _ _ Hu) as [Hb Hok].
    destruct (resumed_ok t Hok) as (_ & _ & E). rewrite <-(wi_c0 _ Hu). destruct Hut as [-> | ->]; [done|].
    rewrite E; [done|]. apply body_pid in Hb. by destruct (body t).
  - done.
  - done.
Qed.

Lemma pool_position ph p : 0 <= p <= 3 → Some p ∈ pool_at ph →
  position (λ o, bool_decide (o = Some p)) (pool_at ph) = Some (Z.to_nat p).
Proof.
  intros Hp Hin. assert (p = 0 ∨ p = 1 ∨ p = 2 ∨ p = 3) as Hcases by lia.
  destruct Hcases as [->|[->|[-> | ->]]], ph; try done;
    unfold pool_at in Hin; rewrite !elem_of_cons, elem_of_nil in Hin; naive_solver.
Qed.

(** The exit of [task_c]. *)
Lemma exit_step_inv w ph t :
  world_inv w ph → threads w !! current (kern w) = Some t → at_point t = AtExit →
  ph = Running ∧
  let w' := mkWorld (exit_current_task (kern w)).1 (counter w) (task_c_pid w)
              (delete (current (kern w)) (threads w)) in
  world_inv w' Exited ∧ ticks (kern w') = ticks (kern w).
Proof.
  intros Hi Ht Hat. destruct (wi_body _ _ Hi _ _ Ht) as [Hpid Hok].
  assert (body t = TaskC ∧ rounds t = O) as [Hb Hr].
  { unfold thread_ok in Hok. rewrite Hat in Hok. destruct (body t); try done. by apply bool_decide_eq_true in Hok. }
  destruct (thread_phase w ph _ t Hi Ht) as [Hph _]. rewrite (Hph Hb) in *. clear ph Hph. split; [done|].
  apply body_pid in Hpid. rewrite Hb in Hpid.
  destruct (ti_cr3 _ _ (wi_tasks _ _ Hi)) as [[Hc _]|(Hnb & i & s & Hs & _)]; [by rewrite Hpid in Hc|].
  pose proof (exit_ret boot_stack (kern w) i s (wi_tasks _ _ Hi) Hs) as Hex.
  destruct (exit_frame (kern w) 2) as (Hpool & Hsp & Hl & Hm).
  { rewrite Hpid, (wi_pool _ _ Hi). done. }
  destruct (exit_current_task (kern w)) as [k' r]. cbn [fst] in *.
  destruct Hex as (Hi' & _ & _ & _ & _ & _ & _ & _ & _ & Htk & _). cbn. split; [|done].
  destruct Hi. unfold latches in wi_latches0. cbn in wi_latches0. simplify_eq.
  split; cbn; rewrite ?Htk; try done; try congruence.
  - by rewrite Hpool, wi_pool0.
  - rewrite Hl. change (Z.of_nat 2) with 2. congruence.
  - intros p. rewrite lookup_delete. case_decide as Hd.
    + subst p. rewrite Hpid. split; [by intros [? ?]|]. unfold pool_at. rewrite !elem_of_cons, elem_of_nil. naive_solver.
    + rewrite wi_threads0. unfold pool_at. rewrite !elem_of_cons, elem_of_nil. naive_solver.
  - intros p u [_ Hu]%lookup_delete_Some. by apply wi_body0.
  - intros _. apply wi_started0. by rewrite Hpid.
  - intros p u [_ Hu]%lookup_delete_Some. by apply (wi_paced0 p).
  - intros u [Hne Hu]%lookup_delete_Some. congruence.
  - intros _. rewrite Hpid in Ht. pose proof (wi_c0 _ Ht) as Hc. unfold uncounted in Hc. rewrite Hat, Hr in Hc. lia.
  - intros _. by apply wi_d0.
Qed.

(** A spawn while the pids are [p], with slot [i] the first free one. *)
Lemma spawn_pool k entry sp i k' o :
  tasks_inv boot_stack k → words_ok trampoline entry → 0 <= next_pid k < BOOT_PID →
  position (λ o, bool_decide (o = None)) (pool k) = Some i →
  spawn_task_impl nx trampoline k entry sp = Ret (k', o) →
  o = Some (next_pid k) ∧ tasks_inv boot_stack k' ∧ pool k' = <[i := Some (next_pid k)]> (pool k) ∧
  spaces k' = <[i := sp]> (spaces k) ∧ mapped k' = <[i := true]> (mapped k) ∧ (i < length (mapped k))%nat ∧
  current k' = current k ∧ ticks k' = ticks k ∧
  latches k' = (task_exit_slot k, task_c_exited k, task_d_spawned k, task_d_spawn_slot k, next_pid k + 1) ∧
  spawned k k' (next_pid k) i sp trampoline entry.
Proof.
  intros Hi Hw Hnp Hpos Hsp.
  destruct (spawn_keeps nx trampoline k entry sp k' o Hsp) as [_ Hdss].
  destruct (spawn_inv boot_stack _ _ _ _ _ _ _ Hi (proj2 Hnp) Hw Hsp)
    as (Hi2 & Hn & Hc & Ht & _ & Hes & Hce & Hds & Ho).
  apply position_Some in Hpos as (x & Hx & Hxn & Hlow). apply bool_decide_eq_true in Hxn as ->.
  unfold pool in Hx. rewrite list_lookup_fmap in Hx. apply fmap_Some in Hx as (s & Hs & Hsn).
  destruct o as [p|].
  2:{ destruct Ho as [Hfull _]. exfalso. apply (Hfull s); [|done]. apply list_elem_of_lookup. by exists i. }
  destruct Ho as (-> & j & Hj & Hspd).
  assert (j = i) as ->.
  { destruct (sp_free _ _ _ _ _ _ _ Hspd) as (t & Htj & Htn).
    destruct (Nat.lt_trichotomy j i) as [Hlt|[?|Hlt]]; [|done|].
    - specialize (Hlow j (slot_pid t) Hlt). unfold pool in Hlow. rewrite list_lookup_fmap, Htj in Hlow.
      cbn in Hlow. rewrite Htn in Hlow. by discriminate Hlow.
    - by destruct (sp_lowest _ _ _ _ _ _ _ Hspd i s Hlt Hs). }
  split; [done|]. split; [done|].
  unfold pool, spaces. rewrite (sp_slots _ _ _ _ _ _ _ Hspd), !list_fmap_insert, (sp_mapped _ _ _ _ _ _ _ Hspd).
  split_and!; try done.
  - pose proof (ti_mem _ _ Hi) as [Hlen _]. lia.
  - unfold latches. congruence.
Qed.

(** Slot [i] holds a task that has not run: its frame leads to [entry]. *)
Definition framed (k : kernel M) (i : nat) (entry : Z) : Prop :=
  ∃ s, task_slots k !! i = Some s ∧ load64 (stacks k) (context s) = entry ∧ in_stack i (context s).

Lemma spawn_framed (k k' : kernel M) p i sp entry :
  spawned k k' p i sp trampoline entry →
  framed k' i entry ∧ ∀ j e, j ≠ i → framed k j e → framed k' j e.
Proof.
  intros [(s & Hs & _) _ Hslots _ [Hf _] Hst _ _ _]. split.
  - exists (mkSlot (Some p) (stack_base i + STACK_SIZE - 64) sp).
    rewrite Hslots, list_lookup_insert_eq by (by eapply lookup_lt_Some). split_and!; [done|done|].
    unfold in_stack, STACK_SIZE. cbn. lia.
  - intros j e Hj (u & Hu & He & Hin). exists u. rewrite Hslots, list_lookup_insert_ne by done.
    split_and!; [done| |done]. rewrite <-He. apply load64_ext. intros b Hb. apply Hst.
    destruct Hin as [Hlo Hhi]. layout. lia.
Qed.

Lemma framed_thread (k : kernel M) i p entry b :
  pool k !! i = Some (Some p) → (∀ j, pool k !! j = Some (Some p) → j = i) → framed k i entry →
  code entry = Some b → fresh_thread code k p = Some (entered b).
Proof.
  intros Hp Hu (s & Hs & He & _) Hc. unfold fresh_thread, slot_index_for_pid. rewrite position_pool.
  destruct (position _ (pool k)) as [j|] eqn:Ej.
  - apply position_Some in Ej as (o & Ho & Hb & _). apply bool_decide_eq_true in Hb as ->.
    rewrite (Hu j Ho). cbn. rewrite Hs. cbn. by rewrite He, Hc.
  - rewrite position_None in Ej. specialize (Ej _ (list_elem_of_lookup_2 _ _ _ Hp)).
    by apply bool_decide_eq_false in Ej.
Qed.

Lemma no_fresh_thread (k : kernel M) p : position (λ o, bool_decide (o = Some p)) (pool k) = None → fresh_thread code k p = None.
Proof. intros Hp. unfold fresh_thread, slot_index_for_pid. by rewrite position_pool, Hp. Qed.

(** The spawn of [task_d] takes the slot [task_c] left. *)
Lemma poll_after_exit w :
  world_inv w Exited →
  ∃ k', task_a_poll nx trampoline (kern w) task_d_entry = Ret k' ∧ tasks_inv boot_stack k' ∧
    pool k' = pool_at Reused ∧ latches k' = latches_at Reused ∧ mapped k' !! 2%nat = Some true ∧
    spaces k' !! 3%nat = spaces (kern w) !! 3%nat ∧ current k' = current (kern w) ∧
    ticks k' = ticks (kern w) ∧ fresh_thread code k' 4 = Some (entered TaskD).
Proof.
  intros Hi. set (k0 := set_d_spawned (kern w) true).
  pose proof (wi_latches _ _ Hi) as Hl. unfold latches, latches_at in Hl. simplify_eq.
  assert (tasks_inv boot_stack k0) as Hi0 by apply set_d_spawned_inv, Hi.
  assert (pool k0 = pool_at Exited ∧ spaces k0 = spaces (kern w) ∧ mapped k0 = mapped (kern w) ∧
          current k0 = current (kern w) ∧ ticks k0 = ticks (kern w) ∧
          latches k0 = (Some 2, true, true, None, 4)) as (Hp0 & Hs0 & Hm0 & Hc0 & Ht0 & Hl0).
  { rewrite <-(wi_pool _ _ Hi). unfold k0, latches. destruct (kern w); cbn in *. split_and!; congruence. }
  unfold task_a_poll. replace (task_c_exited (kern w)) with true by congruence.
  replace (task_d_spawned (kern w)) with false by congruence. cbn [andb negb]. fold k0.
  clearbody k0. unfold latches in Hl0. simplify_eq.
  destruct (spawn_total boot_stack nx trampoline k0 task_d_entry None Hi0 (proj1 Hwords)) as [[k2 o] Hsp].
  { intros i _ (s & Hs & Hn) Hlow.
    assert (∀ j t, task_slots k0 !! j = Some t → pool_at Exited !! j = Some (slot_pid t)) as Hat.
    { intros j t Ht. rewrite <-Hp0. unfold pool. by rewrite list_lookup_fmap, Ht. }
    pose proof (Hat i s Hs) as Hsi. rewrite Hn in Hsi. destruct i as [|[|[|i]]]; [done..|rewrite Hm0; apply Hi|].
    exfalso. destruct (lookup_lt_is_Some_2 (task_slots k0) 2) as [t Ht].
    { apply lookup_lt_Some in Hs. lia. }
    eapply Hlow; [|exact Ht|]; [lia|]. apply Hat in Ht. by injection Ht. }
  unfold spawn_task. rewrite Hsp. cbn [mbind outcome_bind fst snd].
  assert (next_pid k0 = 4) as Hn4 by congruence.
  destruct (spawn_pool k0 task_d_entry None 2 k2 o Hi0 (proj1 Hwords))
    as (-> & Hi2 & Hp2 & Hs2 & Hm2 & Hlt & Hc2 & Ht2 & Hl2 & Hspd);
    [rewrite Hn4; done|by rewrite Hp0|done|].
  rewrite Hn4, Hp0 in *. cbn in Hp2. fold (pool_at Reused) in Hp2.
  eexists. split; [reflexivity|].
  assert (slot_index_for_pid k2 4 = Some 2%nat) as ->.
  { unfold slot_index_for_pid. by rewrite position_pool, Hp2. }
  split; [by apply set_d_spawn_slot_inv|].
  assert (spaces k2 !! 3%nat = spaces (kern w) !! 3%nat) as Hs3.
  { rewrite Hs2, Hs0. by rewrite list_lookup_insert_ne. }
  assert (mapped k2 !! 2%nat = Some true) as Hm3 by (rewrite Hm2; by apply list_lookup_insert_eq).
  change (4 + 1) with 5 in Hl2. change (Z.of_nat <$> Some 2%nat) with (Some 2).
  assert (fresh_thread code (set_d_spawn_slot k2 (Some 2)) 4 = Some (entered TaskD)) as Hth.
  { apply spawn_framed in Hspd as [Hfr _].
    assert (pool (set_d_spawn_slot k2 (Some 2)) = pool_at Reused) as Hpr by (rewrite <-Hp2; by destruct k2).
    apply (framed_thread _ 2 4 task_d_entry); [by rewrite Hpr| |by destruct k2|apply Hwords].
    intros j. rewrite Hpr. intros Hj. do 8 (destruct j as [|j]; [done|]). done. }
  unfold latches in *. destruct k2; cbn in *. split_and!; try done; congruence.
Qed.

Lemma poll_step_inv w ph t :
  world_inv w ph → threads w !! current (kern w) = Some t → at_point t = AtPoll →
  ∃ k' ph', task_a_poll nx trampoline (kern w) task_d_entry = Ret k' ∧
    (phase_nat ph <= phase_nat ph')%nat ∧ ticks k' = ticks (kern w) ∧
    world_inv (mkWorld k' (counter w) (task_c_pid w)
                 (<[current (kern w) := move t AtHlt]> (start_task_d code w k'))) ph'.
Proof.
  intros Hi Ht Hat. destruct (wi_body _ _ Hi _ _ Ht) as [_ Hok].
  assert (body t = TaskA) as Hb.
  { unfold thread_ok in Hok. rewrite Hat in Hok. by destruct (body t). }
  assert (world_inv (mkWorld (kern w) (counter w) (task_c_pid w) (<[current (kern w) := move t AtHlt]> (threads w))) ph)
    as Hstay.
  { apply (step_thread w ph t); try done; cbn.
    - unfold thread_ok. cbn. by rewrite Hb.
    - apply Hi.
    - by rewrite Hb. }
  destruct (decide (ph = Exited)) as [->|Hph].
  - destruct (poll_after_exit w Hi) as (k' & Hk & Hi' & Hp & Hl & Hm & Hs & Hc & Htk & Hth).
    exists k', Reused. split; [done|]. split; [cbn; lia|]. split; [done|].
    pose proof (wi_latches _ _ Hi) as Hl0. unfold latches, latches_at in Hl0. simplify_eq.
    assert (next_pid (kern w) = 4) as Hn4 by congruence.
    unfold start_task_d, start_thread. rewrite Hn4, Hth.
    set (th := <[current (kern w) := move t AtHlt]> (threads w)) in *.
    assert (current (kern w) = 0) as Hcur.
    { destruct (wi_body _ _ Hi _ _ Ht) as [Hpid _]. apply body_pid in Hpid. by rewrite Hb in Hpid. }
    rewrite insert_insert_ne by (rewrite Hcur; done). fold th.
    assert (∀ p u, <[4 := entered TaskD]> th !! p = Some u → p = 4 ∧ u = entered TaskD ∨ p ≠ 4 ∧ th !! p = Some u) as Hcase.
    { intros p u [[<- <-]|[? ?]]%lookup_insert_Some; auto. }
    destruct Hstay as [_ _ _ _ _ Hpid Hdom Hbody Hst Htb Hcnt Hpace HC HCd HD]. cbn in *.
    split; cbn; try done; rewrite ?Htk, ?Hc; try done.
    + rewrite Hs. apply Hi.
    + intros p. rewrite lookup_insert. case_decide as Hd.
      * subst p. split; [intros _|by eexists]. unfold pool_at. rewrite !elem_of_cons. tauto.
      * rewrite Hdom. unfold pool_at. rewrite !elem_of_cons, elem_of_nil. naive_solver.
    + intros p u [[-> ->]|[_ Hu]]%Hcase; [done|by apply Hbody].
    + intros p u [[-> ->]|[_ Hu]]%Hcase; [left; by apply HD|by eapply Hpace].
    + intros u [[? _]|[_ Hu]]%Hcase; [done|by apply HC].
    + intros _. by apply HCd.
  - exists (kern w), ph. split; [|split; [done|split; [done|]]].
    + pose proof (wi_latches _ _ Hi) as Hl0. unfold latches in Hl0. unfold task_a_poll.
      destruct ph; [|done|]; cbn in Hl0; simplify_eq;
      [replace (task_c_exited (kern w)) with false by congruence
      |replace (task_d_spawned (kern w)) with true by congruence; rewrite andb_false_r]; done.
    + unfold start_task_d, start_thread. rewrite no_fresh_thread; [done|]. rewrite (wi_pool _ _ Hi).
      pose proof (wi_latches _ _ Hi) as Hl0. unfold latches in Hl0.
      destruct ph; [|done|]; cbn in Hl0; simplify_eq;
      [replace (next_pid (kern w)) with 4 by congruence|replace (next_pid (kern w)) with 5 by congruence]; done.
Qed.

(** No step of a task panics, and each keeps the invariant; no counter goes down. *)
Lemma task_step_inv w ph :
  world_inv w ph →
  ∃ o, task_step nx trampoline code task_d_entry tables w = Ret o ∧
    ∀ w', o = Some w' → ∃ ph', world_inv w' ph' ∧ (phase_nat ph <= phase_nat ph')%nat ∧
      ticks (kern w') = ticks (kern w) ∧ ∀ b, counter w b <= counter w' b.
Proof.
  intros Hi. unfold task_step. destruct (threads w !! current (kern w)) as [t|] eqn:Ht; [|by eexists].
  pose proof (wi_body _ _ Hi _ _ Ht) as [_ Hok]. pose proof (wi_paced _ _ Hi _ _ Ht) as Hpace.
  destruct (at_point t) eqn:Hat.
  - destruct (count_ret w ph t Hi Ht Hat) as [Hcnt Hle].
    eexists. split; [done|]. intros w' [= <-]. exists ph. split_and!; [|done|done|].
    + pose proof (wi_counter _ _ Hi (body t)).
      apply (step_thread w ph t); try done; cbn.
      * unfold thread_ok, move in *. rewrite Hat in Hok. cbn. by destruct (body t).
      * intros b Hb. unfold count. by rewrite decide_False.
      * lia.
      * unfold paced, move. cbn. by destruct (body t).
      * intros Hb. pose proof (wi_body _ _ Hi _ _ Ht) as [Hp _]. apply body_pid in Hp. rewrite Hb in *.
        rewrite Hp in Ht. pose proof (wi_c _ _ Hi _ Ht) as Hu. unfold uncounted in *. rewrite Hat in Hu. cbn. lia.
    + intros b. cbn. destruct (decide (b = body t)) as [->|Hne]; [lia|]. unfold count. by rewrite decide_False.
  - destruct (poll_step_inv w ph t Hi Ht Hat) as (k' & ph' & Hk & Hph & Htk & Hi').
    rewrite Hk. cbn [mbind outcome_bind]. eexists. split; [done|]. intros w' [= <-]. exists ph'. done.
  - assert (body t = TaskE) as Hb.
    { unfold thread_ok in Hok. rewrite Hat in Hok. by destruct (body t). }
    rewrite (task_e_table w ph t Hi Ht Hb). cbn [mbind outcome_bind]. rewrite Z.eqb_refl.
    eexists. split; [done|]. intros w' [= <-]. exists ph. split_and!; [|done..].
    apply (step_thread w ph t); try done; cbn.
    + unfold thread_ok. cbn. by rewrite Hb.
    + apply Hi.
    + unfold paced in *. by rewrite Hat in Hpace.
    + by rewrite Hb.
  - by eexists.
  - destruct (exit_step_inv w ph t Hi Ht Hat) as (-> & Hi' & Htk).
    eexists. split; [done|]. intros w' [= <-]. exists Exited. split_and!; [done|cbn; lia|done|done].
Qed.

(** ** Runs *)

(** Steps of whatever task runs, and timer interrupts, in any order. *)
Inductive run : world M → world M → Prop :=
| run_0 w : run w w
| run_task w w1 w2 : run w w1 → task_step nx trampoline code task_d_entry tables w1 = Ret (Some w2) → run w w2
| run_tick w w1 rsp w2 :
    run w w1 → rsp_ok boot_stack (kern w1) rsp → ticks (kern w1) < u64_max →
    tick_step rsp w1 = Ret w2 → run w w2.

Lemma run_inv w w' ph :
  world_inv w ph → run w w' →
  ∃ ph', world_inv w' ph' ∧ (phase_nat ph <= phase_nat ph')%nat ∧ ∀ b, counter w b <= counter w' b.
Proof.
  intros Hi Hrun. induction Hrun as [w|w w1 w2 Hrun IH Hs|w w1 rsp w2 Hrun IH Hr Ht Hs].
  - by exists ph.
  - destruct (IH Hi) as (ph1 & Hi1 & Hle & Hc). destruct (task_step_inv w1 ph1 Hi1) as (o & Ho & Hw).
    rewrite Hs in Ho. injection Ho as <-. destruct (Hw w2 eq_refl) as (ph2 & Hi2 & Hle2 & _ & Hc2).
    exists ph2. split; [done|]. split; [lia|]. intros b. specialize (Hc b). specialize (Hc2 b). lia.
  - destruct (IH Hi) as (ph1 & Hi1 & Hle & Hc).
    destruct (tick_step_inv w1 ph1 rsp Hi1 Hr Ht) as (w3 & Ho & Hi3 & _ & Hcw). rewrite Hs in Ho. injection Ho as <-.
    exists ph1. split; [done|]. split; [done|]. by rewrite Hcw.
Qed.

(** What the read-backs say in each phase. *)
Lemma c_exited_read_back w ph : world_inv w ph → task_c_really_exited w = negb (bool_decide (ph = Running)).
Proof.
  intros Hi. pose proof (wi_latches _ _ Hi) as Hl. unfold latches in Hl. unfold task_c_really_exited.
  destruct (decide (ph = Running)) as [->|Hph].
  - cbn in Hl. simplify_eq. replace (task_c_exited (kern w)) with false by congruence. by rewrite orb_true_r.
  - rewrite bool_decide_false by done. rewrite (wi_c_done _ _ Hi Hph), (wi_pid _ _ Hi).
    replace (task_c_exited (kern w)) with true by (destruct ph; cbn in Hl; congruence). cbn.
    destruct (ti_pool _ _ (wi_tasks _ _ Hi)) as (rq & -> & Hw). unfold get.
    rewrite bool_decide_false; [done|]. rewrite <-(pw_live _ _ _ _ _ Hw). rewrite live_pool, (wi_pool _ _ Hi).
    assert (bool_decide (Some 2 ∈ pool_at ph) = false) as Hn by by destruct ph.
    by apply bool_decide_eq_false in Hn.
Qed.

Lemma d_reused_read_back w ph : world_inv w ph → task_reused_a_guarded_slot w = (0 <? counter w TaskD).
Proof.
  intros Hi. pose proof (wi_latches _ _ Hi) as Hl. unfold latches in Hl. unfold task_reused_a_guarded_slot.
  destruct (decide (ph = Reused)) as [->|Hph]; [|by rewrite (wi_d _ _ Hi Hph)].
  cbn in Hl. simplify_eq. replace (task_exit_slot (kern w)) with (Some 2) by congruence.
  replace (task_d_spawn_slot (kern w)) with (Some 2) by congruence. by destruct (0 <? counter w TaskD).
Qed.

(** A read-back that has succeeded succeeds ever after. *)
Lemma read_backs_stay w ph w' :
  world_inv w ph → run w w' →
  (both_tasks_made_real_progress w = true → both_tasks_made_real_progress w' = true) ∧
  (task_c_really_exited w = true → task_c_really_exited w' = true) ∧
  (task_reused_a_guarded_slot w = true → task_reused_a_guarded_slot w' = true) ∧
  (task_e_verified_own_address_space w = true → task_e_verified_own_address_space w' = true).
Proof.
  intros Hi Hrun. destruct (run_inv w w' ph Hi Hrun) as (ph' & Hi' & Hle & Hc).
  assert (∀ b, (0 <? counter w b) = true → (0 <? counter w' b) = true) as Hpos.
  { intros b Hb. specialize (Hc b). lia. }
  rewrite !(c_exited_read_back _ _ Hi), !(c_exited_read_back _ _ Hi').
  rewrite !(d_reused_read_back _ _ Hi), !(d_reused_read_back _ _ Hi').
  unfold both_tasks_made_real_progress, task_e_verified_own_address_space. split_and!; [| |by apply Hpos..].
  - intros [Ha Hb]%andb_true_iff. by rewrite !Hpos.
  - destruct ph; [done|..]; by destruct ph'; cbn in *; lia || done.
Qed.

(** ** The start *)

Lemma tasks_inv_set_ticks k t : tasks_inv boot_stack k → ticks k <= t → tasks_inv boot_stack (set_ticks k t).
Proof.
  intros [Hm (rq & Hsc & Hw) Hc Hb Hd Hh] Ht. destruct k. split; cbn in *; try done.
  exists rq. split; [done|]. by eapply pool_wf_tick.
Qed.

Lemma tasks_inv_set_memory k g :
  tasks_inv boot_stack k → mem_inv g (mapped k) → tasks_inv boot_stack (set_memory k g (mapped k)).
Proof. intros [Hm Hp Hc Hb Hd Hh] Hg. destruct k. by split. Qed.

(** The kernel when [kernel_main] calls [init], some ticks after interrupts were
    enabled. *)
Definition kernel_at (g : option (M * PhysicalAllocator)) (c : Z) (st : memory) (t : Z) : kernel M :=
  set_ticks (boot_kernel g c st) t.

(** [init] has spawned [n] tasks. *)
Definition pool_n (n : nat) : list (option Z) :=
  ((λ i, Some (Z.of_nat i)) <$> seq 0 n) ++ replicate (8 - n) None.

Record booted (t : Z) k (n : nat) : Prop := {
  bo_tasks : tasks_inv boot_stack k;
  bo_pool : pool k = pool_n n;
  bo_latches : latches k = (None, false, false, None, Z.of_nat n);
  bo_ticks : ticks k = t;
  bo_current : current k = BOOT_PID;
  bo_spaces : length (spaces k) = 8%nat;
}.

Lemma booted_spawn t k n entry sp k' o :
  booted t k n → (n < 4)%nat → words_ok trampoline entry →
  spawn_task_impl nx trampoline k entry sp = Ret (k', o) →
  o = Some (Z.of_nat n) ∧ booted t k' (S n) ∧ spaces k' = <[n := sp]> (spaces k) ∧
  mapped k' = <[n := true]> (mapped k) ∧ (n < length (mapped k))%nat ∧
  framed k' n entry ∧ ∀ j e, j ≠ n → framed k j e → framed k' j e.
Proof.
  intros [Hi Hp Hl Ht Hc Hs] Hn Hw Hsp. unfold latches in Hl. simplify_eq.
  assert (next_pid k = Z.of_nat n) as Hnp by congruence.
  assert (position (λ o, bool_decide (o = None)) (pool k) = Some n) as Hpos.
  { rewrite Hp. by do 4 (destruct n as [|n]; [done|]); lia. }
  destruct (spawn_pool k entry sp n k' o Hi Hw ltac:(unfold BOOT_PID, u64_max; lia) Hpos Hsp)
    as (-> & Hi' & Hp' & Hs' & Hm' & Hlt & Hc' & Ht' & Hl' & Hspd).
  destruct (spawn_framed _ _ _ _ _ _ Hspd) as [Hfr Hkeep].
  rewrite Hnp in *. split_and!; try done. split; [done| | |congruence|congruence|by rewrite Hs', length_insert].
  - rewrite Hp', Hp. by do 4 (destruct n as [|n]; [done|]); lia.
  - rewrite Hl'. replace (Z.of_nat (S n)) with (Z.of_nat n + 1) by lia. congruence.
Qed.

Lemma booted_space t k n g : booted t k n → mem_inv g (mapped k) → booted t (set_memory k g (mapped k)) n.
Proof.
  intros [Hi Hp Hl Ht Hc Hs] Hg. split; [by apply tasks_inv_set_memory|by destruct k..].
Qed.

(** [init] up to the call of [AddressSpace::new]. *)
Definition before_space k (task_a task_b task_c : Z) : outcome (kernel M * option Z) :=
  let k := set_default_l4 (set_scheduler k (Some RunQueue_new)) (Some (cr3 k)) in
  r ← spawn_task nx trampoline k task_a;
  r ← spawn_task nx trampoline r.1 task_b;
  spawn_task nx trampoline r.1 task_c.

Lemma init_from_space k new_space ea eb ec ee :
  init nx trampoline k new_space ea eb ec ee =
  rc ← before_space k ea eb ec;
  r ← new_space rc.1;
  match r.2 with
  | Some frame => re ← spawn_task_with_address_space nx trampoline r.1 ee frame; Ret (re.1, rc.2)
  | None => Ret (r.1, rc.2)
  end.
Proof.
  unfold init, before_space. cbv zeta. destruct (spawn_task _ _ _ ea) as [r1| |]; [|done..]. cbn [mbind outcome_bind].
  by destruct (spawn_task _ _ _ eb).
Qed.

(** The kernel [AddressSpace::new] is called in, and what [init] makes of its answer. *)
Record init_done (g : option (M * PhysicalAllocator)) (c : Z) (st : memory) (t : Z)
    (new_space : kernel M → outcome (kernel M * option Z)) (ea eb ec ee : Z) k' (cp : option Z) : Prop := {
  id_space : ∃ k3 k4 o, before_space (kernel_at g c st t) ea eb ec = Ret (k3, Some 2) ∧
    booted t k3 3 ∧ mem_inv (globals k3) (mapped k3) ∧ new_space k3 = Ret (k4, o) ∧
    spaces k' !! 3%nat = Some o ∧
    (is_Some o → booted t k' 4 ∧ framed k' 0 ea ∧ framed k' 1 eb ∧ framed k' 2 ec ∧ framed k' 3 ee);
  id_pid : cp = Some 2;
  id_mapped : mapped k' !! 2%nat = Some true;
}.

Lemma init_done_intro g c st t new_space ea eb ec ee k' cp :
  mem_inv g (replicate (Z.to_nat MAX_SLOTS) false) → 0 <= t <= u64_max → new_space_ok new_space →
  words_ok trampoline ea → words_ok trampoline eb → words_ok trampoline ec → words_ok trampoline ee →
  init nx trampoline (kernel_at g c st t) new_space ea eb ec ee = Ret (k', cp) →
  init_done g c st t new_space ea eb ec ee k' cp.
Proof.
  intros Hg Ht Hns Ha Hb Hc He Hinit. rewrite init_from_space in Hinit.
  apply outcome_bind_ret in Hinit as ([k3 o3] & Hb3 & Hinit). pose proof Hb3 as Hbefore.
  unfold before_space in Hb3. cbv zeta in Hb3.
  change (set_default_l4 _ _) with (set_ticks (init_begin (boot_kernel g c st)) t) in Hb3.
  assert (booted t (set_ticks (init_begin (boot_kernel g c st)) t) 0) as H0b.
  { split; try done. apply tasks_inv_set_ticks; [by apply tasks_inv_init|]. cbn. lia. }
  set (k0 := set_ticks (init_begin _) t) in *.
  assert (spaces k0 !! 3%nat = Some None) as S0 by done. clearbody k0.
  apply outcome_bind_ret in Hb3 as ([k1 o1] & R1 & Hb3). cbn [fst snd] in Hb3.
  destruct (booted_spawn t k0 0 _ _ _ _ H0b ltac:(lia) Ha R1) as (_ & B1 & S1 & M1 & _ & F1 & _).
  apply outcome_bind_ret in Hb3 as ([k2 o2] & R2 & R3). cbn [fst snd] in R3.
  destruct (booted_spawn t k1 1 _ _ _ _ B1 ltac:(lia) Hb R2) as (_ & B2 & S2 & M2 & _ & F2 & K2).
  destruct (booted_spawn t k2 2 _ _ _ _ B2 ltac:(lia) Hc R3) as (-> & B3 & S3 & M3 & L3 & F3 & K3).
  pose proof (ti_mem _ _ (bo_tasks _ _ _ B3)) as Hm3.
  apply outcome_bind_ret in Hinit as ([k4 o4] & R4 & Hinit). cbn [fst snd] in Hinit.
  destruct (Hns _ _ _ R4 Hm3) as (Hk4 & Hm4). cbn [fst snd] in R4, Hk4, Hm4.
  assert (∀ j e, framed k3 j e → framed k4 j e) as K4 by (rewrite Hk4; by destruct k3).
  assert (spaces k4 = spaces k3) as S4 by (rewrite Hk4; by destruct k3).
  assert (spaces k4 !! 3%nat = Some None) as S4'
    by (rewrite S4, S3, S2, S1, !list_lookup_insert_ne by done; done).
  assert (mapped k4 = mapped k3) as M4 by (rewrite Hk4; by destruct k3).
  assert (mapped k4 !! 2%nat = Some true) as M4' by (by rewrite M4, M3, list_lookup_insert_eq by done).
  destruct o4 as [f|].
  - apply outcome_bind_ret in Hinit as ([k5 o5] & R5 & [= <- <-]). cbn [fst snd] in R5.
    pose proof (booted_space t k3 3 _ B3 Hm4) as B4. rewrite <-Hk4 in B4.
    destruct (booted_spawn t k4 3 _ _ _ _ B4 ltac:(lia) He R5) as (_ & B5 & S5 & M5 & _ & F5 & K5).
    split; [|done|by rewrite M5, list_lookup_insert_ne]. exists k3, k4, (Some f).
    rewrite S5, list_lookup_insert_eq by (by eapply lookup_lt_Some).
    split; [exact Hbefore|]. do 4 (split; [assumption || reflexivity|]).
    intros _. split; [exact B5|]. split; [apply K5, K4, K3, K2, F1; lia|]. split; [apply K5, K4, K3, F2; lia|].
    split; [apply K5, K4, F3; lia|exact F5].
  - injection Hinit as <- <-. split; [|done..]. exists k3, k4, None.
    split; [exact Hbefore|]. do 4 (split; [assumption || reflexivity|]). by intros [].
Qed.

Lemma init_inv g c st t new_space ea eb ec ee w :
  mem_inv g (replicate (Z.to_nat MAX_SLOTS) false) → 0 <= t <= u64_max → new_space_ok new_space →
  entry_ok trampoline code TaskA ea → entry_ok trampoline code TaskB eb →
  entry_ok trampoline code TaskC ec → entry_ok trampoline code TaskE ee →
  init_world nx trampoline code (kernel_at g c st t) new_space ea eb ec ee = Ret w →
  spaces (kern w) !! 3%nat = Some (Some space) →
  world_inv w Running.
Proof.
  intros Hg Ht Hns [Ha Ca] [Hb Cb] [Hc Cc] [He Ce] Hrun Hbound.
  unfold init_world in Hrun. apply outcome_bind_ret in Hrun as ([k' cp] & Hinit & [= <-]). cbn [fst snd] in *.
  destruct (init_done_intro _ _ _ _ _ _ _ _ _ _ _ Hg Ht Hns Ha Hb Hc He Hinit)
    as [(k3 & k4 & o & _ & _ & _ & _ & Ho & B5) -> M5]. cbn in Hbound.
  destruct (B5 ltac:(rewrite Hbound in Ho; injection Ho as <-; by eexists))
    as ([Hi5 Hp5 Hl5 Ht5 Hc5 _] & F0 & F1 & F2 & F3).
  match goal with |- world_inv (mkWorld _ _ _ ?th) _ => assert (th =
    <[0 := entered TaskA]> (<[1 := entered TaskB]> (<[2 := entered TaskC]> (<[3 := entered TaskE]> ∅)))) as -> end.
  { unfold latches in Hl5. change (Z.of_nat 4) with 4 in Hl5. replace (next_pid k') with 4 by congruence.
    change (next_pid (kernel_at g c st t)) with 0. change (seqZ 0 (4 - 0)) with [0; 1; 2; 3]. cbn [foldr].
    unfold start_thread.
    assert (∀ i j, pool k' !! i = Some (Some (Z.of_nat j)) → i = j) as Hinj.
    { intros i j. rewrite Hp5. intros Hj. do 4 (destruct i as [|i]; [injection Hj; lia|]).
      do 4 (destruct i as [|i]; [done|]). done. }
    assert (∀ i e b, framed k' i e → code e = Some b → pool k' !! i = Some (Some (Z.of_nat i)) →
              fresh_thread code k' (Z.of_nat i) = Some (entered b)) as Hth.
    { intros i e b Hf Hcode Hp. apply (framed_thread k' i _ e); [exact Hp| |exact Hf|exact Hcode].
      intros j Hj. by apply Hinj. }
    rewrite Hp5 in Hth.
    assert (fresh_thread code k' 0 = Some (entered TaskA)) as -> by exact (Hth 0%nat ea TaskA F0 Ca eq_refl).
    assert (fresh_thread code k' 1 = Some (entered TaskB)) as -> by exact (Hth 1%nat eb TaskB F1 Cb eq_refl).
    assert (fresh_thread code k' 2 = Some (entered TaskC)) as -> by exact (Hth 2%nat ec TaskC F2 Cc eq_refl).
    by assert (fresh_thread code k' 3 = Some (entered TaskE)) as -> by exact (Hth 3%nat ee TaskE F3 Ce eq_refl). }
  assert (∀ p u, <[0 := entered TaskA]> (<[1 := entered TaskB]> (<[2 := entered TaskC]> (<[3 := entered TaskE]> (∅ : gmap Z thread))))
            !! p = Some u → body_of p = Some (body u) ∧ u = entered (body u)) as Hcase.
  { intros p u. rewrite !lookup_insert. repeat case_decide; intros [= <-]; by subst. }
  split; cbn; try done; rewrite ?Ht5; try lia.
  - intros p. rewrite !lookup_insert. unfold pool_at. rewrite !elem_of_cons, elem_of_nil.
    repeat case_decide; subst; rewrite ?lookup_empty; naive_solver.
  - intros p u Hu. destruct (Hcase p u Hu) as [? ->]. split; [done|]. by destruct (body u).
  - intros p u Hu. destruct (Hcase p u Hu) as [_ ->]. unfold paced. cbn. by destruct (body u); left.
  - intros u Hu. destruct (Hcase 2 u Hu) as [Hb2 ->]. injection Hb2 as <-. done.
Qed.
End demo_inv.

(** ** A driver

    One run: the running task goes on to its next [hlt], then a timer interrupt comes. *)
Section driver.
Context `{Profile} {M : Type} `{Mapper M} (nx : bool) (trampoline : Z)
  (code : Z → option task_body) (task_d_entry : Z) (tables : words).

(** A stack pointer of what is running. *)
Definition running_rsp (k : kernel M) (boot_rsp : Z) : Z :=
  match position (has_pid (current k)) (task_slots k) with
  | Some i => stack_base i + STACK_SIZE - 64
  | None => boot_rsp
  end.

Fixpoint drive (fuel : nat) (boot_rsp : Z) (w : world M) : world M :=
  match fuel with
  | O => w
  | S n =>
      match task_step nx trampoline code task_d_entry tables w with
      | Ret (Some w') => drive n boot_rsp w'
      | Ret None =>
          if ticks (kern w) <? u64_max then
            match tick_step (running_rsp (kern w) boot_rsp) w with
            | Ret w' => drive n boot_rsp w'
            | _ => w
            end
          else w
      | _ => w
      end
  end.
End driver.

Section driver_lemmas.
Context `{Profile} {M : Type} `{MapperLaws M} (nx : bool) (trampoline : Z)
  (code : Z → option task_body) (task_d_entry : Z) (tables : words).
Context (boot_stack : Z → Prop) (space : Z).
Context (Hwords : entry_ok trampoline code TaskD task_d_entry).
Context (Hspace : ∃ a, translate tables space PRIVATE_REGION_ADDR = Some a ∧ load tables a = PRIVATE_VALUE).

Lemma running_rsp_ok (w : world M) ph boot_rsp :
  world_inv boot_stack space w ph → boot_stack boot_rsp → rsp_ok boot_stack (kern w) (running_rsp (kern w) boot_rsp).
Proof.
  intros Hi Hb. destruct (ti_pool _ _ (wi_tasks _ _ _ _ Hi)) as (rq & _ & Hw).
  unfold running_rsp. split.
  - intros Hc. pose proof (position_slot (task_slots (kern w)) (current (kern w))) as Hp.
    destruct (position _ _) as [i|]; [|done]. destruct Hp as [s Hs].
    by destruct (slot_not_boot _ _ _ _ _ _ _ _ Hw Hs).
  - intros i s Hs. rewrite (position_slot_of _ _ i s) by (done || apply Hw).
    unfold in_stack. unfold STACK_SIZE. lia.
Qed.

Lemma drive_run fuel boot_rsp (w : world M) ph :
  world_inv boot_stack space w ph → boot_stack boot_rsp →
  run nx trampoline code task_d_entry tables boot_stack w (drive nx trampoline code task_d_entry tables fuel boot_rsp w).
Proof.
  intros Hi Hb.
  enough (∀ w0, run nx trampoline code task_d_entry tables boot_stack w w0 →
            run nx trampoline code task_d_entry tables boot_stack w (drive nx trampoline code task_d_entry tables fuel boot_rsp w0))
    as Hx by (apply Hx, run_0).
  induction fuel as [|n IH]; intros w0 Hrun; [done|]. cbn [drive].
  destruct (task_step nx trampoline code task_d_entry tables w0) as [[w1|]| |] eqn:Hs; try done.
  - apply IH. by eapply run_task.
  - destruct (Z.ltb_spec (ticks (kern w0)) u64_max); [|done].
    destruct (tick_step _ w0) as [w1| |] eqn:Ht; try done. apply IH.
    destruct (run_inv nx trampoline code task_d_entry tables boot_stack space Hwords Hspace w w0 ph Hi Hrun)
      as (ph0 & Hi0 & _). eapply run_tick; [done| |done|done]. by eapply running_rsp_ok.
Qed.
End driver_lemmas.

(** ** Properties *)

Section properties.
Context `{Profile} {M : Type} `{MapperLaws M} (nx : bool) (trampoline : Z)
  (code : Z → option task_body) (task_d_entry : Z) (tables : words).
Context (boot_stack : Z → Prop) (space : Z).
(** A kernel that [init] set up, with a private address space for [task_e]. *)
Context (g : option (M * PhysicalAllocator)) (c : Z) (st : memory) (t : Z)
  (new_space : kernel M → outcome (kernel M * option Z)) (ea eb ec ee : Z) (w0 : world M).
Context
  (Hg : mem_inv g (replicate (Z.to_nat MAX_SLOTS) false)) (Ht : 0 <= t <= u64_max)
  (Hns : new_space_ok new_space)
  (Hspace : ∃ a, translate tables space PRIVATE_REGION_ADDR = Some a ∧ load tables a = PRIVATE_VALUE)
  (Hentries : entries_ok trampoline code [ea; eb; ec; task_d_entry; ee])
  (Hinit : init_world nx trampoline code (kernel_at g c st t) new_space ea eb ec ee = Ret w0)
  (Hbound : spaces (kern w0) !! 3%nat = Some (Some space)).

Lemma reached_inv w :
  run nx trampoline code task_d_entry tables boot_stack w0 w →
  ∃ ph, entry_ok trampoline code TaskD task_d_entry ∧ world_inv boot_stack space w ph.
Proof.
  intros Hrun. destruct (entries_ok_inv _ _ _ _ _ _ _ Hentries) as (Ha & Hb & Hc & Hd & He).
  pose proof (init_inv nx trampoline code tables boot_stack space Hspace g c st t new_space ea eb ec ee w0
                Hg Ht Hns Ha Hb Hc He Hinit Hbound) as Hi0.
  destruct (run_inv nx trampoline code task_d_entry tables boot_stack space Hd Hspace w0 w _ Hi0 Hrun) as (ph & Hi & _).
  by exists ph.
Qed.

(** [C20] The demo tasks under every interleaving with the timer, from [init] on, the
    code of each at the entry address that is spawned for it.  No
    step of a task panics and no tick does; no counter ever wraps, each is at most the
    number of ticks; [task_e] only ever reads its private value, through the tables the
    scheduler loaded for it.  The read-backs of the self-test mean what they say: the
    exit latch is set, and [task_c] counts as exited, exactly when its pid, which [init]
    recorded, has left the pool and the run queue; then it has counted five iterations
    and has no thread to resume; and once [task_d] has run it did so in the slot that
    [task_c] left. *)
Theorem demo_tasks_safe w
    (Hrun : run nx trampoline code task_d_entry tables boot_stack w0 w) :
  (∃ o, task_step nx trampoline code task_d_entry tables w = Ret o) ∧
  (∀ rsp, rsp_ok boot_stack (kern w) rsp → ticks (kern w) < u64_max → ∃ w', tick_step rsp w = Ret w') ∧
  (∀ b, 0 <= counter w b <= ticks (kern w)) ∧
  (∀ th, threads w !! current (kern w) = Some th → body th = TaskE →
     read_private tables (kern w) = Ret PRIVATE_VALUE) ∧
  (∃ p rq, task_c_pid w = Some p ∧ scheduler (kern w) = Some rq ∧
     (task_c_exited (kern w) = true ↔ ¬ live (task_slots (kern w)) p) ∧
     (task_c_really_exited w = true ↔ ¬ live (task_slots (kern w)) p) ∧
     (live (task_slots (kern w)) p ↔ is_Some (processes rq !! p)) ∧
     (¬ live (task_slots (kern w)) p → counter w TaskC = 5 ∧ threads w !! p = None)) ∧
  (0 < counter w TaskD → task_reused_a_guarded_slot w = true ∧
     (task_exit_slot (kern w), task_d_spawn_slot (kern w)) = (Some 2, Some 2)).
Proof.
  destruct (reached_inv w Hrun) as (ph & Hd & Hi).
  pose proof (wi_latches _ _ _ _ Hi) as Hl. unfold latches in Hl.
  assert (live (task_slots (kern w)) 2 ↔ ph = Running) as Hlive.
  { rewrite live_pool, (wi_pool _ _ _ _ Hi). unfold pool_at. rewrite !elem_of_cons, elem_of_nil.
    destruct ph; naive_solver. }
  split_and!.
  - destruct (task_step_inv nx trampoline code task_d_entry tables boot_stack space Hd Hspace w ph Hi) as (o & Ho & _).
    by exists o.
  - intros rsp Hr Hk. destruct (tick_step_inv boot_stack space w ph rsp Hi Hr Hk) as (w' & Hw & _). by exists w'.
  - apply Hi.
  - intros th Hth Hbody. by eapply task_e_table.
  - destruct (ti_pool _ _ (wi_tasks _ _ _ _ Hi)) as (rq & Hrq & Hw). exists 2, rq.
    split; [apply Hi|]. split; [done|]. split; [|split; [|split]].
    + rewrite Hlive. assert (task_c_exited (kern w) = (latches_at ph).1.1.1.2) as -> by by rewrite <-Hl.
      destruct ph; cbn; naive_solver.
    + rewrite (c_exited_read_back boot_stack space w ph Hi), Hlive. destruct ph; cbn; naive_solver.
    + apply Hw.
    + rewrite Hlive. intros Hph. split; [by apply (wi_c_done _ _ _ _ Hi)|]. apply eq_None_not_Some.
      rewrite (wi_threads _ _ _ _ Hi), <-(wi_pool _ _ _ _ Hi), <-live_pool. by rewrite Hlive.
  - intros Hcnt. rewrite (d_reused_read_back boot_stack space w ph Hi).
    destruct (decide (ph = Reused)) as [->|Hph]; [|rewrite (wi_d _ _ _ _ Hi Hph) in Hcnt; lia].
    split; [by apply Z.ltb_lt|]. cbn in Hl. congruence.
Qed.

(** The last check of the boot is implied by the earlier ones.  Once the four
    scheduler read-backs have succeeded, they succeed in every later state, whatever
    the tasks and the timer do in between: nothing but a change of the kernel's state
    from outside its own steps can fail [bsp_state_intact]. *)
Theorem bsp_state_stays_intact w w'
    (Hrun : run nx trampoline code task_d_entry tables boot_stack w0 w)
    (Hrun' : run nx trampoline code task_d_entry tables boot_stack w w')
    (Hok : both_tasks_made_real_progress w && task_c_really_exited w &&
           task_reused_a_guarded_slot w && task_e_verified_own_address_space w = true) :
  bsp_state_intact w' = true.
Proof.
  destruct (reached_inv w Hrun) as (ph & Hd & Hi).
  destruct (read_backs_stay nx trampoline code task_d_entry tables boot_stack space Hd Hspace w ph w' Hi Hrun')
    as (H1' & H2' & H3' & H4').
  rewrite !andb_true_iff in Hok. destruct Hok as [[[? ?] ?] ?]. unfold bsp_state_intact.
  by rewrite H1', H2', H3', H4'.
Qed.

(** [C26] What each pid runs, in every reachable state.  Threads are created from the
    entry address in the frame their spawn made, never from their pid; with the five
    bodies at five addresses, pid 0 runs [task_a], 1 [task_b], 2 [task_c], 3 [task_e] and
    4 [task_d], each is at a statement of its body with its loop count in range, and
    exactly the pids in the pool have a thread. *)
Theorem demo_threads_typed w
    (Hrun : run nx trampoline code task_d_entry tables boot_stack w0 w) :
  (∀ p th, threads w !! p = Some th → body_of p = Some (body th) ∧ thread_ok th = true) ∧
  (∀ p, is_Some (threads w !! p) ↔ live (task_slots (kern w)) p).
Proof.
  destruct (reached_inv w Hrun) as (ph & Hd & Hi).
  split; [apply Hi|]. intros p. rewrite live_pool, (wi_pool _ _ _ _ Hi). apply Hi.
Qed.
End properties.

(** ** A run on concrete tables *)

(** The private address space of [task_e]: the memory, and its table. *)
Definition demo_space : words * Z :=
  match @AddressSpace_new true chain_mapper true demo_machine with
  | Ret (st, Some s) => (AddressSpace.mem st, l4_frame s)
  | _ => (∅, 0)
  end.

(** An arena of 256 pages. *)
Definition demo_frames : PhysicalAllocator :=
  mkPhys 0x100000 256 (replicate 8 [] ++ [[0x100000]] ++ replicate 12 []) ∅.

Lemma demo_frames_wf : phys_wf demo_frames.
Proof.
  destruct (@PhysicalAllocator_new_ret true 0x100000 256) as (s & Hs & Hwf & _); [done..|].
  assert (@PhysicalAllocator_new true 0x100000 256 = Ret demo_frames) as Hd by (vm_compute; reflexivity).
  rewrite Hd in Hs. by injection Hs as ->.
Qed.

Definition demo_memory : option (radix * PhysicalAllocator) := Some (mkRadix ∅ ∅, demo_frames).

Lemma demo_memory_ok : mem_inv demo_memory (replicate (Z.to_nat MAX_SLOTS) false).
Proof.
  split; [done|]. exists (mkRadix ∅ ∅), demo_frames. split; [done|]. split; [exact demo_frames_wf|].
  split; [|done]. intros i j Hi. by apply lookup_replicate in Hi as [? _].
Qed.

Definition demo_new_space (f : Z) (k : kernel radix) : outcome (kernel radix * option Z) := Ret (k, Some f).

(** The five bodies, 256 bytes apart. *)
Definition demo_code (a : Z) : option task_body :=
  if a =? 0x5000 then Some TaskA else if a =? 0x5100 then Some TaskB else if a =? 0x5200 then Some TaskC
  else if a =? 0x5300 then Some TaskD else if a =? 0x5400 then Some TaskE else None.

Abbreviation demo_init :=
  (@init_world true radix radix_mapper true 0x7000 demo_code (kernel_at demo_memory 0x5000 (λ _, 0) 3)
     (demo_new_space demo_space.2) 0x5000 0x5100 0x5200 0x5400).

Definition demo_world : world radix :=
  match demo_init with
  | Ret w => w
  | _ => mkWorld demo_kernel (λ _, 0) None ∅
  end.

(** Some two dozen ticks later. *)
Definition demo_end : world radix := @drive true radix radix_mapper true 0x7000 demo_code 0x5300 demo_space.1 120 0x9000 demo_world.

Lemma demo_init_ret : demo_init = Ret demo_world.
Proof.
  unfold demo_world. assert (match demo_init with Ret _ => true | _ => false end = true) as Hr by (vm_compute; reflexivity).
  by destruct demo_init.
Qed.

Lemma demo_space_ok :
  ∃ a, translate demo_space.1 demo_space.2 PRIVATE_REGION_ADDR = Some a ∧ load demo_space.1 a = PRIVATE_VALUE.
Proof.
  assert (match translate demo_space.1 demo_space.2 PRIVATE_REGION_ADDR with
          | Some a => load demo_space.1 a =? PRIVATE_VALUE
          | None => false
          end = true) as Hr by (vm_compute; reflexivity).
  destruct (translate _ _ _) as [a|]; [|discriminate Hr]. exists a. split; [done|by apply Z.eqb_eq].
Qed.

Lemma demo_new_space_ok f : @new_space_ok radix radix_mapper (demo_new_space f).
Proof. intros k k' o [= <- <-] Hm. split; [by destruct k|done]. Qed.

Lemma demo_bound : spaces (kern demo_world) !! 3%nat = Some (Some demo_space.2).
Proof. vm_compute. reflexivity. Qed.

Lemma demo_words_ok : entries_ok 0x7000 demo_code [0x5000; 0x5100; 0x5200; 0x5300; 0x5400].
Proof. repeat constructor; try discriminate. Qed.

Lemma demo_d_ok : entry_ok 0x7000 demo_code TaskD 0x5300.
Proof. apply (entries_ok_inv _ _ _ _ _ _ _ demo_words_ok). Qed.

Lemma demo_ticks_ok : 0 <= 3 <= u64_max.
Proof. split; discriminate. Qed.

Lemma demo_world_inv : world_inv demo_stack demo_space.2 demo_world Running.
Proof.
  destruct (entries_ok_inv _ _ _ _ _ _ _ demo_words_ok) as (Ha & Hb & Hc & Hd & He).
  exact (init_inv true 0x7000 demo_code demo_space.1 demo_stack demo_space.2 demo_space_ok demo_memory 0x5000 (λ _, 0) 3
    (demo_new_space demo_space.2) 0x5000 0x5100 0x5200 0x5400 demo_world demo_memory_ok demo_ticks_ok (demo_new_space_ok _)
    Ha Hb Hc He demo_init_ret demo_bound).
Qed.

(** The driver's states are reachable. *)
Lemma demo_drive_run fuel :
  @run true radix radix_mapper true 0x7000 demo_code 0x5300 demo_space.1 demo_stack demo_world
    (@drive true radix radix_mapper true 0x7000 demo_code 0x5300 demo_space.1 fuel 0x9000 demo_world).
Proof.
  apply (drive_run true 0x7000 demo_code 0x5300 demo_space.1 demo_stack demo_space.2) with (ph := Running).
  - exact demo_d_ok.
  - exact demo_space_ok.
  - exact demo_world_inv.
  - done.
Qed.

Lemma demo_end_inv : ∃ ph, world_inv demo_stack demo_space.2 demo_end ph.
Proof.
  destruct (run_inv true 0x7000 demo_code 0x5300 demo_space.1 demo_stack demo_space.2 demo_d_ok demo_space_ok demo_world demo_end
    Running demo_world_inv (demo_drive_run 120)) as (ph & Hi & _). by exists ph.
Qed.

Lemma demo_tasks_safe_witness :
  counter demo_end TaskC = 5 ∧
  (task_exit_slot (kern demo_end), task_d_spawn_slot (kern demo_end)) = (Some 2, Some 2).
Proof.
  destruct (@demo_tasks_safe true radix radix_mapper radix_laws true 0x7000 demo_code 0x5300 demo_space.1 demo_stack
    demo_space.2 demo_memory 0x5000 (λ _, 0) 3 (demo_new_space demo_space.2) 0x5000 0x5100 0x5200 0x5400 demo_world
    demo_memory_ok demo_ticks_ok (demo_new_space_ok _) demo_space_ok demo_words_ok demo_init_ret demo_bound demo_end
    (demo_drive_run 120)) as (_ & _ & _ & _ & (p & rq & Hp & _ & Hex & _ & _ & Hc) & Hd).
  split; [apply Hc, Hex; vm_compute; reflexivity|].
  apply Hd. vm_compute. reflexivity.
Defined.

Lemma bsp_state_stays_intact_witness :
  let later := @drive true radix radix_mapper true 0x7000 demo_code 0x5300 demo_space.1 20 0x9000 demo_end in
  bsp_state_intact later = true.
Proof.
  intros later.
  apply (@bsp_state_stays_intact true radix radix_mapper radix_laws true 0x7000 demo_code 0x5300 demo_space.1 demo_stack
    demo_space.2 demo_memory 0x5000 (λ _, 0) 3 (demo_new_space demo_space.2) 0x5000 0x5100 0x5200 0x5400 demo_world
    demo_memory_ok demo_ticks_ok (demo_new_space_ok _) demo_space_ok demo_words_ok demo_init_ret demo_bound demo_end later
    (demo_drive_run 120)).
  - destruct demo_end_inv as [ph Hi].
    apply (drive_run true 0x7000 demo_code 0x5300 demo_space.1 demo_stack demo_space.2) with (ph := ph); [exact demo_d_ok|exact demo_space_ok|exact Hi|done].
  - vm_compute. reflexivity.
Defined.

Lemma demo_threads_typed_witness :
  (∃ th, threads demo_end !! 4 = Some th ∧ body th = TaskD ∧ thread_ok th = true) ∧
  live (task_slots (kern demo_end)) 4.
Proof.
  destruct (@demo_threads_typed true radix radix_mapper radix_laws true 0x7000 demo_code 0x5300 demo_space.1 demo_stack
    demo_space.2 demo_memory 0x5000 (λ _, 0) 3 (demo_new_space demo_space.2) 0x5000 0x5100 0x5200 0x5400 demo_world
    demo_memory_ok demo_ticks_ok (demo_new_space_ok _) demo_space_ok demo_words_ok demo_init_ret demo_bound demo_end
    (demo_drive_run 120)) as [Hth Hlive].
  assert (bool_decide (is_Some (threads demo_end !! 4)) = true) as Hb by (vm_compute; reflexivity).
  apply bool_decide_eq_true_1 in Hb. split; [|exact (proj1 (Hlive 4) Hb)].
  destruct Hb as [th Ht]. exists th. destruct (Hth 4 th Ht) as [Hbody Hok].
  split; [exact Ht|]. split; [injection Hbody as <-; reflexivity|exact Hok].
Defined.
