(* ===== verification/PagingGlobals.v ===== *)
(** * The locked globals of the paging module

    Model of the statics of [src/kernel-x86_64/src/paging.rs] behind their spin locks and
    of the functions that take them, with closures that may be interrupted: by a page
    fault, whose handler takes the same locks, and by the timer, which runs the demo
    tasks while the boot flow is inside a closure. *)
From S2P Require Import Prelude Buddy Scheduler Paging AddressSpace Context Tasks DemoTasks.

(** ** The statics *)

(** A [spin::Mutex<Option<A>>]: the contents, or [Locked] while a guard holds them. *)
Inductive cell (A : Type) := Free (contents : option A) | Locked.
Arguments Free {A}. Arguments Locked {A}.

Record statics (M : Type) := mkStatics {
  MAPPER : cell M;
  PHYS : cell PhysicalAllocator;
  PHYS_MEM_OFFSET : cell Z;
}.
Arguments mkStatics {M}. Arguments MAPPER {M}. Arguments PHYS {M}. Arguments PHYS_MEM_OFFSET {M}.

(** Taking a lock: [spins] tries, during which nothing else runs on this core. *)
Fixpoint lock {A} (spins : nat) (c : cell A) : outcome (option A) :=
  match spins with
  | O => Diverge
  | S n =>
      match c with
      | Free contents => Ret contents
      | Locked => lock n c
      end
  end.

Section globals.
Context `{Profile} {M : Type} `{Mapper M} (spins : nat).
(** [OffsetPageTable::new], for a top-level table and the offset. *)
Context (offset_page_table : Z → Z → M).
Implicit Type st : statics M.

Definition set_MAPPER st (c : cell M) : statics M := mkStatics c st.(PHYS) st.(PHYS_MEM_OFFSET).
Definition set_PHYS st (c : cell PhysicalAllocator) : statics M :=
  mkStatics st.(MAPPER) c st.(PHYS_MEM_OFFSET).
Definition set_PHYS_MEM_OFFSET st (c : cell Z) : statics M := mkStatics st.(MAPPER) st.(PHYS) c.

(** As the statics are initialized. *)
Definition statics_start : statics M := mkStatics (Free None) (Free None) (Free None).

Definition phys_mem_offset st : outcome (option Z) := lock spins st.(PHYS_MEM_OFFSET).

(** [machine] has the [CR3] register. *)
Definition init_mapper (hw : machine) st (physical_memory_offset : Z) : outcome (statics M * M) :=
  _ ← lock spins st.(PHYS_MEM_OFFSET);
  let st := set_PHYS_MEM_OFFSET st (Free (Some physical_memory_offset)) in
  level_4_table ← active_level_4_table hw physical_memory_offset;
  Ret (st, offset_page_table level_4_table physical_memory_offset).

Definition store_globals st (mapper : M) (region_start total_pages : Z) : outcome (statics M) :=
  phys ← PhysicalAllocator_new region_start total_pages;
  _ ← lock spins st.(MAPPER);
  let st := set_MAPPER st (Free (Some mapper)) in
  _ ← lock spins st.(PHYS);
  Ret (set_PHYS st (Free (Some phys))).

(** The closure gets the contents, and the statics as whoever interrupts it finds
    them. *)
Definition with_phys {R} (f : PhysicalAllocator → statics M → outcome (PhysicalAllocator * statics M * R))
    st : outcome (statics M * option R) :=
  phys ← lock spins st.(PHYS);
  match phys with
  | None => Ret (st, None)
  | Some phys =>
      '(phys, st, r) ← f phys (set_PHYS st Locked);
      Ret (set_PHYS st (Free (Some phys)), Some r)
  end.

Definition with_mapper_and_phys {R}
    (f : M → PhysicalAllocator → statics M → outcome (M * PhysicalAllocator * statics M * R))
    st : outcome (statics M * option R) :=
  mapper_guard ← lock spins st.(MAPPER);
  let st' := set_MAPPER st Locked in
  phys_guard ← lock spins st'.(PHYS);
  let st' := set_PHYS st' Locked in
  match mapper_guard, phys_guard with
  | Some m, Some p =>
      '(m, p, st', r) ← f m p st';
      Ret (set_PHYS (set_MAPPER st' (Free (Some m))) (Free (Some p)), Some r)
  | _, _ => Ret (st, None)
  end.

(** A closure that uses nothing but the contents. *)
Definition only_contents {R} (f : M → PhysicalAllocator → outcome (M * PhysicalAllocator * R)) :
    M → PhysicalAllocator → statics M → outcome (M * PhysicalAllocator * statics M * R) := λ m p st,
  '(m, p, r) ← f m p; Ret (m, p, st, r).

(** [interrupts::page_fault_handler], through the globals. *)
Definition handle_page_fault (nx : bool) st (counter faulting_addr : Z) : outcome (statics M * Z) :=
  if (DEMAND_PAGE_REGION_START <=? faulting_addr) && (faulting_addr <? DEMAND_PAGE_REGION_END)
  then
    page_vaddr ← virt_addr (Z.land faulting_addr (Z.lnot 0xFFF));
    '(st, mapped) ← with_mapper_and_phys
      (only_contents (λ m p, '(m, p, r) ← map_page m p page_vaddr (data_flags nx);
                             Ret (m, p, is_ok (r : result Z MemoryError)))) st;
    if default false mapped then Ret (st, (counter + 1) mod 2 ^ 64) else Panic
  else Panic.

(** The loops of [allocator::extend_with_real_pages] and [task_stack::ensure_slot_mapped],
    one call and two [expect]s a page. *)
Fixpoint map_pages_through (start flags : Z) (pages : list Z) st : outcome (statics M) :=
  match pages with
  | [] => Ret st
  | i :: pages' =>
      off ← u64_mul i PAGE_SIZE;
      addr ← u64_add start off;
      vaddr ← virt_addr addr;
      '(st, r) ← with_mapper_and_phys (only_contents (λ m p, map_page m p vaddr flags)) st;
      match r with
      | None => Panic
      | Some r => _ ← expect r; map_pages_through start flags pages' st
      end
  end.
End globals.

(** ** The boot flow amid ticks and tasks

    The boot flow is outside every closure, or inside one with the contents in its hands;
    the kernel that all others see has then no globals. *)
Section machine.
Context `{Profile} {M : Type} `{MapperLaws M} (nx : bool) (trampoline : Z)
  (code : Z → option task_body) (task_d_entry : Z) (tables : words).
Context (boot_stack : Z → Prop).

Inductive flow := Outside (w : world M) | Inside (w : world M) (m : M) (phys : PhysicalAllocator).

Definition world_of (s : flow) : world M := match s with Outside w | Inside w _ _ => w end.

Definition with_globals (k : kernel M) (g : option (M * PhysicalAllocator)) : kernel M :=
  set_memory k g (mapped k).

Definition with_world (s : flow) (w : world M) : flow :=
  match s with Outside _ => Outside w | Inside _ m p => Inside w m p end.

Definition put_globals (w : world M) (g : option (M * PhysicalAllocator)) : world M :=
  mkWorld (with_globals (kern w) g) (counter w) (task_c_pid w) (threads w).

(** What a call finds. *)
Definition cells (s : flow) (offset : Z) : statics M :=
  match s with
  | Outside w =>
      mkStatics (Free (fst <$> globals (kern w))) (Free (snd <$> globals (kern w))) (Free (Some offset))
  | Inside _ _ _ => mkStatics Locked Locked (Free (Some offset))
  end.

(** The boot flow runs when it is current: it enters a closure, works in it on what it
    holds, keeping the stacks mapped and their guards unmapped, and leaves.  A task's step
    and a tick can come at any time. *)
Inductive flow_step : flow → flow → Prop :=
| flow_enter w m p :
    current (kern w) = BOOT_PID → globals (kern w) = Some (m, p) →
    flow_step (Outside w) (Inside (put_globals w None) m p)
| flow_work w m p m' p' :
    current (kern w) = BOOT_PID → mem_inv (Some (m', p')) (mapped (kern w)) →
    flow_step (Inside w m p) (Inside w m' p')
| flow_leave w m p :
    current (kern w) = BOOT_PID → flow_step (Inside w m p) (Outside (put_globals w (Some (m, p))))
| flow_task s w' :
    task_step nx trampoline code task_d_entry tables (world_of s) = Ret (Some w') → flow_step s (with_world s w')
| flow_tick s rsp w' :
    rsp_ok boot_stack (kern (world_of s)) rsp → ticks (kern (world_of s)) < u64_max →
    tick_step rsp (world_of s) = Ret w' → flow_step s (with_world s w').

Inductive flow_run (s : flow) : flow → Prop :=
| flow_0 : flow_run s s
| flow_S s1 s2 : flow_run s s1 → flow_step s1 s2 → flow_run s s2.
End machine.

(** ** Lemmas on the calls *)

Section call_lemmas.
Context `{Profile} {M : Type} `{Mapper M}.

Definition filled (m : M) (phys : PhysicalAllocator) (offset : cell Z) : statics M :=
  mkStatics (Free (Some m)) (Free (Some phys)) offset.

Lemma lock_locked {A} spins : lock spins (@Locked A) = Diverge.
Proof. by induction spins. Qed.

Lemma with_both_filled {R} spins (f : M → PhysicalAllocator → outcome (M * PhysicalAllocator * R)) m p o :
  with_mapper_and_phys (S spins) (only_contents f) (filled m p o) =
  '(m, p, r) ← f m p; Ret (filled m p o, Some r).
Proof.
  unfold with_mapper_and_phys, only_contents. cbn. by destruct (f m p) as [[[m' p'] r]| |].
Qed.

Lemma with_both_locked {R} spins
    (f : M → PhysicalAllocator → statics M → outcome (M * PhysicalAllocator * statics M * R)) st :
  MAPPER st = Locked ∨ PHYS st = Locked → with_mapper_and_phys spins f st = Diverge.
Proof.
  unfold with_mapper_and_phys. intros [Hm|Hp].
  - by rewrite Hm, lock_locked.
  - destruct (MAPPER st) as [g|]; [|by rewrite lock_locked]. destruct spins as [|n]; [done|].
    cbn [lock mbind outcome_bind set_MAPPER PHYS]. by rewrite Hp, lock_locked.
Qed.

(** The locks are what a closure leaves, with the cells released. *)
Lemma page_fault_filled spins nx m p o counter addr :
  handle_page_fault (S spins) nx (filled m p o) counter addr =
  '(m, p, c) ← page_fault_handler nx m p counter addr; Ret (filled m p o, c).
Proof.
  unfold handle_page_fault, page_fault_handler. destruct (_ && _); [|done].
  destruct (virt_addr _) as [v| |]; cbn [mbind outcome_bind]; [|done..].
  rewrite with_both_filled. by destruct (map_page m p v _) as [[[m' p'] [f|e]]| |].
Qed.

Lemma map_pages_filled spins start flags pages m p o :
  map_pages_through (S spins) start flags pages (filled m p o) =
  '(m, p) ← map_range adapter_allocate_frame start flags pages (m, p); Ret (filled m p o).
Proof.
  revert m p. induction pages as [|i pages IH]; intros m p; [done|]. cbn [map_pages_through map_range].
  destruct (u64_mul _ _) as [off| |]; cbn [mbind outcome_bind]; [|done..].
  destruct (u64_add _ _) as [a| |]; cbn [mbind outcome_bind]; [|done..].
  destruct (virt_addr _) as [v| |]; cbn [mbind outcome_bind]; [|done..].
  rewrite with_both_filled. unfold map_page. cbn [fst snd].
  destruct (map_page_with _ m p v flags) as [[[m' p'] r]| |]; cbn [mbind outcome_bind]; [|done..].
  destruct (expect r) as [f| |]; cbn [mbind outcome_bind]; [|done..]. apply IH.
Qed.
End call_lemmas.

(** ** Nobody else uses the contents *)

Lemma position_ext {A} (f g : A → bool) l : (∀ x, f x = g x) → position f l = position g l.
Proof. intros Hfg. induction l as [|x l IH]; [done|]. cbn. by rewrite Hfg, IH. Qed.

Section frames.
Context `{Profile} {M : Type} `{MapperLaws M} (nx : bool) (trampoline : Z)
  (code : Z → option task_body) (task_d_entry : Z) (tables : words).
Context (boot_stack : Z → Prop) (space : Z).
Context (Hwords : entry_ok trampoline code TaskD task_d_entry).
Context (Hspace : ∃ a, translate tables space PRIVATE_REGION_ADDR = Some a ∧ load tables a = PRIVATE_VALUE).
Implicit Types (w : world M) (k : kernel M) (g : option (M * PhysicalAllocator)).

Lemma tick_frame_globals k g rsp k' o :
  on_timer_tick k rsp = Ret (k', o) →
  on_timer_tick (with_globals k g) rsp = Ret (with_globals k' g, o) ∧ globals k' = globals k.
Proof.
  unfold on_timer_tick, with_globals. destruct k as [gl mp ts bc np sc cu ti dl c3 es ce ds dss st]. cbn.
  destruct (u64_add ti 1) as [t| |]; cbn; [|done..]. destruct sc as [rq|]; [|by intros [= <- <-]].
  destruct (if negb _ then _ else _) as [rq'| |]; cbn; [|done..].
  destruct (cu =? _); [by intros [= <- <-]|].
  unfold switch_address_space_to, desired_l4_frame, context_rsp, context_ptr, write_context. cbn.
  repeat case_match; cbn in *; simplify_eq; by intros [= <- <-].
Qed.

Lemma exit_frame_globals k g :
  exit_current_task (with_globals k g) =
    (with_globals (exit_current_task k).1 g, (exit_current_task k).2) ∧
  globals (exit_current_task k).1 = globals k.
Proof.
  unfold exit_current_task, with_globals. destruct k as [gl mp ts bc np sc cu ti dl c3 es ce ds dss st].
  destruct sc as [rq|]; cbn; destruct (position _ _) as [i|]; cbn;
    unfold switch_address_space_to, desired_l4_frame, context_rsp; cbn; repeat case_match; cbn in *;
    simplify_eq; done.
Qed.
(** A spawn into a slot that was used before. *)
Lemma spawn_frame_globals k g entry sp i k' o :
  length (mapped k) = 8%nat →
  position (λ s, bool_decide (slot_pid s = None)) (task_slots k) = Some i → mapped k !! i = Some true →
  spawn_task_impl nx trampoline k entry sp = Ret (k', o) →
  spawn_task_impl nx trampoline (with_globals k g) entry sp = Ret (with_globals k' g, o) ∧
  globals k' = globals k.
Proof.
  intros Hlen Hpos Hm. assert (i < 8)%nat as Hi by (apply lookup_lt_Some in Hm; lia).
  unfold spawn_task_impl, with_globals. destruct k as [gl mp ts bc np sc cu ti dl c3 es ce ds dss st]. cbn in *.
  rewrite Hpos. rewrite !ensure_slot_mapped_again by done. cbn [mbind outcome_bind].
  destruct (u64_sub _ _) as [b| |]; cbn [mbind outcome_bind]; [|done..].
  destruct (init_stack _ _ _ _ _) as [[st' rsp]| |]; cbn; [|done..].
  destruct (vec_set _ _ _) as [ts'| |]; cbn; [|done..]. destruct sc as [rq|]; by intros [= <- <-].
Qed.

Lemma poll_frame_globals w ph g k' :
  world_inv boot_stack space w ph → task_a_poll nx trampoline (kern w) task_d_entry = Ret k' →
  task_a_poll nx trampoline (with_globals (kern w) g) task_d_entry = Ret (with_globals k' g) ∧
  globals k' = globals (kern w).
Proof.
  intros Hi. pose proof (wi_pool _ _ _ _ Hi) as Hp. pose proof (wi_mapped _ _ _ _ Hi) as Hm.
  pose proof (wi_latches _ _ _ _ Hi) as Hl. destruct (ti_mem _ _ (wi_tasks _ _ _ _ Hi)) as [Hlen _].
  clear Hi. set (k := kern w) in *. clearbody k. unfold task_a_poll.
  replace (task_c_exited (with_globals k g)) with (task_c_exited k) by by destruct k.
  replace (task_d_spawned (with_globals k g)) with (task_d_spawned k) by by destruct k.
  destruct (task_c_exited k && negb (task_d_spawned k)) eqn:E; [|by intros [= <-]].
  apply andb_true_iff in E as [Hc Hd]. apply negb_true_iff in Hd.
  assert (ph = Exited) as -> by (unfold latches in Hl; destruct ph; cbn in Hl; congruence).
  intros Hrun. apply outcome_bind_ret in Hrun as ([k1 o] & Hs & Hrun).
  replace (set_d_spawned (with_globals k g) true) with (with_globals (set_d_spawned k true) g) by by destruct k.
  unfold spawn_task in *.
  apply (spawn_frame_globals _ g _ _ 2) in Hs as [Hs Hg]; [|by destruct k| |by destruct k].
  2:{ replace (task_slots (set_d_spawned k true)) with (task_slots k) by by destruct k.
      transitivity (position (λ o : option Z, if o is None then true else false) (pool k)); [|by rewrite Hp].
      unfold pool. rewrite position_fmap. apply position_ext. intros s. by destruct (slot_pid s). }
  rewrite Hs. cbn [mbind outcome_bind fst snd] in *. unfold slot_index_for_pid.
  replace (task_slots (with_globals k1 g)) with (task_slots k1) by by destruct k1.
  destruct o as [p|]; injection Hrun as <-; rewrite <-?Hg.
  - split; [by destruct k1|]. destruct k1; cbn in *. rewrite Hg. by destruct k.
  - split; [done|]. rewrite Hg. by destruct k.
Qed.

(** A task's step and a tick are the same whatever the globals are. *)
Lemma task_frame_globals w ph g o :
  world_inv boot_stack space w ph → task_step nx trampoline code task_d_entry tables w = Ret o →
  task_step nx trampoline code task_d_entry tables (put_globals w g) = Ret ((λ w', put_globals w' g) <$> o) ∧
  ∀ w', o = Some w' → globals (kern w') = globals (kern w).
Proof.
  intros Hi. pose proof (poll_frame_globals w ph g) as Hpoll. specialize (λ k, Hpoll k Hi).
  destruct (exit_frame_globals (kern w) g) as [Hex Hexg].
  assert (current (with_globals (kern w) g) = current (kern w) ∧ cr3 (with_globals (kern w) g) = cr3 (kern w))
    as [Hcur Hcr3] by by destruct (kern w).
  unfold task_step. cbn [put_globals threads kern]. rewrite Hcur.
  destruct (threads w !! current (kern w)) as [t|]; [|by intros [= <-]]. destruct (at_point t).
  - intros [= <-]. unfold set_thread, put_globals. cbn. rewrite Hcur. split; [done|]. by intros w' [= <-].
  - intros Hrun. apply outcome_bind_ret in Hrun as (k' & Hk & [= <-]).
    destruct (Hpoll k' Hk) as [-> Hg]. cbn [mbind outcome_bind kern]. split; [|by intros w' [= <-]].
    unfold put_globals, start_task_d, start_thread, fresh_thread, slot_index_for_pid. cbn.
    replace (stacks (with_globals k' g)) with (stacks k') by by destruct k'.
    replace (next_pid (with_globals (kern w) g)) with (next_pid (kern w)) by by destruct (kern w).
    replace (task_slots (with_globals k' g)) with (task_slots k') by by destruct k'. done.
  - unfold read_private. rewrite Hcr3. intros Hrun. apply outcome_bind_ret in Hrun as (v & -> & [= <-]).
    cbn [mbind outcome_bind]. unfold set_thread, put_globals. cbn. rewrite Hcur. split; [done|]. by intros w' [= <-].
  - by intros [= <-].
  - intros [= <-]. unfold put_globals. cbn [kern counter task_c_pid threads]. rewrite Hex.
    split; [done|]. by intros w' [= <-].
Qed.

Lemma tick_step_frame_globals w g rsp w' :
  tick_step rsp w = Ret w' →
  tick_step rsp (put_globals w g) = Ret (put_globals w' g) ∧ globals (kern w') = globals (kern w).
Proof.
  unfold tick_step. intros Hrun. apply outcome_bind_ret in Hrun as ([k' o] & Hk & [= <-]).
  apply (tick_frame_globals _ g) in Hk as [Hk Hg]. cbn [put_globals kern]. rewrite Hk. cbn [mbind outcome_bind].
  split; [|done]. unfold put_globals. cbn. by destruct (kern w).
Qed.
(** ** The invariant *)

Definition flow_inv (s : flow) : Prop :=
  match s with
  | Outside w => ∃ ph, world_inv boot_stack space w ph
  | Inside w m p =>
      globals (kern w) = None ∧ ∃ ph, world_inv boot_stack space (put_globals w (Some (m, p))) ph
  end.

Lemma put_globals_twice w g g' : put_globals (put_globals w g) g' = put_globals w g'.
Proof. unfold put_globals, with_globals. cbn. by destruct (kern w). Qed.

Lemma put_globals_same w : put_globals w (globals (kern w)) = w.
Proof. destruct w as [k c p t]. unfold put_globals, with_globals. by destruct k. Qed.

Lemma put_globals_get w g : globals (kern (put_globals w g)) = g.
Proof. unfold put_globals, with_globals. cbn. by destruct (kern w). Qed.

Lemma world_inv_globals w ph g :
  world_inv boot_stack space w ph → mem_inv g (mapped (kern w)) → world_inv boot_stack space (put_globals w g) ph.
Proof.
  intros [Hi Hp Hl Hm Hs Hpid Hth Hb Hst Ht Hc Hpa HC HCd HD] Hg.
  pose proof (tasks_inv_set_memory boot_stack (kern w) g Hi Hg) as Hi'.
  split; unfold put_globals, with_globals; cbn in *; try done; by destruct (kern w).
Qed.

(** The same world with the contents in place. *)
Lemma flow_world s : flow_inv s → ∃ ph g, world_inv boot_stack space (put_globals (world_of s) g) ph.
Proof.
  destruct s as [w|w m p]; cbn.
  - intros [ph Hi]. exists ph, (globals (kern w)). by rewrite put_globals_same.
  - intros (_ & ph & Hi). by exists ph, (Some (m, p)).
Qed.

Lemma hidden_task w g ph o :
  world_inv boot_stack space (put_globals w g) ph →
  task_step nx trampoline code task_d_entry tables w = Ret o →
  ∃ o', task_step nx trampoline code task_d_entry tables (put_globals w g) = Ret o' ∧
    o = (λ w', put_globals w' (globals (kern w))) <$> o' ∧
    ∀ w', o' = Some w' → globals (kern w') = g ∧ ∃ ph', world_inv boot_stack space w' ph'.
Proof.
  intros Hi Hs.
  destruct (task_step_inv nx trampoline code task_d_entry tables boot_stack space Hwords Hspace _ ph Hi) as (o' & Ho & Hinv).
  exists o'. split; [done|]. destruct (task_frame_globals _ ph (globals (kern w)) o' Hi Ho) as [Hf Hg].
  rewrite put_globals_twice, put_globals_same in Hf. split; [congruence|].
  intros w' Hw'. split; [by rewrite (Hg w' Hw'), put_globals_get|].
  destruct (Hinv w' Hw') as (ph' & Hi' & _). by exists ph'.
Qed.

Lemma rsp_ok_globals k g rsp : rsp_ok boot_stack (with_globals k g) rsp ↔ rsp_ok boot_stack k rsp.
Proof. unfold rsp_ok, with_globals. by destruct k. Qed.

Lemma hidden_tick w g ph rsp :
  world_inv boot_stack space (put_globals w g) ph → rsp_ok boot_stack (kern w) rsp → ticks (kern w) < u64_max →
  ∃ w', tick_step rsp (put_globals w g) = Ret w' ∧ globals (kern w') = g ∧ world_inv boot_stack space w' ph ∧
    tick_step rsp w = Ret (put_globals w' (globals (kern w))).
Proof.
  intros Hi Hr Ht.
  destruct (tick_step_inv boot_stack space _ ph rsp Hi) as (w' & Hw & Hi' & _).
  { cbn. by rewrite rsp_ok_globals. } { unfold put_globals, with_globals. cbn. by destruct (kern w). }
  exists w'. destruct (tick_step_frame_globals _ (globals (kern w)) rsp w' Hw) as [Hf Hg].
  rewrite put_globals_twice, put_globals_same in Hf. rewrite put_globals_get in Hg. done.
Qed.
Lemma put_globals_same_eq w g : globals (kern w) = g → put_globals w g = w.
Proof. intros <-. apply put_globals_same. Qed.

Lemma flow_step_inv s s' :
  flow_inv s → flow_step nx trampoline code task_d_entry tables boot_stack s s' → flow_inv s'.
Proof.
  intros Hs Hst. destruct Hst as [w m p _ Hg|w m p m' p' _ Hmem|w m p _|s w' Ht|s rsp w' Hr Hti Ht].
  - destruct Hs as [ph Hi]. split; [apply put_globals_get|]. exists ph.
    by rewrite put_globals_twice, put_globals_same_eq.
  - destruct Hs as (Hg & ph & Hi). split; [done|]. exists ph.
    rewrite <-(put_globals_twice w (Some (m, p))). apply world_inv_globals; [done|].
    unfold put_globals, with_globals. cbn. by destruct (kern w).
  - destruct Hs as (_ & ph & Hi). by exists ph.
  - destruct s as [w|w m p]; cbn in *.
    + destruct Hs as [ph Hi].
      destruct (task_step_inv nx trampoline code task_d_entry tables boot_stack space Hwords Hspace w ph Hi) as (o & Ho & Hinv).
      destruct (Hinv w') as (ph' & Hi' & _); [congruence|]. by exists ph'.
    + destruct Hs as (Hg & ph & Hi). destruct (hidden_task w _ ph _ Hi Ht) as ([w1|] & _ & Hw & Hinv); [|done].
      injection Hw as ->. destruct (Hinv w1 eq_refl) as (Hg1 & ph' & Hi'). rewrite Hg.
      split; [apply put_globals_get|]. exists ph'. by rewrite put_globals_twice, put_globals_same_eq.
  - destruct s as [w|w m p]; cbn in *.
    + destruct Hs as [ph Hi]. destruct (tick_step_inv boot_stack space w ph rsp Hi Hr Hti) as (w1 & Hw & Hi' & _).
      rewrite Hw in Ht. injection Ht as <-. by exists ph.
    + destruct Hs as (Hg & ph & Hi). destruct (hidden_tick w _ ph rsp Hi Hr Hti) as (w1 & _ & Hg1 & Hi1 & Hw).
      rewrite Hw in Ht. injection Ht as <-. rewrite Hg.
      split; [apply put_globals_get|]. exists ph. by rewrite put_globals_twice, put_globals_same_eq.
Qed.

Lemma flow_run_inv s s' :
  flow_inv s → flow_run nx trampoline code task_d_entry tables boot_stack s s' → flow_inv s'.
Proof. intros Hs Hr. induction Hr as [|s1 s2 _ IH Hst]; [done|]. by eapply flow_step_inv. Qed.

(** Nobody's step fails, and inside a closure nobody's step looks at the globals. *)
Lemma flow_steps s :
  flow_inv s →
  (∃ o, task_step nx trampoline code task_d_entry tables (world_of s) = Ret o) ∧
  ∀ rsp, rsp_ok boot_stack (kern (world_of s)) rsp → ticks (kern (world_of s)) < u64_max →
    ∃ w', tick_step rsp (world_of s) = Ret w'.
Proof.
  intros Hs. destruct (flow_world s Hs) as (ph & g & Hi). split.
  - destruct (task_step_inv nx trampoline code task_d_entry tables boot_stack space Hwords Hspace _ ph Hi) as (o & Ho & _).
    destruct (task_frame_globals _ ph (globals (kern (world_of s))) o Hi Ho) as [Hf _].
    rewrite put_globals_twice, put_globals_same in Hf. by eexists.
  - intros rsp Hr Ht. destruct (hidden_tick _ _ _ rsp Hi Hr Ht) as (w' & _ & _ & _ & Hw). by eexists.
Qed.
End frames.

(** Any history of the demo can pass while the boot flow is inside a closure. *)
Lemma run_inside `{Profile} {M : Type} `{MapperLaws M} nx trampoline code task_d_entry tables boot_stack space
    (w w' : world M) ph m p :
  entry_ok trampoline code TaskD task_d_entry →
  (∃ a, translate tables space PRIVATE_REGION_ADDR = Some a ∧ load tables a = PRIVATE_VALUE) →
  world_inv boot_stack space w ph → run nx trampoline code task_d_entry tables boot_stack w w' →
  flow_run nx trampoline code task_d_entry tables boot_stack (Inside (put_globals w None) m p)
    (Inside (put_globals w' None) m p).
Proof.
  intros Hw Hsp Hi Hrun. induction Hrun as [w|w w1 w2 Hrun IH Hs|w w1 rsp w2 Hrun IH Hr Ht Hs]; [constructor|..];
    destruct (run_inv nx trampoline code task_d_entry tables boot_stack space Hw Hsp w w1 ph Hi Hrun) as (ph1 & Hi1 & _);
    eapply flow_S; try exact (IH Hi).
  - destruct (task_frame_globals nx trampoline code task_d_entry tables boot_stack space w1 ph1 None _ Hi1 Hs) as [Hf _].
    exact (flow_task _ _ _ _ _ _ (Inside _ m p) _ Hf).
  - destruct (tick_step_frame_globals w1 None rsp w2 Hs) as [Hf _].
    refine (flow_tick _ _ _ _ _ _ (Inside _ m p) rsp _ _ _ Hf).
    + cbn. by rewrite rsp_ok_globals.
    + cbn. unfold with_globals. by destruct (kern w1).
Qed.

(** A call while the cells are locked. *)
Lemma calls_locked `{Profile} {M : Type} `{Mapper M} spins nx (st : statics M) :
  MAPPER st = Locked → PHYS st = Locked →
  (∀ R (f : M → PhysicalAllocator → statics M → outcome (M * PhysicalAllocator * statics M * R)),
     with_mapper_and_phys spins f st = Diverge) ∧
  (∀ R (f : PhysicalAllocator → statics M → outcome (PhysicalAllocator * statics M * R)),
     with_phys spins f st = Diverge) ∧
  ∀ counter addr r, handle_page_fault spins nx st counter addr ≠ Ret r.
Proof.
  intros Hm Hp. split_and!.
  - intros R f. apply with_both_locked. by left.
  - intros R f. unfold with_phys. by rewrite Hp, lock_locked.
  - intros counter addr r. unfold handle_page_fault. destruct (_ && _); [|done].
    destruct (virt_addr _) as [v| |]; cbn [mbind outcome_bind]; [|done..].
    by rewrite with_both_locked by by left.
Qed.

(** ** Properties *)

(** The functions over the globals do what the rest of the development takes them to do
    with the contents.  Before [store_globals] a closure is not run and the answer is
    [None]; [store_globals] fills both cells, with the allocator of the region; from then
    on [with_mapper_and_phys] and [with_phys] return what the closure returns, with the
    cells released, the page-fault handler and the loops that map pages are those of
    [Paging]; the offset is there from [init] on.  Any number of tries of a free lock
    will do. *)
Theorem globals_refine_contents `{Profile} {M : Type} `{Mapper M} spins nx (offset_page_table : Z → Z → M) :
  let spins := S spins in
  (∀ R (f : M → PhysicalAllocator → statics M → outcome (M * PhysicalAllocator * statics M * R)),
     with_mapper_and_phys spins f statics_start = Ret (statics_start, None)) ∧
  (∀ R (f : PhysicalAllocator → statics M → outcome (PhysicalAllocator * statics M * R)),
     with_phys spins f statics_start = Ret (statics_start, None)) ∧
  phys_mem_offset spins (@statics_start M) = Ret None ∧
  (∀ hw offset,
     init_mapper spins offset_page_table hw statics_start offset =
     t ← active_level_4_table hw offset;
     Ret (mkStatics (Free None) (Free None) (Free (Some offset)), offset_page_table t offset)) ∧
  (∀ (m : M) start total offset,
     store_globals spins (mkStatics (Free None) (Free None) offset) m start total =
     phys ← PhysicalAllocator_new start total; Ret (filled m phys offset)) ∧
  (∀ R (f : M → PhysicalAllocator → outcome (M * PhysicalAllocator * R)) (m : M) p offset,
     with_mapper_and_phys spins (only_contents f) (filled m p offset) =
     '(m, p, r) ← f m p; Ret (filled (m : M) p offset, Some r)) ∧
  (∀ R (f : PhysicalAllocator → outcome (PhysicalAllocator * R)) (m : M) p offset,
     with_phys spins (λ p st, '(p, r) ← f p; Ret (p, st, r)) (filled m p offset) =
     '(p, r) ← f p; Ret (filled (m : M) p offset, Some r)) ∧
  (∀ (m : M) p offset counter addr,
     handle_page_fault spins nx (filled m p offset) counter addr =
     '(m, p, c) ← page_fault_handler nx m p counter addr; Ret (filled (m : M) p offset, c)) ∧
  (∀ (m : M) p offset start flags pages,
     map_pages_through spins start flags pages (filled m p offset) =
     '(m, p) ← map_range adapter_allocate_frame start flags pages (m, p); Ret (filled m p offset)).
Proof.
  cbn zeta. split_and!; [done|done|done|done| | | |apply page_fault_filled|intros; apply map_pages_filled].
  - intros m start total offset. unfold store_globals. by destruct (PhysicalAllocator_new start total).
  - intros R f m p offset. apply with_both_filled.
  - intros R f m p offset. unfold with_phys. cbn. by destruct (f p) as [[p' r]| |].
Qed.

Section properties.
Context `{Profile} {M : Type} `{MapperLaws M} (nx : bool) (trampoline : Z)
  (code : Z → option task_body) (task_d_entry : Z) (tables : words).
Context (boot_stack : Z → Prop) (space : Z).
(** A kernel that [init] set up, with a private address space for [task_e]. *)
Context (g : option (M * PhysicalAllocator)) (c : Z) (st : memory) (t : Z)
  (new_space : kernel M → outcome (kernel M * option Z)) (ea eb ec ee : Z) (w0 : world M).
Context
  (Hg : mem_inv g (replicate (Z.to_nat MAX_SLOTS) false)) (Ht : 0 <= t <= u64_max)
  (Hns : new_space_ok new_space)
  (Hspace : ∃ a, translate tables space PRIVATE_REGION_ADDR = Some a ∧ load tables a = PRIVATE_VALUE)
  (Hentries : entries_ok trampoline code [ea; eb; ec; task_d_entry; ee])
  (Hinit : init_world nx trampoline code (kernel_at g c st t) new_space ea eb ec ee = Ret w0)
  (Hbound : spaces (kern w0) !! 3%nat = Some (Some space)).

(** [C13] The locks of the paging globals are never waited for.  From [init] on, with the boot
    flow in and out of closures at any time, the timer ticking and the demo tasks running
    between any two of its accesses: no step of a task panics or waits, no tick does,
    although the boot flow may hold both locks, because none of them uses the globals (the
    slot [task_d] is spawned into was mapped for [task_c]); when the flow is outside, both
    cells are free and filled.  What must not happen inside a closure is another call
    or a page fault: neither ever returns. *)
Theorem paging_locks_never_waited_for s
    (Hrun : flow_run nx trampoline code task_d_entry tables boot_stack (Outside w0) s) :
  (∃ o, task_step nx trampoline code task_d_entry tables (world_of s) = Ret o) ∧
  (∀ rsp, rsp_ok boot_stack (kern (world_of s)) rsp → ticks (kern (world_of s)) < u64_max →
     ∃ w, tick_step rsp (world_of s) = Ret w) ∧
  (∀ offset, match s with
   | Outside w => ∃ m p, cells s offset = filled m p (Free (Some offset)) ∧ phys_wf p
   | Inside w m p =>
       phys_wf p ∧ ∀ spins,
         (∀ R (f : M → PhysicalAllocator → statics M → outcome (M * PhysicalAllocator * statics M * R)),
            with_mapper_and_phys spins f (cells s offset) = Diverge) ∧
         (∀ R (f : PhysicalAllocator → statics M → outcome (PhysicalAllocator * statics M * R)),
            with_phys spins f (cells s offset) = Diverge) ∧
         ∀ counter addr r, handle_page_fault spins nx (cells s offset) counter addr ≠ Ret r
   end).
Proof.
  destruct (reached_inv nx trampoline code task_d_entry tables boot_stack space g c st t new_space ea eb ec ee w0
              Hg Ht Hns Hspace Hentries Hinit Hbound w0 (run_0 _ _ _ _ _ _ _)) as (ph & Hd & Hi0).
  assert (flow_inv boot_stack space s) as Hs.
  { eapply (flow_run_inv nx trampoline code task_d_entry tables boot_stack space Hd Hspace); [|exact Hrun]. by exists ph. }
  destruct (flow_steps nx trampoline code task_d_entry tables boot_stack space Hd Hspace s Hs) as [Hstep Htick].
  split_and!; [done|done|]. intros offset. destruct s as [w|w m p]; cbn in Hs.
  - destruct Hs as [ph' Hi]. destruct (ti_mem _ _ (wi_tasks _ _ _ _ Hi)) as [_ (m & p & Hgl & Hp & _)].
    exists m, p. split; [|done]. cbn. by rewrite Hgl.
  - destruct Hs as (_ & ph' & Hi). destruct (ti_mem _ _ (wi_tasks _ _ _ _ Hi)) as [_ (m' & p' & Hgl & Hp & _)].
    rewrite put_globals_get in Hgl. injection Hgl as <- <-. split; [done|]. intros spins. by apply calls_locked.
Qed.
End properties.

(** The boot flow enters a closure at the start of the demo, and is still inside when
    [task_d] has been spawned. *)
Definition demo_contents : radix * PhysicalAllocator :=
  default (mkRadix ∅ ∅, demo_frames) (globals (kern demo_world)).

Definition demo_inside : flow := Inside (put_globals demo_end None) demo_contents.1 demo_contents.2.

Lemma demo_inside_run :
  @flow_run true radix radix_mapper true 0x7000 demo_code 0x5300 demo_space.1 demo_stack (Outside demo_world) demo_inside.
Proof.
  assert (current (kern demo_world) = BOOT_PID) as Hc by (vm_compute; reflexivity).
  assert (is_Some (globals (kern demo_world))) as [[m p] Hgl].
  { destruct (ti_mem _ _ (wi_tasks _ _ _ _ demo_world_inv)) as [_ (m & p & Hgl & _)]. by exists (m, p). }
  unfold demo_inside, demo_contents. rewrite Hgl. cbn [default fst snd].
  pose proof demo_d_ok as Hd.
  assert (∀ s1 s2 s3, @flow_step true radix radix_mapper true 0x7000 demo_code 0x5300 demo_space.1 demo_stack s1 s2 →
            @flow_run true radix radix_mapper true 0x7000 demo_code 0x5300 demo_space.1 demo_stack s2 s3 →
            @flow_run true radix radix_mapper true 0x7000 demo_code 0x5300 demo_space.1 demo_stack s1 s3) as Hcons.
  { intros s1 s2 s3 Hst Hr. induction Hr as [|s4 s5 _ IH Hst']; [by eapply flow_S; [constructor|]|by eapply flow_S]. }
  eapply Hcons; [by apply flow_enter|].
  by apply (run_inside true 0x7000 demo_code 0x5300 demo_space.1 demo_stack demo_space.2 demo_world demo_end Running m p
           Hd demo_space_ok demo_world_inv), (demo_drive_run 120).
Qed.

Lemma paging_locks_never_waited_for_witness :
  task_d_spawn_slot (kern (world_of demo_inside)) = Some 2 ∧
  (∃ o, @task_step true radix radix_mapper true 0x7000 demo_code 0x5300 demo_space.1 (world_of demo_inside) = Ret o) ∧
  (∀ counter addr r, @handle_page_fault true radix radix_mapper 5 true (cells demo_inside 0) counter addr ≠ Ret r).
Proof.
  destruct (@paging_locks_never_waited_for true radix radix_mapper radix_laws true 0x7000 demo_code 0x5300 demo_space.1 demo_stack
    demo_space.2 demo_memory 0x5000 (λ _, 0) 3 (demo_new_space demo_space.2) 0x5000 0x5100 0x5200 0x5400 demo_world
    demo_memory_ok demo_ticks_ok (demo_new_space_ok _) demo_space_ok demo_words_ok demo_init_ret demo_bound demo_inside
    demo_inside_run) as (Hstep & _ & Hin).
  split; [vm_compute; reflexivity|]. split; [exact Hstep|].
  destruct (Hin 0) as [_ Hcalls]. apply (Hcalls 5%nat).
Defined.
