(* ===== verification/KernelHeap.v ===== *)
(** * The kernel heap and the bring-up of memory

    Model of [src/kernel-x86_64/src/allocator.rs] with the global allocator, and of the
    memory part of [kernel_main] ([main.rs]) from the creation of the mapper to the full
    heap, through the globals of [PagingGlobals]. *)
From S2P Require Import Prelude Buddy Paging AddressSpace Tasks PagingGlobals.

(** ** The global allocator *)

(** [linked_list_allocator::LockedHeap], as far as it is set up here. *)
Class Heap (H : Type) := {
  heap_empty : H;
  heap_init : Z → Z → H → H;
  heap_extend : Z → H → H;
  heap_bottom : H → Z;
  heap_top : H → Z;
}.

(** [init] and [extend], for whole pages. *)
Class HeapLaws (H : Type) `{Heap H} := {
  init_bottom : ∀ b n h, (PAGE_SIZE | b) → (PAGE_SIZE | n) → heap_bottom (heap_init b n h) = b;
  init_top : ∀ b n h, (PAGE_SIZE | b) → (PAGE_SIZE | n) → heap_top (heap_init b n h) = b + n;
  extend_bottom : ∀ n h, (PAGE_SIZE | n) → heap_bottom (heap_extend n h) = heap_bottom h;
  extend_top : ∀ n h, (PAGE_SIZE | heap_top h) → (PAGE_SIZE | n) →
    heap_top (heap_extend n h) = heap_top h + n;
}.

Section bring_up.
Context `{Profile} {M : Type} `{Mapper M} {L : Type} `{Heap L} (nx : bool) (spins : nat).
Context (offset_page_table : Z → Z → M).

(** [allocator::init_bootstrap], with the allocator. *)
Definition heap_bootstrap (mapper : M) (bump : Z) (heap : L) : outcome (M * Z * L) :=
  '(mapper, bump) ← init_bootstrap nx mapper bump;
  Ret (mapper, bump, heap_init HEAP_BASE BOOTSTRAP_HEAP_SIZE heap).

(** [allocator::extend_with_real_pages], through the globals. *)
Definition heap_extend_with_real_pages (st : statics M) (heap : L) : outcome (statics M * L) :=
  let extend_start := heap_top heap in
  let page_count := REAL_HEAP_SIZE / PAGE_SIZE in
  st ← map_pages_through spins extend_start (data_flags nx) (seqZ 0 page_count) st;
  Ret (st, heap_extend REAL_HEAP_SIZE heap).

(** The memory part of [kernel_main], with the usable region it has chosen. *)
Definition kernel_memory (hw : machine) (physical_memory_offset region_start region_end : Z) :
    outcome (statics M * L) :=
  '(st, mapper) ← init_mapper spins offset_page_table hw statics_start physical_memory_offset;
  size ← u64_sub region_end region_start;
  let total_pages := Z.min (size / PAGE_SIZE) (2 ^ 20) in
  let bootstrap_pages := BOOTSTRAP_HEAP_SIZE / PAGE_SIZE in
  '(mapper, _, heap) ← heap_bootstrap mapper region_start heap_empty;
  bytes ← u64_mul bootstrap_pages PAGE_SIZE;
  arena ← u64_add region_start bytes;
  pages ← u64_sub total_pages bootstrap_pages;
  st ← store_globals spins st mapper arena pages;
  heap_extend_with_real_pages st heap.
End bring_up.

(** ** Lemmas *)

Section lemmas.
Context `{Profile} {M : Type} `{MapperLaws M}.

(** Mapping a range, from any source of frames. *)
Lemma map_range_pages {S} (alloc : frame_source S) fl start n i m s m' s' :
  0 <= start → 0 <= i → (PAGE_SIZE | start) → start + (i + Z.of_nat n) * PAGE_SIZE < 2 ^ 47 →
  map_range alloc start fl (seqZ i (Z.of_nat n)) (m, s) = Ret (m', s') →
  (∀ j, i <= j < i + Z.of_nat n → walk m (start + j * PAGE_SIZE) = None ∧
     ∃ f, walk m' (start + j * PAGE_SIZE) = Some (f, fl)) ∧
  (∀ q, (∀ j, i <= j < i + Z.of_nat n → q ≠ start + j * PAGE_SIZE) → walk m' q = walk m q).
Proof.
  intros Hst Hi Hd. revert i m s Hi. induction n as [|n IH]; intros i m s Hi Hfit Hrun.
  { injection Hrun as <- <-. split; [intros j Hj; lia|done]. }
  rewrite seqZ_cons in Hrun by lia. cbn [map_range fst snd] in Hrun. unfold PAGE_SIZE in Hrun, Hfit.
  rewrite u64_mul_ret in Hrun by lia. cbn [mbind outcome_bind] in Hrun.
  rewrite u64_add_ret in Hrun by lia. cbn [mbind outcome_bind] in Hrun.
  rewrite virt_addr_low in Hrun by lia. cbn [mbind outcome_bind] in Hrun.
  change 0x1000 with PAGE_SIZE in Hrun, Hfit.
  apply outcome_bind_ret in Hrun as ([[m1 s1] [f|e]] & Hmap & Hrun); [|discriminate Hrun].
  cbn [expect mbind outcome_bind] in Hrun.
  unfold map_page_with in Hmap. apply outcome_bind_ret in Hmap as ([s0 [fr|]] & _ & Hmap); [|discriminate Hmap].
  cbn [fst snd] in Hmap. apply outcome_bind_ret in Hmap as ([[m2 s2] [[]|[]]] & Hmap & Heq); [|discriminate Heq].
  injection Heq as <- <- <-.
  destruct (map_to_ok _ _ _ _ _ _ _ _ _ Hmap) as (Hw & Hw1 & Hrest). rewrite page_of_range in * by done.
  replace (Z.succ i) with (i + 1) in Hrun by lia.
  replace (Z.pred (Z.of_nat (Datatypes.S n))) with (Z.of_nat n) in Hrun by lia.
  destruct (IH (i + 1) m2 s2) as (Hin & Hout); [lia|unfold PAGE_SIZE in *; lia|done|]. split.
  - intros j Hj. destruct (decide (j = i)) as [->|Hne].
    + split; [done|]. exists fr. rewrite Hout; [done|]. unfold PAGE_SIZE. intros j' Hj'. lia.
    + destruct (Hin j) as [Hn Hsome]; [lia|]. split; [|done].
      rewrite <- Hn. symmetry. apply Hrest. unfold PAGE_SIZE. lia.
  - intros q Hq. rewrite Hout by (intros j Hj; apply Hq; lia). apply Hrest. apply Hq. lia.
Qed.

(** The page of an address of a range. *)
Lemma page_of_within start n a :
  (PAGE_SIZE | start) → start <= a < start + n * PAGE_SIZE →
  ∃ j, 0 <= j < n ∧ page_of a = start + j * PAGE_SIZE.
Proof.
  intros [k ->] Ha. exists (a / PAGE_SIZE - k). rewrite page_of_spec. unfold PAGE_SIZE in *.
  pose proof (Z.div_mod a 0x1000 ltac:(lia)). pose proof (Z.mod_pos_bound a 0x1000 ltac:(lia)). lia.
Qed.
End lemmas.

(** What [kernel_memory] is made of. *)
Lemma kernel_memory_parts `{Profile} {M : Type} `{Mapper M} {L : Type} `{Heap L} nx spins opt hw off rs re st (h : L) :
  kernel_memory nx (S spins) opt hw off rs re = Ret (st, h) →
  ∃ t (m1 m2 : M) bump phys1 phys2,
    active_level_4_table hw off = Ret t ∧
    init_bootstrap nx (opt t off) rs = Ret (m1, bump) ∧
    boot_memory nx (opt t off) rs re = Ret (m1, bump, phys1) ∧
    map_range adapter_allocate_frame (heap_top (heap_init HEAP_BASE BOOTSTRAP_HEAP_SIZE heap_empty : L))
      (data_flags nx) (seqZ 0 256) (m1, phys1) = Ret (m2, phys2) ∧
    st = filled m2 phys2 (Free (Some off)) ∧
    h = heap_extend REAL_HEAP_SIZE (heap_init HEAP_BASE BOOTSTRAP_HEAP_SIZE heap_empty).
Proof.
  intros Hrun. unfold kernel_memory in Hrun.
  apply outcome_bind_ret in Hrun as ([st0 m0] & Hinit & Hrun).
  unfold init_mapper in Hinit. cbn [lock statics_start PHYS_MEM_OFFSET mbind outcome_bind] in Hinit.
  apply outcome_bind_ret in Hinit as (t & Ht & [= <- <-]).
  apply outcome_bind_ret in Hrun as (size & Hsize & Hrun).
  apply outcome_bind_ret in Hrun as ([[m1 bump] h0] & Hb & Hrun).
  unfold heap_bootstrap in Hb. apply outcome_bind_ret in Hb as ([m1' bump'] & Hib & [= <- <- <-]).
  apply outcome_bind_ret in Hrun as (bytes & Hbytes & Hrun).
  apply outcome_bind_ret in Hrun as (arena & Harena & Hrun).
  apply outcome_bind_ret in Hrun as (pages & Hpages & Hrun).
  apply outcome_bind_ret in Hrun as (st1 & Hst & Hrun).
  unfold store_globals in Hst. apply outcome_bind_ret in Hst as (phys1 & Hphys & Hst).
  cbn [lock set_MAPPER set_PHYS set_PHYS_MEM_OFFSET statics_start MAPPER PHYS PHYS_MEM_OFFSET mbind outcome_bind] in Hst.
  injection Hst as <-.
  unfold heap_extend_with_real_pages in Hrun. apply outcome_bind_ret in Hrun as (st2 & Hmap & [= <- <-]).
  change (set_PHYS _ _) with (filled m1' phys1 (Free (Some off))) in Hmap.
  rewrite map_pages_filled in Hmap. apply outcome_bind_ret in Hmap as ([m2 phys2] & Hmap & [= <-]).
  exists t, m1', m2, bump', phys1, phys2. split_and!; try done.
  unfold boot_memory. rewrite Hsize. cbn [mbind outcome_bind]. rewrite Hib. cbn [mbind outcome_bind].
  rewrite Hbytes. cbn [mbind outcome_bind]. rewrite Harena. cbn [mbind outcome_bind].
  rewrite Hpages. cbn [mbind outcome_bind]. by rewrite Hphys.
Qed.

Definition HEAP_TOP : Z := HEAP_BASE + 320 * PAGE_SIZE.

(** The state that [kernel_memory] leaves, page by page. *)
Lemma kernel_memory_ret `{Profile} {M : Type} `{MapperLaws M} {L : Type} `{HeapLaws L} nx spins opt hw off rs re st (h : L) :
  0 <= rs → (PAGE_SIZE | rs) → 64 * PAGE_SIZE <= re - rs → re + 256 * PAGE_SIZE < 2 ^ 64 →
  kernel_memory nx (S spins) opt hw off rs re = Ret (st, h) →
  ∃ t (m : M) phys,
    active_level_4_table hw off = Ret t ∧ st = filled m phys (Free (Some off)) ∧
    phys_wf phys ∧ base phys = rs + 64 * PAGE_SIZE ∧ heap_bottom h = HEAP_BASE ∧ heap_top h = HEAP_TOP ∧
    (∀ j, 0 <= j < 320 → walk (opt t off) (HEAP_BASE + j * PAGE_SIZE) = None ∧
       ∃ f, walk m (HEAP_BASE + j * PAGE_SIZE) = Some (f, data_flags nx)) ∧
    (∀ q, (∀ j, 0 <= j < 320 → q ≠ HEAP_BASE + j * PAGE_SIZE) → walk m q = walk (opt t off) q).
Proof.
  intros Hrs Hal Hsz Hfit Hrun.
  destruct (kernel_memory_parts nx spins opt hw off rs re st h Hrun)
    as (t & m1 & m2 & bump & phys1 & phys2 & Ht & Hib & Hboot & Hmap & -> & ->).
  destruct (boot_memory_inv nx _ rs re m1 bump phys1 Hrs Hal Hsz Hfit Hboot)
    as (_ & _ & _ & _ & Hb & _ & Hwf & _ & _).
  assert ((PAGE_SIZE | HEAP_BASE)) as Hd by by apply Z.mod_divide.
  assert ((PAGE_SIZE | BOOTSTRAP_HEAP_SIZE)) as Hdb by by apply Z.mod_divide.
  assert ((PAGE_SIZE | REAL_HEAP_SIZE)) as Hdr by by apply Z.mod_divide.
  set (h0 := heap_init HEAP_BASE BOOTSTRAP_HEAP_SIZE heap_empty) in *.
  assert (heap_top h0 = HEAP_BASE + 64 * PAGE_SIZE) as Htop by by apply init_top.
  assert ((PAGE_SIZE | heap_top h0)) as Hdt by (rewrite Htop; by apply Z.mod_divide).
  rewrite extend_bottom, extend_top by done. replace (heap_bottom h0) with HEAP_BASE by (symmetry; by apply init_bottom).
  rewrite Htop in *. replace (HEAP_BASE + 64 * PAGE_SIZE + REAL_HEAP_SIZE) with HEAP_TOP by done.
  destruct (map_range_pages bump_allocate_frame (data_flags nx) HEAP_BASE 64 0 (opt t off) rs m1 bump)
    as [Hin1 Hout1]; [done..|].
  destruct (map_range_adapter (data_flags nx) (HEAP_BASE + 64 * PAGE_SIZE) 256 0 m1 phys1 m2 phys2)
    as (Hsame & Hin2 & Hout2); [done..|].
  exists t, m2, phys2. split_and!; try done; [apply Hsame|destruct Hsame as (_ & Hbb & _); congruence| |].
  - intros j Hj. destruct (Z.lt_ge_cases j 64) as [Hlt|Hge].
    + rewrite Hout2 by (unfold PAGE_SIZE; lia). apply Hin1. lia.
    + replace (HEAP_BASE + j * PAGE_SIZE) with (HEAP_BASE + 64 * PAGE_SIZE + (j - 64) * PAGE_SIZE)
        by (unfold PAGE_SIZE; lia).
      destruct (Hin2 (j - 64)) as [Hn Hs]; [lia|]. split; [|done].
      rewrite <-Hn. symmetry. apply Hout1. unfold PAGE_SIZE. lia.
  - intros q Hne. rewrite Hout2, Hout1; [done|intros j Hj; apply Hne; lia|].
    intros j Hj. replace (HEAP_BASE + 64 * PAGE_SIZE + j * PAGE_SIZE) with (HEAP_BASE + (j + 64) * PAGE_SIZE)
      by (unfold PAGE_SIZE; lia). apply Hne. lia.
Qed.

(** ** Properties *)

(** [C14] The bring-up of memory ends, when it returns, with both globals filled and unlocked, a
    consistent frame allocator, and a heap whose every byte is mapped: the global
    allocator's range is the 320 pages from [HEAP_BASE], each of them unmapped before and
    now a present, writable data page (not executable where the processor can forbid it),
    and no other translation has changed.  So no allocation and no access to allocated
    memory, inside a closure over the globals or amid an interrupt, can page-fault. *)
Theorem heap_is_mapped `{Profile} {M : Type} `{MapperLaws M} {L : Type} `{HeapLaws L} nx spins opt hw off rs re st (h : L)
    (Hrs : 0 <= rs) (Hal : (PAGE_SIZE | rs)) (Hsz : 64 * PAGE_SIZE <= re - rs)
    (Hfit : re + 256 * PAGE_SIZE < 2 ^ 64)
    (Hrun : kernel_memory nx (S spins) opt hw off rs re = Ret (st, h)) :
  ∃ t (m : M) phys,
    active_level_4_table hw off = Ret t ∧ st = filled m phys (Free (Some off)) ∧
    phys_wf phys ∧ base phys = rs + 64 * PAGE_SIZE ∧
    heap_bottom h = HEAP_BASE ∧ heap_top h = HEAP_TOP ∧
    (∀ a, heap_bottom h <= a < heap_top h →
       walk (opt t off) (page_of a) = None ∧ ∃ f, walk m (page_of a) = Some (f, data_flags nx)) ∧
    (∀ q, (∀ a, heap_bottom h <= a < heap_top h → q ≠ page_of a) → walk m q = walk (opt t off) q).
Proof.
  destruct (kernel_memory_ret nx spins opt hw off rs re st h Hrs Hal Hsz Hfit Hrun)
    as (t & m & phys & Ht & Hst & Hwf & Hb & Hbot & Htop & Hin & Hout).
  assert ((PAGE_SIZE | HEAP_BASE)) as Hd by by apply Z.mod_divide.
  exists t, m, phys. split_and!; try done; rewrite Hbot, Htop.
  - intros a Ha. destruct (page_of_within HEAP_BASE 320 a Hd Ha) as (j & Hj & ->). by apply Hin.
  - intros q Hq. apply Hout. intros j Hj. rewrite <-(page_of_range HEAP_BASE j Hd) by done.
    apply Hq. unfold HEAP_TOP, PAGE_SIZE. lia.
Qed.

(** ** A concrete heap, and two machines *)

Record heap_range := mkHeap { bottom : Z; top : Z }.

#[export] Instance range_heap : Heap heap_range := {
  heap_empty := mkHeap 0 0;
  heap_init b n _ := mkHeap b (b + n);
  heap_extend n h := mkHeap h.(bottom) (h.(top) + n);
  heap_bottom := bottom;
  heap_top := top;
}.

#[export] Instance range_heap_laws : HeapLaws heap_range.
Proof. by split. Qed.

(** Nothing mapped at the start, and usable memory from 16 MiB to [re]. *)
Definition demo_memory_of (re : Z) : outcome (statics radix * heap_range) :=
  @kernel_memory true radix radix_mapper heap_range range_heap true 1 (λ _ _, mkRadix ∅ ∅)
    demo_machine 0x100000000 0x1000000 re.

Definition is_ret {A} (o : outcome A) : bool := if o is Ret _ then true else false.

Lemma heap_is_mapped_witness :
  ∃ st h m phys, demo_memory_of 0x2000000 = Ret (st, h) ∧ st = filled m phys (Free (Some 0x100000000)) ∧
    heap_top h = HEAP_TOP ∧ ∃ f, walk m (HEAP_BASE + 319 * PAGE_SIZE) = Some (f, data_flags true).
Proof.
  assert (is_ret (demo_memory_of 0x2000000) = true) as Hr by (vm_compute; reflexivity).
  destruct (demo_memory_of 0x2000000) as [[st h]| |] eqn:E; [|discriminate Hr|discriminate Hr].
  destruct (@heap_is_mapped true radix radix_mapper radix_laws heap_range range_heap range_heap_laws true 0
    (λ _ _, mkRadix ∅ ∅) demo_machine 0x100000000 0x1000000 0x2000000 st h ltac:(discriminate)
    ltac:(apply Z.mod_divide; [discriminate|reflexivity]) ltac:(vm_compute; discriminate)
    ltac:(vm_compute; reflexivity) E) as (t & m & phys & _ & Hst & _ & _ & Hb & Ht & Hw & _).
  exists st, h, m, phys. split; [reflexivity|]. split; [exact Hst|]. split; [exact Ht|].
  destruct (Hw (HEAP_BASE + 319 * PAGE_SIZE)) as [_ Hf]; [|exact Hf].
  rewrite Hb, Ht. split; [discriminate|reflexivity].
Defined.

(** With no more memory than the heap takes, the frames that the arena counts as free
    although the bootstrap gave them away (see [Paging.bootstrap_frames_owned_twice]) are
    used: the last page of the bootstrap heap and a page of the extension are the same
    memory. *)
Lemma small_machine_heap_aliases :
  match demo_memory_of 0x1140000 with
  | Ret (st, _) =>
      match MAPPER st with
      | Free (Some m) =>
          walk m (HEAP_BASE + 63 * PAGE_SIZE) = Some (0x1042000, data_flags true) ∧
          walk m (HEAP_BASE + 317 * PAGE_SIZE) = Some (0x1042000, data_flags true)
      | _ => False
      end
  | _ => False
  end.
Proof. vm_compute. split; reflexivity. Qed.
