(* ===== verification/Syscall.v ===== *)
(** * System calls and the trip to ring 3

    Model of [src/kernel-x86_64/src/syscall.rs]: the dispatch table, the stub's
    register shuffle and its two returns, the hand-assembled ring-3 program run from
    its bytes, and [enter_ring3] with the exit path that undoes it. *)
From S2P Require Import Prelude Buddy Paging Context.

(** ** The table *)

Definition USER_CODE_ADDR : Z := 0x666666660000.
Definition USER_STACK_ADDR : Z := 0x777777770000.
Definition USER_STACK_SIZE : Z := 4096.

Definition SYS_ADD : Z := 1.
Definition SYS_ECHO : Z := 2.
Definition SYS_REPORT : Z := 3.
Definition EXIT_SYSCALL : Z := 999.

(** A handler's result, with the value of [REPORTED_VALUE] after it. *)
Definition handler : Type := Z → Z → Z → Z → Z * Z.

Definition sys_add : handler := λ reported a b _, (reported, (a + b) mod 2 ^ 64).
Definition sys_echo : handler := λ reported a _ _, (reported, a).
Definition sys_report : handler := λ _ a _ _, (a, 0).
Definition sys_exit : handler := λ reported _ _ _, (reported, 0).

Definition dispatch_syscall (reported number arg0 arg1 arg2 : Z) : Z * Z :=
  if number =? SYS_ADD then sys_add reported arg0 arg1 arg2
  else if number =? SYS_ECHO then sys_echo reported arg0 arg1 arg2
  else if number =? SYS_REPORT then sys_report reported arg0 arg1 arg2
  else if number =? EXIT_SYSCALL then sys_exit reported arg0 arg1 arg2
  else (reported, u64_max).

(** ** The stub *)

Definition syscall_shuffle : list instr :=
  [MovReg RCX RDX; MovReg RDX RSI; MovReg RSI RDI; MovReg RDI RAX].

(** [call {dispatch}]: arguments in [rdi], [rsi], [rdx], [rcx], the result in [rax];
    [clobber] is what the callee leaves in the other caller-saved registers. *)
Definition call_dispatch (clobber : reg → Z) (c : cpu) (reported : Z) : cpu * Z :=
  let r := dispatch_syscall reported c.(rdi) c.(rsi) c.(rdx) c.(rcx) in
  (set_reg RAX r.2 (set_reg RCX (clobber RCX) (set_reg RDX (clobber RDX)
     (set_reg RSI (clobber RSI) (set_reg RDI (clobber RDI) c)))), r.1).

(** The end of the exit path; [kernel_rsp] is the address of [KERNEL_RETURN_RSP]. *)
Definition exit_path (kernel_rsp : Z) : list instr :=
  [Lea RAX kernel_rsp; MovLoad RSP RAX;
   Pop R15; Pop R14; Pop R13; Pop R12; Pop RBX; Pop RBP; Sti; RetNear].

Inductive trap_return :=
| Resumed (c : cpu) (reported : Z)      (** [iretq] to ring 3 *)
| Abandoned (c : cpu) (reported : Z).   (** [ret] into the kernel *)

(** What the interrupt gate does on the way in, and [iretq] on the way out: the
    flags and selectors are saved and restored, [IF] is clear in between.  The
    hardware's frame and the calls' return addresses are on the interrupt stack,
    which no other code reads. *)
Definition gate_entry (kernel_cs : Z) (c : cpu) : cpu :=
  set_selectors kernel_cs 0 (set_rflags (Z.ldiff c.(rflags) 0x200) c).
Definition gate_return (c0 c : cpu) : cpu :=
  set_selectors c0.(cs) c0.(ss) (set_rflags c0.(rflags) c).

(** [syscall_entry_stub], entered from ring 3 in state [c]. *)
Definition syscall_entry_stub (kernel_cs kernel_rsp : Z) (clobber : reg → Z) (c : cpu)
    (reported : Z) : trap_return :=
  let r := call_dispatch clobber (run_code syscall_shuffle (gate_entry kernel_cs c)) reported in
  if c.(rax) mod 2 ^ 32 =? EXIT_SYSCALL
  then Abandoned (run_code (exit_path kernel_rsp) r.1) r.2
  else Resumed (gate_return c r.1) r.2.

(** ** The ring-3 program *)

Definition USER_PROGRAM : list Z :=
  [0xB8; 0x01; 0x00; 0x00; 0x00;
   0xBF; 0x07; 0x00; 0x00; 0x00;
   0xBE; 0x08; 0x00; 0x00; 0x00;
   0xCD; 0x80;
   0x89; 0xC3;
   0xB8; 0x02; 0x00; 0x00; 0x00;
   0xBF; 0xD2; 0x04; 0x00; 0x00;
   0xCD; 0x80;
   0x01; 0xC3;
   0xB8; 0x03; 0x00; 0x00; 0x00;
   0x89; 0xDF;
   0xCD; 0x80;
   0xB8; 0xE7; 0x03; 0x00; 0x00;
   0xCD; 0x80;
   0xEB; 0xFE].

(** The instructions the program is assembled from. *)
Inductive uinstr :=
| UMovImm (dst : reg) (imm : Z)
| UMovReg (dst src : reg)
| UAdd (dst src : reg)
| UInt (vector : Z)
| UJmp (rel : Z).

(** Register numbers of the encoding. *)
Definition reg_of (n : Z) : option reg :=
  if n =? 0 then Some RAX else if n =? 1 then Some RCX else if n =? 2 then Some RDX
  else if n =? 3 then Some RBX else if n =? 4 then Some RSP else if n =? 5 then Some RBP
  else if n =? 6 then Some RSI else if n =? 7 then Some RDI else None.

(** A register-to-register ModRM byte: destination and source. *)
Definition modrm (b : Z) : option (reg * reg) :=
  if 0xC0 <=? b then
    dst ← reg_of (Z.land b 7);
    src ← reg_of (Z.land (Z.shiftr b 3) 7);
    Some (dst, src)
  else None.

(** The instruction at [a] and its length. *)
Definition decode (m : memory) (a : Z) : option (uinstr * Z) :=
  let op := m a in
  if (0xB8 <=? op) && (op <=? 0xBF) then
    (λ r, (UMovImm r (load_bytes 4 m (a + 1)), 5)) <$> reg_of (op - 0xB8)
  else if op =? 0x89 then (λ p, (UMovReg p.1 p.2, 2)) <$> modrm (m (a + 1))
  else if op =? 0x01 then (λ p, (UAdd p.1 p.2, 2)) <$> modrm (m (a + 1))
  else if op =? 0xCD then Some (UInt (m (a + 1)), 2)
  else if op =? 0xEB then
    Some (UJmp (if m (a + 1) <? 128 then m (a + 1) else m (a + 1) - 256), 2)
  else None.

Inductive user_state :=
| InRing3 (c : cpu) (reported : Z)
| InKernel (c : cpu) (reported : Z)
| Faulted.

(** One instruction of ring 3; writes to 32-bit registers clear the upper half. *)
Definition user_step (kernel_cs kernel_rsp : Z) (clobber : reg → Z) (c : cpu) (reported : Z) : user_state :=
  match decode c.(mem) c.(rip) with
  | None => Faulted
  | Some (i, len) =>
      let c := set_rip (c.(rip) + len) c in
      match i with
      | UMovImm d v => InRing3 (set_reg d (v mod 2 ^ 32) c) reported
      | UMovReg d s => InRing3 (set_reg d (get_reg s c mod 2 ^ 32) c) reported
      | UAdd d s => InRing3 (set_reg d ((get_reg d c + get_reg s c) mod 2 ^ 32) c) reported
      | UJmp rel => InRing3 (set_rip (c.(rip) + rel) c) reported
      | UInt v =>
          if v =? 0x80 then
            match syscall_entry_stub kernel_cs kernel_rsp clobber c reported with
            | Resumed c r => InRing3 c r
            | Abandoned c r => InKernel c r
            end
          else Faulted
      end
  end.

(** At most [fuel] instructions; [clobber] may differ from call to call. *)
Fixpoint run_user (fuel : nat) (kernel_cs kernel_rsp : Z) (clobber : nat → reg → Z)
    (c : cpu) (reported : Z) : user_state :=
  match fuel with
  | O => InRing3 c reported
  | S n =>
      match user_step kernel_cs kernel_rsp (clobber n) c reported with
      | InRing3 c r => run_user n kernel_cs kernel_rsp clobber c r
      | s => s
      end
  end.

(** ** Entering ring 3 *)

Definition enter_ring3 (kernel_rsp : Z) : list instr :=
  [Push RBP; Push RBX; Push R12; Push R13; Push R14; Push R15;
   Lea RAX kernel_rsp; MovStore RAX RSP;
   Push RCX; Push RSI; PushFq; Pop RAX; OrImm RAX 0x200; Push RAX; Push RDX; Push RDI;
   Iretq].

(** ** The demo *)

Definition USER_ACCESSIBLE : Z := 4.
Definition code_flags : Z := Z.lor (Z.lor PRESENT WRITABLE) USER_ACCESSIBLE.

(** [ptr::copy_nonoverlapping] of bytes to [a]. *)
Fixpoint copy_bytes (m : memory) (a : Z) (bytes : list Z) : memory :=
  match bytes with
  | [] => m
  | b :: bytes' => copy_bytes (store_byte m a b) (a + 1) bytes'
  end.

Section demo.
Context `{Profile} {M : Type} `{Mapper M} (nx : bool).

(** [with_mapper_and_phys(|m, p| map_page(m, p, VirtAddr::new(a), flags))], with both
    uses of [?]: [None] when the globals are not set or the mapping fails. *)
Definition try_map (g : option (M * PhysicalAllocator)) (a flags : Z) :
    outcome (option (M * PhysicalAllocator) * option Z) :=
  match g with
  | None => Ret (None, None)
  | Some (m, phys) =>
      vaddr ← virt_addr a;
      r ← map_page m phys vaddr flags;
      match r with
      | (m, phys, Ok f) => Ret (Some (m, phys), Some f)
      | (m, phys, Err _) => Ret (Some (m, phys), None)
      end
  end.

(** [run_demo_syscall]: [c] is the kernel's state at the call of [enter_ring3] (its
    return address on the stack), before the arguments are put in place; [fuel]
    bounds the instructions run in ring 3. *)
Definition run_demo_syscall (fuel : nat) (user_cs user_ss kernel_rsp : Z)
    (clobber : nat → reg → Z) (g : option (M * PhysicalAllocator)) (c : cpu) (reported : Z) :
    outcome (option (M * PhysicalAllocator) * cpu * Z * option Z) :=
  r ← try_map g USER_CODE_ADDR code_flags;
  match r with
  | (g, None) => Ret (g, c, reported, None)
  | (g, Some _) =>
      r ← try_map g USER_STACK_ADDR (Z.lor code_flags (nx_flag nx));
      match r with
      | (g, None) => Ret (g, c, reported, None)
      | (g, Some _) =>
          user_stack_top ← u64_add USER_STACK_ADDR USER_STACK_SIZE;
          let c := set_mem (copy_bytes c.(mem) USER_CODE_ADDR USER_PROGRAM) c in
          let c := set_reg RDI USER_CODE_ADDR (set_reg RSI user_stack_top
                     (set_reg RDX user_cs (set_reg RCX user_ss c))) in
          match run_user fuel c.(cs) kernel_rsp clobber (run_code (enter_ring3 kernel_rsp) c)
                  reported with
          | InKernel c reported => Ret (g, c, reported, Some reported)
          | InRing3 _ _ => Diverge
          | Faulted => Panic
          end
      end
  end.
End demo.

(** ** Lemmas *)

Lemma copy_bytes_at m a bytes b :
  copy_bytes m a bytes b =
  if (a <=? b) && (b <? a + Z.of_nat (length bytes)) then nth (Z.to_nat (b - a)) bytes 0 else m b.
Proof.
  revert m a. induction bytes as [|x xs IH]; intros m a; cbn [copy_bytes length].
  - destruct (Z.leb_spec a b), (Z.ltb_spec b (a + Z.of_nat 0)); cbn [andb]; try done. lia.
  - rewrite IH. unfold store_byte. destruct (Z.eqb_spec b a) as [->|Hne].
    + rewrite (proj2 (Z.leb_gt (a + 1) a)), (proj2 (Z.leb_le a a)) by lia.
      rewrite (proj2 (Z.ltb_lt a (a + Z.of_nat (S (length xs))))) by lia.
      by rewrite Z.sub_diag.
    + destruct (Z.leb_spec (a + 1) b), (Z.leb_spec a b); cbn [andb]; try done; try lia.
      replace (a + 1 + Z.of_nat (length xs)) with (a + Z.of_nat (S (length xs))) by lia.
      destruct (b <? _); [|done]. replace (Z.to_nat (b - a)) with (S (Z.to_nat (b - (a + 1)))) by lia.
      done.
Qed.

(** Decoding looks at no byte beyond the instruction. *)
Lemma decode_ext m m' a i len :
  decode m a = Some (i, len) → (∀ b, a <= b < a + len → m' b = m b) →
  decode m' a = Some (i, len).
Proof.
  intros Hd Hb. assert (0 < len) as Hlen.
  { unfold decode in Hd.
    repeat match type of Hd with
      | (if ?b then _ else _) = _ => destruct b
      | (_ <$> ?x) = _ => destruct x; cbn in Hd
      end; try discriminate Hd; injection Hd as _ <-; lia. }
  unfold decode in *. rewrite (Hb a) by lia.
  destruct ((0xB8 <=? m a) && (m a <=? 0xBF)).
  { destruct (reg_of (m a - 0xB8)) as [r|]; [|discriminate Hd]. cbn [fmap option_fmap option_map] in *.
    injection Hd as <- <-. rewrite (load_bytes_ext 4 m' m); [done|]. intros b Hb'. apply Hb. lia. }
  destruct (m a =? 0x89).
  { destruct (modrm (m (a + 1))) as [p|] eqn:E; [|discriminate Hd]. cbn in Hd. injection Hd as <- <-.
    by rewrite Hb, E by lia. }
  destruct (m a =? 0x01).
  { destruct (modrm (m (a + 1))) as [p|] eqn:E; [|discriminate Hd]. cbn in Hd. injection Hd as <- <-.
    by rewrite Hb, E by lia. }
  destruct (m a =? 0xCD); [injection Hd as <- <-; by rewrite Hb by lia|].
  destruct (m a =? 0xEB); [|discriminate Hd]. injection Hd as <- <-. by rewrite !Hb by lia.
Qed.

(** The program as the copy into the code page leaves it. *)
Definition program_memory : memory := λ a, nth (Z.to_nat (a - USER_CODE_ADDR)) USER_PROGRAM 0.

Definition program_loaded (m : memory) : Prop :=
  ∀ a, USER_CODE_ADDR <= a < USER_CODE_ADDR + 51 → m a = program_memory a.

Lemma decode_program m off i len :
  program_loaded m → decode program_memory (USER_CODE_ADDR + off) = Some (i, len) →
  0 <= off → off + len <= 51 → decode m (USER_CODE_ADDR + off) = Some (i, len).
Proof. intros Hl Hd Ho Hlen. eapply decode_ext; [done|]. intros b Hb. apply Hl. lia. Qed.

(** The instructions at their offsets. *)
Definition listing : list (Z * uinstr * Z) :=
  [(0, UMovImm RAX 1, 5); (5, UMovImm RDI 7, 5); (10, UMovImm RSI 8, 5); (15, UInt 0x80, 2);
   (17, UMovReg RBX RAX, 2); (19, UMovImm RAX 2, 5); (24, UMovImm RDI 1234, 5);
   (29, UInt 0x80, 2); (31, UAdd RBX RAX, 2); (33, UMovImm RAX 3, 5); (38, UMovReg RDI RBX, 2);
   (40, UInt 0x80, 2); (42, UMovImm RAX 999, 5); (47, UInt 0x80, 2)].

Lemma listing_decodes m off i len :
  program_loaded m → (off, i, len) ∈ listing → decode m (USER_CODE_ADDR + off) = Some (i, len).
Proof.
  intros Hl Hin. assert (Forall (λ e, decode program_memory (USER_CODE_ADDR + e.1.1) = Some (e.1.2, e.2) ∧
    0 <= e.1.1 ∧ e.1.1 + e.2 <= 51) listing) as Hall.
  { repeat (constructor; [split; [reflexivity|cbn; lia]|]). constructor. }
  rewrite Forall_forall in Hall. destruct (Hall _ Hin) as (Hd & H0 & Hlen).
  by apply decode_program.
Qed.

(** A plain instruction of the listing. *)
Lemma run_user_S n kcs kr k c r off i len :
  program_loaded (mem c) → rip c = USER_CODE_ADDR + off → (off, i, len) ∈ listing →
  run_user (S n) kcs kr k c r =
  match (let c := set_rip (USER_CODE_ADDR + off + len) c in
         match i with
         | UMovImm d v => InRing3 (set_reg d (v mod 2 ^ 32) c) r
         | UMovReg d s => InRing3 (set_reg d (get_reg s c mod 2 ^ 32) c) r
         | UAdd d s => InRing3 (set_reg d ((get_reg d c + get_reg s c) mod 2 ^ 32) c) r
         | UJmp rel => InRing3 (set_rip (rip c + rel) c) r
         | UInt v =>
             if v =? 0x80 then
               match syscall_entry_stub kcs kr (k n) c r with
               | Resumed c r => InRing3 c r
               | Abandoned c r => InKernel c r
               end
             else Faulted
         end) with
  | InRing3 c r => run_user n kcs kr k c r
  | s => s
  end.
Proof.
  intros Hl Hr Hin. cbn [run_user]. unfold user_step.
  rewrite Hr, (listing_decodes _ _ _ _ Hl Hin). done.
Qed.

(** The shuffle: number and arguments to where the callee expects them. *)
Lemma syscall_shuffle_moves c :
  run_code syscall_shuffle c =
  set_reg RCX (rdx c) (set_reg RDX (rsi c) (set_reg RSI (rdi c) (set_reg RDI (rax c) c))).
Proof. by destruct c. Qed.

Lemma lor_if_word f : 0 <= f < 2 ^ 64 → 0 <= Z.lor f 0x200 < 2 ^ 64.
Proof.
  intros Hf. assert (0 <= Z.lor f 0x200) by (apply Z.lor_nonneg; lia). split; [done|].
  destruct (Z.eq_dec (Z.lor f 0x200) 0) as [->|]; [lia|].
  apply Z.log2_lt_pow2; [lia|]. rewrite Z.log2_lor by lia.
  apply Z.max_lub_lt; [|reflexivity]. destruct (Z.eq_dec f 0) as [->|]; [reflexivity|].
  apply Z.log2_lt_pow2; lia.
Qed.

(** Stack pointer arithmetic does not wrap; innermost first. *)
Ltac small_words :=
  repeat match goal with
    | |- context [?a mod 2 ^ 64] =>
        lazymatch a with
        | context [_ mod _] => fail
        | _ => rewrite (Z.mod_small a) by lia
        end
    end.

(** The kernel frame, the saved stack pointer and the state ring 3 starts in. *)
Lemma enter_ring3_spec kernel_rsp c :
  word_regs c → 0 <= rcx c < 2 ^ 64 → 0 <= rsi c < 2 ^ 64 → 0 <= rdx c < 2 ^ 64 →
  0 <= rdi c < 2 ^ 64 → 0 <= rflags c < 2 ^ 64 → 88 <= rsp c <= 2 ^ 64 - 16 →
  apart kernel_rsp 8 (rsp c - 88) 96 →
  let c1 := run_code (enter_ring3 kernel_rsp) c in
  words_at (mem c1) (rsp c - 48) (saved_frame c (load64 (mem c) (rsp c))) ∧
  load64 (mem c1) kernel_rsp = rsp c - 48 ∧
  rip c1 = rdi c ∧ rsp c1 = rsi c ∧ cs c1 = rdx c ∧ ss c1 = rcx c ∧
  rflags c1 = Z.lor (rflags c) 0x200 ∧
  ∀ b, ¬ (rsp c - 88 <= b < rsp c) → ¬ (kernel_rsp <= b < kernel_rsp + 8) → mem c1 b = mem c b.
Proof.
  intros [] Hcx Hsi Hdx Hdi Hfl Hrsp Hslot. unfold apart in *. pose proof (lor_if_word _ Hfl) as Hor.
  destruct c as [sp bp bx a12 a13 a14 a15 di si ax cx dx ip fl cs0 ss0 m].
  cbn [rsp mem rbp rbx r12 r13 r14 r15 rdi rsi rcx rdx rflags] in *.
  unfold run_code, enter_ring3, saved_frame.
  cbn [foldl exec push get_reg set_reg set_mem set_rip set_rflags set_selectors
    rsp mem rbp rbx r12 r13 r14 r15 rdi rsi rax rcx rdx rip rflags cs ss words_at].
  small_words. replace (sp - 8 - 8 - 8 - 8 - 8 - 8) with (sp - 48) by lia.
  rewrite !(load_store64 _ (sp - 48 - 8 - 8 - 8) (sp - 48 - 8 - 8 - 8) fl) by lia.
  simpl_mem.
  split_and!; first [reflexivity | lia | f_equal; lia | exact I | intros b Hb Hk; by simpl_mem].
Qed.

(** The exit path loads what the saved stack pointer points to. *)
Lemma exit_path_spec kernel_rsp c sp :
  load64 (mem c) kernel_rsp = sp → 0 <= sp <= 2 ^ 64 - 64 →
  let c' := run_code (exit_path kernel_rsp) c in
  words_at (mem c) sp (saved_frame c' (rip c')) ∧ rsp c' = sp + 56 ∧ interrupts_enabled c' = true.
Proof.
  intros Hl Hsp. destruct c as [sp0 bp bx a12 a13 a14 a15 di si ax cx dx ip fl cs0 ss0 m].
  cbn [mem] in *. unfold run_code, exit_path, saved_frame, interrupts_enabled.
  cbn [foldl exec get_reg set_reg set_mem set_rip set_rflags
    rsp mem rbp rbx r12 r13 r14 r15 rdi rsi rax rip rflags words_at].
  rewrite Hl. repeat rewrite (Z.mod_small (_ + 8)) by lia. rewrite testbit_lor_if.
  split_and!; first [reflexivity | lia | exact I].
Qed.

(** ** Properties *)

Ltac fold_words :=
  repeat match goal with
    | |- context [?a mod ?b] =>
        let v := eval vm_compute in (a mod b) in
        lazymatch v with Zpos _ => change (a mod b) with v | Z0 => change (a mod b) with v end
    end.

Ltac user_step off i len :=
  rewrite (run_user_S _ _ _ _ _ _ off i len);
  [cbn -[run_code exit_path load64 run_user Z.ldiff]; fold_words;
   cbn -[run_code exit_path load64 run_user Z.ldiff]
  |done|reflexivity|apply list_elem_of_In; cbn; tauto].

Ltac user_trap off :=
  user_step off (UInt 0x80) 2; unfold syscall_entry_stub, call_dispatch, dispatch_syscall;
  rewrite syscall_shuffle_moves;
  cbn -[run_code exit_path load64 run_user Z.ldiff]; fold_words;
  cbn -[run_code exit_path load64 run_user Z.ldiff]; fold_words.

(** The ring-3 program, from its machine code.  Whatever the registers hold on
    entry and whatever the kernel leaves in the caller-saved registers after each
    call, the fourteen instructions run to the exit trap, and the value reported
    is 1249 (7 + 8, plus the echoed 1234), computed from the values the system
    calls returned. *)
Lemma run_user_program kernel_cs kernel_rsp clobber c reported
    (Hl : program_loaded (mem c)) (Hrip : rip c = USER_CODE_ADDR) :
  ∃ c', run_user 14 kernel_cs kernel_rsp clobber c reported =
          InKernel (run_code (exit_path kernel_rsp) c') 1249 ∧
    mem c' = mem c ∧ cs c' = kernel_cs ∧ rax c' = 0.
Proof.
  destruct c as [sp bp bx a12 a13 a14 a15 di si ax cx dx ip fl cs0 ss0 m]. cbn in Hl, Hrip. subst ip.
  user_step 0 (UMovImm RAX 1) 5.
  user_step 5 (UMovImm RDI 7) 5.
  user_step 10 (UMovImm RSI 8) 5.
  user_trap 15.
  user_step 17 (UMovReg RBX RAX) 2.
  user_step 19 (UMovImm RAX 2) 5.
  user_step 24 (UMovImm RDI 1234) 5.
  user_trap 29.
  user_step 31 (UAdd RBX RAX) 2.
  user_step 33 (UMovImm RAX 3) 5.
  user_step 38 (UMovReg RDI RBX) 2.
  user_trap 40.
  user_step 42 (UMovImm RAX 999) 5.
  user_trap 47.
  eexists. split; [reflexivity|]. done.
Qed.

(** The trap, for every register state.  The low half of [rax] decides whether
    ring 3 is resumed or abandoned.  When it is resumed, the call was
    [dispatch_syscall(rax, rdi, rsi, rdx)], its result is in [rax], and everything
    a caller may rely on (callee-saved registers, stack pointer, instruction
    pointer, flags, selectors, memory) is as it was at the trap.  When it is
    abandoned nothing is reported; that includes the numbers whose upper half is
    not zero, which the table itself does not know. *)
Theorem stub_dispatches kernel_cs kernel_rsp clobber c reported :
  match syscall_entry_stub kernel_cs kernel_rsp clobber c reported with
  | Resumed c' reported' =>
      rax c mod 2 ^ 32 ≠ EXIT_SYSCALL ∧
      (reported', rax c') = dispatch_syscall reported (rax c) (rdi c) (rsi c) (rdx c) ∧
      rbp c' = rbp c ∧ rbx c' = rbx c ∧ r12 c' = r12 c ∧ r13 c' = r13 c ∧ r14 c' = r14 c ∧
      r15 c' = r15 c ∧ rsp c' = rsp c ∧ rip c' = rip c ∧ rflags c' = rflags c ∧
      cs c' = cs c ∧ ss c' = ss c ∧ mem c' = mem c
  | Abandoned _ reported' => rax c mod 2 ^ 32 = EXIT_SYSCALL ∧ reported' = reported
  end.
Proof.
  destruct c as [sp bp bx a12 a13 a14 a15 di si ax cx dx ip fl cs0 ss0 m].
  unfold syscall_entry_stub, call_dispatch. rewrite syscall_shuffle_moves.
  cbn -[run_code dispatch_syscall Z.ldiff Z.modulo]. destruct (Z.eqb_spec (ax mod 2 ^ 32) EXIT_SYSCALL) as [Heq|Hne].
  - split; [done|]. unfold dispatch_syscall.
    destruct (Z.eqb_spec ax SYS_ADD) as [->|]; [done|]. destruct (Z.eqb_spec ax SYS_ECHO) as [->|]; [done|].
    destruct (Z.eqb_spec ax SYS_REPORT) as [->|]; [discriminate Heq|]. by destruct (ax =? EXIT_SYSCALL).
  - split; [done|]. split; [by destruct (dispatch_syscall _ _ _ _ _)|]. done.
Qed.

(** Into ring 3 and out again.  [enter_ring3] starts ring 3 at the given address,
    stack and selectors with interrupts enabled.  Whatever runs afterwards, as long
    as it leaves the kernel frame and the saved stack pointer alone, the exit path
    returns to the caller of [enter_ring3] with its callee-saved registers and
    stack pointer restored, and interrupts enabled. *)
Theorem ring3_round_trip kernel_rsp c c2
    (Hregs : word_regs c) (Hcx : 0 <= rcx c < 2 ^ 64) (Hsi : 0 <= rsi c < 2 ^ 64)
    (Hdx : 0 <= rdx c < 2 ^ 64) (Hdi : 0 <= rdi c < 2 ^ 64) (Hfl : 0 <= rflags c < 2 ^ 64)
    (Hsp : 88 <= rsp c <= 2 ^ 64 - 16) (Hslot : apart kernel_rsp 8 (rsp c - 88) 96) :
  let c1 := run_code (enter_ring3 kernel_rsp) c in
  (rip c1 = rdi c ∧ rsp c1 = rsi c ∧ cs c1 = rdx c ∧ ss c1 = rcx c ∧
   rflags c1 = Z.lor (rflags c) 0x200) ∧
  ((∀ b, rsp c - 48 <= b < rsp c + 8 → mem c2 b = mem c1 b) →
   (∀ b, kernel_rsp <= b < kernel_rsp + 8 → mem c2 b = mem c1 b) →
   let c3 := run_code (exit_path kernel_rsp) c2 in
   rbp c3 = rbp c ∧ rbx c3 = rbx c ∧ r12 c3 = r12 c ∧ r13 c3 = r13 c ∧ r14 c3 = r14 c ∧
   r15 c3 = r15 c ∧ rsp c3 = rsp c + 8 ∧ rip c3 = load64 (mem c) (rsp c) ∧
   interrupts_enabled c3 = true).
Proof.
  intros c1.
  destruct (enter_ring3_spec kernel_rsp c Hregs Hcx Hsi Hdx Hdi Hfl Hsp Hslot) as (Hat & Hk & Hent).
  fold c1 in Hat, Hk, Hent. clearbody c1. split; [by destruct Hent as (? & ? & ? & ? & ? & _)|].
  intros Hframe Hsave c3.
  destruct (exit_path_spec kernel_rsp c2 (rsp c - 48)) as (Hat2 & Hsp3 & Hif); [|lia|].
  { rewrite <- Hk. apply load64_ext. exact Hsave. }
  fold c3 in Hat2, Hsp3, Hif. clearbody c3.
  apply (words_at_ext _ (mem c2)) in Hat; [|intros b Hb; symmetry; apply Hframe; cbn in Hb; lia].
  pose proof (words_at_inj (mem c2) (rsp c - 48) (saved_frame c (load64 (mem c) (rsp c)))
    (saved_frame c3 (rip c3)) eq_refl Hat Hat2) as Heq.
  clear - Heq Hsp3 Hif. unfold saved_frame in Heq. injection Heq as -> -> -> -> -> -> ->.
  rewrite Hsp3. repeat split; [lia|exact Hif].
Qed.

(** The boot flow at 0x9000 drops to the program, with the save slot at 0x100; what
    is left of ring 3 at its exit trap has other registers. *)
Definition demo_ring3 : cpu :=
  mkCpu 0x9000 1 2 3 4 5 6 USER_CODE_ADDR (USER_STACK_ADDR + USER_STACK_SIZE) 0 0x1b 0x23 0 2 0x8 0
    (store64 program_memory 0x9000 0x1234).

Definition ring3_wreck (c : cpu) : cpu := mkCpu 0 0 0 0 0 0 0 0 0 0 0 0 0 0 0 0 (mem c).

Lemma ring3_wreck_mem c : mem (ring3_wreck c) = mem c.
Proof. done. Qed.

Lemma ring3_round_trip_witness :
  let c3 := run_code (exit_path 0x100) (ring3_wreck (run_code (enter_ring3 0x100) demo_ring3)) in
  rbp c3 = 1 ∧ r15 c3 = 6 ∧ rsp c3 = 0x9008 ∧ interrupts_enabled c3 = true.
Proof.
  pose proof (ring3_wreck_mem (run_code (enter_ring3 0x100) demo_ring3)) as Hm.
  destruct (ring3_round_trip 0x100 demo_ring3 (ring3_wreck (run_code (enter_ring3 0x100) demo_ring3)))
    as [_ Hback];
    [split; (split; [discriminate|reflexivity])|split; [discriminate|reflexivity]..
    |split; discriminate|left; discriminate|].
  destruct (Hback (λ b _, f_equal (λ m, m b) Hm) (λ b _, f_equal (λ m, m b) Hm))
    as (Hbp & _ & _ & _ & _ & H15 & Hsp & _ & Hif).
  cbn zeta. rewrite Hbp, H15, Hsp, Hif. repeat split; vm_compute; reflexivity.
Defined.

Section demo_properties.
Context `{Profile} {M : Type} `{MapperLaws M} (nx : bool).

Lemma try_map_ret g a fl :
  (∀ m phys, g = Some (m, phys) → phys_wf phys) → 0 <= a < 2 ^ 47 →
  ∃ g' o, try_map g a fl = Ret (g', o) ∧ (∀ m phys, g' = Some (m, phys) → phys_wf phys).
Proof.
  intros Hg Ha. unfold try_map. destruct g as [[m phys]|]; [|by eexists _, _].
  rewrite virt_addr_low by done. cbn [mbind outcome_bind].
  destruct (map_page_cases m phys a fl (Hg m phys eq_refl)) as (m' & phys' & r & -> & Hsame & _).
  cbn [mbind outcome_bind]. destruct r; eexists _, _; (split; [reflexivity|]);
    intros ? ? [= <- <-]; apply Hsame.
Qed.

(** The call of [enter_ring3] with the program in the code page, down to the exit
    trap and back. *)
Lemma ring3_session kernel_cs kernel_rsp clobber c reported :
  word_regs c → 0 <= rcx c < 2 ^ 64 → 0 <= rsi c < 2 ^ 64 → 0 <= rdx c < 2 ^ 64 →
  0 <= rflags c < 2 ^ 64 → 88 <= rsp c <= 2 ^ 64 - 16 →
  apart kernel_rsp 8 (rsp c - 88) 96 → apart USER_CODE_ADDR 51 (rsp c - 88) 96 →
  apart USER_CODE_ADDR 51 kernel_rsp 8 → rdi c = USER_CODE_ADDR → program_loaded (mem c) →
  ∃ c3, run_user 14 kernel_cs kernel_rsp clobber (run_code (enter_ring3 kernel_rsp) c) reported =
          InKernel c3 1249 ∧
    saved_frame c3 (rip c3) = saved_frame c (load64 (mem c) (rsp c)) ∧
    rsp c3 = rsp c + 8 ∧ interrupts_enabled c3 = true.
Proof.
  intros Hregs Hcx Hsi Hdx Hfl Hsp Hslot Hcode Hcode2 Hdi Hl.
  assert (0 <= rdi c < 2 ^ 64) as Hdi' by (rewrite Hdi; split; [discriminate|reflexivity]).
  destruct (enter_ring3_spec kernel_rsp c Hregs Hcx Hsi Hdx Hdi' Hfl Hsp Hslot)
    as (Hat & Hk & Hrip & _ & _ & _ & _ & Hout).
  set (c1 := run_code (enter_ring3 kernel_rsp) c) in *. clearbody c1.
  assert (program_loaded (mem c1)) as Hl1.
  { intros a Ha. unfold apart in *. rewrite Hout by lia. by apply Hl. }
  rewrite Hdi in Hrip.
  destruct (run_user_program kernel_cs kernel_rsp clobber c1 reported Hl1 Hrip)
    as (c2 & Hrun & Hmem & _). rewrite Hrun. rewrite <- Hmem in Hk, Hat.
  destruct (exit_path_spec kernel_rsp c2 (rsp c - 48) Hk) as (Hat2 & Hsp3 & Hif); [lia|].
  set (c3 := run_code (exit_path kernel_rsp) c2) in *. clearbody c3.
  exists c3. split; [reflexivity|]. split; [|split; [lia|exact Hif]]. symmetry.
  exact (words_at_inj (mem c2) (rsp c - 48) (saved_frame c (load64 (mem c) (rsp c)))
           (saved_frame c3 (rip c3)) eq_refl Hat Hat2).
Qed.

(** [C11] The whole demo.  For any page tables, frames, kernel registers and whatever
    the kernel leaves in caller-saved registers at each call, [run_demo_syscall]
    returns: either a page could not be mapped, ring 3 was never entered and the
    answer is [None]; or the answer is [Some(1249)] and the caller's saved
    registers, stack pointer and return address are intact, with interrupts on. *)
Theorem demo_syscall_returns g user_cs user_ss kernel_rsp clobber c reported
    (Hg : ∀ m phys, g = Some (m, phys) → phys_wf phys)
    (Hregs : word_regs c) (Hcs : 0 <= user_cs < 2 ^ 64) (Hss : 0 <= user_ss < 2 ^ 64)
    (Hfl : 0 <= rflags c < 2 ^ 64) (Hsp : 88 <= rsp c <= 2 ^ 64 - 16)
    (Hslot : apart kernel_rsp 8 (rsp c - 88) 96) (Hcode : apart USER_CODE_ADDR 51 (rsp c - 88) 96)
    (Hcode2 : apart USER_CODE_ADDR 51 kernel_rsp 8) :
  ∃ g' c' r o, run_demo_syscall nx 14 user_cs user_ss kernel_rsp clobber g c reported =
                 Ret (g', c', r, o) ∧
    (∀ m phys, g' = Some (m, phys) → phys_wf phys) ∧
    ((o = None ∧ c' = c ∧ r = reported) ∨
     (o = Some 1249 ∧ r = 1249 ∧
      rbp c' = rbp c ∧ rbx c' = rbx c ∧ r12 c' = r12 c ∧ r13 c' = r13 c ∧ r14 c' = r14 c ∧
      r15 c' = r15 c ∧ rsp c' = rsp c + 8 ∧ rip c' = load64 (mem c) (rsp c) ∧
      interrupts_enabled c' = true)).
Proof.
  unfold run_demo_syscall.
  destruct (try_map_ret g USER_CODE_ADDR code_flags Hg ltac:(split; [discriminate|reflexivity]))
    as (g1 & [f1|] & -> & Hg1); cbn [mbind outcome_bind];
    [|eexists _, _, _, _; split; [reflexivity|]; split; [done|by left]].
  destruct (try_map_ret g1 USER_STACK_ADDR (Z.lor code_flags (nx_flag nx)) Hg1
    ltac:(split; [discriminate|reflexivity])) as (g2 & [f2|] & -> & Hg2); cbn [mbind outcome_bind];
    [|eexists _, _, _, _; split; [reflexivity|]; split; [done|by left]].
  rewrite u64_add_ret by (split; [discriminate|reflexivity]). cbn [mbind outcome_bind].
  set (m1 := copy_bytes (mem c) USER_CODE_ADDR USER_PROGRAM).
  assert (program_loaded m1) as Hl.
  { intros a Ha. unfold m1. rewrite copy_bytes_at. change (Z.of_nat (length USER_PROGRAM)) with 51.
    by rewrite (proj2 (Z.leb_le _ _)), (proj2 (Z.ltb_lt _ _)) by lia. }
  assert (load64 m1 (rsp c) = load64 (mem c) (rsp c)) as Hret.
  { apply load64_ext. intros a Ha. unfold m1. rewrite copy_bytes_at.
    change (Z.of_nat (length USER_PROGRAM)) with 51. unfold apart in Hcode.
    destruct (Z.leb_spec USER_CODE_ADDR a), (Z.ltb_spec a (USER_CODE_ADDR + 51)); try done. lia. }
  set (c0 := set_reg RDI USER_CODE_ADDR _).
  assert (word_regs c0 ∧ rcx c0 = user_ss ∧ rsi c0 = USER_STACK_ADDR + USER_STACK_SIZE ∧
    rdx c0 = user_cs ∧ rflags c0 = rflags c ∧ rsp c0 = rsp c ∧ rdi c0 = USER_CODE_ADDR ∧
    mem c0 = m1 ∧ saved_frame c0 (load64 m1 (rsp c)) = saved_frame c (load64 (mem c) (rsp c)))
    as (Hw0 & Hcx & Hsi & Hdx & Hfl0 & Hsp0 & Hdi0 & Hm0 & Hfr0).
  { rewrite Hret. subst c0. destruct Hregs, c. split; [by split|]. done. }
  clearbody c0 m1.
  destruct (ring3_session (cs c0) kernel_rsp clobber c0 reported)
    as (c3 & -> & Hfr & Hsp3 & Hif); rewrite ?Hcx, ?Hsi, ?Hdx, ?Hfl0, ?Hsp0, ?Hm0; try done.
  eexists _, _, _, _. split; [reflexivity|]. split; [done|]. right.
  rewrite Hm0, Hsp0, Hfr0 in Hfr. rewrite Hsp0 in Hsp3. clear - Hfr Hsp3 Hif.
  unfold saved_frame in Hfr. injection Hfr as -> -> -> -> -> -> ->.
  rewrite Hsp3. repeat split. exact Hif.
Qed.
End demo_properties.

(** With two empty tables and 64 free pages the demo runs to its end. *)
Definition demo_call : cpu :=
  mkCpu 0x9000 1 2 3 4 5 6 0 0 0 0 0 0 2 0x8 0 (store64 (λ _, 0) 0x9000 0x1234).

Lemma demo_syscall_returns_witness :
  ∃ g' c' r, @run_demo_syscall true radix radix_mapper true 14 0x23 0x1b 0x100 (λ _ _, 77)
      (Some (mkRadix ∅ ∅, demo_phys)) demo_call 0 = Ret (g', c', r, Some 1249) ∧
    rbp c' = 1 ∧ rsp c' = 0x9008.
Proof.
  destruct (@demo_syscall_returns true radix radix_mapper radix_laws true
    (Some (mkRadix ∅ ∅, demo_phys)) 0x23 0x1b 0x100 (λ _ _, 77) demo_call 0)
    as (g' & c' & r & o & Hrun & _ & Ho);
    [|split; (split; [discriminate|reflexivity])|split; [discriminate|reflexivity]..
     |split; discriminate|left; discriminate|right; discriminate|right; discriminate|].
  { intros m phys Heq. injection Heq as _ <-. exact demo_phys_wf. }
  assert (match @run_demo_syscall true radix radix_mapper true 14 0x23 0x1b 0x100 (λ _ _, 77)
      (Some (mkRadix ∅ ∅, demo_phys)) demo_call 0 with
          | Ret (_, _, _, Some _) => true
          | _ => false
          end = true) as Hsome by (vm_compute; reflexivity).
  rewrite Hrun in Hsome. destruct o as [v|]; [|discriminate Hsome].
  destruct Ho as [(Hn & _)|(Hv & _ & Hbp & _ & _ & _ & _ & _ & Hsp & _)]; [discriminate Hn|].
  rewrite Hv in Hrun. exists g', c', r. split; [exact Hrun|]. split; [exact Hbp|exact Hsp].
Defined.
