(* ===== verification/Topology.v ===== *)
(** * PCI configuration space and the CPU topology

    Model of [src/kernel-x86_64/src/acpi_topology.rs]: the legacy configuration
    mechanism as reads and writes of a space of 32-bit registers, and the list of
    processors read off the MADT's entries (the parsing is the [acpi] crate's). *)
From S2P Require Import Prelude.

(** ** Configuration space *)

Definition PCI_CONFIG_ADDRESS : Z := 0xCF8.
Definition PCI_CONFIG_DATA : Z := 0xCFC.

(** [acpi::PciAddress], by its accessors. *)
Record PciAddress := mkPci { segment : Z; bus : Z; device : Z; function : Z }.

(** [assert_eq!] panics for a segment other than 0. *)
Definition pci_config_address (pci : PciAddress) (offset : Z) : outcome Z :=
  if negb (pci.(segment) =? 0) then Panic
  else Ret (Z.lor (Z.lor (Z.lor (Z.lor 0x80000000 (Z.shiftl pci.(bus) 16))
                     (Z.shiftl pci.(device) 11)) (Z.shiftl pci.(function) 8))
              (Z.land offset 0xFC)).

(** The registers behind the data port, by the value in the address port. *)
Definition config_space : Type := Z → Z.

Definition config_write (cfg : config_space) (a v : Z) : config_space :=
  λ b, if b =? a then v else cfg b.

Definition u32_not (x : Z) : Z := Z.lxor x u32_max.
Definition u32_shl (x n : Z) : Z := Z.shiftl x n mod 2 ^ 32.

Definition read_pci_u8 (cfg : config_space) (pci : PciAddress) (offset : Z) : outcome Z :=
  a ← pci_config_address pci offset;
  Ret (Z.shiftr (cfg a) (Z.land offset 3 * 8) mod 2 ^ 8).

Definition read_pci_u16 (cfg : config_space) (pci : PciAddress) (offset : Z) : outcome Z :=
  a ← pci_config_address pci offset;
  Ret (Z.shiftr (cfg a) (Z.land offset 2 * 8) mod 2 ^ 16).

Definition read_pci_u32 (cfg : config_space) (pci : PciAddress) (offset : Z) : outcome Z :=
  a ← pci_config_address pci offset;
  Ret (cfg a).

Definition write_pci_u8 (cfg : config_space) (pci : PciAddress) (offset value : Z) :
    outcome config_space :=
  a ← pci_config_address pci offset;
  let shift := Z.land offset 3 * 8 in
  let existing := cfg a in
  let merged := Z.lor (Z.land existing (u32_not (u32_shl 0xFF shift))) (u32_shl value shift) in
  Ret (config_write cfg a merged).

Definition write_pci_u16 (cfg : config_space) (pci : PciAddress) (offset value : Z) :
    outcome config_space :=
  a ← pci_config_address pci offset;
  let shift := Z.land offset 2 * 8 in
  let existing := cfg a in
  let merged := Z.lor (Z.land existing (u32_not (u32_shl 0xFFFF shift))) (u32_shl value shift) in
  Ret (config_write cfg a merged).

Definition write_pci_u32 (cfg : config_space) (pci : PciAddress) (offset value : Z) :
    outcome config_space :=
  a ← pci_config_address pci offset;
  Ret (config_write cfg a value).

(** ** Topology *)

Record LogicalCpu := mkCpuInfo { processor_id : Z; apic_id : Z; enabled : bool }.

Record CpuTopology := mkTopology { local_apic_address : Z; cpus : list LogicalCpu }.

(** [acpi::MadtEntry]: local APICs, with their flags, and everything else. *)
Inductive MadtEntry :=
| LocalApic (processor apic flags : Z)
| OtherEntry.

Inductive TopologyError := AcpiParseFailed | MadtNotPresent.

(** [tables] is what [AcpiTables::from_rsdp] makes of the address, with the MADT it
    finds: the local APIC address and the entries. *)
Definition discover (tables : Z → option (option (Z * list MadtEntry))) (rsdp_addr : Z) :
    result CpuTopology TopologyError :=
  match tables rsdp_addr with
  | None => Err AcpiParseFailed
  | Some None => Err MadtNotPresent
  | Some (Some (lapic, entries)) =>
      Ok (mkTopology lapic
            (foldl (λ cpus entry,
               match entry with
               | LocalApic p a flags => vec_push cpus (mkCpuInfo p a (negb (Z.land flags 1 =? 0)))
               | OtherEntry => cpus
               end) [] entries))
  end.

Definition cpu_count (self : CpuTopology) : Z :=
  Z.of_nat (length (filter (λ c, enabled c = true) self.(cpus))).

(** ** Lemmas *)

Record pci_ok (pci : PciAddress) : Prop := {
  pci_segment : segment pci = 0;
  pci_bus : 0 <= bus pci < 256;
  pci_device : 0 <= device pci < 32;
  pci_function : 0 <= function pci < 8;
}.

(** Linear arithmetic with division by constants. *)
Ltac div_lia := Z.to_euclidean_division_equations; lia.

(** Bits of disjoint fields add up. *)
Lemma lor_disjoint a b n : 0 <= n → (2 ^ n | a) → 0 <= b < 2 ^ n → Z.lor a b = a + b.
Proof.
  intros Hn [q ->] Hb. assert (Z.land (q * 2 ^ n) b = 0) as Hl.
  { apply Z.bits_inj'. intros i Hi. rewrite Z.land_spec, Z.bits_0.
    destruct (Z.lt_ge_cases i n) as [Hlt|Hge]; [by rewrite Z.mul_pow2_bits_low|].
    rewrite <- (Z.mod_small b (2 ^ n)), Z.mod_pow2_bits_high by lia. apply andb_false_r. }
  by rewrite Z.add_nocarry_lxor, Z.lxor_lor.
Qed.

(** The address of the register that holds byte [offset]. *)
Definition config_reg (pci : PciAddress) (offset : Z) : Z :=
  0x80000000 + bus pci * 2 ^ 16 + device pci * 2 ^ 11 + function pci * 2 ^ 8 + offset / 4 * 4.

Lemma land_low2 o : 0 <= o → Z.land o 3 = o mod 4.
Proof. intros _. change 3 with (Z.ones 2). by rewrite Z.land_ones. Qed.

Lemma land_mask_fc o : 0 <= o < 256 → Z.land o 0xFC = o / 4 * 4.
Proof.
  intros Ho. replace 0xFC with (Z.ldiff 0xFF (Z.ones 2)) by reflexivity.
  rewrite Z.ldiff_land, Z.land_assoc. change 0xFF with (Z.ones 8).
  rewrite Z.land_ones, Z.mod_small by lia. rewrite <- Z.ldiff_land, Z.ldiff_ones_r by lia.
  by rewrite Z.shiftr_div_pow2, Z.shiftl_mul_pow2 by lia.
Qed.

Lemma pci_config_address_ret pci o :
  pci_ok pci → 0 <= o < 256 → pci_config_address pci o = Ret (config_reg pci o).
Proof.
  intros [Hs Hb Hd Hf] Ho. unfold pci_config_address, config_reg. rewrite Hs. cbn [negb Z.eqb].
  rewrite land_mask_fc, !Z.shiftl_mul_pow2 by lia.
  assert (0 <= o / 4 * 4 < 256) by div_lia.
  rewrite (lor_disjoint 0x80000000 _ 24) by (done || lia || by exists 128).
  rewrite (lor_disjoint _ (device pci * 2 ^ 11) 16); [|done| |lia].
  2:{ exists (32768 + bus pci). lia. }
  rewrite (lor_disjoint _ (function pci * 2 ^ 8) 11); [|done| |lia].
  2:{ exists ((32768 + bus pci) * 32 + device pci). lia. }
  rewrite (lor_disjoint _ (o / 4 * 4) 8); [done|done| |done].
  exists (((32768 + bus pci) * 32 + device pci) * 8 + function pci). lia.
Qed.

Lemma config_reg_inj pci pci' o o' :
  pci_ok pci → pci_ok pci' → 0 <= o < 256 → 0 <= o' < 256 →
  config_reg pci o = config_reg pci' o' → pci = pci' ∧ o / 4 = o' / 4.
Proof.
  intros [Hs Hb Hd Hf] [Hs' Hb' Hd' Hf'] Ho Ho'. unfold config_reg.
  destruct pci as [s b d f], pci' as [s' b' d' f']. cbn in *. intros Heq.
  assert (b = b' ∧ d = d' ∧ f = f' ∧ o / 4 = o' / 4) as (-> & -> & -> & ->) by div_lia.
  by rewrite Hs, Hs'.
Qed.

(** The field of [w] bits at [s], and its replacement. *)
Definition field (x s w : Z) : Z := Z.shiftr x s mod 2 ^ w.

Definition merge (e v s w : Z) : Z :=
  Z.lor (Z.land e (u32_not (u32_shl (2 ^ w - 1) s))) (u32_shl v s).

Lemma merge_bit e v s w j :
  0 <= s → 0 < w → s + w <= 32 → 0 <= v < 2 ^ w → 0 <= j < 32 →
  Z.testbit (merge e v s w) j = if (s <=? j) && (j <? s + w) then Z.testbit v (j - s) else Z.testbit e j.
Proof.
  intros Hs Hw Hsw Hv Hj. unfold merge, u32_not, u32_shl, u32_max.
  change (2 ^ 32 - 1) with (Z.ones 32). replace (2 ^ w - 1) with (Z.ones w) by (rewrite Z.ones_equiv; lia).
  rewrite Z.lor_spec, Z.land_spec, Z.lxor_spec, !Z.mod_pow2_bits_low, !Z.shiftl_spec by lia.
  rewrite (Z.ones_spec_low 32) by lia.
  destruct (Z.leb_spec s j); cbn [andb].
  - destruct (Z.ltb_spec j (s + w)).
    + rewrite Z.ones_spec_low by lia. by rewrite andb_false_r.
    + rewrite Z.ones_spec_high by lia. rewrite <- (Z.mod_small v (2 ^ w)), Z.mod_pow2_bits_high by lia.
      by rewrite andb_true_r, orb_false_r.
  - rewrite (Z.testbit_neg_r (Z.ones w)), (Z.testbit_neg_r v) by lia.
    by rewrite andb_true_r, orb_false_r.
Qed.

Lemma field_ext x y s w :
  0 <= w → 0 <= s → (∀ j, s <= j < s + w → Z.testbit x j = Z.testbit y j) → field x s w = field y s w.
Proof.
  intros Hw Hs Hxy. unfold field. apply Z.bits_inj'. intros i Hi.
  destruct (Z.lt_ge_cases i w) as [Hlt|Hge].
  - rewrite !Z.mod_pow2_bits_low, !Z.shiftr_spec by lia. apply Hxy. lia.
  - by rewrite !Z.mod_pow2_bits_high by lia.
Qed.

(** A replaced field reads back; a disjoint one is not affected. *)
Lemma field_merge e v s w :
  0 <= s → 0 < w → s + w <= 32 → 0 <= v < 2 ^ w → field (merge e v s w) s w = v.
Proof.
  intros Hs Hw Hsw Hv. transitivity (field (Z.shiftl v s) s w).
  - apply field_ext; [lia|lia|]. intros j Hj. rewrite merge_bit by lia.
    rewrite (proj2 (Z.leb_le s j)), (proj2 (Z.ltb_lt j (s + w))) by lia. by rewrite Z.shiftl_spec by lia.
  - unfold field. rewrite Z.shiftr_shiftl_l, Z.sub_diag, Z.shiftl_0_r by lia. by apply Z.mod_small.
Qed.

Lemma field_merge_other e v s w s' w' :
  0 <= s → 0 < w → s + w <= 32 → 0 <= v < 2 ^ w → 0 <= s' → 0 <= w' → s' + w' <= 32 →
  s' + w' <= s ∨ s + w <= s' → field (merge e v s w) s' w' = field e s' w'.
Proof.
  intros. apply field_ext; [lia|lia|]. intros j Hj. rewrite merge_bit by lia.
  destruct (Z.leb_spec s j), (Z.ltb_spec j (s + w)); cbn [andb]; try done. lia.
Qed.

(** ** Properties *)

(** The configuration space as bytes.  Through the 32-bit registers, writing a
    byte changes that byte of that device function and no other byte of any
    function: what any byte read returns afterwards. *)
Theorem pci_byte_write_read cfg pci pci' o o' v
    (Hp : pci_ok pci) (Hp' : pci_ok pci') (Ho : 0 <= o < 256) (Ho' : 0 <= o' < 256)
    (Hv : 0 <= v < 256) :
  ∃ cfg', write_pci_u8 cfg pci o v = Ret cfg' ∧
    (pci = pci' ∧ o = o' → read_pci_u8 cfg' pci' o' = Ret v) ∧
    (¬ (pci = pci' ∧ o = o') → read_pci_u8 cfg' pci' o' = read_pci_u8 cfg pci' o') ∧
    read_pci_u32 cfg' pci o = Ret (cfg' (config_reg pci o)).
Proof.
  unfold write_pci_u8, read_pci_u8, read_pci_u32.
  rewrite !pci_config_address_ret by done. cbn [mbind outcome_bind].
  rewrite !land_low2 by lia. eexists. split; [reflexivity|].
  fold (merge (cfg (config_reg pci o)) v (o mod 4 * 8) 8).
  pose proof (Z.mod_pos_bound o 4 ltac:(lia)). pose proof (Z.mod_pos_bound o' 4 ltac:(lia)).
  split; [|split; [|done]].
  - intros [<- <-]. unfold config_write. rewrite Z.eqb_refl.
    f_equal. apply (field_merge _ v (o mod 4 * 8) 8); lia.
  - intros Hne. unfold config_write.
    destruct (Z.eqb_spec (config_reg pci' o') (config_reg pci o)) as [Heq|]; [|done].
    apply config_reg_inj in Heq as [-> Hdiv]; [|done..].
    replace (config_reg pci o') with (config_reg pci o) by (unfold config_reg; congruence).
    f_equal. apply (field_merge_other _ v (o mod 4 * 8) 8); try lia.
    assert (o mod 4 ≠ o' mod 4); [|lia]. intros Hmod. apply Hne. split; [done|]. div_lia.
Qed.

Lemma pci_byte_write_read_witness :
  let pci := mkPci 0 3 31 7 in
  ∃ cfg', write_pci_u8 (λ _, 0x11223344) pci 0x42 0xAB = Ret cfg' ∧
    read_pci_u8 cfg' pci 0x42 = Ret 0xAB ∧ read_pci_u8 cfg' pci 0x43 = Ret 0x11.
Proof.
  intros pci. assert (pci_ok pci) as Hp by (split; (reflexivity || (split; [discriminate|reflexivity]))).
  destruct (pci_byte_write_read (λ _, 0x11223344) pci pci 0x42 0x42 0xAB Hp Hp
    ltac:(lia) ltac:(lia) ltac:(lia)) as (cfg' & Hw & Hr & _).
  destruct (pci_byte_write_read (λ _, 0x11223344) pci pci 0x42 0x43 0xAB Hp Hp
    ltac:(lia) ltac:(lia) ltac:(lia)) as (cfg2 & Hw2 & _ & Hr2 & _).
  rewrite Hw in Hw2. injection Hw2 as <-.
  exists cfg'. split; [exact Hw|]. split; [by apply Hr|].
  rewrite Hr2 by (intros [_ ?]; discriminate). reflexivity.
Defined.

(** The processors reported are the local APIC entries of the table, in order. *)
Definition entry_cpu (e : MadtEntry) : option LogicalCpu :=
  match e with
  | LocalApic p a flags => Some (mkCpuInfo p a (Z.odd flags))
  | OtherEntry => None
  end.

Lemma discover_cpus tables rsdp t :
  discover tables rsdp = Ok t →
  ∃ entries, tables rsdp = Some (Some (local_apic_address t, entries)) ∧
             cpus t = omap entry_cpu entries.
Proof.
  unfold discover. destruct (tables rsdp) as [[[lapic entries]|]|]; [|done..].
  intros [= <-]. exists entries. split; [done|]. cbn [cpus].
  change (omap entry_cpu entries) with ([] ++ omap entry_cpu entries).
  generalize (@nil LogicalCpu). induction entries as [|e es IH]; intros acc; cbn [foldl omap list_omap].
  - by rewrite app_nil_r.
  - rewrite IH. destruct e as [p a f|]; cbn [entry_cpu]; [|done]. unfold vec_push. rewrite <- app_assoc.
    do 4 f_equal. change 1 with (Z.ones 1). rewrite Z.land_ones by lia. rewrite Zmod_odd. by destruct (Z.odd f).
Qed.
