(* ===== verification/PciPorts.v ===== *)
(** * The ACPI handler's port accesses

    The rest of [IdentityMappedHandler] of [src/kernel-x86_64/src/acpi_topology.rs]: the
    accesses to single ports, the configuration accesses as the two port accesses each
    consists of, which [Topology] takes as one access to the space of registers, and the
    entry points that only panic. *)
From S2P Require Import Prelude Topology.

(** ** Ports *)

Inductive port_width := Byte | Word | Dword.

(** [x86_64]'s [Port] at three widths: the [in] and [out] instructions, on the state of
    the devices. *)
Class IoPorts (S : Type) := {
  port_read : port_width → Z → S → S * Z;
  port_write : port_width → Z → Z → S → S;
}.

(** A host bridge with configuration mechanism 1: the address port is a latch, the data
    port a window on the register it names. *)
Class HostBridge (S : Type) `{IoPorts S} := {
  latch : S → Z;
  config_of : S → config_space;
  latch_selected a s : latch (port_write Dword PCI_CONFIG_ADDRESS a s) = a;
  config_selected a s : config_of (port_write Dword PCI_CONFIG_ADDRESS a s) = config_of s;
  data_read s : (port_read Dword PCI_CONFIG_DATA s).2 = config_of s (latch s);
  latch_kept s : latch (port_read Dword PCI_CONFIG_DATA s).1 = latch s;
  config_kept s : config_of (port_read Dword PCI_CONFIG_DATA s).1 = config_of s;
  data_written v s : config_of (port_write Dword PCI_CONFIG_DATA v s) = config_write (config_of s) (latch s) v;
}.

Section handler.
Context {S : Type} `{IoPorts S}.
Implicit Type s : S.

Definition read_io_u8 s (port : Z) : S * Z := port_read Byte port s.
Definition read_io_u16 s (port : Z) : S * Z := port_read Word port s.
Definition read_io_u32 s (port : Z) : S * Z := port_read Dword port s.
Definition write_io_u8 s (port value : Z) : S := port_write Byte port value s.
Definition write_io_u16 s (port value : Z) : S := port_write Word port value s.
Definition write_io_u32 s (port value : Z) : S := port_write Dword port value s.

(** The first access of each of the six, with what happens before the second. *)
Definition select (amid : S → S) s (address : PciAddress) (offset : Z) : outcome S :=
  a ← pci_config_address address offset;
  Ret (amid (port_write Dword PCI_CONFIG_ADDRESS a s)).

Section amid.
Variable amid : S → S.

Definition ports_read_u8 s (address : PciAddress) (offset : Z) : outcome (S * Z) :=
  s ← select amid s address offset;
  let '(s, dword) := port_read Dword PCI_CONFIG_DATA s in
  Ret (s, Z.shiftr dword (Z.land offset 3 * 8) mod 2 ^ 8).

Definition ports_read_u16 s (address : PciAddress) (offset : Z) : outcome (S * Z) :=
  s ← select amid s address offset;
  let '(s, dword) := port_read Dword PCI_CONFIG_DATA s in
  Ret (s, Z.shiftr dword (Z.land offset 2 * 8) mod 2 ^ 16).

Definition ports_read_u32 s (address : PciAddress) (offset : Z) : outcome (S * Z) :=
  s ← select amid s address offset;
  Ret (port_read Dword PCI_CONFIG_DATA s).

Definition ports_write_u8 s (address : PciAddress) (offset value : Z) : outcome S :=
  s ← select amid s address offset;
  let shift := Z.land offset 3 * 8 in
  let '(s, existing) := port_read Dword PCI_CONFIG_DATA s in
  let merged := Z.lor (Z.land existing (u32_not (u32_shl 0xFF shift))) (u32_shl value shift) in
  Ret (port_write Dword PCI_CONFIG_DATA merged s).

Definition ports_write_u16 s (address : PciAddress) (offset value : Z) : outcome S :=
  s ← select amid s address offset;
  let shift := Z.land offset 2 * 8 in
  let '(s, existing) := port_read Dword PCI_CONFIG_DATA s in
  let merged := Z.lor (Z.land existing (u32_not (u32_shl 0xFFFF shift))) (u32_shl value shift) in
  Ret (port_write Dword PCI_CONFIG_DATA merged s).

Definition ports_write_u32 s (address : PciAddress) (offset value : Z) : outcome S :=
  s ← select amid s address offset;
  Ret (port_write Dword PCI_CONFIG_DATA value s).
End amid.
End handler.

(** [unimplemented!]. *)
Definition nanos_since_boot : outcome Z := Panic.
Definition stall (microseconds : Z) : outcome unit := Panic.
Definition sleep (milliseconds : Z) : outcome unit := Panic.
Definition create_mutex : outcome Z := Panic.
Definition acquire (mutex timeout : Z) : outcome unit := Panic.
Definition release (mutex : Z) : outcome unit := Panic.

(** ** A concrete bridge *)

Record bridge := mkBridge { selected : Z; registers : config_space }.

#[export] Instance bridge_ports : IoPorts bridge := {
  port_read w p s := (s, if p =? PCI_CONFIG_DATA then s.(registers) s.(selected) else 0);
  port_write w p v s :=
    if p =? PCI_CONFIG_ADDRESS then mkBridge v s.(registers)
    else if p =? PCI_CONFIG_DATA then mkBridge s.(selected) (config_write s.(registers) s.(selected) v)
    else s;
}.

#[export] Instance bridge_laws : HostBridge bridge.
Proof. by refine {| latch := selected; config_of := registers |}. Defined.

(** ** Refinement *)

Section refinement.
Context {S : Type} `{HostBridge S}.
Implicit Type s : S.

(** The second access, when nothing came between. *)
Lemma read_selected a s :
  ∃ s', port_read Dword PCI_CONFIG_DATA (port_write Dword PCI_CONFIG_ADDRESS a s) = (s', config_of s a) ∧
    config_of s' = config_of s ∧ latch s' = a.
Proof.
  set (s1 := port_write Dword PCI_CONFIG_ADDRESS a s).
  exists (port_read Dword PCI_CONFIG_DATA s1).1. split; [|split].
  - rewrite (surjective_pairing (port_read _ _ s1)) at 1. f_equal. rewrite data_read. unfold s1.
    by rewrite latch_selected, config_selected.
  - rewrite config_kept. apply config_selected.
  - rewrite latch_kept. apply latch_selected.
Qed.

Ltac selects := unfold select;
  match goal with |- context [pci_config_address ?p ?o] =>
    let a := fresh "a" in destruct (pci_config_address p o) as [a| |]; [|done..];
    cbn [mbind outcome_bind id fmap outcome_fmap] end.

Lemma reads_refine s address offset :
  (λ r, (config_of r.1, r.2)) <$> ports_read_u8 id s address offset =
    (λ v, (config_of s, v)) <$> read_pci_u8 (config_of s) address offset ∧
  (λ r, (config_of r.1, r.2)) <$> ports_read_u16 id s address offset =
    (λ v, (config_of s, v)) <$> read_pci_u16 (config_of s) address offset ∧
  (λ r, (config_of r.1, r.2)) <$> ports_read_u32 id s address offset =
    (λ v, (config_of s, v)) <$> read_pci_u32 (config_of s) address offset.
Proof.
  unfold ports_read_u8, ports_read_u16, ports_read_u32, read_pci_u8, read_pci_u16, read_pci_u32.
  split_and!; selects; destruct (read_selected a s) as (s' & -> & <- & _); done.
Qed.

Lemma writes_refine s address offset v :
  config_of <$> ports_write_u8 id s address offset v = write_pci_u8 (config_of s) address offset v ∧
  config_of <$> ports_write_u16 id s address offset v = write_pci_u16 (config_of s) address offset v ∧
  config_of <$> ports_write_u32 id s address offset v = write_pci_u32 (config_of s) address offset v.
Proof.
  unfold ports_write_u8, ports_write_u16, ports_write_u32, write_pci_u8, write_pci_u16, write_pci_u32.
  split_and!; selects.
  - destruct (read_selected a s) as (s' & -> & Hc & Hl). cbn. by rewrite data_written, Hc, Hl.
  - destruct (read_selected a s) as (s' & -> & Hc & Hl). cbn. by rewrite data_written, Hc, Hl.
  - cbn. by rewrite data_written, latch_selected, config_selected.
Qed.

(** A configuration access as two port accesses is the access to the space of registers
    that [Topology] takes it for, panics included, as long as nothing selects another
    register between the two: if something does, a read answers from that register, and
    a write goes to it. *)
Theorem pci_ports_refine s address offset v :
  ((λ r, (config_of r.1, r.2)) <$> ports_read_u8 id s address offset =
     (λ v, (config_of s, v)) <$> read_pci_u8 (config_of s) address offset ∧
   (λ r, (config_of r.1, r.2)) <$> ports_read_u16 id s address offset =
     (λ v, (config_of s, v)) <$> read_pci_u16 (config_of s) address offset ∧
   (λ r, (config_of r.1, r.2)) <$> ports_read_u32 id s address offset =
     (λ v, (config_of s, v)) <$> read_pci_u32 (config_of s) address offset) ∧
  (config_of <$> ports_write_u8 id s address offset v = write_pci_u8 (config_of s) address offset v ∧
   config_of <$> ports_write_u16 id s address offset v = write_pci_u16 (config_of s) address offset v ∧
   config_of <$> ports_write_u32 id s address offset v = write_pci_u32 (config_of s) address offset v) ∧
  (∀ a b, pci_config_address address offset = Ret a →
     let amid := port_write Dword PCI_CONFIG_ADDRESS b in
     snd <$> ports_read_u32 amid s address offset = Ret (config_of s b) ∧
     config_of <$> ports_write_u32 amid s address offset v = Ret (config_write (config_of s) b v)).
Proof.
  split; [apply reads_refine|]. split; [apply writes_refine|]. intros a b Ha. cbn zeta.
  unfold ports_read_u32, ports_write_u32, select. rewrite Ha. cbn [mbind outcome_bind].
  destruct (read_selected b (port_write Dword PCI_CONFIG_ADDRESS a s)) as (s' & -> & _ & _). cbn.
  by rewrite data_written, latch_selected, !config_selected.
Qed.
End refinement.

Lemma pci_ports_refine_witness :
  let s := mkBridge 0 (λ a, a + 7) in
  let function0 := mkPci 0 1 2 0 in
  pci_config_address function0 0x10 = Ret 0x80011010 ∧
  snd <$> ports_read_u32 (port_write Dword PCI_CONFIG_ADDRESS 0x80000000) s function0 0x10 = Ret 0x80000007.
Proof.
  intros s function0.
  assert (pci_config_address function0 0x10 = Ret 0x80011010) as Ha by reflexivity.
  split; [exact Ha|]. destruct (pci_ports_refine s function0 0x10 0) as (_ & _ & Hamid).
  exact (proj1 (Hamid _ 0x80000000 Ha)).
Defined.
