(* ===== verification/AcpiHandler.v ===== *)
(** * The ACPI handler's window on physical memory

    Model of the [IdentityMappedHandler] of [src/kernel-x86_64/src/acpi_topology.rs]:
    physical addresses are read and written through the window the bootloader mapped
    all physical memory at, little-endian, at four widths.  The memory is the kernel's
    view, by virtual address. *)
From S2P Require Import Prelude Context.

(** ** The handler *)

(** [acpi::PhysicalMapping], without the handler it carries. *)
Record PhysicalMapping := mkMapping {
  physical_start : Z;
  virtual_start : Z;
  region_length : Z;
  mapped_length : Z;
}.

(** [ptr::read_volatile] and [write_volatile] of [n] bytes at [a]: the dev profile
    checks the pointer first; without the check the processor does the access. *)
Definition read_volatile `{Profile} (n : nat) (m : memory) (a : Z) : outcome Z :=
  if overflow_checks && ((a =? 0) || negb (a mod Z.of_nat n =? 0)) then Panic
  else Ret (load_bytes n m a).

Definition write_volatile `{Profile} (n : nat) (m : memory) (a v : Z) : outcome memory :=
  if overflow_checks && ((a =? 0) || negb (a mod Z.of_nat n =? 0)) then Panic
  else Ret (store_bytes n m a v).

Section handler.
(** [PHYS_MEM_OFFSET] of [paging.rs], set by [paging::init]. *)
Context `{Profile} (PHYS_MEM_OFFSET : option Z).

Definition phys_mem_offset : outcome Z :=
  match PHYS_MEM_OFFSET with
  | Some offset => Ret offset
  | None => Panic
  end.

(** [phys_mem_offset() + address as u64]. *)
Definition virt_of (address : Z) : outcome Z :=
  offset ← phys_mem_offset;
  u64_add offset address.

(** [NonNull::new] refuses the null pointer. *)
Definition map_physical_region (physical_address size : Z) : outcome PhysicalMapping :=
  virt ← virt_of physical_address;
  if virt =? 0 then Panic
  else Ret (mkMapping physical_address virt size size).

Definition read_u8 m address : outcome Z := a ← virt_of address; read_volatile 1 m a.
Definition read_u16 m address : outcome Z := a ← virt_of address; read_volatile 2 m a.
Definition read_u32 m address : outcome Z := a ← virt_of address; read_volatile 4 m a.
Definition read_u64 m address : outcome Z := a ← virt_of address; read_volatile 8 m a.

Definition write_u8 m address value : outcome memory :=
  a ← virt_of address; write_volatile 1 m a value.
Definition write_u16 m address value : outcome memory :=
  a ← virt_of address; write_volatile 2 m a value.
Definition write_u32 m address value : outcome memory :=
  a ← virt_of address; write_volatile 4 m a value.
Definition write_u64 m address value : outcome memory :=
  a ← virt_of address; write_volatile 8 m a value.
End handler.

(** ** Lemmas *)

(** An aligned access of [n] bytes at [address] that lies in the window. *)
Record in_window (offset address : Z) (n : nat) : Prop := {
  window_base : 0 < offset;
  window_address : 0 <= address;
  window_end : offset + address + Z.of_nat n <= 2 ^ 64;
  window_aligned : (offset + address) mod Z.of_nat n = 0;
}.

Section lemmas.
Context `{Profile} (offset : Z).

Lemma virt_of_ret address n :
  in_window offset address (S n) → virt_of (Some offset) address = Ret (offset + address).
Proof. intros [Ho Ha He _]. unfold virt_of. cbn. by rewrite u64_add_ret by lia. Qed.

Lemma pointer_check address n :
  in_window offset address n →
  overflow_checks && ((offset + address =? 0) || negb ((offset + address) mod Z.of_nat n =? 0)) = false.
Proof.
  intros [Ho Ha _ Hm]. rewrite Hm. destruct (Z.eqb_spec (offset + address) 0); [lia|]. apply andb_false_r.
Qed.

Lemma read_ret m address n :
  in_window offset address (S n) →
  (a ← virt_of (Some offset) address; read_volatile (S n) m a) = Ret (load_bytes (S n) m (offset + address)).
Proof.
  intros Hw. rewrite (virt_of_ret _ n) by done. cbn [mbind outcome_bind]. unfold read_volatile.
  by rewrite pointer_check.
Qed.

Lemma write_ret m address n v :
  in_window offset address (S n) →
  (a ← virt_of (Some offset) address; write_volatile (S n) m a v) =
    Ret (store_bytes (S n) m (offset + address) v).
Proof.
  intros Hw. rewrite (virt_of_ret _ n) by done. cbn [mbind outcome_bind]. unfold write_volatile.
  by rewrite pointer_check.
Qed.
End lemmas.

(** A load is the low part and the high part. *)
Lemma load_bytes_add n k m a :
  load_bytes (n + k) m a = load_bytes n m a + 256 ^ Z.of_nat n * load_bytes k m (a + Z.of_nat n).
Proof.
  revert a. induction n as [|n IH]; intros a.
  - change (256 ^ Z.of_nat 0) with 1. replace (a + Z.of_nat 0) with a by lia. cbn. lia.
  - cbn [Nat.add load_bytes]. rewrite IH. rewrite (Nat2Z.inj_succ n), Z.pow_succ_r by lia.
    replace (a + 1 + Z.of_nat n) with (a + Z.succ (Z.of_nat n)) by lia. lia.
Qed.

(** ** Properties *)

(** The four widths, as the accesses of the code. *)
Inductive width := W8 | W16 | W32 | W64.

Definition bytes_of (w : width) : nat := match w with W8 => 1 | W16 => 2 | W32 => 4 | W64 => 8 end.

Definition read_at `{Profile} (off : option Z) (w : width) : memory → Z → outcome Z :=
  match w with
  | W8 => read_u8 off | W16 => read_u16 off | W32 => read_u32 off | W64 => read_u64 off
  end.

Definition write_at `{Profile} (off : option Z) (w : width) : memory → Z → Z → outcome memory :=
  match w with
  | W8 => write_u8 off | W16 => write_u16 off | W32 => write_u32 off | W64 => write_u64 off
  end.

Lemma read_at_ret `{Profile} off w m p :
  in_window off p (bytes_of w) → read_at (Some off) w m p = Ret (load_bytes (bytes_of w) m (off + p)).
Proof. destruct w; intros Hw; by apply read_ret. Qed.

Lemma write_at_ret `{Profile} off w m p v :
  in_window off p (bytes_of w) → write_at (Some off) w m p v = Ret (store_bytes (bytes_of w) m (off + p) v).
Proof. destruct w; intros Hw; by apply write_ret. Qed.

(** Memory behind the window: an aligned write at any of the four widths is read back,
    leaves every access to other physical bytes as it was, and is seen by the narrower
    accesses as its little-endian halves; the region mapped for the same address points
    at the same bytes; before [paging::init] every access panics. *)
Theorem physical_window `{Profile} off w m p v
    (Hw : in_window off p (bytes_of w)) (Hv : 0 <= v < 256 ^ Z.of_nat (bytes_of w)) :
  ∃ m', write_at (Some off) w m p v = Ret m' ∧
    read_at (Some off) w m' p = Ret v ∧
    (∀ w' q, in_window off q (bytes_of w') →
       q + Z.of_nat (bytes_of w') <= p ∨ p + Z.of_nat (bytes_of w) <= q →
       read_at (Some off) w' m' q = read_at (Some off) w' m q) ∧
    (∀ w' lo hi, bytes_of w = (bytes_of w' + bytes_of w')%nat →
       read_at (Some off) w' m' p = Ret lo →
       read_at (Some off) w' m' (p + Z.of_nat (bytes_of w')) = Ret hi →
       v = lo + 256 ^ Z.of_nat (bytes_of w') * hi) ∧
    (∃ r, map_physical_region (Some off) p (Z.of_nat (bytes_of w)) = Ret r ∧
       load_bytes (bytes_of w) m' (virtual_start r) = v) ∧
    read_at None w m p = Panic ∧ write_at None w m p v = Panic.
Proof.
  exists (store_bytes (bytes_of w) m (off + p) v).
  assert (load_bytes (bytes_of w) (store_bytes (bytes_of w) m (off + p) v) (off + p) = v) as Hback
    by by apply load_store_bytes.
  split_and!.
  - by apply write_at_ret.
  - by rewrite read_at_ret, Hback.
  - intros w' q Hq Hd. rewrite !read_at_ret by done. f_equal. apply load_bytes_ext.
    intros b Hb. apply store_bytes_out. lia.
  - intros w' lo hi Hn Hlo Hhi.
    assert (in_window off p (bytes_of w') ∧
            in_window off (p + Z.of_nat (bytes_of w')) (bytes_of w')) as [H1 H2].
    { destruct Hw as [? ? ? Ha]. rewrite Hn in *.
      assert (0 < Z.of_nat (bytes_of w')) by (destruct w'; cbn; lia).
      rewrite Nat2Z.inj_add in *. assert ((off + p) mod Z.of_nat (bytes_of w') = 0) as Hm.
      { apply Z.mod_divide; [lia|]. apply Z.mod_divide in Ha; [|lia]. destruct Ha as [k Hk].
        exists (2 * k). lia. }
      split; constructor; try lia.
      set (k := Z.of_nat (bytes_of w')) in *. replace (off + (p + k)) with (off + p + 1 * k) by lia.
      rewrite Z.mod_add; lia. }
    rewrite read_at_ret in Hlo, Hhi by done. injection Hlo as <-. injection Hhi as <-.
    rewrite <- Hback at 1. rewrite Hn at 1. rewrite load_bytes_add, Z.add_assoc. done.
  - destruct Hw as [? ? ? ?]. assert (0 < Z.of_nat (bytes_of w)) by (destruct w; cbn; lia).
    unfold map_physical_region, virt_of. cbn [phys_mem_offset mbind outcome_bind].
    rewrite u64_add_ret by lia. cbn [mbind outcome_bind].
    destruct (Z.eqb_spec (off + p) 0); [lia|]. eexists. split; [done|exact Hback].
  - by destruct w.
  - by destruct w.
Qed.

Lemma physical_window_witness :
  ∃ m', @write_at true (Some 0x10000000000) W32 (λ _, 0) 0xFEE00300 0xC4500 = Ret m' ∧
    @read_at true (Some 0x10000000000) W32 m' 0xFEE00300 = Ret 0xC4500.
Proof.
  destruct (@physical_window true 0x10000000000 W32 (λ _, 0) 0xFEE00300 0xC4500) as (m' & H1 & H2 & _).
  - constructor; reflexivity || discriminate.
  - split; [discriminate|reflexivity].
  - exists m'. exact (conj H1 H2).
Defined.
