(* ===== verification/Smp.v ===== *)
(** * Bringing up a second processor

    Model of [src/kernel-x86_64/src/smp.rs] and of the check of it in [main.rs].  The
    boot processor's routine runs against a schedule: before each of its atomic loads,
    before it takes the lock of [TICKS] and while it holds it, a slice of events happens,
    ticks of the timer and steps of the other processor; while it prints, with interrupts
    off, only the other processor steps.  That processor is woken by the interrupts the
    routine sends, goes through the trampoline ([smp/ap_trampoline.asm]) and then runs
    [ap_entry64].  Both print through the lock of [SERIAL1].  A call that hangs, in a lock
    that nobody gives back, is [Diverge], as is one that the schedule ends in.

    The tick budget of the scheduler has run out when this code runs ([main.rs:434-475]),
    so that a tick comes back to it without running a task.  What is printed before the
    first interrupt is sent is left out: the other processor does not run, and no other
    thread holds the lock ([SerialLock]). *)
From S2P Require Import Prelude Buddy Paging Topology Context.

Definition TRAMPOLINE_PHYS_ADDR : Z := 0x8000.
Definition AP_STACK_SIZE : Z := 64 * 1024.
Definition LAPIC_REG_ICR_LOW : Z := 0x300.
Definition LAPIC_REG_ICR_HIGH : Z := 0x310.
Definition LAPIC_VIRT_BASE : Z := 0x222222220000.
Definition NO_CACHE : Z := 16.

(** The field of CPUID leaf 1 that holds the initial APIC id. *)
Definition this_core_apic_id (ebx : Z) : Z := Z.shiftr ebx 24 mod 2 ^ 8.

(** What [build.rs] takes from the assembler: the symbols of the trampoline and its
    bytes. *)
Record trampoline := mkTrampoline {
  AP_TRAMPOLINE_START : Z;
  AP_TRAMPOLINE_END : Z;
  AP_CR3 : Z;
  AP_STACK_TOP : Z;
  AP_ENTRY_ADDR : Z;
  TRAMPOLINE_BLOB : list Z;
}.

(** ** The shared state *)

(** The instructions of [ap_entry64]. *)
Inductive ap_instr :=
| InitForAp | InitIdt | StoreReportedId | StoreStarted | Int3 | StoreFaultSurvived | Cli
| LockSerial | WriteText | UnlockSerial.

(** [serial_println!]: the lock of [SERIAL1], the text, the drop of the guard. *)
Definition ap_println : list ap_instr := [LockSerial; WriteText; UnlockSerial].

(** The handler [int3] goes to; it prints, and returns to the next instruction. *)
Definition breakpoint_handler : list ap_instr := ap_println.

Definition ap_entry64 : list ap_instr :=
  [InitForAp; InitIdt; StoreReportedId] ++ ap_println ++ [StoreStarted] ++ ap_println ++
  [Int3] ++ breakpoint_handler ++ ap_println ++ [StoreFaultSurvived; Cli].

(** The other processor: not started, waiting for the startup interrupt, in the
    trampoline, before an instruction of [ap_entry64] (past the last one it halts for
    ever), or shut down by a fault in the trampoline, which has no IDT. *)
Inductive ap_state := ApReset | ApWaitSipi | ApTrampoline | ApAt (pc : nat) | ApShutdown.

#[export] Instance ap_instr_eq_dec : EqDecision ap_instr.
Proof. solve_decision. Defined.

#[export] Instance ap_state_eq_dec : EqDecision ap_state.
Proof. solve_decision. Defined.

Inductive event := Tick | ApStep.

#[export] Instance event_eq_dec : EqDecision event.
Proof. solve_decision. Defined.

Inductive processor := BootProcessor | OtherProcessor.

#[export] Instance processor_eq_dec : EqDecision processor.
Proof. solve_decision. Defined.

(** What both processors see, the registers the trampoline leaves (CR3, RSP, RIP), the
    users of the heap, who holds the lock of [SERIAL1], and what is still to come: the
    events before each access of the boot processor, those while it holds the lock of
    [TICKS], and the steps of the other processor while it prints. *)
Record machine := mkMachine {
  AP_STARTED : bool;
  AP_FAULT_SURVIVED : bool;
  AP_REPORTED_APIC_ID : Z;
  TICKS : Z;
  lapic_log : list (Z * Z);
  phys_mem : memory;
  ap : ap_state;
  ap_registers : Z * Z * Z;
  heap_users : list processor;
  SERIAL1 : option processor;
  schedule : list (list event);
  in_lock : list (list event);
  in_print : list nat;
}.

Definition set_flags s (started survived : bool) reported : machine :=
  mkMachine started survived reported s.(TICKS) s.(lapic_log) s.(phys_mem) s.(ap) s.(ap_registers)
    s.(heap_users) s.(SERIAL1) s.(schedule) s.(in_lock) s.(in_print).
Definition set_ticks s t : machine :=
  mkMachine s.(AP_STARTED) s.(AP_FAULT_SURVIVED) s.(AP_REPORTED_APIC_ID) t s.(lapic_log) s.(phys_mem) s.(ap)
    s.(ap_registers) s.(heap_users) s.(SERIAL1) s.(schedule) s.(in_lock) s.(in_print).
Definition set_log s l : machine :=
  mkMachine s.(AP_STARTED) s.(AP_FAULT_SURVIVED) s.(AP_REPORTED_APIC_ID) s.(TICKS) l s.(phys_mem) s.(ap)
    s.(ap_registers) s.(heap_users) s.(SERIAL1) s.(schedule) s.(in_lock) s.(in_print).
Definition set_phys_mem s m : machine :=
  mkMachine s.(AP_STARTED) s.(AP_FAULT_SURVIVED) s.(AP_REPORTED_APIC_ID) s.(TICKS) s.(lapic_log) m s.(ap)
    s.(ap_registers) s.(heap_users) s.(SERIAL1) s.(schedule) s.(in_lock) s.(in_print).
Definition set_ap s a regs : machine :=
  mkMachine s.(AP_STARTED) s.(AP_FAULT_SURVIVED) s.(AP_REPORTED_APIC_ID) s.(TICKS) s.(lapic_log) s.(phys_mem)
    a regs s.(heap_users) s.(SERIAL1) s.(schedule) s.(in_lock) s.(in_print).
Definition add_heap_user s u : machine :=
  mkMachine s.(AP_STARTED) s.(AP_FAULT_SURVIVED) s.(AP_REPORTED_APIC_ID) s.(TICKS) s.(lapic_log) s.(phys_mem)
    s.(ap) s.(ap_registers) (s.(heap_users) ++ [u]) s.(SERIAL1) s.(schedule) s.(in_lock) s.(in_print).
Definition set_serial s o : machine :=
  mkMachine s.(AP_STARTED) s.(AP_FAULT_SURVIVED) s.(AP_REPORTED_APIC_ID) s.(TICKS) s.(lapic_log) s.(phys_mem)
    s.(ap) s.(ap_registers) s.(heap_users) o s.(schedule) s.(in_lock) s.(in_print).
Definition set_schedule s sc : machine :=
  mkMachine s.(AP_STARTED) s.(AP_FAULT_SURVIVED) s.(AP_REPORTED_APIC_ID) s.(TICKS) s.(lapic_log) s.(phys_mem)
    s.(ap) s.(ap_registers) s.(heap_users) s.(SERIAL1) sc s.(in_lock) s.(in_print).
Definition set_in_lock s sc : machine :=
  mkMachine s.(AP_STARTED) s.(AP_FAULT_SURVIVED) s.(AP_REPORTED_APIC_ID) s.(TICKS) s.(lapic_log) s.(phys_mem)
    s.(ap) s.(ap_registers) s.(heap_users) s.(SERIAL1) s.(schedule) sc s.(in_print).
Definition set_in_print s sc : machine :=
  mkMachine s.(AP_STARTED) s.(AP_FAULT_SURVIVED) s.(AP_REPORTED_APIC_ID) s.(TICKS) s.(lapic_log) s.(phys_mem)
    s.(ap) s.(ap_registers) s.(heap_users) s.(SERIAL1) s.(schedule) s.(in_lock) sc.

(** The state of the boot processor: [MAPPER] with [PHYS], [PHYS_MEM_OFFSET], CR3. *)
Record kernel (M : Type) := mkKernel {
  globals : option (M * PhysicalAllocator);
  phys_mem_offset : option Z;
  boot_cr3 : Z;
  shared : machine;
}.
Arguments mkKernel {M}. Arguments globals {M}. Arguments phys_mem_offset {M}.
Arguments boot_cr3 {M}. Arguments shared {M}.

Definition set_globals {M} (k : kernel M) g : kernel M :=
  mkKernel g k.(phys_mem_offset) k.(boot_cr3) k.(shared).
Definition set_shared {M} (k : kernel M) s : kernel M :=
  mkKernel k.(globals) k.(phys_mem_offset) k.(boot_cr3) s.

Section smp.
Context `{Profile} {M : Type} `{Mapper M}.
(** The trampoline, the address of [ap_entry64], where the heap puts the stack, and
    leaf 1 of CPUID on the other processor. *)
Context (tr : trampoline) (ap_entry64_addr ap_stack ap_ebx : Z).
(** Whether other page tables than the kernel's, in the frame at an address, happen to
    lead to the kernel too. *)
Context (other_tables : Z → bool).

(** *** The other processor *)

(** The trampoline loads CR3 through a 32-bit register. *)
Definition run_trampoline (m : memory) : Z * Z * Z :=
  (load_bytes 4 m (AP_CR3 tr), load64 m (AP_STACK_TOP tr), load64 m (AP_ENTRY_ADDR tr)).

(** Whether what it loaded are page tables with the kernel in them: those the boot
    processor gave, or others. *)
Definition finds_kernel (m : memory) : bool :=
  (load_bytes 4 m (AP_CR3 tr) =? load64 m (AP_CR3 tr)) || other_tables (load_bytes 4 m (AP_CR3 tr)).

Definition exec_ap (i : ap_instr) (s : machine) : machine :=
  match i with
  | InitForAp => add_heap_user s OtherProcessor
  | StoreReportedId => set_flags s s.(AP_STARTED) s.(AP_FAULT_SURVIVED) (this_core_apic_id ap_ebx)
  | StoreStarted => set_flags s true s.(AP_FAULT_SURVIVED) s.(AP_REPORTED_APIC_ID)
  | StoreFaultSurvived => set_flags s s.(AP_STARTED) true s.(AP_REPORTED_APIC_ID)
  | LockSerial => set_serial s (Some OtherProcessor)
  | UnlockSerial => set_serial s None
  | InitIdt | Int3 | Cli | WriteText => s
  end.

(** A lock that is taken is tried again. *)
Definition ap_spins (i : ap_instr) (s : machine) : bool := bool_decide (i = LockSerial ∧ s.(SERIAL1) ≠ None).

(** With wrong page tables the next fetch faults, and the processor shuts down.  It runs
    [ap_entry64] only when that is where the trampoline jumped. *)
Definition ap_step (s : machine) : machine :=
  match s.(ap) with
  | ApReset | ApWaitSipi | ApShutdown => s
  | ApTrampoline =>
      if finds_kernel s.(phys_mem) then set_ap s (ApAt 0) (run_trampoline s.(phys_mem))
      else set_ap s ApShutdown s.(ap_registers)
  | ApAt pc =>
      if negb (s.(ap_registers).2 =? ap_entry64_addr) then s else
      match ap_entry64 !! pc with
      | Some i => if ap_spins i s then s else set_ap (exec_ap i s) (ApAt (Datatypes.S pc)) s.(ap_registers)
      | None => s
      end
  end.

Definition env_step (s : machine) (e : event) : machine :=
  match e with
  | Tick => set_ticks s ((s.(TICKS) + 1) mod 2 ^ 64)
  | ApStep => ap_step s
  end.

(** An atomic load, after the next slice of events. *)
Definition observe {A : Type} (f : machine → A) (s : machine) : outcome (machine * A) :=
  match s.(schedule) with
  | [] => Diverge
  | slice :: rest =>
      let s := foldl env_step (set_schedule s rest) slice in
      Ret (s, f s)
  end.

(** [*TICKS.lock()]: the lock, the load, the drop of the guard.  Interrupts stay enabled:
    [on_timer_tick] takes the same lock, so that a tick in between never returns. *)
Definition tick_count (s : machine) : outcome (machine * Z) :=
  r ← observe (λ _, tt) s;
  match r.1.(in_lock) with
  | [] => Diverge
  | slice :: rest =>
      if bool_decide (Tick ∈ slice) then Diverge else
      let s := foldl env_step (set_in_lock r.1 rest) slice in
      Ret (s, s.(TICKS))
  end.

(** *** Printing *)

(** The boot processor tries the lock of [SERIAL1] until the other one gives it back;
    interrupts are off. *)
Fixpoint lock_serial (steps : list nat) (s : machine) : outcome machine :=
  match steps with
  | [] => Diverge
  | n :: rest =>
      let s := Nat.iter n ap_step (set_in_print s rest) in
      if bool_decide (s.(SERIAL1) = None) then Ret (set_serial s (Some BootProcessor))
      else lock_serial rest s
  end.

(** [serial_println!]: what is written does not matter here. *)
Definition println (s : machine) : outcome machine :=
  s ← lock_serial s.(in_print) s;
  match s.(in_print) with
  | [] => Diverge
  | n :: rest => Ret (set_serial (Nat.iter n ap_step (set_in_print s rest)) None)
  end.

(** *** The local APIC *)

(** An interprocessor interrupt that reaches the other processor: INIT makes it wait
    for the startup interrupt, which is ignored in any other state; a startup vector
    that is not the trampoline's page starts it where it has no code. *)
Definition deliver (s : machine) (icr_high icr_low : Z) : machine :=
  if negb (Z.shiftr icr_high 24 =? this_core_apic_id ap_ebx) then s else
  let mode := Z.land (Z.shiftr icr_low 8) 7 in
  if mode =? 5 then set_ap s ApWaitSipi s.(ap_registers) else
  if (mode =? 6) && bool_decide (s.(ap) = ApWaitSipi) &&
     (Z.land icr_low 0xFF * 4096 =? TRAMPOLINE_PHYS_ADDR)
  then set_ap s ApTrampoline s.(ap_registers) else s.

(** The last value written to the high half of the command register. *)
Definition icr_high (s : machine) : Z :=
  default 0 (snd <$> last (filter (λ w, w.1 = LAPIC_REG_ICR_HIGH) s.(lapic_log))).

(** [lapic_write]: writing the low half of the command register sends. *)
Definition lapic_write (s : machine) (reg value : Z) : machine :=
  let s' := set_log s (s.(lapic_log) ++ [(reg, value)]) in
  if reg =? LAPIC_REG_ICR_LOW then deliver s' (icr_high s) value else s'.

(** *** The boot processor *)

(** [while tick_count() < target]: the schedule is the fuel, one slice per load. *)
Fixpoint spin_until_tick (fuel : nat) (target : Z) (s : machine) : outcome machine :=
  match fuel with
  | O => Diverge
  | Datatypes.S n =>
      r ← tick_count s;
      if r.2 <? target then spin_until_tick n target r.1 else Ret r.1
  end.

Definition busy_wait_ticks (ticks : Z) (s : machine) : outcome machine :=
  r ← tick_count s;
  target ← u64_add r.2 ticks;
  spin_until_tick (Datatypes.S (length r.1.(schedule))) target r.1.

(** [while !flag { if tick_count() > deadline { print; return false } }]. *)
Fixpoint poll_flag (fuel : nat) (flag : machine → bool) (deadline : Z) (s : machine) :
    outcome (machine * bool) :=
  match fuel with
  | O => Diverge
  | Datatypes.S n =>
      r ← observe flag s;
      if (r.2 : bool) then Ret (r.1, true) else
      t ← tick_count r.1;
      if deadline <? t.2 then s ← println t.1; Ret (s, false) else poll_flag n flag deadline t.1
  end.

Definition await_flag (flag : machine → bool) (s : machine) : outcome (machine * bool) :=
  r ← tick_count s;
  deadline ← u64_add r.2 200;
  poll_flag (Datatypes.S (length r.1.(schedule))) flag deadline r.1.

Definition ap_fault_survived : machine → outcome (machine * bool) := observe AP_FAULT_SURVIVED.

(** The sentinel [u64::MAX] is [None]; any other value is cut to a byte. *)
Definition decode_reported (id : Z) : option Z :=
  if id =? u64_max then None else Some (id mod 2 ^ 8).

Definition ap_reported_apic_id : machine → outcome (machine * option Z) :=
  observe (λ s, decode_reported s.(AP_REPORTED_APIC_ID)).

(** [with_mapper_and_phys(.. map_page_to_frame(..).is_ok()).unwrap_or(false)]. *)
Definition try_map (k : kernel M) (vaddr frame flags : Z) : outcome (kernel M * bool) :=
  match k.(globals) with
  | None => Ret (k, false)
  | Some (mapper, phys) =>
      r ← map_page_to_frame adapter_allocate_frame mapper phys vaddr frame flags;
      Ret (set_globals k (Some (r.1.1, r.1.2)), is_ok r.2)
  end.

(** [ptr::copy_nonoverlapping]. *)
Fixpoint copy_bytes (m : memory) (dest : Z) (bytes : list Z) : memory :=
  match bytes with
  | [] => m
  | b :: bytes => copy_bytes (store_byte m dest b) (dest + 1) bytes
  end.

(** A pointer into the mapping of physical memory. *)
Definition physical_of (offset v : Z) : Z := v - offset.

(** [bring_up_ap] up to the interrupts: both pages mapped, the trampoline copied, its
    stack allocated and its three values written. *)
Definition prepare_ap (nx : bool) (k : kernel M) (topology : CpuTopology) :
    outcome (kernel M * bool) :=
  len ← u64_sub (AP_TRAMPOLINE_END tr) (AP_TRAMPOLINE_START tr);
  if overflow_checks && negb (len =? Z.of_nat (length (TRAMPOLINE_BLOB tr))) then Panic else
  lapic_virt ← virt_addr LAPIC_VIRT_BASE;
  r ← try_map k lapic_virt (frame_of topology.(local_apic_address))
        (Z.lor (Z.lor (Z.lor PRESENT WRITABLE) NO_CACHE) (nx_flag nx));
  if negb r.2 then Ret (r.1, false) else
  trampoline_virt ← virt_addr TRAMPOLINE_PHYS_ADDR;
  r ← try_map r.1 trampoline_virt (frame_of TRAMPOLINE_PHYS_ADDR) (Z.lor PRESENT WRITABLE);
  if negb r.2 then Ret (r.1, false) else
  let k := r.1 in
  match k.(phys_mem_offset) with
  | None => Ret (k, false)
  | Some off =>
      dest ← u64_add off TRAMPOLINE_PHYS_ADDR;
      let s := k.(shared) in
      let s := set_phys_mem s (copy_bytes s.(phys_mem) (physical_of off dest) (TRAMPOLINE_BLOB tr)) in
      let s := add_heap_user s BootProcessor in
      ap_stack_top ← u64_add ap_stack AP_STACK_SIZE;
      a ← u64_add off (AP_CR3 tr);
      let s := set_phys_mem s (store64 s.(phys_mem) (physical_of off a) k.(boot_cr3)) in
      a ← u64_add off (AP_STACK_TOP tr);
      let s := set_phys_mem s (store64 s.(phys_mem) (physical_of off a) ap_stack_top) in
      a ← u64_add off (AP_ENTRY_ADDR tr);
      let s := set_phys_mem s (store64 s.(phys_mem) (physical_of off a) ap_entry64_addr) in
      Ret (set_shared k s, true)
  end.

(** One startup interrupt of the loop, with its delay. *)
Definition send_sipi (target_apic_id : Z) (s : machine) : outcome machine :=
  let vector := Z.shiftr TRAMPOLINE_PHYS_ADDR 12 in
  let s := lapic_write s LAPIC_REG_ICR_HIGH (u32_shl target_apic_id 24) in
  let s := lapic_write s LAPIC_REG_ICR_LOW (Z.lor 0x4600 vector) in
  busy_wait_ticks 1 s.

(** INIT and two startup interrupts. *)
Definition wake_ap (target_apic_id : Z) (s : machine) : outcome machine :=
  let s := lapic_write s LAPIC_REG_ICR_HIGH (u32_shl target_apic_id 24) in
  let s := lapic_write s LAPIC_REG_ICR_LOW 0x4500 in
  s ← busy_wait_ticks 3 s;
  s ← send_sipi target_apic_id s;
  send_sipi target_apic_id s.

(** The polling; both flags are confirmed on the console. *)
Definition confirm_ap (s : machine) : outcome (machine * bool) :=
  r ← await_flag AP_STARTED s;
  if negb r.2 then Ret (r.1, false) else
  r ← ap_reported_apic_id r.1;
  s ← println r.1;
  r ← await_flag AP_FAULT_SURVIVED s;
  if negb r.2 then Ret (r.1, false) else
  s ← println r.1;
  Ret (s, true).

(** The rest of [bring_up_ap]. *)
Definition start_ap (target_apic_id : Z) (s : machine) : outcome (machine * bool) :=
  s ← wake_ap target_apic_id s;
  confirm_ap s.

Definition bring_up_ap (nx : bool) (k : kernel M) (topology : CpuTopology) (target_apic_id : Z) :
    outcome (kernel M * bool) :=
  r ← prepare_ap nx k topology;
  if negb r.2 then Ret (r.1, false) else
  let k := r.1 in
  r ← start_ap target_apic_id k.(shared);
  Ret (set_shared k r.1, r.2).

(** The check of [kernel_main]: a processor other than this one is brought up and
    reports its own id. *)
Definition smp_ok (nx : bool) (bsp_ebx : Z) (cpu_topology : option CpuTopology) (k : kernel M) :
    outcome (kernel M * bool) :=
  match cpu_topology with
  | None => Ret (k, false)
  | Some topo =>
      if negb (2 <=? cpu_count topo) then Ret (k, false) else
      let bsp_id := this_core_apic_id bsp_ebx in
      match find (λ c, enabled c && negb (apic_id c =? bsp_id)) topo.(cpus) with
      | None => Ret (k, false)
      | Some c =>
          r ← bring_up_ap nx k topo (apic_id c);
          if negb r.2 then Ret (r.1, false) else
          f ← ap_fault_survived r.1.(shared);
          if negb f.2 then Ret (set_shared r.1 f.1, false) else
          i ← ap_reported_apic_id f.1;
          Ret (set_shared r.1 i.1, bool_decide (i.2 = Some (apic_id c)))
      end
  end.
End smp.

(** ** Memory *)

Lemma load_store_prefix n k m a v :
  (n <= k)%nat → load_bytes n (store_bytes k m a v) a = v mod 256 ^ Z.of_nat n.
Proof.
  revert k m a v. induction n as [|n IH]; intros k m a v Hk; [by rewrite Z.mod_1_r|].
  destruct k as [|k]; [lia|]. cbn [load_bytes store_bytes]. rewrite IH by lia.
  rewrite store_bytes_out by lia. unfold store_byte. rewrite Z.eqb_refl.
  rewrite Nat2Z.inj_succ, Z.pow_succ_r by lia. rewrite Z.rem_mul_r by lia. done.
Qed.

(** The layout of the trampoline: its three slots are its last words. *)
Record trampoline_ok (tr : trampoline) : Prop := {
  tr_start : AP_TRAMPOLINE_START tr = TRAMPOLINE_PHYS_ADDR;
  tr_size : AP_TRAMPOLINE_END tr - AP_TRAMPOLINE_START tr = Z.of_nat (length (TRAMPOLINE_BLOB tr));
  tr_page : AP_TRAMPOLINE_END tr <= TRAMPOLINE_PHYS_ADDR + PAGE_SIZE;
  tr_cr3 : TRAMPOLINE_PHYS_ADDR <= AP_CR3 tr;
  tr_stack : AP_STACK_TOP tr = AP_CR3 tr + 8;
  tr_entry : AP_ENTRY_ADDR tr = AP_CR3 tr + 16;
  tr_end : AP_TRAMPOLINE_END tr = AP_CR3 tr + 24;
}.

Lemma run_trampoline_stored tr m cr3 top entry :
  trampoline_ok tr → 0 <= top < 2 ^ 64 → 0 <= entry < 2 ^ 64 →
  run_trampoline tr (store64 (store64 (store64 m (AP_CR3 tr) cr3) (AP_STACK_TOP tr) top)
                      (AP_ENTRY_ADDR tr) entry) = (cr3 mod 2 ^ 32, top, entry) ∧
  load64 (store64 (store64 (store64 m (AP_CR3 tr) cr3) (AP_STACK_TOP tr) top) (AP_ENTRY_ADDR tr) entry)
    (AP_CR3 tr) = cr3 mod 2 ^ 64.
Proof.
  intros [_ _ _ _ Hs He _] Ht Hn. unfold run_trampoline. rewrite Hs, He. simpl_mem.
  assert (∀ m a v, AP_CR3 tr + 8 <= a → load_bytes 4 (store64 m a v) (AP_CR3 tr) = load_bytes 4 m (AP_CR3 tr))
    as Hl by (intros; apply load_bytes_ext; intros; apply store64_out; lia).
  rewrite !Hl by lia. unfold store64 at 1. rewrite load_store_prefix by lia. split; [done|].
  unfold load64, store64. by rewrite load_store_prefix by lia.
Qed.

(** ** What no event disturbs *)

Section run.
Context (tr : trampoline) (ap_entry64_addr ap_ebx : Z) (other_tables : Z → bool).

Abbreviation ap_step := (ap_step tr ap_entry64_addr ap_ebx other_tables).
Abbreviation env_step := (env_step tr ap_entry64_addr ap_ebx other_tables).
Abbreviation observe := (observe tr ap_entry64_addr ap_ebx other_tables).
Abbreviation tick_count := (tick_count tr ap_entry64_addr ap_ebx other_tables).
Abbreviation lock_serial := (lock_serial tr ap_entry64_addr ap_ebx other_tables).
Abbreviation println := (println tr ap_entry64_addr ap_ebx other_tables).
Abbreviation spin_until_tick := (spin_until_tick tr ap_entry64_addr ap_ebx other_tables).
Abbreviation poll_flag := (poll_flag tr ap_entry64_addr ap_ebx other_tables).
Abbreviation core_id := (this_core_apic_id ap_ebx).

(** Whether the other processor is between the lock of [SERIAL1] and the drop of the guard. *)
Definition holds_serial (a : ap_state) : bool :=
  match a with
  | ApAt pc => foldl (λ h i, match i with LockSerial => true | UnlockSerial => false | _ => h end) false (take pc ap_entry64)
  | _ => false
  end.

(** A predicate that nothing disturbs, however events are scheduled and whenever the boot
    processor takes the lock of [SERIAL1] or gives it back; under it the other processor
    has the lock exactly when it is printing. *)
Record stable (P : machine → Prop) : Prop := {
  st_schedule : ∀ s sc, P s → P (set_schedule s sc);
  st_in_lock : ∀ s sc, P s → P (set_in_lock s sc);
  st_in_print : ∀ s l, P s → P (set_in_print s l);
  st_event : ∀ s e, P s → P (env_step s e);
  st_take : ∀ s, P s → SERIAL1 s = None → P (set_serial s (Some BootProcessor));
  st_give : ∀ s, P s → SERIAL1 s = Some BootProcessor → P (set_serial s None);
  st_serial : ∀ s, P s → SERIAL1 s = Some OtherProcessor ↔ holds_serial (ap s) = true;
}.

Lemma slice_stable P sl s : stable P → P s → P (foldl env_step s sl).
Proof.
  intros HP. revert s. induction sl as [|e sl IH]; intros s Hs; [done|]. apply IH. by apply (st_event _ HP).
Qed.

Lemma steps_stable P n s : stable P → P s → P (Nat.iter n ap_step s).
Proof. intros HP Hs. induction n as [|n IH]; [done|]. exact (st_event _ HP _ ApStep IH). Qed.

Lemma observe_stable {A} P (f : machine → A) s s' x :
  stable P → P s → observe f s = Ret (s', x) → P s' ∧ x = f s'.
Proof.
  intros HP Hs. unfold Smp.observe. destruct (schedule s) as [|sl rest]; [done|].
  intros [= <- <-]. split; [|done]. by apply slice_stable; [|apply (st_schedule _ HP)].
Qed.

Lemma tick_count_stable P s s' x :
  stable P → P s → tick_count s = Ret (s', x) → P s' ∧ x = TICKS s'.
Proof.
  intros HP Hs ([s1 u] & Ho & Hr)%outcome_bind_ret. destruct (observe_stable P _ _ _ _ HP Hs Ho) as [Hs1 _].
  cbn [fst] in Hr. destruct (in_lock s1) as [|sl rest]; [done|]. case_bool_decide; [done|].
  injection Hr as <- <-. split; [|done]. by apply slice_stable; [|apply (st_in_lock _ HP)].
Qed.

(** The other processor does not take the lock from the boot processor. *)
Lemma unlock_holds pc : ap_entry64 !! pc = Some UnlockSerial → holds_serial (ApAt pc) = true.
Proof. do 19 (destruct pc as [|pc]; [by vm_compute|]). done. Qed.

Lemma ap_step_boot s :
  (SERIAL1 s = Some OtherProcessor ↔ holds_serial (ap s) = true) →
  SERIAL1 s = Some BootProcessor → SERIAL1 (ap_step s) = Some BootProcessor.
Proof.
  intros Hc Hs. unfold Smp.ap_step. destruct (ap s) as [| | |pc|] eqn:Ea; try done; [by case_match|].
  destruct (negb _); [done|]. destruct (ap_entry64 !! pc) as [i|] eqn:Ei; [|done].
  unfold ap_spins. case_bool_decide as Hsp; [done|].
  destruct i; try done; cbn; exfalso.
  - apply Hsp. by rewrite Hs.
  - apply unlock_holds, Hc in Ei. congruence.
Qed.

Lemma steps_boot P n s :
  stable P → P s → SERIAL1 s = Some BootProcessor → SERIAL1 (Nat.iter n ap_step s) = Some BootProcessor.
Proof.
  intros HP Hs Hb. induction n as [|n IH]; [done|].
  apply (ap_step_boot (Nat.iter n ap_step s)); [|done]. by apply (st_serial _ HP), steps_stable.
Qed.

Lemma lock_serial_stable P l s s' :
  stable P → P s → lock_serial l s = Ret s' → P s' ∧ SERIAL1 s' = Some BootProcessor.
Proof.
  intros HP. revert s. induction l as [|n l IH]; intros s Hs; [done|]. cbn [Smp.lock_serial].
  assert (P (Nat.iter n ap_step (set_in_print s l))) as H1 by by apply steps_stable, (st_in_print _ HP).
  case_bool_decide; [|by apply IH]. intros [= <-]. split; [by apply (st_take _ HP)|done].
Qed.

Lemma println_stable P s s' : stable P → P s → println s = Ret s' → P s' ∧ SERIAL1 s' = None.
Proof.
  intros HP Hs (s1 & Hl & Hr)%outcome_bind_ret. destruct (lock_serial_stable P _ _ _ HP Hs Hl) as [Hs1 Hb].
  destruct (in_print s1) as [|n l]; [done|]. injection Hr as <-. split; [|done].
  apply (st_give _ HP); [by apply steps_stable, (st_in_print _ HP)|].
  apply (steps_boot P); [done|by apply (st_in_print _ HP)|done].
Qed.

Lemma spin_stable P fuel target s s' :
  stable P → P s → spin_until_tick fuel target s = Ret s' → P s'.
Proof.
  intros HP. revert s. induction fuel as [|n IH]; intros s Hs; [done|]. cbn [Smp.spin_until_tick].
  intros ([s1 t] & Ho & Hr)%outcome_bind_ret. destruct (tick_count_stable P _ _ _ HP Hs Ho) as [Hs1 _].
  cbn [fst snd] in Hr. destruct (t <? target); [by apply (IH s1)|]. by injection Hr as <-.
Qed.

Lemma poll_stable P fuel flag deadline s s' b :
  stable P → P s → poll_flag fuel flag deadline s = Ret (s', b) → P s' ∧ (b = true → flag s' = true).
Proof.
  intros HP. revert s. induction fuel as [|n IH]; intros s Hs; [done|]. cbn [Smp.poll_flag].
  intros ([s1 x] & Ho & Hr)%outcome_bind_ret.
  destruct (observe_stable P _ _ _ _ HP Hs Ho) as [Hs1 ->]. cbn [fst snd] in Hr.
  destruct (flag s1) eqn:Ef; [by injection Hr as <- <-|].
  apply outcome_bind_ret in Hr as ([s2 t] & Ho2 & Hr).
  destruct (tick_count_stable P _ _ _ HP Hs1 Ho2) as [Hs2 _]. cbn [fst snd] in Hr.
  destruct (deadline <? t); [|by apply (IH s2)].
  apply outcome_bind_ret in Hr as (s3 & Hp & Hr). injection Hr as <- <-.
  split; [by apply (println_stable P s2)|done].
Qed.

Context `{Profile}.

Lemma busy_wait_stable P ticks s s' :
  stable P → P s → busy_wait_ticks tr ap_entry64_addr ap_ebx other_tables ticks s = Ret s' → P s'.
Proof.
  intros HP Hs ([s1 t] & Ho & Hr)%outcome_bind_ret.
  destruct (tick_count_stable P _ _ _ HP Hs Ho) as [Hs1 _].
  apply outcome_bind_ret in Hr as (target & _ & Hr). by eapply spin_stable.
Qed.

Lemma await_stable P flag s s' b :
  stable P → P s → await_flag tr ap_entry64_addr ap_ebx other_tables flag s = Ret (s', b) →
  P s' ∧ (b = true → flag s' = true).
Proof.
  intros HP Hs ([s1 t] & Ho & Hr)%outcome_bind_ret.
  destruct (tick_count_stable P _ _ _ HP Hs Ho) as [Hs1 _].
  apply outcome_bind_ret in Hr as (target & _ & Hr). by eapply poll_stable.
Qed.

(** *** The other processor's flags say how far it is *)

(** The state with memory [m] and the interrupts [log], the boot processor being
    the only user of the heap before: [may_run] is when the other processor may have
    been started. *)
Record ap_inv (may_run : Prop) (m : memory) (log : list (Z * Z)) (s : machine) : Prop := {
  ai_log : lapic_log s = log;
  ai_mem : phys_mem s = m;
  ai_run : ap s = ApReset ∨ ap s = ApWaitSipi ∨ may_run;
  ai_serial : SERIAL1 s = Some OtherProcessor ↔ holds_serial (ap s) = true;
  ai_flags :
    match ap s with
    | ApAt pc =>
        (pc <= 19)%nat ∧ ap_registers s = run_trampoline tr m ∧
        ((0 < pc)%nat → (ap_registers s).2 = ap_entry64_addr) ∧
        AP_STARTED s = bool_decide (7 <= pc)%nat ∧ AP_FAULT_SURVIVED s = bool_decide (18 <= pc)%nat ∧
        AP_REPORTED_APIC_ID s = (if decide (3 <= pc)%nat then core_id else u64_max) ∧
        heap_users s = BootProcessor :: (if decide (1 <= pc)%nat then [OtherProcessor] else [])
    | _ => AP_STARTED s = false ∧ AP_FAULT_SURVIVED s = false ∧
           AP_REPORTED_APIC_ID s = u64_max ∧ heap_users s = [BootProcessor]
    end;
}.

(** An instruction it executes. *)
Lemma ap_inv_exec may_run m log s pc i :
  ap_inv may_run m log s → ap s = ApAt pc → (ap_registers s).2 = ap_entry64_addr →
  ap_entry64 !! pc = Some i → ap_spins i s = false →
  ap_inv may_run m log (set_ap (exec_ap ap_ebx i s) (ApAt (S pc)) (ap_registers s)).
Proof.
  intros [Hl Hm Hr Hser Hf] Ea He Hi Hsp. rewrite Ea in *.
  destruct s as [st sv rep t lg pm a regs users ser sc lk pr]. cbn in *. subst a lg pm.
  destruct Hf as (Hpc & -> & _ & -> & -> & -> & ->).
  destruct Hr as [Hr|[Hr|Hr]]; [discriminate Hr..|].
  unfold ap_spins in Hsp. apply bool_decide_eq_false in Hsp. cbn in Hsp.
  do 19 (destruct pc as [|pc];
    [injection Hi as <-; split; cbn; [done|done|by right; right| |split_and!; (done || lia)];
       first [done|by split|exact Hser]|]).
  done.
Qed.

Lemma ap_inv_stable may_run m log : stable (ap_inv may_run m log).
Proof.
  split.
  - by intros s sc [].
  - by intros s sc [].
  - by intros s sc [].
  - intros s [|] Hs; [by destruct Hs; split|]. cbn [Smp.env_step]. unfold Smp.ap_step.
    destruct (ap s) as [| | |pc|] eqn:Ea; [done..| | |done].
    + destruct Hs as [Hl Hm Hr Hser Hf]. rewrite Ea in *. destruct Hf as (E1 & E2 & E3 & E4). rewrite Hm.
      destruct Hr as [Hr|[Hr|Hr]]; [discriminate Hr..|].
      destruct (finds_kernel _ _ _); (split; cbn; [done|done|by right; right|done|]); [|done].
      rewrite E1, E2, E3, E4. split_and!; try done; lia.
    + destruct (Z.eqb_spec (ap_registers s).2 ap_entry64_addr) as [He|He]; cbn [negb]; [|done].
      destruct (ap_entry64 !! pc) as [i|] eqn:Ei; [|done]. destruct (ap_spins i s) eqn:Es; [done|].
      by apply ap_inv_exec.
  - intros s [Hl Hm Hr Hser Hf] Hn. rewrite Hn in Hser. split; cbn; try done. by split; [|intros Hx%Hser].
  - intros s [Hl Hm Hr Hser Hf] Hn. rewrite Hn in Hser. split; cbn; try done. by split; [|intros Hx%Hser].
  - by intros s [].
Qed.

(** What it has survived it has survived for good. *)
Lemma survived_stable may_run m log : stable (λ s, ap_inv may_run m log s ∧ AP_FAULT_SURVIVED s = true).
Proof.
  pose proof (ap_inv_stable may_run m log) as HP.
  split; try (intros s x [Hs Hv]; split; [by apply HP|done]).
  - intros s e [Hs Hv]. split; [by apply HP|]. destruct e; [done|]. cbn [Smp.env_step]. unfold Smp.ap_step.
    destruct (ap s); try done; [by case_match|]. destruct (negb _); [done|]. destruct (ap_entry64 !! pc) as [i|]; [|done].
    destruct (ap_spins i s); [done|]. by destruct i.
  - intros s [Hs Hv] Hn. split; [by apply HP|done].
  - intros s [Hs Hv] Hn. split; [by apply HP|done].
  - intros s [Hs _]. by apply HP.
Qed.

(** *** The interrupts *)

Abbreviation lapic_write := (lapic_write ap_ebx).

(** One interrupt: destination, then command. *)
Definition ipi (t low : Z) : list (Z * Z) :=
  [(LAPIC_REG_ICR_HIGH, t * 2 ^ 24); (LAPIC_REG_ICR_LOW, low)].

Definition ipi_sequence (t : Z) : list (Z * Z) := ipi t 0x4500 ++ ipi t 0x4608 ++ ipi t 0x4608.

Lemma u32_shl_byte t : 0 <= t < 256 → u32_shl t 24 = t * 2 ^ 24.
Proof. intros Ht. unfold u32_shl. rewrite Z.shiftl_mul_pow2 by lia. apply Z.mod_small. lia. Qed.

Lemma send_ipi s t low :
  0 <= t < 256 →
  lapic_write (lapic_write s LAPIC_REG_ICR_HIGH (u32_shl t 24)) LAPIC_REG_ICR_LOW low =
  deliver ap_ebx (set_log s (lapic_log s ++ ipi t low)) (t * 2 ^ 24) low.
Proof.
  intros Ht. rewrite u32_shl_byte by done. unfold Smp.lapic_write. cbn [Z.eqb Pos.eqb LAPIC_REG_ICR_HIGH LAPIC_REG_ICR_LOW].
  unfold icr_high. cbn [lapic_log set_log]. rewrite filter_app, last_app. cbn. by rewrite <- app_assoc.
Qed.

Lemma shiftr_high t : Z.shiftr (t * 2 ^ 24) 24 = t.
Proof. rewrite Z.shiftr_div_pow2 by lia. by apply Z.div_mul. Qed.

Lemma deliver_init s t :
  deliver ap_ebx s (t * 2 ^ 24) 0x4500 =
  if t =? core_id then set_ap s ApWaitSipi (ap_registers s) else s.
Proof. unfold deliver. rewrite shiftr_high. by destruct (t =? core_id). Qed.

Lemma deliver_sipi s t :
  deliver ap_ebx s (t * 2 ^ 24) 0x4608 =
  if (t =? core_id) && bool_decide (ap s = ApWaitSipi)
  then set_ap s ApTrampoline (ap_registers s) else s.
Proof.
  unfold deliver. rewrite shiftr_high. destruct (t =? core_id); cbn [negb andb]; [|done].
  change (Z.land (Z.shiftr 0x4608 8) 7) with 6. change (Z.land 0x4608 0xFF * 4096) with 0x8000.
  cbn. by rewrite andb_true_r.
Qed.

Lemma ap_inv_init t m s :
  ap s = ApReset → ap_inv (t = core_id) m [] s →
  ap_inv (t = core_id) m (ipi t 0x4500)
    (deliver ap_ebx (set_log s (lapic_log s ++ ipi t 0x4500)) (t * 2 ^ 24) 0x4500).
Proof.
  intros Ha [Hl Hm Hr Hser Hf]. rewrite deliver_init, Hl, Ha in *.
  destruct (t =? core_id); split; cbn; rewrite ?Ha; auto.
Qed.

Lemma ap_inv_sipi t m log s :
  ap_inv (t = core_id) m log s →
  ap_inv (t = core_id) m (log ++ ipi t 0x4608)
    (deliver ap_ebx (set_log s (lapic_log s ++ ipi t 0x4608)) (t * 2 ^ 24) 0x4608).
Proof.
  intros [Hl Hm Hr Hser Hf]. rewrite deliver_sipi, Hl. cbn [ap set_log].
  destruct (Z.eqb_spec t core_id) as [Ht|Ht]; cbn [andb]; [|by split].
  case_bool_decide as Ha; [|by split]. rewrite Ha in Hser, Hf. split; cbn; auto.
Qed.

(** Once the interrupts are sent, whatever is kept by what happens. *)
Lemma wake_ap_inv P0 P1 P2 P3 t s s' :
  0 <= t < 256 → stable P1 → stable P2 → stable P3 → P0 s →
  (∀ s, P0 s → P1 (deliver ap_ebx (set_log s (lapic_log s ++ ipi t 0x4500)) (t * 2 ^ 24) 0x4500)) →
  (∀ s, P1 s → P2 (deliver ap_ebx (set_log s (lapic_log s ++ ipi t 0x4608)) (t * 2 ^ 24) 0x4608)) →
  (∀ s, P2 s → P3 (deliver ap_ebx (set_log s (lapic_log s ++ ipi t 0x4608)) (t * 2 ^ 24) 0x4608)) →
  wake_ap tr ap_entry64_addr ap_ebx other_tables t s = Ret s' → P3 s'.
Proof.
  intros Ht HP1 HP2 HP3 H0 H01 H12 H23. unfold wake_ap. rewrite send_ipi by done. apply H01 in H0.
  intros (s1 & R1 & Hr)%outcome_bind_ret. apply (busy_wait_stable _ _ _ _ HP1 H0) in R1.
  apply outcome_bind_ret in Hr as (s2 & R2 & R3). unfold send_sipi in R2, R3. rewrite send_ipi in R2, R3 by done.
  change (Z.lor 0x4600 (Z.shiftr TRAMPOLINE_PHYS_ADDR 12)) with 0x4608 in *.
  apply H12 in R1. apply (busy_wait_stable _ _ _ _ HP2 R1), H23 in R2.
  exact (busy_wait_stable _ _ _ _ HP3 R2 R3).
Qed.

Lemma confirm_ap_inv may_run m log s s' b :
  ap_inv may_run m log s → confirm_ap tr ap_entry64_addr ap_ebx other_tables s = Ret (s', b) →
  ap_inv may_run m log s' ∧ (b = true → AP_FAULT_SURVIVED s' = true).
Proof.
  pose proof (ap_inv_stable may_run m log) as HP. intros H3 ([s4 b4] & H4 & Hr)%outcome_bind_ret.
  apply (await_stable _ _ _ _ _ HP H3) in H4 as [H4 _].
  cbn [fst snd] in Hr. destruct b4; cbn [negb] in Hr; [|by injection Hr as <- <-].
  apply outcome_bind_ret in Hr as ([s5 i5] & H5 & Hr). apply (observe_stable _ _ _ _ _ HP H4) in H5 as [H5 _].
  apply outcome_bind_ret in Hr as (s6 & H6 & Hr). apply (println_stable _ _ _ HP H5) in H6 as [H6 _].
  apply outcome_bind_ret in Hr as ([s7 b7] & H7 & Hr). apply (await_stable _ _ _ _ _ HP H6) in H7 as [H7 Hb].
  cbn [fst snd] in Hr. destruct b7; cbn [negb] in Hr; [|by injection Hr as <- <-].
  apply outcome_bind_ret in Hr as (s8 & H8 & Hr). injection Hr as <- <-.
  by destruct (println_stable _ s7 s8 (survived_stable may_run m log) ltac:(split; [exact H7|by apply Hb]) H8) as [[? ?] _].
Qed.

Lemma wake_ap_flags t m s s' :
  0 <= t < 256 → ap s = ApReset → ap_inv (t = core_id) m [] s →
  wake_ap tr ap_entry64_addr ap_ebx other_tables t s = Ret s' → ap_inv (t = core_id) m (ipi_sequence t) s'.
Proof.
  intros Ht Ha Hi Hr.
  apply (wake_ap_inv (λ s, ap s = ApReset ∧ ap_inv (t = core_id) m [] s) (ap_inv (t = core_id) m (ipi t 0x4500))
           (ap_inv (t = core_id) m (ipi t 0x4500 ++ ipi t 0x4608)) (ap_inv (t = core_id) m (ipi_sequence t)) t s s'
           Ht (ap_inv_stable _ _ _) (ap_inv_stable _ _ _) (ap_inv_stable _ _ _) (conj Ha Hi)); [..|exact Hr].
  - intros s0 [Ha0 Hi0]. by apply ap_inv_init.
  - intros s0. apply ap_inv_sipi.
  - intros s0 Hs0. unfold ipi_sequence. rewrite app_assoc. by apply ap_inv_sipi.
Qed.

(** Whatever [start_ap] returns, the interrupts went out and the flags tell the truth. *)
Lemma start_ap_inv t m s s' b :
  0 <= t < 256 → ap s = ApReset → ap_inv (t = core_id) m [] s →
  start_ap tr ap_entry64_addr ap_ebx other_tables t s = Ret (s', b) →
  ap_inv (t = core_id) m (ipi_sequence t) s' ∧ (b = true → AP_FAULT_SURVIVED s' = true).
Proof.
  intros Ht Ha Hi (s1 & H1 & H2)%outcome_bind_ret.
  by eapply confirm_ap_inv; [eapply wake_ap_flags|].
Qed.

(** *** Time passes *)

Definition ticks_in (slice : list event) : Z := Z.of_nat (length (filter (λ e, e = Tick) slice)).

Fixpoint ticks_to_come (sc : list (list event)) : Z :=
  match sc with
  | [] => 0
  | slice :: sc => ticks_in slice + ticks_to_come sc
  end.

Lemma ticks_in_nonneg sl : 0 <= ticks_in sl.
Proof. unfold ticks_in. lia. Qed.

Lemma ticks_to_come_nonneg sc : 0 <= ticks_to_come sc.
Proof. induction sc as [|sl sc IH]; simpl; [lia|]. pose proof (ticks_in_nonneg sl). lia. Qed.

(** There are [n] slices at least, all of which satisfy [Q]; there are [n] at least for
    the lock of [TICKS], without ticks; [last] is the count after the whole schedule; the
    boot processor is not printing. *)
Record ticking (Q : list event → Prop) (last : Z) (n : nat) (s : machine) : Prop := {
  tk_each : Forall Q (schedule s);
  tk_slices : (n <= length (schedule s))%nat;
  tk_in_lock : Forall (λ slice, Tick ∉ slice) (in_lock s);
  tk_locks : (n <= length (in_lock s))%nat;
  tk_last : TICKS s + ticks_to_come (schedule s) = last;
  tk_pos : 0 <= TICKS s;
  tk_free : SERIAL1 s ≠ Some BootProcessor;
}.

(** The other processor steps while the boot processor prints, [n] times at least. *)
Definition printable (n : nat) (s : machine) : Prop :=
  Forall (λ k, 1 <= k)%nat (in_print s) ∧ (n <= length (in_print s))%nat.

Context (Q : list event → Prop) (HQ : ∀ slice, Q slice → Tick ∈ slice).

Lemma ticking_weaken last n n' s : (n' <= n)%nat → ticking Q last n s → ticking Q last n' s.
Proof. intros Hn []. split; (done || lia). Qed.

Lemma printable_weaken n n' s : (n' <= n)%nat → printable n s → printable n' s.
Proof. intros Hn []. split; (done || lia). Qed.

(** What no event touches, apart from the ticks. *)
Record framed (s s' : machine) : Prop := {
  fr_schedule : schedule s' = schedule s;
  fr_in_lock : in_lock s' = in_lock s;
  fr_in_print : in_print s' = in_print s;
  fr_free : SERIAL1 s ≠ Some BootProcessor → SERIAL1 s' ≠ Some BootProcessor;
}.

Lemma framed_refl s : framed s s.
Proof. by split. Qed.

Lemma framed_trans s1 s2 s3 : framed s1 s2 → framed s2 s3 → framed s1 s3.
Proof. intros [] []. split; (congruence || auto). Qed.

(** A step of the other processor does not touch the timer either. *)
Lemma ap_step_frame s : TICKS (ap_step s) = TICKS s ∧ framed s (ap_step s).
Proof.
  unfold Smp.ap_step. destruct (ap s) as [| | |pc|]; try (by split); [by case_match; split|].
  destruct (negb _); [by split|]. destruct (ap_entry64 !! pc) as [i|]; [|by split].
  destruct (ap_spins i s); [by split|]. by destruct i.
Qed.

Lemma steps_frame n s : TICKS (Nat.iter n ap_step s) = TICKS s ∧ framed s (Nat.iter n ap_step s).
Proof.
  induction n as [|n [Ht Hf]]; [split; [done|apply framed_refl]|].
  destruct (ap_step_frame (Nat.iter n ap_step s)) as [Ht' Hf'].
  split; [by rewrite <- Ht|by eapply framed_trans].
Qed.

Lemma slice_ticks sl s :
  0 <= TICKS s → TICKS s + ticks_in sl < 2 ^ 64 →
  TICKS (foldl env_step s sl) = TICKS s + ticks_in sl ∧ framed s (foldl env_step s sl).
Proof.
  revert s. induction sl as [|e sl IH]; intros s Hp Hs; [split; [unfold ticks_in; simpl; lia|apply framed_refl]|].
  pose proof (ticks_in_nonneg sl) as Hn.
  change (foldl env_step s (e :: sl)) with (foldl env_step (env_step s e) sl). destruct e.
  - assert (ticks_in (Tick :: sl) = 1 + ticks_in sl) as Ht by (unfold ticks_in; rewrite filter_cons; simpl; lia).
    rewrite Ht in *. destruct (IH (env_step s Tick)) as [-> Hf]; cbn [Smp.env_step TICKS set_ticks].
    + apply Z.mod_pos_bound. lia.
    + rewrite Z.mod_small; lia.
    + split; [rewrite Z.mod_small; lia|]. by eapply framed_trans; [|exact Hf].
  - assert (ticks_in (ApStep :: sl) = ticks_in sl) as Ht by done. rewrite Ht in *.
    destruct (ap_step_frame s) as [Hti Hfr].
    destruct (IH (env_step s ApStep)) as [-> Hf]; cbn [Smp.env_step]; rewrite ?Hti; try done.
    split; [done|]. by eapply framed_trans.
Qed.

(** One load: it returns, and the timer has ticked. *)
Lemma observe_ticking {A} last n (f : machine → A) s :
  last < 2 ^ 64 → ticking Q last (S n) s →
  ∃ s', observe f s = Ret (s', f s') ∧ ticking Q last n s' ∧ TICKS s + 1 <= TICKS s' <= last ∧
        in_print s' = in_print s ∧ (S n <= length (in_lock s'))%nat.
Proof.
  intros Hlast [He Hn Hlk Hlks Hl Hp Hfree]. unfold Smp.observe.
  destruct (schedule s) as [|sl rest] eqn:Es; [simpl in Hn; lia|].
  simpl in Hl, Hn. pose proof (ticks_to_come_nonneg rest) as Hr. apply Forall_cons in He as [HQs He]. pose proof (HQ _ HQs) as Hin.
  assert (1 <= ticks_in sl) as H1.
  { unfold ticks_in. apply list_elem_of_split in Hin as (l1 & l2 & ->).
    rewrite filter_app, filter_cons. simpl. rewrite length_app. simpl. lia. }
  destruct (slice_ticks sl (set_schedule s rest)) as [Ht [Hsc Hil Hip Hfr]]; [done|simpl; lia|].
  eexists. split; [done|]. simpl in Ht, Hsc, Hil, Hip.
  split_and!; [split|..]; rewrite ?Ht, ?Hsc, ?Hil, ?Hip; try (done || lia). by apply Hfr.
Qed.

(** Without ticks none are counted. *)
Lemma no_ticks sl : Tick ∉ sl → ticks_in sl = 0.
Proof.
  intros Hn. unfold ticks_in. destruct (filter _ sl) as [|e l] eqn:E; [done|].
  assert (e ∈ filter (λ e, e = Tick) sl) as Hin by (rewrite E; left). apply list_elem_of_filter in Hin as [-> ?]. done.
Qed.

(** [tick_count] returns what the count is then. *)
Lemma tick_count_ticking last n s :
  last < 2 ^ 64 → ticking Q last (S n) s →
  ∃ s', tick_count s = Ret (s', TICKS s') ∧ ticking Q last n s' ∧ TICKS s + 1 <= TICKS s' <= last ∧
        in_print s' = in_print s.
Proof.
  intros Hlast Hk. unfold Smp.tick_count.
  destruct (observe_ticking last n (λ _, tt) s Hlast Hk) as (s1 & -> & [He Hn Hlk _ Hl Hp Hfree] & Ht1 & Hip & Hlks).
  cbn [mbind outcome_bind fst snd]. destruct (in_lock s1) as [|sl rest] eqn:El; [simpl in Hlks; lia|].
  apply Forall_cons in Hlk as [Hsl Hlk]. rewrite bool_decide_eq_false_2 by done.
  pose proof (no_ticks sl Hsl) as H0.
  destruct (slice_ticks sl (set_in_lock s1 rest)) as [Ht [Hsc Hil Hip' Hfr]]; [done|simpl; lia|].
  eexists. split; [done|]. simpl in Ht, Hsc, Hil, Hip', Hlks. rewrite H0, Z.add_0_r in Ht.
  split_and!; [split|..]; rewrite ?Ht, ?Hsc, ?Hil, ?Hip'; try (done || lia). by apply Hfr.
Qed.

Lemma spin_ticking last n j fuel target s :
  last < 2 ^ 64 → (1 <= j <= fuel)%nat → target - TICKS s <= Z.of_nat j → ticking Q last (j + n) s →
  ∃ s', spin_until_tick fuel target s = Ret s' ∧ ticking Q last n s' ∧ in_print s' = in_print s.
Proof.
  intros Hlast. revert fuel s. induction j as [|j IH]; intros fuel s Hj Ht Hk; [lia|].
  destruct fuel as [|fuel]; [lia|]. cbn [Smp.spin_until_tick].
  destruct (tick_count_ticking last (j + n) s Hlast Hk) as (s1 & -> & Hk1 & Ht1 & Hip).
  cbn [mbind outcome_bind fst snd]. destruct (Z.ltb_spec (TICKS s1) target).
  - destruct (IH fuel s1) as (s2 & ? & ? & ?); [lia|lia|done|]. exists s2. split_and!; [done|done|congruence].
  - exists s1. split_and!; [done|by eapply ticking_weaken; [|exact Hk1]; lia|done].
Qed.

Lemma busy_wait_ticking last n j k s :
  k = Z.of_nat j → last + 201 < 2 ^ 64 → (1 <= j <= 200)%nat → ticking Q last (S (j + n)) s →
  ∃ s', busy_wait_ticks tr ap_entry64_addr ap_ebx other_tables k s = Ret s' ∧ ticking Q last n s' ∧
        in_print s' = in_print s.
Proof.
  intros -> Hlast Hj Hk. unfold busy_wait_ticks.
  destruct (tick_count_ticking last (j + n) s ltac:(lia) Hk) as (s1 & -> & Hk1 & Ht1 & Hip).
  cbn [mbind outcome_bind fst snd]. pose proof (tk_pos _ _ _ _ Hk1).
  rewrite u64_add_ret by lia. cbn [mbind outcome_bind].
  destruct (spin_ticking last n j (S (length (schedule s1))) (TICKS s1 + Z.of_nat j) s1)
    as (s2 & -> & ? & ?); [lia|pose proof (tk_slices _ _ _ _ Hk1); lia|lia|done|].
  exists s2. split_and!; [done|done|congruence].
Qed.

(** An interrupt takes no time. *)
Lemma lapic_ticking last n s reg v : ticking Q last n s → ticking Q last n (lapic_write s reg v).
Proof.
  intros []. unfold Smp.lapic_write, deliver.
  repeat (case_match; try (by split)).
Qed.

Lemma lapic_in_print s reg v : in_print (lapic_write s reg v) = in_print s.
Proof. unfold Smp.lapic_write, deliver. repeat (case_match; try done). Qed.

(** *** The lock of [TICKS] *)

(** From [s] to [s'] the lock was held without a tick. *)
Definition unticked (s s' : machine) : Prop :=
  ∃ used, in_lock s = used ++ in_lock s' ∧ Forall (λ slice, Tick ∉ slice) used.

Lemma unticked_same s s' : in_lock s' = in_lock s → unticked s s'.
Proof. intros E. by exists []. Qed.

Lemma unticked_trans s1 s2 s3 : unticked s1 s2 → unticked s2 s3 → unticked s1 s3.
Proof.
  intros (u1 & E1 & H1) (u2 & E2 & H2). exists (u1 ++ u2). rewrite E1, E2, app_assoc. split; [done|].
  by apply Forall_app.
Qed.

Lemma slice_in_lock sl s : in_lock (foldl env_step s sl) = in_lock s.
Proof.
  revert s. induction sl as [|e sl IH]; intros s; [done|].
  change (foldl env_step s (e :: sl)) with (foldl env_step (env_step s e) sl). rewrite IH.
  destruct e; [done|]. by destruct (ap_step_frame s) as [_ []].
Qed.

Lemma observe_unticked {A} (f : machine → A) s s' x : observe f s = Ret (s', x) → in_lock s' = in_lock s.
Proof.
  unfold Smp.observe. destruct (schedule s); [done|]. intros [= <- _]. by rewrite slice_in_lock.
Qed.

Lemma tick_count_unticked s s' x : tick_count s = Ret (s', x) → unticked s s'.
Proof.
  intros ([s1 u] & Ho & Hr)%outcome_bind_ret. apply observe_unticked in Ho. cbn [fst] in Hr.
  destruct (in_lock s1) as [|sl rest] eqn:El; [done|]. case_bool_decide as Hsl; [done|]. injection Hr as <- _.
  exists [sl]. rewrite slice_in_lock, <- Ho. split; [done|by constructor].
Qed.

Lemma spin_unticked fuel target s s' : spin_until_tick fuel target s = Ret s' → unticked s s'.
Proof.
  revert s. induction fuel as [|n IH]; intros s; [done|]. cbn [Smp.spin_until_tick].
  intros ([s1 t] & Ho%tick_count_unticked & Hr)%outcome_bind_ret. cbn [fst snd] in Hr.
  destruct (t <? target); [by eapply unticked_trans; [|apply IH]|by injection Hr as <-].
Qed.

Lemma busy_wait_unticked k s s' :
  busy_wait_ticks tr ap_entry64_addr ap_ebx other_tables k s = Ret s' → unticked s s'.
Proof.
  intros ([s1 t] & Ho%tick_count_unticked & Hr)%outcome_bind_ret.
  apply outcome_bind_ret in Hr as (target & _ & Hr). by eapply unticked_trans; [|eapply spin_unticked].
Qed.

Lemma lock_serial_unticked l s s' : lock_serial l s = Ret s' → in_lock s' = in_lock s.
Proof.
  revert s. induction l as [|n l IH]; intros s; [done|]. cbn [Smp.lock_serial].
  destruct (steps_frame n (set_in_print s l)) as [_ [_ Hlk _ _]].
  case_bool_decide; [by intros [= <-]|]. intros Hr%IH. by rewrite Hr, Hlk.
Qed.

Lemma println_unticked s s' : println s = Ret s' → in_lock s' = in_lock s.
Proof.
  intros (s1 & Hl%lock_serial_unticked & Hr)%outcome_bind_ret. rewrite <- Hl.
  destruct (in_print s1) as [|n l]; [done|]. injection Hr as <-. cbn [in_lock set_serial].
  by destruct (steps_frame n (set_in_print s1 l)) as [_ [_ -> _ _]].
Qed.

Lemma poll_unticked fuel flag deadline s s' b : poll_flag fuel flag deadline s = Ret (s', b) → unticked s s'.
Proof.
  revert s. induction fuel as [|n IH]; intros s; [done|]. cbn [Smp.poll_flag].
  intros ([s1 x] & Ho%observe_unticked & Hr)%outcome_bind_ret. cbn [fst snd] in Hr.
  apply unticked_same in Ho. destruct x; [by injection Hr as <- _|].
  apply outcome_bind_ret in Hr as ([s2 t] & H2%tick_count_unticked & Hr). cbn [fst snd] in Hr.
  eapply unticked_trans; [exact Ho|]. eapply unticked_trans; [exact H2|].
  destruct (deadline <? t); [|by apply IH]. apply outcome_bind_ret in Hr as (s3 & Hp%println_unticked & Hr).
  injection Hr as <- _. by apply unticked_same.
Qed.

Lemma await_unticked flag s s' b :
  await_flag tr ap_entry64_addr ap_ebx other_tables flag s = Ret (s', b) → unticked s s'.
Proof.
  intros ([s1 t] & Ho%tick_count_unticked & Hr)%outcome_bind_ret.
  apply outcome_bind_ret in Hr as (target & _ & Hr). by eapply unticked_trans; [|eapply poll_unticked].
Qed.

Lemma lapic_in_lock s reg v : in_lock (lapic_write s reg v) = in_lock s.
Proof. unfold Smp.lapic_write, deliver. repeat (case_match; try done). Qed.

Lemma send_sipi_unticked t s s' : send_sipi tr ap_entry64_addr ap_ebx other_tables t s = Ret s' → unticked s s'.
Proof.
  intros Hr%busy_wait_unticked. eapply unticked_trans; [|exact Hr]. apply unticked_same. by rewrite !lapic_in_lock.
Qed.

Lemma wake_ap_unticked t s s' :
  wake_ap tr ap_entry64_addr ap_ebx other_tables t s = Ret s' → unticked s s'.
Proof.
  intros (s1 & H1%busy_wait_unticked & Hr)%outcome_bind_ret. apply outcome_bind_ret in Hr as (s2 & H2 & H3).
  apply send_sipi_unticked in H2, H3. eapply unticked_trans; [|exact (unticked_trans _ _ _ H2 H3)].
  eapply unticked_trans; [|exact H1]. apply unticked_same. by rewrite !lapic_in_lock.
Qed.

Lemma confirm_ap_unticked s s' b :
  confirm_ap tr ap_entry64_addr ap_ebx other_tables s = Ret (s', b) → unticked s s'.
Proof.
  intros ([s4 b4] & H4%await_unticked & Hr)%outcome_bind_ret. cbn [fst snd] in Hr.
  eapply unticked_trans; [exact H4|]. destruct b4; cbn [negb] in Hr; [|injection Hr as <- <-; by apply unticked_same].
  apply outcome_bind_ret in Hr as ([s5 i5] & H5%observe_unticked & Hr).
  apply outcome_bind_ret in Hr as (s6 & H6%println_unticked & Hr). cbn [fst snd] in *.
  apply outcome_bind_ret in Hr as ([s7 b7] & H7%await_unticked & Hr). cbn [fst snd] in Hr.
  eapply unticked_trans; [apply (unticked_same _ s6); congruence|]. eapply unticked_trans; [exact H7|].
  destruct b7; cbn [negb] in Hr; [|injection Hr as <- <-; by apply unticked_same].
  apply outcome_bind_ret in Hr as (s8 & H8%println_unticked & Hr). injection Hr as <- <-. by apply unticked_same.
Qed.

(** *** Printing ends *)

Definition position_of (a : ap_state) : nat :=
  match a with
  | ApAt pc => S pc
  | _ => 0
  end.

Lemma position_bound may_run m log s : ap_inv may_run m log s → (position_of (ap s) <= 20)%nat.
Proof. intros [_ _ _ _ Hf]. destruct (ap s); cbn; lia. Qed.

(** Where it takes the lock it does not have it; where it has it there is more to do. *)
Lemma holds_not_lock pc i :
  holds_serial (ApAt pc) = true → ap_entry64 !! pc = Some i → i ≠ LockSerial.
Proof. intros Hh Hi ->. revert Hh Hi. do 19 (destruct pc as [|pc]; [by vm_compute|]). done. Qed.

Lemma holds_position pc : (pc <= 19)%nat → holds_serial (ApAt pc) = true → (1 <= pc)%nat ∧ is_Some (ap_entry64 !! pc).
Proof.
  intros Hpc. destruct (decide (pc = 19)%nat) as [->|]; [by vm_compute|].
  intros Hh. split; [destruct pc; [by vm_compute in Hh|lia]|]. apply lookup_lt_is_Some. cbn. lia.
Qed.

(** It never goes back. *)
Lemma ap_step_mono s : (position_of (ap s) <= position_of (ap (ap_step s)))%nat.
Proof.
  unfold Smp.ap_step. destruct (ap s) as [| | |pc|] eqn:Ea; rewrite ?Ea; try (cbn; lia).
  destruct (negb _); [by rewrite Ea|]. destruct (ap_entry64 !! pc); [|by rewrite Ea].
  destruct (ap_spins _ _); [by rewrite Ea|]. cbn. lia.
Qed.

(** While it keeps the lock it comes nearer to giving it back. *)
Lemma ap_step_holding may_run m log s :
  ap_inv may_run m log s → SERIAL1 s ≠ Some BootProcessor → SERIAL1 (ap_step s) = Some OtherProcessor →
  (position_of (ap s) < position_of (ap (ap_step s)))%nat.
Proof.
  intros Hi Hb. pose proof Hi as [_ _ _ Hser Hf]. unfold Smp.ap_step.
  destruct (ap s) as [| | |pc|] eqn:Ea; try (intros Hx%Hser; done).
  - destruct (finds_kernel _ _ _); [cbn; lia|]. intros Hx%Hser. done.
  - destruct Hf as (Hpc & Hreg & Hent & _).
    assert (SERIAL1 s = Some OtherProcessor → (1 <= pc)%nat ∧ is_Some (ap_entry64 !! pc)) as Hh.
    { intros Hx%Hser. by apply holds_position. }
    destruct (Z.eqb_spec (ap_registers s).2 ap_entry64_addr) as [He|He]; cbn [negb].
    2:{ intros Hx%Hh. destruct Hx as [Hx _]. by apply Hent in Hx. }
    destruct (ap_entry64 !! pc) as [i|] eqn:Ei; [|intros Hx%Hh; by destruct Hx as [_ []]].
    unfold ap_spins. case_bool_decide as Hsp; [|cbn; lia].
    destruct Hsp as [-> _]. intros Hx%Hser. by eapply holds_not_lock in Hx.
Qed.

Lemma steps_holding may_run m log n s :
  ap_inv may_run m log s → SERIAL1 s ≠ Some BootProcessor → (1 <= n)%nat →
  SERIAL1 (Nat.iter n ap_step s) ≠ None →
  (position_of (ap s) < position_of (ap (Nat.iter n ap_step s)))%nat.
Proof.
  intros Hi Hb Hn Hs. destruct n as [|n]; [lia|].
  pose proof (steps_stable _ n s (ap_inv_stable may_run m log) Hi) as Hi'.
  destruct (steps_frame n s) as [_ Hfr]. destruct (steps_frame (S n) s) as [_ Hfr'].
  assert (position_of (ap s) <= position_of (ap (Nat.iter n ap_step s)))%nat as Hle.
  { clear. induction n as [|n IH]; [done|]. exact (Nat.le_trans _ _ _ IH (ap_step_mono (Nat.iter n ap_step s))). }
  assert (SERIAL1 (Nat.iter (S n) ap_step s) = Some OtherProcessor) as Ho.
  { pose proof (fr_free _ _ Hfr' Hb). by destruct (SERIAL1 (Nat.iter (S n) ap_step s)) as [[]|]. }
  exact (Nat.le_lt_trans _ _ _ Hle (ap_step_holding _ _ _ _ Hi' (fr_free _ _ Hfr Hb) Ho)).
Qed.

Lemma lock_serial_ends may_run m log l p s :
  ap_inv may_run m log s → SERIAL1 s ≠ Some BootProcessor → Forall (λ k, 1 <= k)%nat l →
  (20 - position_of (ap s) <= p < length l)%nat →
  ∃ s', lock_serial l s = Ret s' ∧ Forall (λ k, 1 <= k)%nat (in_print s') ∧
        (length l - S p <= length (in_print s'))%nat ∧
        TICKS s' = TICKS s ∧ schedule s' = schedule s ∧ in_lock s' = in_lock s.
Proof.
  revert p s. induction l as [|n l IH]; intros p s Hi Hb Hl Hp; [cbn in Hp; lia|].
  apply Forall_cons in Hl as [Hn Hl]. cbn [Smp.lock_serial].
  assert (ap_inv may_run m log (set_in_print s l)) as Hi0 by by apply (st_in_print _ (ap_inv_stable _ _ _)).
  set (s1 := Nat.iter n ap_step (set_in_print s l)).
  destruct (steps_frame n (set_in_print s l)) as [Ht [Hsc Hlk Hpr Hfr]].
  case_bool_decide as Hs.
  - eexists. split; [done|]. cbn [in_print set_serial TICKS schedule in_lock]. subst s1. rewrite Hpr, Ht, Hsc, Hlk.
    split_and!; try done. cbn. lia.
  - pose proof (steps_holding _ _ _ n _ Hi0 Hb Hn Hs) as Hpos. cbn [ap set_in_print] in Hpos.
    destruct (IH (pred p) s1) as (s2 & Hr & Hl2 & Hlen & Ht2 & Hsc2 & Hlk2).
    + by apply steps_stable; [apply ap_inv_stable|].
    + by apply Hfr.
    + done.
    + pose proof (position_bound _ _ _ _ (steps_stable _ n _ (ap_inv_stable may_run m log) Hi0)).
      subst s1. cbn [length] in Hp. lia.
    + exists s2. split; [done|]. split; [done|]. subst s1. rewrite Ht2, Hsc2, Hlk2, Ht, Hsc, Hlk.
      split_and!; try done. cbn [length] in *.
      pose proof (position_bound _ _ _ _ (steps_stable _ n _ (ap_inv_stable may_run m log) Hi0)). lia.
Qed.

Lemma println_ends may_run m log k s :
  ap_inv may_run m log s → SERIAL1 s ≠ Some BootProcessor → printable (22 + k) s →
  ∃ s', println s = Ret s' ∧ printable k s' ∧ SERIAL1 s' = None ∧
        TICKS s' = TICKS s ∧ schedule s' = schedule s ∧ in_lock s' = in_lock s.
Proof.
  intros Hi Hb [Hl Hlen]. unfold Smp.println.
  destruct (lock_serial_ends may_run m log (in_print s) 20 s Hi Hb Hl) as (s1 & -> & Hl1 & Hlen1 & Ht & Hsc & Hlk); [lia|].
  cbn [mbind outcome_bind]. destruct (in_print s1) as [|n l] eqn:Ep; [simpl in Hlen1; lia|].
  apply Forall_cons in Hl1 as [_ Hl1]. destruct (steps_frame n (set_in_print s1 l)) as [Ht1 [Hsc1 Hlk1 Hpr1 _]].
  eexists. split; [done|]. split; [|split; [done|]].
  - split; cbn [in_print set_serial]; rewrite Hpr1; [done|]. cbn in *. lia.
  - cbn [TICKS schedule in_lock set_serial]. rewrite Ht1, Hsc1, Hlk1. done.
Qed.

Lemma println_ticking last n may_run m log k s :
  ap_inv may_run m log s → ticking Q last n s → printable (22 + k) s →
  ∃ s', println s = Ret s' ∧ ticking Q last n s' ∧ printable k s'.
Proof.
  intros Hi [] Hp. destruct (println_ends may_run m log k s Hi) as (s' & Hr & Hp' & Hs & Ht & Hsc & Hlk); [done|done|].
  exists s'. split; [done|]. split; [|done]. split; rewrite ?Ht, ?Hsc, ?Hlk, ?Hs; done.
Qed.

(** *** The polling ends *)

Lemma poll_ticking last n j fuel flag deadline may_run m log k s :
  last < 2 ^ 64 → (1 <= j <= fuel)%nat → deadline - TICKS s < 2 * Z.of_nat j →
  ap_inv may_run m log s → ticking Q last (2 * j + n) s → printable (22 + k) s →
  ∃ s' b, poll_flag fuel flag deadline s = Ret (s', b) ∧ ticking Q last n s' ∧ printable (if b then 22 + k else k) s'.
Proof.
  intros Hlast. revert fuel s. induction j as [|j IH]; intros fuel s Hj Hd Hi Hk Hp; [lia|].
  destruct fuel as [|fuel]; [lia|]. cbn [Smp.poll_flag].
  replace (2 * S j + n)%nat with (S (S (2 * j + n))) in Hk by lia.
  destruct (observe_ticking last _ flag s Hlast Hk) as (s1 & Ho1 & Hk1 & Ht1 & Hp1 & _).
  pose proof (proj1 (observe_stable _ _ _ _ _ (ap_inv_stable _ _ _) Hi Ho1)) as Hi1.
  rewrite Ho1. cbn [mbind outcome_bind fst snd]. unfold printable in Hp. rewrite <- Hp1 in Hp.
  destruct (flag s1); [exists s1, true; split_and!; [done|by eapply ticking_weaken; [|exact Hk1]; lia|done]|].
  destruct (tick_count_ticking last _ s1 Hlast Hk1) as (s2 & Ho2 & Hk2 & Ht2 & Hp2).
  pose proof (proj1 (tick_count_stable _ _ _ _ (ap_inv_stable _ _ _) Hi1 Ho2)) as Hi2.
  rewrite Ho2. cbn [mbind outcome_bind fst snd]. rewrite <- Hp2 in Hp.
  destruct (Z.ltb_spec deadline (TICKS s2)).
  - destruct (println_ticking last _ _ _ _ k s2 Hi2 Hk2 Hp) as (s3 & -> & Hk3 & Hp3).
    exists s3, false. split; [done|]. split; [|done]. by eapply ticking_weaken; [|exact Hk3]; lia.
  - apply IH; [lia|lia|done..].
Qed.

Lemma await_ticking last n flag may_run m log k s :
  last + 201 < 2 ^ 64 → ap_inv may_run m log s → ticking Q last (203 + n) s → printable (22 + k) s →
  ∃ s' b, await_flag tr ap_entry64_addr ap_ebx other_tables flag s = Ret (s', b) ∧ ticking Q last n s' ∧
          printable (if b then 22 + k else k) s'.
Proof.
  intros Hlast Hi Hk Hp. unfold await_flag.
  destruct (tick_count_ticking last (202 + n) s ltac:(lia) Hk) as (s1 & Ho1 & Hk1 & Ht1 & Hp1).
  pose proof (proj1 (tick_count_stable _ _ _ _ (ap_inv_stable _ _ _) Hi Ho1)) as Hi1.
  rewrite Ho1. cbn [mbind outcome_bind fst snd]. pose proof (tk_pos _ _ _ _ Hk1).
  rewrite u64_add_ret by lia. cbn [mbind outcome_bind].
  apply (poll_ticking last n 101 _ _ _ may_run m log);
    [lia|pose proof (tk_slices _ _ _ _ Hk1); lia|lia|done|done|]. unfold printable. by rewrite Hp1.
Qed.

Lemma send_ticking last n t low s : ticking Q last n s →
  ticking Q last n (lapic_write (lapic_write s LAPIC_REG_ICR_HIGH (u32_shl t 24)) LAPIC_REG_ICR_LOW low).
Proof. intros. by do 2 apply lapic_ticking. Qed.

Lemma wake_ap_ticking last n t s :
  last + 201 < 2 ^ 64 → ticking Q last (8 + n) s →
  ∃ s', wake_ap tr ap_entry64_addr ap_ebx other_tables t s = Ret s' ∧ ticking Q last n s' ∧ in_print s' = in_print s.
Proof.
  intros Hlast Hk. unfold wake_ap, send_sipi.
  destruct (busy_wait_ticking last (4 + n) 3 3 _ ltac:(done) Hlast ltac:(lia) (send_ticking last _ t 0x4500 s Hk))
    as (s1 & -> & Hk1 & Hp1). cbn [mbind outcome_bind].
  edestruct (busy_wait_ticking last (2 + n) 1 1) as (s2 & -> & Hk2 & Hp2);
    [done|done|lia|apply send_ticking; exact Hk1|]. cbn [mbind outcome_bind].
  edestruct (busy_wait_ticking last n 1 1) as (s3 & Hw3 & Hk3 & Hp3);
    [done|done|lia|apply send_ticking; exact Hk2|].
  exists s3. split; [exact Hw3|]. split; [done|]. rewrite Hp3, !lapic_in_print, Hp2, !lapic_in_print, Hp1. by rewrite !lapic_in_print.
Qed.

Lemma confirm_ap_ticking last may_run m log s :
  last + 201 < 2 ^ 64 → ap_inv may_run m log s → ticking Q last 407 s → printable 44 s →
  ∃ s' b, confirm_ap tr ap_entry64_addr ap_ebx other_tables s = Ret (s', b).
Proof.
  intros Hlast Hi Hk Hp. unfold confirm_ap. pose proof (ap_inv_stable may_run m log) as HP.
  destruct (await_ticking last 204 AP_STARTED _ _ _ 22 s Hlast Hi Hk Hp) as (s4 & b4 & R4 & Hk4 & Hp4).
  pose proof (proj1 (await_stable _ _ _ _ _ HP Hi R4)) as Hi4. rewrite R4.
  cbn [mbind outcome_bind fst snd]. destruct b4; cbn [negb]; [|by eexists _, _].
  destruct (observe_ticking last 203 (λ s, decode_reported (AP_REPORTED_APIC_ID s)) s4 ltac:(lia) Hk4)
    as (s5 & Ho & Hk5 & _ & Hp5 & _). unfold ap_reported_apic_id. rewrite Ho. cbn [mbind outcome_bind fst snd].
  pose proof (proj1 (observe_stable _ _ _ _ _ HP Hi4 Ho)) as Hi5. unfold printable in Hp4. rewrite <- Hp5 in Hp4.
  destruct (println_ticking last 203 _ _ _ 22 s5 Hi5 Hk5 Hp4) as (s6 & R6 & Hk6 & Hp6).
  rewrite R6. cbn [mbind outcome_bind].
  pose proof (proj1 (println_stable _ _ _ HP Hi5 R6)) as Hi6.
  destruct (await_ticking last 0 AP_FAULT_SURVIVED _ _ _ 0 s6 Hlast Hi6 Hk6 Hp6) as (s7 & b7 & R7 & Hk7 & Hp7).
  pose proof (proj1 (await_stable _ _ _ _ _ HP Hi6 R7)) as Hi7.
  rewrite R7. cbn [mbind outcome_bind fst snd]. destruct b7; cbn [negb]; [|by eexists _, _].
  destruct (println_ticking last 0 _ _ _ 0 s7 Hi7 Hk7 Hp7) as (s8 & -> & _). by eexists _, _.
Qed.

Lemma start_ap_ends last t m s :
  last + 201 < 2 ^ 64 → 0 <= t < 256 → ap s = ApReset → ap_inv (t = core_id) m [] s →
  ticking Q last 415 s → printable 44 s →
  ∃ s' b, start_ap tr ap_entry64_addr ap_ebx other_tables t s = Ret (s', b).
Proof.
  intros Hlast Ht Ha Hi Hk Hp. unfold start_ap.
  destruct (wake_ap_ticking last 407 t s Hlast Hk) as (s3 & Hw3 & Hk3 & Hp3). rewrite Hw3. cbn [mbind outcome_bind].
  apply wake_ap_flags with (m := m) in Hw3; [|done..]. eapply confirm_ap_ticking; [done|exact Hw3|exact Hk3|].
  unfold printable. by rewrite Hp3.
Qed.

(** *** The other processor makes progress *)

Definition woken (a : ap_state) : Prop :=
  match a with
  | ApTrampoline | ApAt _ => True
  | _ => False
  end.

(** It was started, leads to the kernel and to [ap_entry64], and is [d] instructions in
    at least. *)
Record awake (may_run : Prop) (m : memory) (log : list (Z * Z)) (d : nat) (s : machine) : Prop := {
  aw_inv : ap_inv may_run m log s;
  aw_woken : woken (ap s);
  aw_finds : finds_kernel tr other_tables m = true;
  aw_entry : (run_trampoline tr m).2 = ap_entry64_addr;
  aw_far : (d <= position_of (ap s))%nat;
}.

(** A step takes it on, but while it waits for the boot processor to give the lock back. *)
Lemma ap_step_position may_run m log d s :
  awake may_run m log d s →
  awake may_run m log (if decide (SERIAL1 s = Some BootProcessor) then d else Nat.min 20 (S d)) (ap_step s).
Proof.
  intros [Hi Hw Hk He Hd]. pose proof (st_event _ (ap_inv_stable _ _ _) s ApStep Hi) as Hi'.
  cbn [Smp.env_step] in Hi'. pose proof (ap_step_mono s) as Hmono.
  assert (woken (ap (ap_step s)) ∧
          (SERIAL1 s ≠ Some BootProcessor → (Nat.min 20 (S d) <= position_of (ap (ap_step s)))%nat)) as [? Hgo].
  { pose proof (position_bound _ _ _ _ Hi). revert Hmono. unfold Smp.ap_step. destruct Hi as [_ Hm _ Hser Hf]. rewrite Hm.
    destruct (ap s) as [| | |pc|] eqn:Ea; [by destruct Hw..| | |by destruct Hw]; cbn [position_of] in *.
    - rewrite Hk. intros _. split; [done|]. intros _. cbn [position_of ap set_ap]. lia.
    - destruct Hf as (Hpc & Hr & _). rewrite Hr, He, Z.eqb_refl. cbn [negb].
      destruct (ap_entry64 !! pc) as [i|] eqn:Ei.
      + unfold ap_spins. case_bool_decide as Hsp; [rewrite Ea|cbn [position_of ap set_ap]; split; [done|lia]].
        intros _. split; [done|]. intros Hb. destruct Hsp as [-> Hs]. exfalso.
        destruct (SERIAL1 s) as [[]|]; [done| |done]. by eapply holds_not_lock in Ei; [|by apply Hser].
      + apply lookup_ge_None in Ei. rewrite Ea. intros _. split; [done|]. intros _. cbn [position_of length ap_entry64] in *. cbn in Ei. lia. }
  split; try done. case_decide; [lia|by apply Hgo].
Qed.

Lemma awake_weaken may_run m log d d' s :
  (d' <= d)%nat → awake may_run m log d s → awake may_run m log d' s.
Proof. intros Hd []. split; (done || lia). Qed.

Lemma awake_stable may_run m log d : (d <= 20)%nat → stable (awake may_run m log d).
Proof.
  intros Hd. pose proof (ap_inv_stable may_run m log) as HP.
  split; try (intros s x [Hi ? ? ? ?]; split; try done; by apply HP).
  - intros s [|] Ha; [destruct Ha as [Hi ? ? ? ?]; split; try done; exact (st_event _ HP s Tick Hi)|].
    eapply awake_weaken; [|by apply ap_step_position]. case_decide; lia.
  - intros s [Hi ? ? ? ?] Hn. split; try done. by apply HP.
  - intros s [Hi ? ? ? ?] Hn. split; try done. by apply HP.
  - intros s [Hi _ _ _ _]. by apply HP.
Qed.

(** A slice with a step of the other processor takes it one instruction on. *)
Lemma slice_awake may_run m log d sl s :
  (d <= 20)%nat → ApStep ∈ sl → SERIAL1 s ≠ Some BootProcessor → awake may_run m log d s →
  awake may_run m log (Nat.min 20 (S d)) (foldl env_step s sl).
Proof.
  intros Hd Hin. revert s. induction sl as [|e sl IH]; intros s Hb Ha; [by apply elem_of_nil in Hin|].
  change (foldl env_step s (e :: sl)) with (foldl env_step (env_step s e) sl). destruct e.
  - apply elem_of_cons in Hin as [?|Hin]; [done|]. apply IH; [done|done|]. apply (st_event _ (awake_stable _ _ _ d Hd)), Ha.
  - apply slice_stable; [apply awake_stable; lia|]. apply ap_step_position in Ha. by rewrite decide_False in Ha.
Qed.

Context (HQa : ∀ slice, Q slice → ApStep ∈ slice ∧ ticks_in slice <= 10).

Lemma observe_awake {A} last n (f : machine → A) may_run m log d s :
  last < 2 ^ 64 → (d <= 20)%nat → ticking Q last (S n) s → awake may_run m log d s →
  ∃ s', observe f s = Ret (s', f s') ∧ ticking Q last n s' ∧ TICKS s' <= TICKS s + 10 ∧
        in_print s' = in_print s ∧ (S n <= length (in_lock s'))%nat ∧ awake may_run m log (Nat.min 20 (S d)) s'.
Proof.
  intros Hlast Hd Hk Ha. destruct (observe_ticking last n f s Hlast Hk) as (s' & Ho & Hk' & _ & Hp' & Hlk).
  exists s'. split; [done|]. split; [done|]. revert Ho. unfold Smp.observe.
  destruct Hk as [He _ _ _ Hl Hp Hb]. destruct (schedule s) as [|sl rest]; [done|]. intros [= <-].
  apply Forall_cons in He as [[Hin Ht]%HQa _]. simpl in Hl. pose proof (ticks_to_come_nonneg rest).
  destruct (slice_ticks sl (set_schedule s rest)) as [Hs _]; [done|simpl; lia|].
  split_and!; [rewrite Hs; simpl; lia|done|done|]. apply slice_awake; [done|done|done|].
  by apply (st_schedule _ (awake_stable _ _ _ d Hd)).
Qed.

Lemma tick_count_awake last n may_run m log d s :
  last < 2 ^ 64 → (d <= 20)%nat → ticking Q last (S n) s → awake may_run m log d s →
  ∃ s', tick_count s = Ret (s', TICKS s') ∧ ticking Q last n s' ∧ TICKS s' <= TICKS s + 10 ∧
        in_print s' = in_print s ∧ awake may_run m log (Nat.min 20 (S d)) s'.
Proof.
  intros Hlast Hd Hk Ha. destruct (tick_count_ticking last n s Hlast Hk) as (s' & Ho & Hk' & _ & Hp').
  exists s'. split; [done|]. split; [done|]. revert Ho. unfold Smp.tick_count.
  destruct (observe_awake last n (λ _, tt) may_run m log d s Hlast Hd Hk Ha) as (s1 & -> & Hk1 & Ht1 & _ & Hlk & Ha1).
  cbn [mbind outcome_bind fst]. destruct Hk1 as [_ _ Hil _ Hl Hp _].
  destruct (in_lock s1) as [|sl rest]; [done|]. apply Forall_cons in Hil as [Hsl _].
  rewrite bool_decide_eq_false_2 by done. intros [= <- _].
  pose proof (no_ticks sl Hsl). pose proof (ticks_to_come_nonneg (schedule s1)).
  destruct (slice_ticks sl (set_in_lock s1 rest)) as [Hs _]; [done|cbn [TICKS set_in_lock]; lia|].
  split; [rewrite Hs; cbn [TICKS set_in_lock]; lia|]. split; [done|].
  apply slice_stable; [apply awake_stable; lia|]. apply (st_in_lock _ (awake_stable _ _ _ (Nat.min 20 (S d)) ltac:(lia))), Ha1.
Qed.

(** Polling a flag that the other processor is about to set succeeds in time. *)
Lemma poll_awake last n j fuel flag thr d deadline may_run m log s :
  last < 2 ^ 64 → (thr <= 20)%nat → (d <= 20)%nat → (j < fuel)%nat → (thr <= d + 2 * j + 1)%nat →
  (∀ s, awake may_run m log thr s → flag s = true) →
  TICKS s + 20 * Z.of_nat j <= deadline → ticking Q last (2 * j + S n) s → awake may_run m log d s →
  ∃ s', poll_flag fuel flag deadline s = Ret (s', true) ∧ ticking Q last n s' ∧ in_print s' = in_print s ∧
        awake may_run m log d s'.
Proof.
  intros Hlast Hthr. revert fuel s d. induction j as [|j IH]; intros fuel s d Hd Hj Hf Hflag Hdl Hk Ha.
  - destruct fuel as [|fuel]; [lia|]. cbn [Smp.poll_flag].
    destruct (observe_awake last n flag _ _ _ d s Hlast Hd Hk Ha) as (s1 & -> & Hk1 & _ & Hp1 & _ & Ha1).
    cbn [mbind outcome_bind fst snd]. rewrite (Hflag s1) by (eapply awake_weaken; [|exact Ha1]; lia).
    exists s1. split_and!; [done|done|done|]. eapply awake_weaken; [|exact Ha1]. lia.
  - destruct fuel as [|fuel]; [lia|]. cbn [Smp.poll_flag].
    replace (2 * S j + S n)%nat with (S (S (2 * j + S n))) in Hk by lia.
    destruct (observe_awake last _ flag _ _ _ d s Hlast Hd Hk Ha) as (s1 & -> & Hk1 & Ht1 & Hp1 & _ & Ha1).
    cbn [mbind outcome_bind fst snd]. destruct (flag s1).
    { exists s1. split_and!; [done|by eapply ticking_weaken; [|exact Hk1]; lia|done|].
      eapply awake_weaken; [|exact Ha1]. lia. }
    destruct (tick_count_awake last _ _ _ _ (Nat.min 20 (S d)) s1 Hlast ltac:(lia) Hk1 Ha1)
      as (s2 & -> & Hk2 & Ht2 & Hp2 & Ha2).
    cbn [mbind outcome_bind fst snd]. rewrite (proj2 (Z.ltb_ge _ _)) by lia.
    destruct (IH fuel s2 (Nat.min 20 (S (Nat.min 20 (S d))))) as (s3 & ? & ? & Hp3 & ?);
      [lia|lia|lia|done|lia|done|done|].
    exists s3. split_and!; [done|done|by rewrite Hp3, Hp2|]. eapply awake_weaken; [|done]. lia.
Qed.

Lemma await_awake last n flag thr may_run m log s :
  last + 201 < 2 ^ 64 → (thr <= 20)%nat → (∀ s, awake may_run m log thr s → flag s = true) →
  ticking Q last (22 + n) s → awake may_run m log 0 s →
  ∃ s', await_flag tr ap_entry64_addr ap_ebx other_tables flag s = Ret (s', true) ∧ ticking Q last n s' ∧
        in_print s' = in_print s ∧ awake may_run m log 0 s'.
Proof.
  intros Hlast Hthr Hflag Hk Ha. unfold await_flag.
  destruct (tick_count_awake last (21 + n) _ _ _ 0 s ltac:(lia) ltac:(lia) Hk Ha)
    as (s1 & -> & Hk1 & Ht1 & Hp1 & Ha1).
  cbn [mbind outcome_bind fst snd]. pose proof (tk_pos _ _ _ _ Hk1). pose proof (tk_last _ _ _ _ Hk1).
  pose proof (ticks_to_come_nonneg (schedule s1)).
  rewrite u64_add_ret by lia. cbn [mbind outcome_bind].
  destruct (poll_awake last n 10 (S (length (schedule s1))) flag thr (Nat.min 20 1) (TICKS s1 + 200)
              may_run m log s1) as (s2 & ? & ? & Hp2 & ?);
    [lia|done|lia|pose proof (tk_slices _ _ _ _ Hk1); lia|lia|done|lia|done|done|].
  exists s2. split_and!; [done|done|congruence|]. eapply awake_weaken; [|done]. lia.
Qed.

Lemma awake_started may_run m log s : awake may_run m log 8 s → AP_STARTED s = true.
Proof.
  intros [[_ _ _ _ Hf] Hw _ _ Hd]. destruct (ap s) as [| | |pc|]; cbn in *; try lia.
  destruct Hf as (_ & _ & _ & -> & _). apply bool_decide_eq_true. lia.
Qed.

Lemma awake_survived may_run m log s : awake may_run m log 19 s → AP_FAULT_SURVIVED s = true.
Proof.
  intros [[_ _ _ _ Hf] Hw _ _ Hd]. destruct (ap s) as [| | |pc|]; cbn in *; try lia.
  destruct Hf as (_ & _ & _ & _ & -> & _). apply bool_decide_eq_true. lia.
Qed.

(** Nothing but the startup interrupt wakes a waiting processor. *)
Lemma waiting_stable may_run m log :
  stable (λ s, ap_inv may_run m log s ∧ ap s = ApWaitSipi).
Proof.
  pose proof (ap_inv_stable may_run m log) as HP.
  split; try (intros s x [Hi Ha]; split; [by apply HP|done]).
  - intros s e [Hi Ha]. split; [by apply HP|]. destruct e; [done|]. cbn [Smp.env_step]. unfold Smp.ap_step. by rewrite Ha.
  - intros s [Hi Ha] Hn. split; [by apply HP|done].
  - intros s [Hi Ha] Hn. split; [by apply HP|done].
  - intros s [Hi _]. by apply HP.
Qed.

Lemma sipi_awake t m log s :
  t = core_id → finds_kernel tr other_tables m = true → (run_trampoline tr m).2 = ap_entry64_addr →
  ap_inv (t = core_id) m log s → ap s = ApWaitSipi ∨ woken (ap s) →
  awake (t = core_id) m (log ++ ipi t 0x4608) 0
    (deliver ap_ebx (set_log s (lapic_log s ++ ipi t 0x4608)) (t * 2 ^ 24) 0x4608).
Proof.
  intros Ht Hk He Hi Hw. split; [by apply ap_inv_sipi| |done|done|lia].
  rewrite deliver_sipi, <- Ht, Z.eqb_refl. cbn [andb ap set_log].
  case_bool_decide as Ha; [done|]. by destruct Hw.
Qed.

(** The interrupts wake the processor they are for. *)
Lemma wake_ap_awake t m s s' :
  0 <= t < 256 → ap s = ApReset → ap_inv (t = core_id) m [] s →
  t = core_id → finds_kernel tr other_tables m = true → (run_trampoline tr m).2 = ap_entry64_addr →
  wake_ap tr ap_entry64_addr ap_ebx other_tables t s = Ret s' →
  awake (t = core_id) m (ipi_sequence t) 0 s'.
Proof.
  intros Ht Ha Hi Hcore Hk He Hr.
  apply (wake_ap_inv (λ s, ap s = ApReset ∧ ap_inv (t = core_id) m [] s)
           (λ s, ap_inv (t = core_id) m (ipi t 0x4500) s ∧ ap s = ApWaitSipi)
           (awake (t = core_id) m (ipi t 0x4500 ++ ipi t 0x4608) 0) (awake (t = core_id) m (ipi_sequence t) 0) t s s'
           Ht (waiting_stable _ _ _) (awake_stable _ _ _ 0 ltac:(lia)) (awake_stable _ _ _ 0 ltac:(lia)) (conj Ha Hi));
    [..|exact Hr].
  - intros s0 [Ha0 Hi0]. split; [by apply ap_inv_init|]. by rewrite deliver_init, <- Hcore, Z.eqb_refl.
  - intros s0 [Hi0 Ha0]. apply sipi_awake; auto.
  - intros s0 [Hi0 Hw0 _ _ _]. unfold ipi_sequence. rewrite app_assoc. apply sipi_awake; auto.
Qed.

(** With the processor there and running, [start_ap] succeeds exactly for it. *)
Lemma start_ap_awake last t m s :
  last + 201 < 2 ^ 64 → 0 <= t < 256 → ap s = ApReset → ap_inv (t = core_id) m [] s →
  finds_kernel tr other_tables m = true → (run_trampoline tr m).2 = ap_entry64_addr →
  ticking Q last 415 s → printable 44 s → t = core_id →
  ∃ s' n, start_ap tr ap_entry64_addr ap_ebx other_tables t s = Ret (s', true) ∧ ticking Q last (3 + n) s'.
Proof.
  intros Hlast Ht Ha Hi Hfk He Hk Hp Hcore. unfold start_ap.
  destruct (wake_ap_ticking last 407 t s Hlast Hk) as (s3 & Hw3 & Hk3 & Hp3). rewrite Hw3.
  cbn [mbind outcome_bind]. apply wake_ap_awake with (m := m) in Hw3; try done. unfold confirm_ap.
  pose proof (awake_stable (t = core_id) m (ipi_sequence t) 0 ltac:(lia)) as HP.
  destruct (await_awake last 385 AP_STARTED 8 (t = core_id) m (ipi_sequence t) s3 Hlast ltac:(lia) (awake_started _ _ _) Hk3 Hw3)
    as (s4 & -> & Hk4 & Hp4 & Ha4).
  cbn [mbind outcome_bind fst snd negb].
  destruct (observe_awake last 384 (λ s, decode_reported (AP_REPORTED_APIC_ID s)) _ _ _ 0 s4
              ltac:(lia) ltac:(lia) Hk4 Ha4) as (s5 & Ho & Hk5 & _ & Hp5 & _ & Ha5).
  unfold ap_reported_apic_id. rewrite Ho. cbn [mbind outcome_bind fst snd].
  assert (printable (22 + 22) s5) as Hq5 by (unfold printable; by rewrite Hp5, Hp4, Hp3).
  apply (awake_weaken _ _ _ _ 0) in Ha5; [|lia].
  destruct (println_ticking last 384 _ _ _ 22 s5 (aw_inv _ _ _ _ _ Ha5) Hk5 Hq5) as (s6 & R6 & Hk6 & Hq6).
  rewrite R6. cbn [mbind outcome_bind]. pose proof (proj1 (println_stable _ _ _ HP Ha5 R6)) as Ha6.
  destruct (await_awake last 362 AP_FAULT_SURVIVED 19 (t = core_id) m (ipi_sequence t) s6 Hlast ltac:(lia)
              (awake_survived _ _ _) Hk6 Ha6) as (s7 & -> & Hk7 & Hp7 & Ha7).
  cbn [mbind outcome_bind fst snd negb].
  assert (printable (22 + 0) s7) as Hq7 by (unfold printable; by rewrite Hp7).
  destruct (println_ticking last 362 _ _ _ 0 s7 (aw_inv _ _ _ _ _ Ha7) Hk7 Hq7) as (s8 & -> & Hk8 & _).
  by exists s8, 359%nat.
Qed.
End run.

(** ** Preparing *)

Lemma copy_bytes_out m dest bytes a :
  ¬ (dest <= a < dest + Z.of_nat (length bytes)) → copy_bytes m dest bytes a = m a.
Proof.
  revert m dest. induction bytes as [|b bytes IH]; intros m dest Ha; [done|]. cbn [copy_bytes length] in *.
  rewrite IH by lia. unfold store_byte. destruct (Z.eqb_spec a dest); [lia|done].
Qed.

Lemma copy_bytes_in m dest bytes i b :
  bytes !! i = Some b → copy_bytes m dest bytes (dest + Z.of_nat i) = b.
Proof.
  revert m dest i. induction bytes as [|c bytes IH]; intros m dest i Hi; [done|]. cbn [copy_bytes].
  destruct i as [|i]; simpl in Hi.
  - injection Hi as ->. rewrite copy_bytes_out by lia. unfold store_byte.
    by rewrite (proj2 (Z.eqb_eq _ _)) by lia.
  - replace (dest + Z.of_nat (S i)) with (dest + 1 + Z.of_nat i) by lia. by apply IH.
Qed.

(** The flags of the two mappings. *)
Definition lapic_flags (nx : bool) : Z :=
  Z.lor (Z.lor (Z.lor PRESENT WRITABLE) NO_CACHE) (nx_flag nx).

(** Nothing happened yet. *)
Definition fresh (s : machine) : Prop :=
  AP_STARTED s = false ∧ AP_FAULT_SURVIVED s = false ∧ AP_REPORTED_APIC_ID s = u64_max ∧
  lapic_log s = [] ∧ ap s = ApReset ∧ heap_users s = [] ∧ SERIAL1 s = None.

Section prepare.
Context `{Profile} {M : Type} `{MapperLaws M}.
Context (tr : trampoline) (ap_entry64_addr ap_stack ap_ebx : Z).

(** The addresses the preparation computes fit in 64 bits. *)
Record addresses_ok (k : kernel M) : Prop := {
  ad_tr : trampoline_ok tr;
  ad_offset : ∀ off, phys_mem_offset k = Some off → 0 <= off ∧ off + 2 ^ 16 < 2 ^ 64;
  ad_stack : 0 <= ap_stack ∧ ap_stack + AP_STACK_SIZE < 2 ^ 64;
  ad_entry : 0 <= ap_entry64_addr < 2 ^ 64;
}.

Lemma map_page_to_frame_ok (m m' : M) p p' v f fl :
  map_page_to_frame adapter_allocate_frame m p v f fl = Ret (m', p', Ok tt) →
  walk m (page_of v) = None ∧ walk m' (page_of v) = Some (f, fl) ∧
  ∀ q, q ≠ page_of v → walk m' q = walk m q.
Proof.
  intros ([[m1 p1] [[]|[]]] & Hm & Hr)%outcome_bind_ret; [|discriminate Hr].
  injection Hr as <- <-. by apply map_to_ok in Hm.
Qed.

(** A try to map that returned. *)
Definition mapped (k k' : kernel M) (v f fl : Z) : Prop :=
  ∃ m p m' p', globals k = Some (m, p) ∧ globals k' = Some (m', p') ∧
    walk m' (page_of v) = Some (f, fl) ∧ ∀ q, q ≠ page_of v → walk m' q = walk m q.

Lemma try_map_inv (k k' : kernel M) v f fl b :
  try_map k v f fl = Ret (k', b) →
  shared k' = shared k ∧ phys_mem_offset k' = phys_mem_offset k ∧ boot_cr3 k' = boot_cr3 k ∧
  (b = true → mapped k k' v f fl).
Proof.
  unfold try_map. destruct (globals k) as [[m p]|] eqn:Eg; [|by intros [= <- <-]].
  intros ([[m' p'] r] & Hm & Hr)%outcome_bind_ret. injection Hr as <- <-. cbn [fst snd set_globals].
  split_and!; [done..|]. destruct r as [[]|]; [|done]. intros _.
  destruct (map_page_to_frame_ok _ _ _ _ _ _ _ Hm) as (_ & Hw & Hrest).
  by exists m, p, m', p'.
Qed.

Lemma page_of_low v : v mod PAGE_SIZE = 0 → page_of v = v.
Proof. intros Hv. rewrite page_of_spec, Hv. lia. Qed.

Lemma ret_pair_inv {A B : Type} (a a' : A) (b b' : B) : Ret (a, b) = Ret (a', b') → a = a' ∧ b = b'.
Proof. by intros [= -> ->]. Qed.

(** What a successful preparation leaves: both pages, the code, and the three values
    the trampoline loads. *)
Record prepared (nx : bool) (k k' : kernel M) (topology : CpuTopology) : Prop := {
  pr_pages : ∃ m p m' p', globals k = Some (m, p) ∧ globals k' = Some (m', p') ∧
    walk m' LAPIC_VIRT_BASE = Some (frame_of (local_apic_address topology), lapic_flags nx) ∧
    walk m' TRAMPOLINE_PHYS_ADDR = Some (TRAMPOLINE_PHYS_ADDR, Z.lor PRESENT WRITABLE) ∧
    ∀ q, q ≠ LAPIC_VIRT_BASE → q ≠ TRAMPOLINE_PHYS_ADDR → walk m' q = walk m q;
  pr_shared : ∃ mem, shared k' = add_heap_user (set_phys_mem (shared k) mem) BootProcessor ∧
    run_trampoline tr mem = (boot_cr3 k mod 2 ^ 32, ap_stack + AP_STACK_SIZE, ap_entry64_addr) ∧
    load64 mem (AP_CR3 tr) = boot_cr3 k mod 2 ^ 64 ∧
    ∀ i b, TRAMPOLINE_BLOB tr !! i = Some b → TRAMPOLINE_PHYS_ADDR + Z.of_nat i < AP_CR3 tr →
           mem (TRAMPOLINE_PHYS_ADDR + Z.of_nat i) = b;
}.

Lemma prepare_ap_inv nx (k k' : kernel M) topology b :
  addresses_ok k → prepare_ap tr ap_entry64_addr ap_stack nx k topology = Ret (k', b) →
  if b then prepared nx k k' topology else shared k' = shared k.
Proof.
  intros [Htr Hoff [Hst Hst'] Hent] Hrun. unfold prepare_ap in Hrun.
  pose proof (tr_size _ Htr) as Hsize. pose proof (tr_page _ Htr). pose proof (tr_start _ Htr) as Hstart.
  pose proof (tr_cr3 _ Htr). pose proof (tr_stack _ Htr). pose proof (tr_entry _ Htr). pose proof (tr_end _ Htr).
  unfold TRAMPOLINE_PHYS_ADDR, PAGE_SIZE, AP_STACK_SIZE in *.
  rewrite u64_sub_ret in Hrun by lia. cbn [mbind outcome_bind] in Hrun.
  rewrite Hsize, Z.eqb_refl, andb_false_r in Hrun.
  rewrite (virt_addr_low LAPIC_VIRT_BASE) in Hrun by done.
  cbn [mbind outcome_bind] in Hrun.
  apply outcome_bind_ret in Hrun as ([k1 b1] & T1 & Hrun). apply try_map_inv in T1 as (S1 & O1 & C1 & M1).
  cbn [fst snd] in Hrun. destruct b1; cbn [negb] in Hrun; [|by injection Hrun as <- <-].
  rewrite (virt_addr_low 0x8000) in Hrun by done. cbn [mbind outcome_bind] in Hrun.
  apply outcome_bind_ret in Hrun as ([k2 b2] & T2 & Hrun). apply try_map_inv in T2 as (S2 & O2 & C2 & M2).
  cbn [fst snd] in Hrun. destruct b2; cbn [negb] in Hrun; [|injection Hrun as <- <-; congruence].
  rewrite O2, O1, S2, S1, C2, C1 in Hrun. destruct (phys_mem_offset k) as [off|]; [|injection Hrun as <- <-; congruence].
  destruct (Hoff off eq_refl) as [Ho Ho'].
  assert (∀ x, physical_of off (off + x) = x) as Hph by (intros; unfold physical_of; lia).
  do 5 (rewrite u64_add_ret in Hrun by lia; cbn [mbind outcome_bind] in Hrun).
  rewrite !Hph in Hrun. apply ret_pair_inv in Hrun as [<- <-].
  destruct (M1 eq_refl) as (m0 & p0 & m1 & p1 & G0 & G1 & W1 & R1).
  destruct (M2 eq_refl) as (m1' & p1' & m2 & p2 & G1' & G2 & W2 & R2). rewrite G1 in G1'. injection G1' as <- <-.
  rewrite (page_of_low LAPIC_VIRT_BASE) in * by done. rewrite (page_of_low 0x8000) in * by done.
  split; unfold TRAMPOLINE_PHYS_ADDR, AP_STACK_SIZE.
  - exists m0, p0, m2, p2. rewrite R2 by done. split_and!; [done|done|done| |].
    + rewrite W2, frame_of_spec. done.
    + intros q Hq Hq'. rewrite R2, R1 by done. done.
  - exists (store64 (store64 (store64 (copy_bytes (phys_mem (shared k)) 0x8000 (TRAMPOLINE_BLOB tr))
                                (AP_CR3 tr) (boot_cr3 k)) (AP_STACK_TOP tr) (ap_stack + 64 * 1024))
              (AP_ENTRY_ADDR tr) ap_entry64_addr).
    split; [reflexivity|]. apply and_assoc. split.
    + apply run_trampoline_stored; [done|lia|done].
    + intros i c Hi Hlt. rewrite !store64_out by lia. by apply copy_bytes_in.
Qed.

(** *** The preparation returns *)

Lemma map_page_to_frame_ret (m : M) p v f fl :
  phys_wf p →
  ∃ m' p' r, map_page_to_frame adapter_allocate_frame m p v f fl = Ret (m', p', r) ∧ phys_wf p'.
Proof.
  intros Hp. unfold map_page_to_frame.
  destruct (map_to_returns _ adapter_allocate_frame m p (page_of v) f fl) as [[[m' p'] r] Hm];
    [intros n p' Hd; by apply (adapter_returns p n p')|].
  rewrite Hm. cbn [mbind outcome_bind].
  destruct (map_to_draws _ _ _ _ _ _ _ _ _ _ Hm) as (n & _ & Hd).
  destruct (draws_adapter n p p' Hp Hd) as ((Hp' & _) & _).
  destruct r as [[]|[]]; by eexists _, _, _.
Qed.

Definition allocator_ok (k : kernel M) : Prop := ∀ m p, globals k = Some (m, p) → phys_wf p.

Lemma page_map_ret (k : kernel M) v f fl :
  allocator_ok k → ∃ k' b, try_map k v f fl = Ret (k', b) ∧ allocator_ok k'.
Proof.
  intros Hk. unfold try_map. destruct (globals k) as [[m p]|] eqn:Eg; [|by eexists _, _].
  destruct (map_page_to_frame_ret m p v f fl (Hk m p Eg)) as (m' & p' & r & -> & Hp').
  cbn [mbind outcome_bind]. eexists _, _. split; [done|]. intros m0 p0. cbn. by intros [= <- <-].
Qed.

Lemma prepare_ap_ret nx (k : kernel M) topology :
  addresses_ok k → allocator_ok k →
  ∃ k' b, prepare_ap tr ap_entry64_addr ap_stack nx k topology = Ret (k', b).
Proof.
  intros [Htr Hoff [Hst Hst'] Hent] Hal. unfold prepare_ap.
  pose proof (tr_size _ Htr) as Hsize. pose proof (tr_page _ Htr). pose proof (tr_start _ Htr).
  pose proof (tr_cr3 _ Htr). pose proof (tr_stack _ Htr). pose proof (tr_entry _ Htr). pose proof (tr_end _ Htr).
  unfold TRAMPOLINE_PHYS_ADDR, PAGE_SIZE, AP_STACK_SIZE in *.
  rewrite u64_sub_ret by lia. cbn [mbind outcome_bind].
  rewrite Hsize, Z.eqb_refl, andb_false_r, (virt_addr_low LAPIC_VIRT_BASE) by done. cbn [mbind outcome_bind].
  destruct (page_map_ret k LAPIC_VIRT_BASE (frame_of (local_apic_address topology)) (lapic_flags nx) Hal)
    as (k1 & b1 & Hr1 & Hal1). fold (lapic_flags nx). rewrite Hr1.
  cbn [mbind outcome_bind fst snd]. destruct b1; cbn [negb]; [|by eexists _, _].
  rewrite (virt_addr_low 0x8000) by done. cbn [mbind outcome_bind].
  destruct (page_map_ret k1 0x8000 (frame_of 0x8000) (Z.lor PRESENT WRITABLE) Hal1)
    as (k2 & b2 & Hr2 & _). rewrite Hr2.
  cbn [mbind outcome_bind fst snd]. destruct b2; cbn [negb]; [|by eexists _, _].
  apply try_map_inv in Hr1 as (_ & O1 & _). apply try_map_inv in Hr2 as (_ & O2 & _).
  destruct (phys_mem_offset k2) as [off|] eqn:Eo; [|by eexists _, _].
  destruct (Hoff off) as [Ho Ho']; [congruence|].
  do 5 (rewrite u64_add_ret by lia; cbn [mbind outcome_bind]). by eexists _, _.
Qed.

(** The state in which the interrupts are sent. *)
Lemma prepared_inv nx (k k' : kernel M) topology may_run :
  fresh (shared k) → prepared nx k k' topology →
  ∃ mem, ap (shared k') = ApReset ∧ ap_inv tr ap_entry64_addr ap_ebx may_run mem [] (shared k') ∧
    run_trampoline tr mem = (boot_cr3 k mod 2 ^ 32, ap_stack + AP_STACK_SIZE, ap_entry64_addr) ∧
    load64 mem (AP_CR3 tr) = boot_cr3 k mod 2 ^ 64 ∧
    TICKS (shared k') = TICKS (shared k) ∧ schedule (shared k') = schedule (shared k) ∧
    in_lock (shared k') = in_lock (shared k) ∧ in_print (shared k') = in_print (shared k) ∧
    SERIAL1 (shared k') = None.
Proof.
  intros (F1 & F2 & F3 & F4 & F5 & F6 & F7) [_ (mem & -> & Hrun & Hcr3 & _)]. exists mem.
  split_and!; try done. split; cbn; rewrite ?F5, ?F6, ?F7; auto. by split.
Qed.

(** Page tables below 4 GiB are found. *)
Lemma found_below mem cr3 other_tables :
  (run_trampoline tr mem).1.1 = cr3 mod 2 ^ 32 → load64 mem (AP_CR3 tr) = cr3 mod 2 ^ 64 → 0 <= cr3 < 2 ^ 32 →
  finds_kernel tr other_tables mem = true.
Proof.
  unfold run_trampoline, finds_kernel. cbn [fst]. intros -> -> Hc. rewrite !Z.mod_small by lia. by rewrite Z.eqb_refl.
Qed.

(** What the processor that has survived its fault has done. *)
Lemma survived_done may_run m log s :
  ap_inv tr ap_entry64_addr ap_ebx may_run m log s ∧ AP_FAULT_SURVIVED s = true →
  may_run ∧ lapic_log s = log ∧ AP_STARTED s = true ∧ AP_FAULT_SURVIVED s = true ∧
  AP_REPORTED_APIC_ID s = this_core_apic_id ap_ebx ∧
  heap_users s = [BootProcessor; OtherProcessor] ∧ ap_registers s = run_trampoline tr m.
Proof.
  intros [[Hl _ Hr _ Hf] Hv]. destruct (ap s) as [| | |pc|]; try (by destruct Hf as (_ & Hx & _); congruence).
  destruct Hr as [?|[?|Hr]]; [done..|]. destruct Hf as (_ & Hreg & _ & -> & Hs & -> & ->).
  rewrite Hv in Hs. symmetry in Hs. pose proof (proj1 (bool_decide_eq_true _) Hs) as Hpc.
  rewrite !decide_True, bool_decide_eq_true_2 by lia. done.
Qed.

Lemma decode_reported_id : decode_reported (this_core_apic_id ap_ebx) = Some (this_core_apic_id ap_ebx).
Proof.
  unfold decode_reported, this_core_apic_id. pose proof (Z.mod_pos_bound (Z.shiftr ap_ebx 24) (2 ^ 8) ltac:(lia)).
  rewrite (proj2 (Z.eqb_neq _ _)) by (unfold u64_max; lia). by rewrite Z.mod_mod by lia.
Qed.
End prepare.

(** A slice in which the timer and the other processor both advance, the timer by at
    most ten ticks. *)
Definition eager (slice : list event) : Prop :=
  Tick ∈ slice ∧ ApStep ∈ slice ∧ ticks_in slice <= 10.

Lemma eager_tick slice : eager slice → Tick ∈ slice.
Proof. by intros [? _]. Qed.

Lemma eager_step slice : eager slice → ApStep ∈ slice ∧ ticks_in slice <= 10.
Proof. by intros [_ ?]. Qed.

(** ** Properties *)

Section theorems.
Context `{Profile} {M : Type} `{MapperLaws M}.
Context (tr : trampoline) (ap_entry64_addr ap_stack ap_ebx : Z) (other_tables : Z → bool).

(** [C16] What the answer of [bring_up_ap] says, in every interleaving with the timer
    and with the other processor, starting from a state where nothing has been sent.
    [true] means that the processor with the target's id executed [ap_entry64] past
    its breakpoint, on the stack made for it, and reported that id; the three
    interrupts went to the target in order, both pages are mapped, and the boot
    processor used the heap only before the other one did.  CR3 is loaded through
    a 32-bit register, so the other processor has only the low half of the frame.
    [false] means that nothing was sent or that all three interrupts were. *)
Theorem bring_up_ap_answer nx (k k' : kernel M) topology t b
    (Hok : addresses_ok tr ap_entry64_addr ap_stack k) (Hfresh : fresh (shared k))
    (Ht : 0 <= t < 256)
    (Hrun : bring_up_ap tr ap_entry64_addr ap_stack ap_ebx other_tables nx k topology t = Ret (k', b)) :
  if b then
    t = this_core_apic_id ap_ebx ∧
    AP_STARTED (shared k') = true ∧ AP_FAULT_SURVIVED (shared k') = true ∧
    decode_reported (AP_REPORTED_APIC_ID (shared k')) = Some t ∧
    lapic_log (shared k') = ipi_sequence t ∧
    heap_users (shared k') = [BootProcessor; OtherProcessor] ∧
    ap_registers (shared k') =
      (boot_cr3 k mod 2 ^ 32, ap_stack + AP_STACK_SIZE, ap_entry64_addr) ∧
    ∃ m p, globals k' = Some (m, p) ∧
      walk m LAPIC_VIRT_BASE = Some (frame_of (local_apic_address topology), lapic_flags nx) ∧
      walk m TRAMPOLINE_PHYS_ADDR = Some (TRAMPOLINE_PHYS_ADDR, Z.lor PRESENT WRITABLE)
  else
    shared k' = shared k ∨ lapic_log (shared k') = ipi_sequence t.
Proof.
  apply outcome_bind_ret in Hrun as ([k1 b1] & Hprep & Hrun).
  apply prepare_ap_inv in Hprep; [|done]. cbn [fst snd] in Hrun.
  destruct b1; cbn [negb] in Hrun; [|apply ret_pair_inv in Hrun as [<- <-]; by left].
  apply outcome_bind_ret in Hrun as ([s2 b2] & Hstart & Hrun). cbn [fst snd] in Hrun.
  apply ret_pair_inv in Hrun as [<- <-]. cbn [shared set_shared globals].
  destruct (prepared_inv tr ap_entry64_addr ap_stack ap_ebx nx k k1 topology
              (t = this_core_apic_id ap_ebx) Hfresh Hprep) as (mem & Ha & Hi & Hreg & _).
  destruct (start_ap_inv _ _ _ _ _ _ _ _ _ Ht Ha Hi Hstart) as [Hinv Hb].
  destruct b2; [|right; apply Hinv].
  destruct (survived_done _ _ _ _ _ _ _ (conj Hinv (Hb eq_refl)))
    as (-> & -> & -> & -> & -> & -> & ->).
  rewrite decode_reported_id, Hreg. split_and!; try done.
  destruct (pr_pages _ _ _ _ _ _ _ Hprep) as (m0 & p0 & m1 & p1 & _ & Hg & Hw1 & Hw2 & _). by exists m1, p1.
Qed.

(** [C18] [bring_up_ap] ends, whether or not the other processor answers: if no timer
    interrupt comes while it holds the lock of [TICKS], the timer ticks between any two of
    its loads, and the other processor takes a step whenever it waits for the lock of
    [SERIAL1]; 415 loads and 44 such waits are enough.  Both provisos about the locks are
    needed.  It comes back only if no tick came while it held the lock of [TICKS]: the
    handler would wait for that lock for ever.  And its print never comes back when the
    other processor stops while it holds the lock of [SERIAL1]. *)
Theorem bring_up_ap_terminates nx (k : kernel M) topology t
    (Hok : addresses_ok tr ap_entry64_addr ap_stack k) (Hal : allocator_ok k)
    (Hfresh : fresh (shared k)) (Ht : 0 <= t < 256) :
  (0 <= TICKS (shared k) →
   TICKS (shared k) + ticks_to_come (schedule (shared k)) + 201 < 2 ^ 64 →
   Forall (λ slice, Tick ∈ slice) (schedule (shared k)) → (415 <= length (schedule (shared k)))%nat →
   Forall (λ slice, Tick ∉ slice) (in_lock (shared k)) → (415 <= length (in_lock (shared k)))%nat →
   printable 44 (shared k) →
   ∃ k' b, bring_up_ap tr ap_entry64_addr ap_stack ap_ebx other_tables nx k topology t = Ret (k', b)) ∧
  (∀ k' b, bring_up_ap tr ap_entry64_addr ap_stack ap_ebx other_tables nx k topology t = Ret (k', b) →
     unticked (shared k) (shared k')) ∧
  (∀ s, SERIAL1 s = Some OtherProcessor → Forall (λ n, n = 0)%nat (in_print s) →
     println tr ap_entry64_addr ap_ebx other_tables s = Diverge).
Proof.
  split; [|split].
  - intros Hpos Hlast Hsl Hlen Hlk Hlkn Hpr. unfold bring_up_ap.
    destruct (prepare_ap_ret tr ap_entry64_addr ap_stack nx k topology Hok Hal) as (k1 & b1 & Hprep).
    rewrite Hprep. cbn [mbind outcome_bind fst snd]. destruct b1; cbn [negb]; [|by eexists _, _].
    apply prepare_ap_inv in Hprep; [|done].
    destruct (prepared_inv tr ap_entry64_addr ap_stack ap_ebx nx k k1 topology (t = this_core_apic_id ap_ebx) Hfresh Hprep)
      as (mem & Ha & Hi & _ & _ & Ht1 & Hs1 & Hk1 & Hp1 & Hser).
    destruct (start_ap_ends tr ap_entry64_addr ap_ebx other_tables (λ slice, Tick ∈ slice) ltac:(done)
                (TICKS (shared k) + ticks_to_come (schedule (shared k))) t mem (shared k1))
      as (s2 & b2 & ->); [lia|done|done|done|split; rewrite ?Ht1, ?Hs1, ?Hk1, ?Hser; (done || lia)|..].
    + unfold printable. by rewrite Hp1.
    + cbn [mbind outcome_bind fst snd]. by eexists _, _.
  - intros k' b ([k1 b1] & Hprep & Hrun)%outcome_bind_ret. apply prepare_ap_inv in Hprep; [|done].
    cbn [fst snd] in Hrun. destruct b1; cbn [negb] in Hrun;
      [|apply ret_pair_inv in Hrun as [<- _]; apply unticked_same; by rewrite Hprep].
    apply outcome_bind_ret in Hrun as ([s2 b2] & (s1 & Hw%wake_ap_unticked & Hc%confirm_ap_unticked)%outcome_bind_ret & Hrun).
    apply ret_pair_inv in Hrun as [<- _]. cbn [shared set_shared].
    destruct (pr_shared _ _ _ _ _ _ _ Hprep) as (mem & Hsh & _). rewrite Hsh in Hw.
    exact (unticked_trans _ _ _ Hw Hc).
  - intros s Hs Hz. unfold println. assert (∀ l s, SERIAL1 s = Some OtherProcessor → Forall (λ n, n = 0)%nat l →
      lock_serial tr ap_entry64_addr ap_ebx other_tables l s = Diverge) as Hl.
    { intros l. induction l as [|n l IH]; intros s0 Hs0 Hz0; [done|]. apply Forall_cons in Hz0 as [-> Hz0].
      cbn. rewrite Hs0. rewrite bool_decide_eq_false_2 by done. by apply IH. }
    by rewrite Hl.
Qed.

End theorems.

(** A trampoline of 32 bytes, a processor with id 1, and empty page tables. *)
Definition demo_trampoline : trampoline :=
  mkTrampoline 0x8000 0x8020 0x8008 0x8010 0x8018 (replicate 32 0x90).

Definition demo_topology : CpuTopology :=
  mkTopology 0xFEE00000 [mkCpuInfo 0 0 true; mkCpuInfo 1 1 true].

Definition demo_kernel (slices : nat) : kernel radix :=
  mkKernel (Some (mkRadix ∅ ∅, demo_phys)) (Some 0x10000000000) 0x1000
    (mkMachine false false u64_max 0 [] (λ _, 0) ApReset (0, 0, 0) [] None
       (replicate slices [Tick; ApStep]) (replicate slices [ApStep]) (replicate 44 1%nat)).

Lemma demo_addresses n : addresses_ok demo_trampoline 0xFFFF800000001000 0x444444440000 (demo_kernel n).
Proof.
  split; [by split|intros off [= <-]; split; [discriminate|reflexivity]|split; [discriminate|reflexivity]|
          split; [discriminate|reflexivity]].
Qed.

Lemma demo_fresh n : fresh (shared (demo_kernel n)).
Proof. by split_and!. Qed.

Lemma bring_up_ap_answer_witness :
  ∃ k', @bring_up_ap true radix radix_mapper demo_trampoline 0xFFFF800000001000 0x444444440000 0x1000000 (λ _, false)
          true (demo_kernel 40) demo_topology 1 = Ret (k', true) ∧
        lapic_log (shared k') = ipi_sequence 1 ∧
        decode_reported (AP_REPORTED_APIC_ID (shared k')) = Some 1.
Proof.
  destruct (@bring_up_ap true radix radix_mapper demo_trampoline 0xFFFF800000001000 0x444444440000 0x1000000 (λ _, false)
              true (demo_kernel 40) demo_topology 1) as [[k' b]| |] eqn:E; [|vm_compute in E; discriminate E..].
  assert (b = true) as -> by (vm_compute in E; injection E as _ <-; reflexivity).
  destruct (@bring_up_ap_answer true radix radix_mapper radix_laws demo_trampoline 0xFFFF800000001000
              0x444444440000 0x1000000 (λ _, false) true _ k' _ 1 true (demo_addresses 40) (demo_fresh 40)
              ltac:(split; [discriminate|reflexivity]) E) as (_ & _ & _ & Hr & Hl & _).
  exists k'. exact (conj eq_refl (conj Hl Hr)).
Defined.

Lemma demo_allocator n : allocator_ok (demo_kernel n).
Proof. intros m p [= <- <-]. apply demo_phys_wf. Qed.

Lemma demo_in_lock n : Forall (λ slice, Tick ∉ slice) (in_lock (shared (demo_kernel n))).
Proof. apply Forall_replicate. by intros ?%list_elem_of_singleton. Qed.

Lemma demo_printable n : printable 44 (shared (demo_kernel n)).
Proof. split; [|done]. by apply Forall_replicate. Qed.

Lemma bring_up_ap_terminates_witness :
  ∃ k' b, @bring_up_ap true radix radix_mapper demo_trampoline 0xFFFF800000001000 0x444444440000 0x1000000 (λ _, false)
            true (demo_kernel 415) demo_topology 9 = Ret (k', b).
Proof.
  apply (@bring_up_ap_terminates true radix radix_mapper radix_laws).
  - apply demo_addresses.
  - apply demo_allocator.
  - apply demo_fresh.
  - split; [discriminate|reflexivity].
  - discriminate.
  - vm_compute. reflexivity.
  - apply Forall_replicate. left.
  - vm_compute. lia.
  - apply demo_in_lock.
  - vm_compute. lia.
  - apply demo_printable.
Defined.

