(* ===== verification/SelfTest.v ===== *)
(** * The boot self-test

    Model of the checks of [kernel_main] in [src/kernel-x86_64/src/main.rs] that the
    other files do not model, of their tally and of the exit code of [qemu_exit.rs]. *)
From S2P Require Import Prelude Capability Boot Sanctum Buddy Ipc Paging Topology.

(** ** The tally *)

Record CheckResults := mkResults { total : Z; passed : Z }.

Definition CheckResults_new : CheckResults := mkResults 0 0.

Definition record_check `{Profile} (self : CheckResults) (ok : bool) : outcome CheckResults :=
  total ← u32_add self.(total) 1;
  if ok then passed ← u32_add self.(passed) 1; Ret (mkResults total passed)
  else Ret (mkResults total self.(passed)).

Inductive ExitCode := Success | Failed.

Definition exit_code_word (c : ExitCode) : Z :=
  match c with Success => 0x10 | Failed => 0x11 end.

(** What [exit_qemu] writes, and to which port, before it halts for good. *)
Definition exit_qemu (c : ExitCode) : Z * Z := (0xf4, exit_code_word c).

(** ** The usable region *)

(** [MemoryRegion]; [usable] is whether the bootloader gave it that kind. *)
Record MemoryRegion := mkRegion { region_start : Z; region_end : Z; usable : bool }.

(** [max_by_key]: of equal keys the last. *)
Fixpoint max_by_key {A} (key : A → outcome Z) (l : list A) (best : option (A * Z)) : outcome (option A) :=
  match l with
  | [] => Ret (fst <$> best)
  | x :: l' =>
      k ← key x;
      max_by_key key l' (match best with
                         | Some (b, kb) => if k <? kb then Some (b, kb) else Some (x, k)
                         | None => Some (x, k)
                         end)
  end.

(** The region the kernel's memory is taken from. *)
Definition largest_usable `{Profile} (memory_regions : list MemoryRegion) : outcome MemoryRegion :=
  r ← max_by_key (λ r, u64_sub r.(region_end) r.(region_start)) (filter (λ r, usable r = true) memory_regions) None;
  match r with
  | Some r => Ret r
  | None => Panic
  end.

(** ** The checks of memory *)

(** The globals of [paging.rs], [PAGE_FAULTS_DEMAND_PAGED], and the words of physical
    memory. *)
Record ram (M : Type) := mkRam {
  maps : option (M * PhysicalAllocator);
  faults : Z;
  word : gmap Z Z;
}.
Arguments mkRam {M}. Arguments maps {M}. Arguments faults {M}. Arguments word {M}.

Section memory_checks.
Context `{Profile} {M : Type} `{Mapper M} (nx : bool).
Implicit Type st : ram M.

(** Two pages, taken and given back. *)
Definition phys_alloc_ok st : outcome (ram M * bool) :=
  match maps st with
  | None => Ret (st, false)
  | Some (mapper, phys) =>
      before ← free_page_count phys;
      r1 ← allocate phys 0;
      r2 ← allocate r1.1 0;
      let done_with phys ok := Ret (mkRam (Some (mapper, phys)) (faults st) (word st), ok) in
      match r1.2, r2.2 with
      | Ok p1, Ok p2 =>
          if p1 =? p2 then done_with r2.1 false else
          d1 ← deallocate r2.1 p1;
          if negb (is_ok d1.2) then done_with d1.1 false else
          d2 ← deallocate d1.1 p2;
          if negb (is_ok d2.2) then done_with d2.1 false else
          after ← free_page_count d2.1;
          done_with d2.1 (after =? before)
      | _, _ => done_with r2.1 false
      end
  end.

(** An access of the kernel: the physical address the tables give, or a page fault,
    after which it is tried again. *)
Fixpoint resolve (retries : nat) st (v : Z) : outcome (ram M * Z) :=
  match maps st with
  | None => Panic
  | Some (mapper, phys) =>
      match walk mapper (page_of v) with
      | Some (frame, _) => Ret (st, frame + (v - page_of v))
      | None =>
          match retries with
          | O => Diverge
          | S n =>
              r ← page_fault_handler nx mapper phys (faults st) v;
              let '(mapper, phys, counter) := (r : M * PhysicalAllocator * Z) in
              resolve n (mkRam (Some (mapper, phys)) counter (word st)) v
          end
      end
  end.

Definition write_volatile st (v x : Z) : outcome (ram M) :=
  r ← resolve 1 st v;
  Ret (mkRam (maps r.1) (faults r.1) (<[r.2 := x]> (word r.1))).

Definition read_volatile st (v : Z) : outcome (ram M * Z) :=
  r ← resolve 1 st v;
  Ret (r.1, default 0 (word r.1 !! r.2)).

Definition page_fault_ok st : outcome (ram M * bool) :=
  let ptr := DEMAND_PAGE_REGION_START in
  st ← write_volatile st ptr 0xDEADBEEFCAFED00D;
  r ← read_volatile st ptr;
  let value_ok := r.2 =? 0xDEADBEEFCAFED00D in
  let handler_ran := faults r.1 =? 1 in
  Ret (r.1, value_ok && handler_ran).

(** [with_phys(|phys| phys.free_page_count()).unwrap_or(0)]. *)
Definition free_pages st : outcome Z :=
  match maps st with
  | Some (_, phys) => free_page_count phys
  | None => Ret 0
  end.

Definition unmap_ok st : outcome (ram M * bool) :=
  free_before ← free_pages st;
  page_vaddr ← virt_addr DEMAND_PAGE_REGION_START;
  u ← match maps st with
      | Some (mapper, phys) =>
          r ← unmap_page mapper phys page_vaddr;
          Ret (mkRam (Some (r.1.1, r.1.2)) (faults st) (word st), is_ok r.2)
      | None => Ret (st, false)
      end;
  let '(st, unmapped) := (u : ram M * bool) in
  free_after ← free_pages st;
  let ptr := DEMAND_PAGE_REGION_START in
  st ← write_volatile st ptr 0xFEEDFACE0BADF00D;
  r ← read_volatile st ptr;
  let value_ok := r.2 =? 0xFEEDFACE0BADF00D in
  let refaulted := faults r.1 =? 2 in
  freed ← (if unmapped then e ← u64_add free_before 1; Ret (free_after =? e) else Ret false);
  Ret (r.1, freed && value_ok && refaulted).
End memory_checks.

(** The words of the heap check: what is pushed, and the comparison on the way out. *)
Definition heap_word (i : Z) : Z := (i * 0x9E3779B97F4A7C15) mod 2 ^ 64.

Definition heap_ok : bool :=
  let v := foldl (λ v i, vec_push v (heap_word i)) [] (seqZ 0 4096) in
  forallb (λ p, p.2 =? heap_word (Z.of_nat p.1)) (imap pair v).

(** ** The checks of the core library *)

Section library_checks.
Context `{Profile}.

Definition read_only : Permissions := mkPermissions true false false false false false false false.
Definition read_write : Permissions := mkPermissions true true false false false false false false.

Definition capability_ok : outcome bool :=
  let caps := CapabilityBroker_new in
  r ← issue caps 0 1 ResMemory "heap" read_write 0 u64_max;
  let (caps, decision) := check_access r.1 1 ResMemory "heap" read_only 0 in
  let (caps, denied) := check_access caps 2 ResMemory "heap" read_only 0 in
  Ret (bool_decide (decision = Allowed) && bool_decide (denied = Denied)).

Definition sanctum_ok : outcome bool :=
  let vaults := VaultManager_new in
  r ← create_vault vaults 1 Standard 0x1000 0x2000;
  let (vaults, vault_id) := (r : VaultManager * Z) in
  let enter_ok := is_ok (enter_vault vaults vault_id) in
  let inside_ok := is_ok (vault_check_access vaults vault_id 0x1500) in
  let outside_denied := negb (is_ok (vault_check_access vaults vault_id 0x5000)) in
  Ret (enter_ok && inside_ok && outside_denied).

Definition ipc_ok : outcome bool :=
  r ← create_port PortTable_new 1 4 CapabilityBroker_new 0;
  let '(ports, ipc_caps, port_id) := (r : PortTable * CapabilityBroker * Z) in
  s ← send_message ports 1 port_id [1; 2; 3] ipc_caps 0;
  let '(ports, ipc_caps, sent) := (s : PortTable * CapabilityBroker * result unit IpcError) in
  let send_ok := is_ok sent in
  v ← receive_message ports 1 port_id ipc_caps 0;
  let recv_ok := match v.2 with
                 | Ok m => bool_decide (payload m = [1; 2; 3])
                 | Err _ => false
                 end in
  Ret (send_ok && recv_ok).

(** The check of the topology, from what [discover] made of the bootloader's address. *)
Definition cpu_topology (tables : Z → option (option (Z * list MadtEntry))) (rsdp_addr : option Z) :
    result CpuTopology unit :=
  match rsdp_addr with
  | None => Err tt
  | Some rsdp => match discover tables rsdp with
                 | Ok t => Ok t
                 | Err _ => Err tt
                 end
  end.

Definition acpi_topology_ok (t : result CpuTopology unit) : bool :=
  match t with
  | Ok topo => (1 <=? cpu_count topo) && negb (local_apic_address topo =? 0)
  | Err _ => false
  end.

(** ** The sequence of the checks

    The results of the checks that depend on the machine, in the order they are
    recorded. *)
Record machine_checks := mkChecks {
  c_cpu_security : bool;
  c_acpi : bool;
  c_phys_alloc : bool;
  c_heap : bool;
  c_page_fault : bool;
  c_unmap : bool;
  c_address_space : bool;
  c_syscall : bool;
  c_scheduler : bool;
  c_task_exit : bool;
  c_task_reuse : bool;
  c_task_space : bool;
  c_smp : bool;
  c_bsp_intact : bool;
}.

(** [seq.complete(phase).is_ok()], recorded. *)
Definition record_phase (s : CheckResults * BootSequencer) (phase : BootPhase) : outcome (CheckResults * BootSequencer) :=
  r ← complete s.2 phase;
  results ← record_check s.1 (is_ok r.2);
  Ret (results, r.1).

Definition record_in (s : CheckResults * BootSequencer) (ok : bool) : outcome (CheckResults * BootSequencer) :=
  results ← record_check s.1 ok;
  Ret (results, s.2).

(** The checks up to the system calls, which the machine answers. *)
Definition boot_checks (c : machine_checks) (s : CheckResults * BootSequencer) :
    outcome (CheckResults * BootSequencer) :=
  s ← record_in s (c_cpu_security c);
  s ← record_in s (c_acpi c);
  s ← record_phase s EarlyBoot;
  s ← record_phase s LateBoot;
  s ← record_in s (c_phys_alloc c);
  s ← record_in s (c_heap c);
  s ← record_in s (c_page_fault c);
  s ← record_in s (c_unmap c);
  s ← record_in s (c_address_space c);
  record_in s (c_syscall c).

(** The checks of the core library, the tasks and the other processor. *)
Definition service_checks (c : machine_checks) (s : CheckResults * BootSequencer) :
    outcome (CheckResults * BootSequencer) :=
  capability ← capability_ok;
  s ← record_in s capability;
  s ← record_phase s SchedulerBoot;
  sanctum ← sanctum_ok;
  s ← record_in s sanctum;
  s ← record_phase s SanctumBoot;
  ipc ← ipc_ok;
  s ← record_in s ipc;
  s ← record_phase s IpcBoot;
  s ← record_in s (c_scheduler c);
  s ← record_in s (c_task_exit c);
  s ← record_in s (c_task_reuse c);
  s ← record_in s (c_task_space c);
  s ← record_in s (c_smp c);
  record_in s (c_bsp_intact c).

Definition self_test (c : machine_checks) : outcome (CheckResults * BootSequencer) :=
  s ← boot_checks c (CheckResults_new, BootSequencer_new);
  service_checks c s.

(** The end of [kernel_main]. *)
Definition verdict (results : CheckResults) : Z * Z :=
  if results.(passed) =? results.(total) then exit_qemu Success else exit_qemu Failed.
End library_checks.

(** What a panic anywhere writes. *)
Definition panic : Z * Z := exit_qemu Failed.

(** ** Lemmas *)

Definition machine_results (c : machine_checks) : list bool :=
  [c_cpu_security c; c_acpi c; c_phys_alloc c; c_heap c; c_page_fault c; c_unmap c; c_address_space c;
   c_syscall c; c_scheduler c; c_task_exit c; c_task_reuse c; c_task_space c; c_smp c; c_bsp_intact c].

Definition count_true (l : list bool) : Z := foldr (λ b n, Z.b2z b + n) 0 l.

Lemma count_true_range l : 0 <= count_true l <= Z.of_nat (length l).
Proof.
  unfold count_true. induction l as [|b l IH]; [done|]. cbn [foldr length].
  assert (0 <= Z.b2z b <= 1) by (destruct b; cbn; lia). lia.
Qed.

Lemma count_true_all l : count_true l = Z.of_nat (length l) ↔ forallb id l = true.
Proof.
  induction l as [|b l IH]; [done|]. pose proof (count_true_range l). unfold count_true in *. cbn [foldr length forallb].
  destruct b; cbn [Z.b2z id andb]; [rewrite <-IH; lia|]. split; [lia|done].
Qed.

(** A tally of [t] checks. *)
Definition tally (t p : Z) : Prop := 0 <= p <= t.

Lemma tally_step t p b : tally t p → tally (t + 1) (p + Z.b2z b).
Proof. unfold tally. destruct b; cbn; lia. Qed.

Lemma record_check_ret `{Profile} t p ok :
  tally t p → t < 1000 → record_check (mkResults t p) ok = Ret (mkResults (t + 1) (p + Z.b2z ok)).
Proof.
  intros [Hp Hpt] Ht. unfold record_check. cbn [total passed]. rewrite (u32_add_ret t) by lia.
  cbn [mbind outcome_bind]. destruct ok; cbn [Z.b2z]; [rewrite (u32_add_ret p) by lia; done|]. by rewrite Z.add_0_r.
Qed.

Lemma record_in_ret `{Profile} t p (seq : BootSequencer) ok :
  tally t p → t < 1000 →
  record_in (mkResults t p, seq) ok = Ret (mkResults (t + 1) (p + Z.b2z ok), seq).
Proof. intros Hp Ht. unfold record_in. cbn [fst snd]. by rewrite record_check_ret. Qed.

Lemma record_in_bind `{Profile} {A} t p (seq : BootSequencer) ok (f : _ → outcome A) :
  tally t p → t < 1000 →
  record_in (mkResults t p, seq) ok ≫= f = f (mkResults (t + 1) (p + Z.b2z ok), seq).
Proof. intros Hp Ht. by rewrite record_in_ret. Qed.

Lemma record_phase_bind `{Profile} {A} t p phase (f : _ → outcome A) :
  tally t p → t < 1000 →
  record_phase (mkResults t p, seq_at (phase_nat phase)) phase ≫= f =
  f (mkResults (t + 1) (p + Z.b2z true), seq_at (S (phase_nat phase))).
Proof.
  intros Hp Ht. unfold record_phase. cbn [fst snd].
  replace (complete (seq_at (phase_nat phase)) phase) with (Ret (seq_at (S (phase_nat phase)), @Ok unit BootError tt))
    by (by destruct phase).
  cbn [mbind outcome_bind fst snd is_ok]. by rewrite record_check_ret.
Qed.

Lemma library_checks_pass `{Profile} : capability_ok = Ret true ∧ sanctum_ok = Ret true ∧ ipc_ok = Ret true.
Proof. destruct H; split_and!; vm_compute; reflexivity. Qed.

#[local] Opaque record_in record_phase seq_at.

Lemma ret_bind {A B} (a : A) (f : A → outcome B) : Ret a ≫= f = f a.
Proof. done. Qed.

Lemma bind_assoc {A B C} (m : outcome A) (f : A → outcome B) (g : B → outcome C) :
  (m ≫= f) ≫= g = m ≫= (λ a, f a ≫= g).
Proof. by destruct m. Qed.

Ltac tallied := [> repeat simple apply tally_step; by unfold tally | reflexivity].
Ltac reassociate := etrans; [simple apply bind_assoc|]; cbv beta.
Ltac tally_in := etrans; [simple apply record_in_bind; tallied|]; cbv beta.
Ltac tally_phase ph := etrans; [simple apply (record_phase_bind _ _ ph); tallied|]; cbv beta.
Ltac tally_known := etrans; [simple apply ret_bind|]; cbv beta; tally_in.

(** The tally: the eight checks that need no machine pass. *)
Lemma self_test_ret `{Profile} c :
  self_test c = Ret (mkResults 22 (8 + count_true (machine_results c)), seq_at 5).
Proof.
  destruct library_checks_pass as (E1 & E2 & E3).
  unfold self_test, boot_checks, service_checks. rewrite E1, E2, E3. clear E1 E2 E3. change BootSequencer_new with (seq_at (phase_nat EarlyBoot)). unfold CheckResults_new.
  destruct c as [b1 b2 b3 b4 b5 b6 b7 b8 b9 b10 b11 b12 b13 b14].
  cbn [c_cpu_security c_acpi c_phys_alloc c_heap c_page_fault c_unmap c_address_space c_syscall c_scheduler
       c_task_exit c_task_reuse c_task_space c_smp c_bsp_intact].
  do 2 (reassociate; tally_in). reassociate. tally_phase EarlyBoot. reassociate. tally_phase LateBoot.
  do 5 (reassociate; tally_in). tally_in. tally_known.
  tally_phase SchedulerBoot. tally_known. tally_phase SanctumBoot. tally_known. tally_phase IpcBoot.
  do 5 tally_in. etrans; [simple apply record_in_ret; tallied|].
  change (S (phase_nat IpcBoot)) with 5%nat. do 2 f_equal.
  match goal with |- mkResults ?t ?p = mkResults ?t' ?p' => replace p with p'; [done|] end.
  unfold machine_results, count_true.
  cbn [c_cpu_security c_acpi c_phys_alloc c_heap c_page_fault c_unmap c_address_space c_syscall c_scheduler
       c_task_exit c_task_reuse c_task_space c_smp c_bsp_intact foldr].
  change (Z.b2z true) with 1. lia.
Qed.

(** The exit code of a full tally. *)
Lemma verdict_all c :
  (8 + count_true (machine_results c) =? 22) = forallb id (machine_results c).
Proof.
  apply eq_true_iff_eq. rewrite Z.eqb_eq, <-count_true_all. cbn [machine_results length]. lia.
Qed.

Lemma verdict_success c :
  verdict (mkResults 22 (8 + count_true (machine_results c))) = exit_qemu Success ↔
  forallb id (machine_results c) = true.
Proof. unfold verdict. cbn [total passed]. rewrite verdict_all. by destruct (forallb id (machine_results c)). Qed.

Section memory_lemmas.
Context `{Profile} {M : Type} `{MapperLaws M} (nx : bool).

Lemma live_pages_eq s s' : live_blocks s = live_blocks s' → live_pages s = live_pages s'.
Proof. unfold live_pages. by intros ->. Qed.

(** The check of the allocator, by how many pages are free. *)
Lemma phys_alloc_ok_cases (m : M) phys c w :
  phys_wf phys →
  ∃ phys', phys_alloc_ok (mkRam (Some (m, phys)) c w) =
      Ret (mkRam (Some (m, phys')) c w, 2 <=? total_pages phys - live_pages phys) ∧
    same_frames phys phys' ∧
    (2 <= total_pages phys - live_pages phys → live_blocks phys' = live_blocks phys) ∧
    (total_pages phys - live_pages phys = 1 → live_pages phys' = total_pages phys) ∧
    (live_pages phys = total_pages phys → phys' = phys).
Proof.
  intros Hs. unfold phys_alloc_ok. cbn [maps faults word]. rewrite free_page_count_ret by done. cbn [mbind outcome_bind].
  pose proof (live_pages_le phys Hs) as Hle. pose proof (pages_in_nonneg (free_blocks phys)) as Hf.
  destruct (decide (live_pages phys = total_pages phys)) as [Hfull|Hroom].
  { rewrite allocate_exhausted by done. cbn [mbind outcome_bind fst snd].
    rewrite allocate_exhausted by done. cbn. exists phys.
    rewrite (proj2 (Z.leb_gt _ _)) by lia. split_and!; try done; lia. }
  destruct (allocate_frame phys Hs ltac:(lia)) as (s1 & p1 & -> & Hsame1 & Hn1 & Hl1). cbn [mbind outcome_bind fst snd].
  pose proof (live_pages_insert _ _ _ _ Hn1 Hl1) as Hp1. change (2 ^ 0) with 1 in Hp1.
  pose proof Hsame1 as (Hs1 & Hb1 & Ht1).
  destruct (decide (live_pages s1 = total_pages s1)) as [Hfull|Hroom1].
  { rewrite allocate_exhausted by done. cbn. exists s1.
    rewrite (proj2 (Z.leb_gt _ _)) by lia. split_and!; try done; lia. }
  pose proof (live_pages_le s1 Hs1) as Hle1. pose proof (pages_in_nonneg (free_blocks s1)) as Hf1.
  destruct (allocate_frame s1 Hs1 ltac:(lia)) as (s2 & p2 & -> & Hsame2 & Hn2 & Hl2). cbn [mbind outcome_bind fst snd].
  pose proof Hsame2 as (Hs2 & Hb2 & Ht2).
  assert (p1 ≠ p2) as Hne by (intros ->; by rewrite Hl1, lookup_insert_eq in Hn2).
  rewrite (proj2 (Z.eqb_neq _ _) Hne).
  destruct (deallocate_ret s2 p1 0 Hs2) as (s3 & -> & Hs3 & Hb3 & Ht3 & Hl3).
  { by rewrite Hl2, lookup_insert_ne, Hl1, lookup_insert_eq. }
  cbn [mbind outcome_bind fst snd is_ok negb].
  destruct (deallocate_ret s3 p2 0 Hs3) as (s4 & -> & Hs4 & Hb4 & Ht4 & Hl4).
  { by rewrite Hl3, lookup_delete_ne, Hl2, lookup_insert_eq. }
  cbn [mbind outcome_bind fst snd is_ok negb]. rewrite free_page_count_ret by done. cbn [mbind outcome_bind].
  assert (live_blocks s4 = live_blocks phys) as Hlive.
  { rewrite Hl1, lookup_insert_ne in Hn2 by done. rewrite Hl4, Hl3, Hl2, Hl1. apply map_eq. intros j.
    rewrite !lookup_delete, !lookup_insert. repeat case_decide; by subst. }
  exists s4. rewrite (live_pages_eq s4 phys Hlive), Ht4, Ht3, Ht2, Ht1, Z.eqb_refl.
  rewrite (proj2 (Z.leb_le _ _)) by lia. split_and!; try done; try lia.
  split; [done|]. split; congruence.
Qed.

Abbreviation demand := DEMAND_PAGE_REGION_START.

Lemma demand_page : page_of demand = demand.
Proof. by rewrite page_of_spec. Qed.

(** The frame of a mapped page is a live page of the arena. *)
Lemma mapped_frame m phys m' phys' f :
  phys_wf phys → (PAGE_SIZE | base phys) →
  map_page m phys demand (data_flags nx) = Ret (m', phys', Ok f) →
  same_frames phys phys' ∧ live_blocks phys' !! f = Some 0 ∧ walk m' demand = Some (f, data_flags nx) ∧
  ∀ q, q ≠ demand → walk m' q = walk m q.
Proof.
  intros Hs Hbase Hm.
  destruct (map_page_cases m phys demand (data_flags nx) Hs) as (m1 & phys1 & r & Hm' & Hsame & _ & Hr).
  rewrite Hm in Hm'. injection Hm' as <- <- <-. destruct Hr as (a & -> & _ & Hlive & _ & Hw & Hrest & _).
  rewrite demand_page in *. assert (frame_of a = a) as Ha.
  { apply frame_of_aligned. destruct Hsame as (Hs1 & Hb1 & _).
    destruct (block_at _ _ _ (wf_tiled _ Hs1) a 0) as (_ & p & -> & _); [by apply elem_of_blocks_live|].
    rewrite Hb1. apply Z.divide_add_r; [done|by exists p]. }
  by rewrite Ha in *.
Qed.

Lemma handler_demand m phys c :
  page_fault_handler nx m phys c demand =
  r ← map_page m phys demand (data_flags nx);
  match r with
  | (m', phys', Ok _) => Ret (m', phys', (c + 1) mod 2 ^ 64)
  | (_, _, Err _) => Panic
  end.
Proof.
  unfold page_fault_handler.
  replace (Z.land demand (Z.lnot 0xFFF)) with demand by done.
  replace ((demand <=? demand) && (demand <? DEMAND_PAGE_REGION_END)) with true by done.
  by rewrite virt_addr_low.
Qed.

(** Accesses of a page that is mapped, and of one that is not. *)
Lemma resolve_mapped n (m : M) phys c w f fl :
  walk m demand = Some (f, fl) →
  resolve nx n (mkRam (Some (m, phys)) c w) demand = Ret (mkRam (Some (m, phys)) c w, f).
Proof.
  intros Hw. destruct n; cbn [resolve maps]; rewrite demand_page, Hw, Z.sub_diag, Z.add_0_r; done.
Qed.

Lemma resolve_unmapped (m : M) phys c w :
  phys_wf phys → (PAGE_SIZE | base phys) → walk m demand = None →
  match map_page m phys demand (data_flags nx) with
  | Ret (m', phys', Ok f) =>
      resolve nx 1 (mkRam (Some (m, phys)) c w) demand =
      Ret (mkRam (Some (m', phys')) ((c + 1) mod 2 ^ 64) w, f)
  | Ret (_, _, Err _) => resolve nx 1 (mkRam (Some (m, phys)) c w) demand = Panic
  | _ => False
  end.
Proof.
  intros Hs Hbase Hw.
  destruct (map_page_cases m phys demand (data_flags nx) Hs) as (m' & phys' & r & Hm & _).
  rewrite Hm. destruct r as [f|e]; cbn [resolve maps faults word];
    rewrite demand_page, Hw, handler_demand, Hm; cbn [mbind outcome_bind]; [|done].
  destruct (mapped_frame m phys m' phys' f Hs Hbase Hm) as (_ & _ & Hw' & _).
  by rewrite Hw', Z.sub_diag, Z.add_0_r.
Qed.

(** Writing and reading back the word at the start of the page. *)
Definition write_read (st : ram M) (x : Z) : outcome (ram M * Z) :=
  st ← write_volatile nx st demand x; read_volatile nx st demand.

Lemma write_read_cases (m : M) phys c w x :
  phys_wf phys → (PAGE_SIZE | base phys) → walk m demand = None →
  match map_page m phys demand (data_flags nx) with
  | Ret (m', phys', Ok f) =>
      write_read (mkRam (Some (m, phys)) c w) x =
      Ret (mkRam (Some (m', phys')) ((c + 1) mod 2 ^ 64) (<[f := x]> w), x)
  | Ret (_, _, Err _) => write_read (mkRam (Some (m, phys)) c w) x = Panic
  | _ => False
  end.
Proof.
  intros Hs Hbase Hw. pose proof (resolve_unmapped m phys c w Hs Hbase Hw) as Hr.
  destruct (map_page m phys demand (data_flags nx)) as [[[m' phys'] [f|e]]| |] eqn:Hm; [|by unfold write_read, write_volatile; rewrite Hr|done..].
  destruct (mapped_frame m phys m' phys' f Hs Hbase Hm) as (_ & _ & Hw' & _).
  unfold write_read, write_volatile. rewrite Hr. cbn [mbind outcome_bind fst snd maps faults word].
  unfold read_volatile. rewrite (resolve_mapped 1 m' phys' _ _ f (data_flags nx)) by done.
  cbn [mbind outcome_bind fst snd word]. by rewrite lookup_insert_eq.
Qed.

Lemma page_fault_ok_write_read st :
  page_fault_ok nx st =
  r ← write_read st 0xDEADBEEFCAFED00D; Ret (r.1, (r.2 =? 0xDEADBEEFCAFED00D) && (faults r.1 =? 1)).
Proof. unfold page_fault_ok, write_read. by destruct (write_volatile nx st demand _). Qed.

(** The page is unmapped and its frame is free again; then it faults a second time. *)
Lemma unmap_ok_cases (m : M) phys w f :
  phys_wf phys → live_blocks phys !! f = Some 0 → walk m demand = Some (f, data_flags nx) →
  (PAGE_SIZE | base phys) →
  ∃ phys1, let m1 := (unmap m demand).1 in
    same_frames phys phys1 ∧ live_pages phys1 < total_pages phys1 ∧
    walk m1 demand = None ∧ (∀ q, q ≠ demand → walk m1 q = walk m q) ∧
    deallocate phys f = Ret (phys1, Ok tt) ∧ live_pages phys1 + 1 = live_pages phys ∧
    match map_page m1 phys1 demand (data_flags nx) with
    | Ret (m', phys', Ok f') =>
        unmap_ok nx (mkRam (Some (m, phys)) 1 w) =
        Ret (mkRam (Some (m', phys')) 2 (<[f' := 0xFEEDFACE0BADF00D]> w), true)
    | Ret (_, _, Err _) => unmap_ok nx (mkRam (Some (m, phys)) 1 w) = Panic
    | _ => False
    end.
Proof.
  intros Hs Hlive Hw Hbase.
  pose proof (unmap_spec m demand) as Hu. rewrite Hw in Hu. destruct Hu as (Hur & Hun & Hrest).
  destruct (deallocate_ret phys f 0 Hs Hlive) as (phys1 & Hd & Hs1 & Hb1 & Ht1 & Hl1).
  assert (live_pages phys = live_pages phys1 + 1) as Hlp.
  { change 1 with (2 ^ 0). apply (live_pages_insert phys1 phys f 0); rewrite Hl1.
    - apply lookup_delete_eq.
    - symmetry. by apply insert_delete_id. }
  pose proof (live_pages_le phys Hs) as Hle. pose proof (pages_in_nonneg (free_blocks phys)) as Hf.
  exists phys1. split; [done|]. split; [lia|]. split; [done|]. split; [done|]. split; [done|]. split; [lia|].
  assert (unmap_ok nx (mkRam (Some (m, phys)) 1 w) =
    r ← write_read (mkRam (Some ((unmap m demand).1, phys1)) 1 w) 0xFEEDFACE0BADF00D;
    Ret (r.1, (r.2 =? 0xFEEDFACE0BADF00D) && (faults r.1 =? 2))) as ->.
  { unfold unmap_ok, free_pages. cbn [maps]. rewrite free_page_count_ret by done. cbn [mbind outcome_bind].
    rewrite virt_addr_low by done. cbn [mbind outcome_bind]. unfold unmap_page. rewrite demand_page.
    destruct (unmap m demand) as [m1 res]. cbn [fst snd] in *. subst res. rewrite Hd.
    cbn [mbind outcome_bind fst snd is_ok maps faults word]. rewrite free_page_count_ret by done.
    cbn [mbind outcome_bind]. unfold write_read.
    destruct (write_volatile nx _ demand _) as [st1| |]; [|done..]. cbn [mbind outcome_bind].
    destruct (read_volatile nx st1 demand) as [r| |]; [|done..]. cbn [mbind outcome_bind].
    pose proof (wf_fits _ (wf_arena _ Hs)) as Hfit. pose proof (wf_base _ (wf_arena _ Hs)).
    assert (0 <= live_pages phys1) by apply pages_in_nonneg.
    rewrite u64_add_ret by (unfold PAGE_SIZE in *; lia). cbn [mbind outcome_bind].
    replace (total_pages phys1 - live_pages phys1 =? total_pages phys - live_pages phys + 1) with true by lia. done. }
  pose proof (write_read_cases (unmap m demand).1 phys1 1 w 0xFEEDFACE0BADF00D Hs1 ltac:(by rewrite Hb1) Hun) as Hwr.
  destruct (map_page (unmap m demand).1 phys1 demand (data_flags nx)) as [[[m' phys'] [f'|e]]| |];
    [by rewrite Hwr|by rewrite Hwr|done|done].
Qed.

(** ** Properties *)

(** [C22] The demand-paging checks of the boot, with the page not mapped before.  The
    first check panics in the fault handler when mapping the page is refused, and
    otherwise passes: the write faults once, is resumed on the frame the handler mapped,
    and is read back.  The second then unmaps the page and gives that frame back to the
    allocator, which has exactly one page more, so that the second fault is never
    refused for want of a frame: the check panics exactly when mapping is refused for
    another reason, and otherwise passes, after a second fault at the same address.  At
    the end the page is mapped and every other page is as it was. *)
Theorem demand_paging_checks (m : M) phys w
    (Hs : phys_wf phys) (Hbase : (PAGE_SIZE | base phys)) (Hw : walk m DEMAND_PAGE_REGION_START = None) :
  match map_page m phys DEMAND_PAGE_REGION_START (data_flags nx) with
  | Ret (_, _, Err _) => page_fault_ok nx (mkRam (Some (m, phys)) 0 w) = Panic
  | Ret (m1, phys1, Ok f) =>
      let st1 := mkRam (Some (m1, phys1)) 1 (<[f := 0xDEADBEEFCAFED00D]> w) in
      page_fault_ok nx (mkRam (Some (m, phys)) 0 w) = Ret (st1, true) ∧
      ∃ phys2, deallocate phys1 f = Ret (phys2, Ok tt) ∧ live_pages phys2 + 1 = live_pages phys1 ∧
        match map_page (unmap m1 DEMAND_PAGE_REGION_START).1 phys2 DEMAND_PAGE_REGION_START (data_flags nx) with
        | Ret (m3, phys3, Ok f') =>
            unmap_ok nx st1 =
              Ret (mkRam (Some (m3, phys3)) 2 (<[f' := 0xFEEDFACE0BADF00D]> (word st1)), true) ∧
            same_frames phys phys3 ∧ walk m3 DEMAND_PAGE_REGION_START = Some (f', data_flags nx) ∧
            ∀ q, q ≠ DEMAND_PAGE_REGION_START → walk m3 q = walk m q
        | Ret (_, _, Err e) => e ≠ OutOfMemory ∧ unmap_ok nx st1 = Panic
        | _ => False
        end
  | _ => False
  end.
Proof.
  rewrite page_fault_ok_write_read. pose proof (write_read_cases m phys 0 w 0xDEADBEEFCAFED00D Hs Hbase Hw) as Hwr.
  destruct (map_page m phys demand (data_flags nx)) as [[[m1 phys1] [f|e]]| |] eqn:Hm; [| |done..];
    rewrite Hwr; cbn [mbind outcome_bind fst snd]; [|done].
  destruct (mapped_frame m phys m1 phys1 f Hs Hbase Hm) as (Hsame & Hlive & Hw1 & Hrest1).
  pose proof Hsame as (Hs1 & Hb1 & Ht1). rewrite <-Hb1 in Hbase.
  split; [done|].
  destruct (unmap_ok_cases m1 phys1 (<[f := 0xDEADBEEFCAFED00D]> w) f Hs1 Hlive Hw1 Hbase)
    as (phys2 & Hsame2 & Hroom & Hw2 & Hrest2 & Hd & Hone & Hu).
  pose proof Hsame2 as (Hs2 & Hb2 & Ht2). rewrite <-Hb2 in Hbase. exists phys2. split; [done|]. split; [done|].
  destruct (map_page (unmap m1 demand).1 phys2 demand (data_flags nx)) as [[[m3 phys3] [f'|e]]| |] eqn:Hm2; [| |done..]; rewrite Hu.
  - destruct (mapped_frame _ phys2 m3 phys3 f' Hs2 Hbase Hm2) as (Hsame3 & _ & Hw3 & Hrest3).
    split; [done|]. split; [|split; [done|]].
    + eapply same_frames_trans; [exact Hsame|]. by eapply same_frames_trans.
    + intros q Hq. by rewrite Hrest3, Hrest2, Hrest1.
  - split; [|done]. intros ->.
    destruct (map_page_cases (unmap m1 demand).1 phys2 demand (data_flags nx) Hs2) as (mx & px & r & Hmx & _ & _ & Hr).
    rewrite Hm2 in Hmx. injection Hmx as <- <- <-. destruct Hr as (_ & _ & ?). lia.
Qed.

(** The allocator's check.  It passes exactly when at least two pages are free, and
    then every block is as it was; with one page free it fails and that page is
    lost. *)
Theorem phys_alloc_check (m : M) phys c w (Hs : phys_wf phys) :
  ∃ phys' ok, phys_alloc_ok (mkRam (Some (m, phys)) c w) = Ret (mkRam (Some (m, phys')) c w, ok) ∧
    same_frames phys phys' ∧
    (ok = true ↔ live_pages phys + 2 <= total_pages phys) ∧
    (ok = true → live_blocks phys' = live_blocks phys) ∧
    (live_pages phys + 1 = total_pages phys → live_pages phys' = total_pages phys).
Proof.
  destruct (phys_alloc_ok_cases m phys c w Hs) as (phys' & Hr & Hsame & Hl2 & Hl1 & _).
  exists phys', (2 <=? total_pages phys - live_pages phys). split_and!; try done.
  - rewrite Z.leb_le. lia.
  - rewrite Z.leb_le. done.
  - intros. apply Hl1. lia.
Qed.
End memory_lemmas.

Lemma demand_paging_checks_witness :
  ∃ st1 st2, @page_fault_ok true radix radix_mapper true (mkRam (Some (mkRadix ∅ ∅, demo_phys)) 0 ∅) = Ret (st1, true) ∧
    @unmap_ok true radix radix_mapper true st1 = Ret (st2, true) ∧ faults st2 = 2.
Proof.
  pose proof (@demand_paging_checks true radix radix_mapper radix_laws true (mkRadix ∅ ∅) demo_phys ∅ demo_phys_wf
    ltac:(apply Z.mod_divide; [discriminate|reflexivity]) eq_refl) as Hspec.
  assert (match @page_fault_ok true radix radix_mapper true (mkRam (Some (mkRadix ∅ ∅, demo_phys)) 0 ∅) with
          | Ret (st, _) => match @unmap_ok true radix radix_mapper true st with Ret _ => true | _ => false end
          | _ => false
          end = true) as Hrun by (vm_compute; reflexivity).
  destruct (map_page _ demo_phys _ _) as [[[m1 phys1] [f|e]]| |] in Hspec; [| |destruct Hspec..].
  2:{ rewrite Hspec in Hrun. discriminate Hrun. }
  destruct Hspec as (E1 & phys2 & _ & _ & Hspec). rewrite E1 in Hrun. eexists.
  destruct (map_page _ phys2 _ _) as [[[m3 phys3] [f'|e]]| |] in Hspec; [| |destruct Hspec..].
  - destruct Hspec as (E2 & _). eexists. exact (conj E1 (conj E2 eq_refl)).
  - destruct Hspec as [_ E2]. rewrite E2 in Hrun. discriminate Hrun.
Defined.

Lemma phys_alloc_check_witness :
  ∃ phys', @phys_alloc_ok true radix (mkRam (Some (mkRadix ∅ ∅, Buddy.demo_arena)) 0 ∅) =
    Ret (mkRam (Some (mkRadix ∅ ∅, phys')) 0 ∅, true) ∧ live_blocks phys' = ∅.
Proof.
  destruct (@phys_alloc_check true radix (mkRadix ∅ ∅) Buddy.demo_arena 0 ∅ demo_arena_wf)
    as (phys' & ok & Hr & _ & Hok & Hl & _).
  assert (ok = true) as -> by (apply Hok; vm_compute; discriminate).
  exists phys'. split; [exact Hr|apply Hl; reflexivity].
Defined.

(** The verdict of the boot.  Whatever the machine's checks give, the self-test
    records twenty-two results without a panic; the eight that need no machine pass,
    so that the tally is eight more than the machine's checks that passed.  The phases
    are completed in their order, all but the system calls'.  The exit code is
    [Success] exactly when every check passed, and otherwise the one a panic gives. *)
Theorem boot_verdict `{Profile} c :
  ∃ r seq, self_test c = Ret (r, seq) ∧ total r = 22 ∧
    passed r = 8 + count_true (machine_results c) ∧
    satisfies_ordering_invariant seq = Ret true ∧
    (∀ p, is_complete seq p = Ret (negb (bool_decide (p = SyscallBoot)))) ∧
    (verdict r = exit_qemu Success ↔ forallb id (machine_results c) = true) ∧
    (verdict r = panic ↔ forallb id (machine_results c) = false).
Proof.
  eexists _, _. split; [apply self_test_ret|]. cbn [total passed].
  split; [done|]. split; [done|]. split; [done|]. split; [by intros []|].
  split; [apply verdict_success|]. unfold verdict, panic. cbn [total passed]. rewrite verdict_all.
  by destruct (forallb id (machine_results c)).
Qed.

Section region_lemmas.
Context {A : Type} (key : A → Z).

Definition best_of (l : list A) (best : A * Z) : A :=
  (foldl (λ b x, if key x <? b.2 then b else (x, key x)) best l).1.

(** The last of the largest. *)
Lemma best_of_spec l b :
  let r := best_of l (b, key b) in
  (r = b ∨ r ∈ l) ∧ key b <= key r ∧ (∀ x, x ∈ l → key x <= key r) ∧
  ∃ l1 l2, b :: l = l1 ++ r :: l2 ∧ ∀ x, x ∈ l2 → key x < key r.
Proof.
  revert b. induction l as [|x l IH]; intros b; cbn zeta.
  - split; [by left|]. split; [done|]. split; [by intros ? ?%elem_of_nil|]. exists [], []. split; [done|by intros ? ?%elem_of_nil].
  - unfold best_of. cbn [foldl snd]. destruct (Z.ltb_spec (key x) (key b)) as [Hlt|Hge].
    + destruct (IH b) as (Hin & Hb & Hall & l1 & l2 & Heq & Hl2). fold (best_of l (b, key b)).
      set (r := best_of l (b, key b)) in *. split; [destruct Hin; [by left|right; by right]|]. split; [done|]. split.
      * intros y [->|Hy]%elem_of_cons; [lia|by apply Hall].
      * destruct l1 as [|y l1]; cbn in Heq; injection Heq as Hy Hl.
        { exists [], (x :: l). split; [by rewrite <-Hy|]. intros z [->|Hz]%elem_of_cons; [rewrite <-Hy in *; lia|].
          apply Hl2. by rewrite <-Hl. }
        { exists (b :: x :: l1), l2. subst y. split; [cbn; by rewrite Hl|done]. }
    + destruct (IH x) as (Hin & Hx & Hall & l1 & l2 & Heq & Hl2). fold (best_of l (x, key x)).
      set (r := best_of l (x, key x)) in *. split; [right; destruct Hin as [->|]; [by left|by right]|]. split; [lia|]. split.
      * intros y [->|Hy]%elem_of_cons; [done|by apply Hall].
      * exists (b :: l1), l2. split; [cbn; by rewrite Heq|done].
Qed.

Lemma max_by_key_ret (ok : A → outcome Z) l b :
  (∀ x, x ∈ l → ok x = Ret (key x)) →
  max_by_key ok l (Some (b, key b)) = Ret (Some (best_of l (b, key b))).
Proof.
  revert b. induction l as [|x l IH]; intros b Hok; [done|]. cbn [max_by_key].
  rewrite (Hok x) by left. cbn [mbind outcome_bind]. unfold best_of. cbn [foldl snd].
  destruct (key x <? key b); apply IH; intros y Hy; apply Hok; by right.
Qed.
End region_lemmas.

(** The region that is chosen is the last of the largest usable ones, and the boot
    panics only when there is none. *)
Lemma largest_usable_spec `{Profile} regions
    (Hr : Forall (λ r, 0 <= region_start r <= region_end r ∧ region_end r < 2 ^ 64) regions) :
  match largest_usable regions with
  | Ret r =>
      r ∈ regions ∧ usable r = true ∧
      ∃ l1 l2, filter (λ r, usable r = true) regions = l1 ++ r :: l2 ∧
        (∀ x, x ∈ l1 → region_end x - region_start x <= region_end r - region_start r) ∧
        (∀ x, x ∈ l2 → region_end x - region_start x < region_end r - region_start r)
  | Panic => ∀ r, r ∈ regions → usable r = false
  | Diverge => False
  end.
Proof.
  unfold largest_usable. set (key := λ r, region_end r - region_start r).
  assert (∀ x, x ∈ filter (λ r, usable r = true) regions → u64_sub (region_end x) (region_start x) = Ret (key x)) as Hok.
  { intros x [_ Hx]%list_elem_of_filter. rewrite Forall_forall in Hr. specialize (Hr x Hx). cbn in Hr.
    rewrite u64_sub_ret by lia. done. }
  destruct (filter (λ r, usable r = true) regions) as [|b l] eqn:Ef.
  - cbn. intros r Hin. destruct (usable r) eqn:Eu; [|done].
    assert (r ∈ filter (λ r, usable r = true) regions) as Hf by by apply list_elem_of_filter.
    rewrite Ef in Hf. by apply elem_of_nil in Hf.
  - cbn [max_by_key]. rewrite Hok by left. cbn [mbind outcome_bind].
    rewrite max_by_key_ret by (intros x Hx; apply Hok; by right). cbn [mbind outcome_bind].
    destruct (best_of_spec key l b) as (Hin & Hb & Hall & l1 & l2 & Heq & Hl2).
    set (r := best_of key l (b, key b)) in *.
    assert (r ∈ filter (λ r, usable r = true) regions) as [Hu Hm]%list_elem_of_filter.
    { rewrite Ef, Heq. rewrite elem_of_app, elem_of_cons. tauto. }
    split; [done|]. split; [done|]. exists l1, l2. split; [done|]. split; [|done].
    intros x Hx. assert (x ∈ b :: l) as Hxl by (rewrite Heq, elem_of_app; by left).
    apply elem_of_cons in Hxl as [->|Hxl]; [done|by apply Hall].
Qed.
