(* ===== verification/KernelMain.v ===== *)
(** * The boot flow as a whole

    Model of [kernel_main] in [src/kernel-x86_64/src/main.rs] as the composition of the
    parts: the memory of [KernelHeap], the checks of [SelfTest], [AddressSpace] and
    [Syscall] one after the other over the same page tables and the same allocator, the
    demo tasks of [DemoTasks] that the timer runs from [scheduler_bridge::init] on, the
    other processor of [Smp], and the verdict. *)
From S2P Require Import Prelude Capability Boot Buddy Paging AddressSpace Context Tasks Interrupts DemoTasks PagingGlobals KernelHeap Syscall Topology Smp SelfTest.

(** ** What the boot is given *)

(** [BootInfo]. *)
Record BootInfo := mkBootInfo {
  physical_memory_offset : option Z;
  memory_regions : list MemoryRegion;
  rsdp_addr : option Z;
}.

Section kernel_main.
Context `{Profile} {M : Type} `{Mapper M} {L : Type} `{Heap L} `{V : Mapper table_view}.
(** [OffsetPageTable::new], and the words of memory that the tables of a mapper are. *)
Context (offset_page_table : Z → Z → M) (table_words : M → words).
(** CPUID, the ACPI parser, the selectors of ring 3, [&KERNEL_RETURN_RSP], and what calls
    leave in caller-saved registers. *)
Context (cpuid : Z → Z * Z) (acpi_tables : Z → option (option (Z * list MadtEntry))).
Context (user_cs user_ss kernel_rsp : Z) (clobber : nat → reg → Z).
(** [task_trampoline], the bodies in the kernel image, and the entry points of the tasks. *)
Context (task_trampoline : Z) (code : Z → option task_body) (task_a task_b task_c task_d task_e : Z).
(** The other processor's trampoline, entry point, stack, and CPUID leaf 1 on both. *)
Context (tr : trampoline) (ap_entry64_addr ap_stack ap_ebx : Z) (other_tables : Z → bool) (bsp_ebx : Z).

(** ** Up to the system calls *)

(** What is known when [scheduler_bridge::init] is called: both globals, the offset,
    CR3 with its flags, [NX_ENABLED], the topology, and the results of the first eight
    checks. *)
Record started := mkStarted {
  s_globals : option (M * PhysicalAllocator);
  s_offset : Z;
  s_cr3 : Z * Z;
  s_nx : bool;
  s_topology : result CpuTopology unit;
  s_security : bool;
  s_phys_alloc : bool;
  s_page_fault : bool;
  s_unmap : bool;
  s_space : bool;
  s_syscall : bool;
}.

(** The contents of both cells, and what [with_phys] leaves in the allocator's. *)
Definition contents (st : statics M) : option (M * PhysicalAllocator) :=
  match MAPPER st, PagingGlobals.PHYS st with
  | Free (Some m), Free (Some p) => Some (m, p)
  | _, _ => None
  end.

Definition put_phys (g : option (M * PhysicalAllocator)) (p : option PhysicalAllocator) :
    option (M * PhysicalAllocator) :=
  match g, p with
  | Some (m, _), Some p => Some (m, p)
  | _, _ => g
  end.

(** The machine as [address_space.rs] sees it. *)
Definition tables_machine (g : option (M * PhysicalAllocator)) (off cr3 flags : Z) : AddressSpace.machine :=
  AddressSpace.mkMachine (if g is Some (m, _) then table_words m else ∅) cr3 flags (Some off) (snd <$> g) false.

Definition kernel_start (b : BootInfo) (hw : AddressSpace.machine) (c : control) (ram_words : gmap Z Z)
    (k : cpu) : outcome started :=
  off ← match physical_memory_offset b with Some a => virt_addr a | None => Panic end;
  let (c, cpu_security) := cpu_features_init cpuid c in
  let nx := NX_ENABLED c in
  region ← largest_usable (memory_regions b);
  '(st, _) ← kernel_memory (L := L) nx 1 offset_page_table hw off (region_start region) (region_end region);
  let topology := cpu_topology acpi_tables (rsdp_addr b) in
  '(r, phys_alloc) ← phys_alloc_ok (mkRam (contents st) 0 ram_words);
  '(r, page_fault) ← page_fault_ok nx r;
  '(r, unmapped) ← unmap_ok nx r;
  '(hw, space) ← @address_space_ok _ V nx
    (tables_machine (maps r) off (AddressSpace.cr3 hw) (cr3_flags hw));
  '(g, _, _, answer) ←
    run_demo_syscall nx 14 user_cs user_ss kernel_rsp clobber (put_phys (maps r) (AddressSpace.PHYS hw)) k 0;
  Ret (mkStarted g off (AddressSpace.cr3 hw, cr3_flags hw) nx topology (cpu_security_ok c cpu_security) phys_alloc
         page_fault unmapped space (bool_decide (answer = Some 1249))).

(** ** The tasks *)

(** [AddressSpace::new], as [scheduler_bridge::init] calls it. *)
Definition space_call (s : started) (k : Tasks.kernel M) : outcome (AddressSpace.machine * option AddressSpace) :=
  @AddressSpace_new _ V (s_nx s) (tables_machine (Tasks.globals k) (s_offset s) (Tasks.cr3 k) (s_cr3 s).2).

Definition new_space (s : started) (k : Tasks.kernel M) : outcome (Tasks.kernel M * option Z) :=
  r ← space_call s k;
  let (hw, o) := (r : AddressSpace.machine * option AddressSpace) in
  Ret (Tasks.set_memory k (put_phys (Tasks.globals k) (AddressSpace.PHYS hw)) (Tasks.mapped k), option_map l4_frame o).

(** The kernel at the call of [init], [t] ticks after interrupts were enabled. *)
Definition at_init (s : started) (stacks : memory) (t : Z) : Tasks.kernel M :=
  kernel_at (s_globals s) (s_cr3 s).1 stacks t.

Definition first_world (s : started) (stacks : memory) (t : Z) : outcome (world M) :=
  init_world (s_nx s) task_trampoline code (at_init s stacks t) (new_space s) task_a task_b task_c task_e.

(** The memory that [task_e]'s page tables are in: what [AddressSpace::new] left. *)
Definition space_words (s : started) (stacks : memory) (t : Z) : outcome words :=
  k ← before_space (s_nx s) task_trampoline (at_init s stacks t) task_a task_b task_c;
  r ← space_call s k.1;
  Ret (AddressSpace.mem r.1).

(** ** The other processor *)

(** What is to come from the timer and from the other processor: before each access, while
    the lock of [TICKS] is held, and while the boot processor prints. *)
Record to_come := mkToCome {
  tc_schedule : list (list event);
  tc_in_lock : list (list event);
  tc_in_print : list nat;
}.

(** The kernel as [smp.rs] sees it. *)
Definition smp_kernel (s : started) (w : world M) (phys_mem : memory) (sc : to_come) : Smp.kernel M :=
  Smp.mkKernel (Tasks.globals (kern w)) (Some (s_offset s)) (Tasks.cr3 (kern w))
    (Smp.mkMachine false false u64_max (Tasks.ticks (kern w)) [] phys_mem ApReset (0, 0, 0) [] None
       (tc_schedule sc) (tc_in_lock sc) (tc_in_print sc)).

Definition topology_of (s : started) : option CpuTopology :=
  match s_topology s with Ok t => Some t | Err _ => None end.

Definition smp_check (s : started) (w : world M) phys_mem sc : outcome (Smp.kernel M * bool) :=
  smp_ok tr ap_entry64_addr ap_stack ap_ebx other_tables (s_nx s) bsp_ebx (topology_of s) (smp_kernel s w phys_mem sc).

(** ** The end *)

(** The worlds in which the four read-backs of the tasks are taken, one after the
    other, the answer of the check of the other processor, and the world of the last
    check. *)
Record readings := mkReadings {
  r_progress : world M;
  r_exit : world M;
  r_reuse : world M;
  r_space : world M;
  r_smp : bool;
  r_last : world M;
}.

Definition checks_of (s : started) (r : readings) : machine_checks :=
  mkChecks (s_security s) (acpi_topology_ok (s_topology s)) (s_phys_alloc s) heap_ok (s_page_fault s) (s_unmap s)
    (s_space s) (s_syscall s) (both_tasks_made_real_progress (r_progress r)) (task_c_really_exited (r_exit r))
    (task_reused_a_guarded_slot (r_reuse r)) (task_e_verified_own_address_space (r_space r)) (r_smp r)
    (bsp_state_intact (r_last r)).

(** The readings a boot can take: between any two of them the tasks and the timer run,
    and the pages that the check of the other processor maps are mapped when it is
    over. *)
Definition taken (s : started) (tables : words) (boot_stack : Z → Prop) (w0 : world M) (r : readings) : Prop :=
  let run := run (s_nx s) task_trampoline code task_d tables boot_stack in
  run w0 (r_progress r) ∧ run (r_progress r) (r_exit r) ∧ run (r_exit r) (r_reuse r) ∧
  run (r_reuse r) (r_space r) ∧
  ∃ w phys_mem sc k, run (r_space r) w ∧ smp_check s w phys_mem sc = Ret (k, r_smp r) ∧
    run (put_globals w (Smp.globals k)) (r_last r).

(** What [kernel_main] can write to the exit port, from what the boot is given: the code
    of a panic, or the verdict.  [t] ticks come before [scheduler_bridge::init]. *)
Inductive kernel_main (b : BootInfo) (hw : AddressSpace.machine) (c : control) (ram_words : gmap Z Z) (k : cpu)
    (stacks : memory) (boot_stack : Z → Prop) (t : Z) : Z * Z → Prop :=
| start_panics :
    kernel_start b hw c ram_words k = Panic → kernel_main b hw c ram_words k stacks boot_stack t panic
| init_panics s :
    kernel_start b hw c ram_words k = Ret s → first_world s stacks t = Panic →
    kernel_main b hw c ram_words k stacks boot_stack t panic
| smp_panics s w0 tables w phys_mem sc :
    kernel_start b hw c ram_words k = Ret s → first_world s stacks t = Ret w0 →
    space_words s stacks t = Ret tables → run (s_nx s) task_trampoline code task_d tables boot_stack w0 w →
    smp_check s w phys_mem sc = Panic → kernel_main b hw c ram_words k stacks boot_stack t panic
| verdict_given s w0 tables r results seq :
    kernel_start b hw c ram_words k = Ret s → first_world s stacks t = Ret w0 →
    space_words s stacks t = Ret tables → taken s tables boot_stack w0 r →
    self_test (checks_of s r) = Ret (results, seq) →
    kernel_main b hw c ram_words k stacks boot_stack t (verdict results).
End kernel_main.

(** ** What the boot flow maps *)

(** The pages that are mapped by name after the heap. *)
Definition boot_pages : list Z :=
  [DEMAND_PAGE_REGION_START; USER_CODE_ADDR; USER_STACK_ADDR; LAPIC_VIRT_BASE; TRAMPOLINE_PHYS_ADDR].

Lemma stacks_apart i : (i < 8)%nat →
  (guard_page i ∉ boot_pages) ∧ ∀ j, 0 <= j < STACK_PAGES → stack_page i j ∉ boot_pages.
Proof.
  intros Hi. assert (∀ a, REGION_BASE <= a < REGION_BASE + 8 * SLOT_STRIDE → a ∉ boot_pages) as Hr.
  { intros a Ha Hin. assert (Forall (λ x, x < REGION_BASE ∨ REGION_BASE + 8 * SLOT_STRIDE <= x) boot_pages) as Hall
      by (apply (bool_decide_unpack _); by vm_compute).
    rewrite Forall_forall in Hall. specialize (Hall a Hin). lia. }
  assert (SLOT_STRIDE = 17 * PAGE_SIZE) as Hst by done. assert (STACK_PAGES = 16) as Hsp by done.
  split; [|intros j Hj]; apply Hr; unfold stack_page, stack_base, guard_page; unfold PAGE_SIZE in *; nia.
Qed.

Section grows.
Context `{Profile} {M : Type} `{MapperLaws M}.
Implicit Type g : option (M * PhysicalAllocator).

(** The frames stay those of the same arena, and no page but those changes. *)
Definition grows g g' : Prop :=
  ∀ m p, g = Some (m, p) → phys_wf p →
  ∃ m' p', g' = Some (m', p') ∧ same_frames p p' ∧ ∀ q, q ∉ boot_pages → walk m' q = walk m q.

Lemma grows_refl g : grows g g.
Proof. intros m p -> Hp. by exists m, p. Qed.

Lemma grows_trans g1 g2 g3 : grows g1 g2 → grows g2 g3 → grows g1 g3.
Proof.
  intros H12 H23 m p Hg Hp. destruct (H12 m p Hg Hp) as (m2 & p2 & Hg2 & Hs2 & Hw2).
  destruct (H23 m2 p2 Hg2 (proj1 Hs2)) as (m3 & p3 & Hg3 & Hs3 & Hw3).
  exists m3, p3. split; [done|]. split; [by eapply same_frames_trans|]. intros q Hq. by rewrite Hw3, Hw2.
Qed.

Lemma grows_frames (m : M) p p' : same_frames p p' → grows (Some (m, p)) (Some (m, p')).
Proof. intros Hs m0 p0 [= <- <-] _. by exists m, p'. Qed.

Lemma grows_mem_inv g g' mp : grows g g' → mem_inv g mp → mem_inv g' mp.
Proof.
  intros Hg [Hl (m & p & -> & Hp & Hst & Hgu)].
  destruct (Hg m p eq_refl Hp) as (m' & p' & -> & Hs & Hw). split; [done|]. exists m', p'.
  split; [done|]. split; [apply Hs|]. split.
  - intros i j Hi Hj. rewrite Hw; [by apply Hst|]. apply stacks_apart; [|done].
    apply lookup_lt_Some in Hi. lia.
  - intros i Hi. rewrite Hw; [by apply Hgu|]. by apply stacks_apart.
Qed.

(** Mapping one of the pages, from the allocator, however it ends. *)
Lemma map_to_grows m p page f fl m' p' r :
  page ∈ boot_pages → phys_wf p →
  map_to adapter_allocate_frame m p page f fl = Ret (m', p', r) → grows (Some (m, p)) (Some (m', p')).
Proof.
  intros Hpage Hp Hm m0 p0 [= <- <-] _. exists m', p'. split; [done|].
  destruct (map_to_draws _ _ _ _ _ _ _ _ _ _ Hm) as (n & _ & Hd).
  split; [by eapply draws_adapter|]. intros q Hq. destruct r as [[]|e].
  - apply map_to_ok in Hm as (_ & _ & Hw). apply Hw. by intros ->.
  - by eapply map_to_err.
Qed.

Lemma map_page_grows m p v fl m' p' r :
  page_of v ∈ boot_pages → phys_wf p → map_page m p v fl = Ret (m', p', r) → grows (Some (m, p)) (Some (m', p')).
Proof.
  intros Hv Hp Hm. destruct (map_page_cases m p v fl Hp) as (m1 & p1 & r1 & Hm1 & Hs & _ & Hr).
  rewrite Hm in Hm1. injection Hm1 as <- <- <-. intros m0 p0 [= <- <-] _. exists m', p'. split; [done|]. split; [done|].
  intros q Hq. destruct r as [f|[]]; try (by destruct Hr as (? & Hw & _)).
  - destruct Hr as (_ & _ & _ & _ & _ & _ & Hw & _). apply Hw. by intros ->.
  - by destruct Hr as [-> _].
Qed.

Ltac page_named := rewrite page_of_spec; unfold boot_pages; repeat first [left; reflexivity|right].

(** *** The system-call demo *)

Lemma user_page_grows g a fl g' o :
  a = USER_CODE_ADDR ∨ a = USER_STACK_ADDR → Syscall.try_map g a fl = Ret (g', o) →
  grows g g'.
Proof.
  intros Ha Hrun m p -> Hp. unfold Syscall.try_map in Hrun.
  rewrite virt_addr_low in Hrun by (by destruct Ha as [->| ->]). cbn [mbind outcome_bind] in Hrun.
  apply outcome_bind_ret in Hrun as ([[m' p'] r] & Hm & Hrun).
  assert (grows (Some (m, p)) (Some (m', p'))) as Hg.
  { eapply map_page_grows; [|done|exact Hm]. destruct Ha as [->| ->]; page_named. }
  destruct (Hg m p eq_refl Hp) as (m1 & p1 & [= <- <-] & Hs & Hw).
  exists m', p'. split; [|done]. by destruct r; injection Hrun as <- _.
Qed.

Lemma demo_syscall_grows nx fuel user_cs user_ss kernel_rsp clobber g c reported g' c' r o :
  run_demo_syscall nx fuel user_cs user_ss kernel_rsp clobber g c reported = Ret (g', c', r, o) → grows g g'.
Proof.
  intros Hrun. unfold run_demo_syscall in Hrun.
  apply outcome_bind_ret in Hrun as ([g1 o1] & R1 & Hrun). apply user_page_grows in R1; [|by left].
  destruct o1; [|by injection Hrun as <- _ _ _].
  apply outcome_bind_ret in Hrun as ([g2 o2] & R2 & Hrun). apply user_page_grows in R2; [|by right].
  pose proof (grows_trans _ _ _ R1 R2). destruct o2; [|by injection Hrun as <- _ _ _].
  apply outcome_bind_ret in Hrun as (top & _ & Hrun). destruct (run_user _ _ _ _ _ _); [done| |done].
  by injection Hrun as <- _ _ _.
Qed.

(** *** The checks of memory *)

Lemma demand_checks_grow nx m p w st1 ok1 st2 ok2 :
  phys_wf p → (PAGE_SIZE | base p) → walk m DEMAND_PAGE_REGION_START = None →
  page_fault_ok nx (mkRam (Some (m, p)) 0 w) = Ret (st1, ok1) → unmap_ok nx st1 = Ret (st2, ok2) →
  ok1 = true ∧ ok2 = true ∧ grows (Some (m, p)) (maps st2).
Proof.
  intros Hp Hb Hw R1 R2. rewrite page_fault_ok_write_read in R1.
  pose proof (write_read_cases nx m p 0 w 0xDEADBEEFCAFED00D Hp Hb Hw) as Hwr.
  destruct (map_page m p DEMAND_PAGE_REGION_START (data_flags nx)) as [[[m1 p1] [f|e]]| |] eqn:Hm; [|by rewrite Hwr in R1|done..].
  rewrite Hwr in R1. injection R1 as <- <-.
  destruct (mapped_frame nx m p m1 p1 f Hp Hb Hm) as (Hs1 & Hlive & Hw1 & Hr1).
  pose proof Hs1 as (Hp1 & Hb1 & _).
  destruct (unmap_ok_cases nx m1 p1 (<[f := 0xDEADBEEFCAFED00D]> w) f Hp1 Hlive Hw1 ltac:(by rewrite Hb1))
    as (p2 & Hs2 & _ & Hw2 & Hr2 & _ & _ & Hu).
  set (m2 := (unmap m1 DEMAND_PAGE_REGION_START).1) in *.
  pose proof Hs2 as (Hp2 & Hb2 & _). change ((0 + 1) mod 2 ^ 64) with 1 in R2. cbn [fst] in R2.
  destruct (map_page m2 p2 DEMAND_PAGE_REGION_START (data_flags nx)) as [[[m3 p3] [f'|e]]| |] eqn:Hm2; [|by rewrite Hu in R2|done..].
  rewrite Hu in R2. injection R2 as <- <-.
  destruct (mapped_frame nx m2 p2 m3 p3 f' Hp2 ltac:(by rewrite Hb2, Hb1) Hm2) as (Hs3 & _ & _ & Hr3).
  split; [done|]. split; [done|]. cbn [maps]. intros m0 p0 [= <- <-] _. exists m3, p3. split; [done|].
  split; [eapply same_frames_trans; [exact Hs1|by eapply same_frames_trans]|].
  intros q Hq. assert (q ≠ DEMAND_PAGE_REGION_START) by (intros ->; apply Hq; left). by rewrite Hr3, Hr2, Hr1.
Qed.

(** *** The other processor *)

Lemma smp_page_grows (k k' : Smp.kernel M) v f fl b :
  page_of v ∈ boot_pages → Smp.try_map k v f fl = Ret (k', b) → grows (Smp.globals k) (Smp.globals k').
Proof.
  intros Hv Hrun m p Hg Hp. unfold Smp.try_map in Hrun. rewrite Hg in Hrun.
  apply outcome_bind_ret in Hrun as ([[m' p'] r] & Hm & [= <- _]). cbn.
  unfold map_page_to_frame in Hm. apply outcome_bind_ret in Hm as ([[m1 p1] r1] & Hm & Hr).
  assert (m1 = m' ∧ p1 = p') as [-> ->] by (by destruct r1 as [[]|[]]; injection Hr as -> -> _).
  by apply (map_to_grows _ _ _ _ _ _ _ _ Hv Hp Hm).
Qed.

Lemma smp_ok_grows tr ap_entry64_addr ap_stack ap_ebx other_tables nx bsp_ebx topology (k k' : Smp.kernel M) b :
  smp_ok tr ap_entry64_addr ap_stack ap_ebx other_tables nx bsp_ebx topology k = Ret (k', b) →
  grows (Smp.globals k) (Smp.globals k').
Proof.
  assert (∀ k k' topo b, prepare_ap tr ap_entry64_addr ap_stack nx k topo = Ret (k', b) →
            grows (Smp.globals k) (Smp.globals k')) as Hprep.
  { clear k k' b. intros k k' topo b Hrun. unfold prepare_ap in Hrun.
    apply outcome_bind_ret in Hrun as (len & _ & Hrun). destruct (_ && _); [done|].
    rewrite (virt_addr_low LAPIC_VIRT_BASE) in Hrun by done. cbn [mbind outcome_bind] in Hrun.
    apply outcome_bind_ret in Hrun as ([k1 b1] & R1 & Hrun). apply smp_page_grows in R1; [|page_named].
    cbn [fst snd] in Hrun. destruct b1; cbn [negb] in Hrun; [|by injection Hrun as <- _].
    rewrite (virt_addr_low TRAMPOLINE_PHYS_ADDR) in Hrun by done. cbn [mbind outcome_bind] in Hrun.
    apply outcome_bind_ret in Hrun as ([k2 b2] & R2 & Hrun). apply smp_page_grows in R2; [|page_named].
    pose proof (grows_trans _ _ _ R1 R2).
    cbn [fst snd] in Hrun. destruct b2; cbn [negb] in Hrun; [|by injection Hrun as <- _].
    destruct (Smp.phys_mem_offset k2); [|by injection Hrun as <- _].
    do 5 apply outcome_bind_ret in Hrun as (? & _ & Hrun). by injection Hrun as <- _. }
  intros Hrun. unfold smp_ok in Hrun. destruct topology as [topo|]; [|injection Hrun as <- _; apply grows_refl].
  destruct (negb _); [injection Hrun as <- _; apply grows_refl|].
  destruct (find _ _) as [cpu|]; [|injection Hrun as <- _; apply grows_refl].
  apply outcome_bind_ret in Hrun as ([k1 b1] & R1 & Hrun). cbn [fst snd] in Hrun.
  assert (grows (Smp.globals k) (Smp.globals k1)) as Hg.
  { unfold bring_up_ap in R1. apply outcome_bind_ret in R1 as ([k2 b2] & R2 & R1). apply Hprep in R2.
    cbn [fst snd] in R1. destruct b2; cbn [negb] in R1; [|by injection R1 as <- _].
    apply outcome_bind_ret in R1 as (r & _ & R1). by injection R1 as <- _. }
  destruct b1; cbn [negb] in Hrun; [|by injection Hrun as <- _].
  apply outcome_bind_ret in Hrun as ([f1 f2] & _ & Hrun). cbn [fst snd] in Hrun.
  destruct f2; cbn [negb] in Hrun; [|by injection Hrun as <- _].
  apply outcome_bind_ret in Hrun as (i & _ & Hrun). by injection Hrun as <- _.
Qed.
End grows.

(** ** The start *)

(** A machine that the boot can rely on: the memory regions are sane and the one that
    is chosen has room for the heap, and the bootloader has mapped nothing at the heap,
    at the demand-paged page or at the guard pages of the stacks. *)
Record bootable {M : Type} `{Mapper M} `{Profile} (offset_page_table : Z → Z → M) (b : BootInfo) (hw : AddressSpace.machine) :
    Prop := {
  bt_region : ∀ r, largest_usable (memory_regions b) = Ret r →
    0 <= region_start r ∧ (PAGE_SIZE | region_start r) ∧ 64 * PAGE_SIZE <= region_end r - region_start r ∧
    region_end r + 256 * PAGE_SIZE < 2 ^ 64;
  bt_unmapped : ∀ t off, active_level_4_table hw off = Ret t →
    walk (offset_page_table t off) DEMAND_PAGE_REGION_START = None ∧
    ∀ i, (i < 8)%nat → walk (offset_page_table t off) (guard_page i) = None;
}.

Section start.
Context `{Profile} {M : Type} `{MapperLaws M} {L : Type} `{HeapLaws L} `{V : Mapper table_view, !ViewLaws}.
Context (offset_page_table : Z → Z → M) (table_words : M → words).
Context (cpuid : Z → Z * Z) (acpi_tables : Z → option (option (Z * list MadtEntry))).
Context (user_cs user_ss kernel_rsp : Z) (clobber : nat → reg → Z).

Lemma heap_apart q : q < HEAP_BASE ∨ HEAP_TOP <= q → ∀ j, 0 <= j < 320 → q ≠ HEAP_BASE + j * PAGE_SIZE.
Proof. unfold HEAP_TOP, PAGE_SIZE. lia. Qed.

(** What the checks up to the system calls leave: no guard page is mapped, and those of
    demand paging have passed. *)
Lemma kernel_start_inv b hw c ram_words k s :
  bootable offset_page_table b hw →
  kernel_start (L := L) (V := V) offset_page_table table_words cpuid acpi_tables user_cs user_ss kernel_rsp clobber
    b hw c ram_words k = Ret s →
  mem_inv (s_globals s) (replicate (Z.to_nat MAX_SLOTS) false) ∧ s_page_fault s = true ∧ s_unmap s = true.
Proof.
  intros [Hregion Hunm] Hrun. unfold kernel_start in Hrun.
  apply outcome_bind_ret in Hrun as (off & _ & Hrun). destruct (cpu_features_init cpuid c) as [c' sec].
  apply outcome_bind_ret in Hrun as (region & Hreg & Hrun).
  destruct (Hregion region Hreg) as (Hr0 & Hr1 & Hr2 & Hr3).
  apply outcome_bind_ret in Hrun as ([st heap] & Hmem & Hrun).
  destruct (kernel_memory_ret (NX_ENABLED c') 0 offset_page_table hw off _ _ st heap Hr0 Hr1 Hr2 Hr3 Hmem)
    as (t & m & phys & Ht & -> & Hwf & Hbase & _ & _ & _ & Hout).
  destruct (Hunm t off Ht) as [Hdemand Hguard]. cbn [contents filled MAPPER PagingGlobals.PHYS] in Hrun.
  apply outcome_bind_ret in Hrun as ([r1 ok1] & R1 & Hrun).
  destruct (phys_alloc_ok_cases m phys 0 ram_words Hwf) as (phys1 & Hr & Hs1 & _). rewrite Hr in R1.
  injection R1 as <- _.
  apply outcome_bind_ret in Hrun as ([r2 ok2] & R2 & Hrun). apply outcome_bind_ret in Hrun as ([r3 ok3] & R3 & Hrun).
  destruct (demand_checks_grow (NX_ENABLED c') m phys1 ram_words r2 ok2 r3 ok3 (proj1 Hs1)) as (-> & -> & Hg3); [| |done|done|].
  { destruct Hs1 as (_ & -> & _). rewrite Hbase. apply Z.divide_add_r; [done|by apply Z.mod_divide]. }
  { rewrite Hout; [done|]. apply heap_apart. right. discriminate. }
  apply outcome_bind_ret in Hrun as ([hw' ok4] & R4 & Hrun). apply outcome_bind_ret in Hrun as ([[[g c4] rep] o] & R5 & Hrun).
  apply demo_syscall_grows in R5. injection Hrun as <-. cbn [s_globals s_page_fault s_unmap].
  split; [|done]. eapply grows_mem_inv; [exact R5|].
  assert (grows (maps r3) (put_phys (maps r3) (AddressSpace.PHYS hw'))) as R4'.
  { intros m0 p0 Hg Hp. rewrite Hg in *.
    pose proof (address_space_ok_frames _ (tables_machine _ (Some (m0, p0)) _ _ _) p0 _ _ eq_refl Hp R4)
      as (m' & p' & -> & Hs & _).
    by exists m0, p'. }
  eapply grows_mem_inv; [exact R4'|]. eapply grows_mem_inv; [exact Hg3|]. eapply grows_mem_inv; [by apply grows_frames|].
  split; [done|]. exists m, phys. split; [done|]. split; [done|]. split.
  - intros i j Hi. by apply lookup_replicate in Hi as [? _].
  - intros i Hi. rewrite Hout; [by apply Hguard|]. apply heap_apart. left.
    unfold guard_page, REGION_BASE, HEAP_BASE. assert (SLOT_STRIDE = 69632) as -> by done. lia.
Qed.

(** [AddressSpace::new] keeps the page tables and the arena. *)
Lemma new_space_keeps s : new_space_ok (new_space (V := V) table_words s).
Proof.
  intros k k' o Hrun Hm. unfold new_space in Hrun. apply outcome_bind_ret in Hrun as ([hw sp] & Hc & Hrun).
  injection Hrun as <- _. unfold space_call in Hc.
  destruct Hm as [Hl (m & p & Hg & Hp & Hst)]. rewrite Hg in *.
  pose proof (AddressSpace_new_frames _ (tables_machine _ (Some (m, p)) _ _ _) p _ _ eq_refl Hp Hc) as (m' & p' & -> & Hs).
  cbn [AddressSpace.PHYS set_phys put_phys]. split; [by destruct k|].
  replace (Tasks.globals (set_memory k (Some (m, p')) (Tasks.mapped k))) with (Some (m, p')) by (by destruct k).
  split; [done|]. exists m, p'. split; [done|]. split; [apply Hs|done].
Qed.
End start.

(** ** The tasks *)

Section tasks.
Context `{Profile} {M : Type} `{MapperLaws M} `{V : Mapper table_view, !ViewLaws}.
Context (table_words : M → words) (task_trampoline : Z) (code : Z → option task_body)
  (task_a task_b task_c task_d task_e : Z).
Context (boot_stack : Z → Prop).
Context (Hwords : entries_ok task_trampoline code [task_a; task_b; task_c; task_d; task_e]).

(** [AddressSpace::new] can make a space when [init] calls it. *)
Definition space_possible (s : started) (stacks : memory) (t : Z) : Prop :=
  ∀ k, before_space (s_nx s) task_trampoline (at_init s stacks t) task_a task_b task_c = Ret k →
  ∃ p, space_ready (tables_machine table_words (Tasks.globals k.1) (s_offset s) (Tasks.cr3 k.1) (s_cr3 s).2)
         (s_offset s) p.

Lemma first_world_inv s stacks t w0 tables :
  mem_inv (s_globals s) (replicate (Z.to_nat MAX_SLOTS) false) → 0 <= t <= u64_max → space_possible s stacks t →
  first_world (V := V) table_words task_trampoline code task_a task_b task_c task_e s stacks t = Ret w0 →
  space_words (V := V) table_words task_trampoline task_a task_b task_c s stacks t = Ret tables →
  ∃ space, world_inv boot_stack space w0 Running ∧
    ∃ a, translate tables space PRIVATE_REGION_ADDR = Some a ∧ load tables a = PRIVATE_VALUE.
Proof.
  intros Hm Ht Hready Hw Htab. destruct (entries_ok_inv _ _ _ _ _ _ _ Hwords) as (Ha & Hb & Hc & _ & He).
  pose proof Hw as Hinit. unfold first_world, init_world in Hinit.
  apply outcome_bind_ret in Hinit as ([k' cp] & Hinit & Hw0). cbn [fst snd] in Hw0.
  destruct (init_done_intro (s_nx s) task_trampoline boot_stack _ _ _ _ _ _ _ _ _ _ _ Hm Ht (new_space_keeps table_words s)
              (proj1 Ha) (proj1 Hb) (proj1 Hc) (proj1 He) Hinit) as [(k3 & k4 & o & Hbefore & _ & _ & Hns & Ho & _) _ _].
  destruct (Hready _ Hbefore) as (p & Hsr). cbn [fst] in Hsr.
  pose proof (AddressSpace_new_made (s_nx s) _ _ p Hsr) as (m' & p' & n & f & t3 & t2 & t1 & Hnew & Hmade & Hfree & _).
  unfold new_space, space_call in Hns. rewrite Hnew in Hns. cbn [mbind outcome_bind option_map l4_frame] in Hns.
  unfold space_words in Htab. unfold at_init in Hbefore, Htab. rewrite Hbefore in Htab.
  cbn [mbind outcome_bind fst] in Htab. unfold space_call in Htab. rewrite Hnew in Htab.
  injection Htab as <-. injection Hns as <- <-. exists n.
  assert (∃ a, translate m' n PRIVATE_REGION_ADDR = Some a ∧ load m' a = PRIVATE_VALUE) as Hspace.
  { exists f. split; [|by apply Hmade].
    destruct Hsr as [_ _ _ _ _ _ Htables Habs].
    rewrite (made_translate _ _ _ _ p _ _ _ _ _ Hmade Hfree Htables Habs), decide_True by done.
    change (page_offset 0 PRIVATE_REGION_ADDR) with 0. by rewrite Z.add_0_r. }
  split; [|done].
  apply (init_inv (s_nx s) task_trampoline code m' boot_stack n Hspace _ _ _ _ _ _ _ _ _ _ Hm Ht
           (new_space_keeps table_words s) Ha Hb Hc He Hw).
  injection Hw0 as <-. exact Ho.
Qed.
End tasks.

Lemma heap_ok_true : heap_ok = true.
Proof. by vm_compute. Qed.

(** ** The verdict *)

(** The read-backs do not look at the page tables. *)
Lemma read_backs_globals {M : Type} (w : world M) g :
  both_tasks_made_real_progress (put_globals w g) = both_tasks_made_real_progress w ∧
  task_c_really_exited (put_globals w g) = task_c_really_exited w ∧
  task_reused_a_guarded_slot (put_globals w g) = task_reused_a_guarded_slot w ∧
  task_e_verified_own_address_space (put_globals w g) = task_e_verified_own_address_space w.
Proof. destruct w as [k ? ? ?]. by destruct k. Qed.

Section exit.
Context `{Profile} {M : Type} `{MapperLaws M} {L : Type} `{HeapLaws L} `{V : Mapper table_view, !ViewLaws}.
Context (offset_page_table : Z → Z → M) (table_words : M → words).
Context (cpuid : Z → Z * Z) (acpi_tables : Z → option (option (Z * list MadtEntry))).
Context (user_cs user_ss kernel_rsp : Z) (clobber : nat → reg → Z).
Context (task_trampoline : Z) (code : Z → option task_body) (task_a task_b task_c task_d task_e : Z).
Context (tr : trampoline) (ap_entry64_addr ap_stack ap_ebx : Z) (other_tables : Z → bool) (bsp_ebx : Z).

(** The last check can fail only if an earlier one did: the pages that [smp.rs] maps and
    whatever runs meanwhile leave the read-backs as they were. *)
Lemma taken_intact s tables boot_stack space (w0 : world M) r :
  entries_ok task_trampoline code [task_a; task_b; task_c; task_d; task_e] →
  world_inv boot_stack space w0 Running →
  (∃ a, translate tables space PRIVATE_REGION_ADDR = Some a ∧ load tables a = PRIVATE_VALUE) →
  taken task_trampoline code task_d tr ap_entry64_addr ap_stack ap_ebx other_tables bsp_ebx s tables boot_stack w0 r →
  both_tasks_made_real_progress (r_progress r) = true → task_c_really_exited (r_exit r) = true →
  task_reused_a_guarded_slot (r_reuse r) = true → task_e_verified_own_address_space (r_space r) = true →
  bsp_state_intact (r_last r) = true.
Proof.
  intros Hwords Hi0 Hspace (Ra & Rb & Rc & Rd & w & mem & sc & k & Re & Hsmp & Rf) Ha Hb Hc Hd.
  destruct (entries_ok_inv _ _ _ _ _ _ _ Hwords) as (_ & _ & _ & Hw & _).
  assert (∀ (w1 : world M) ph1 w2, world_inv boot_stack space w1 ph1 →
            run (s_nx s) task_trampoline code task_d tables boot_stack w1 w2 → ∃ ph2, world_inv boot_stack space w2 ph2) as Hinv.
  { intros w1 ph1 w2 Hi1 Hr. destruct (run_inv (M := M) _ _ _ _ _ _ _ Hw Hspace _ _ _ Hi1 Hr) as (ph2 & Hi2 & _). by exists ph2. }
  pose proof (λ w1 ph1 w2 Hi Hr, read_backs_stay (M := M) (s_nx s) task_trampoline code task_d tables boot_stack space Hw Hspace
                w1 ph1 w2 Hi Hr) as Hstay.
  destruct (Hinv _ _ _ Hi0 Ra) as (pa & Ia). destruct (Hinv _ _ _ Ia Rb) as (pb & Ib).
  destruct (Hinv _ _ _ Ib Rc) as (pc & Ic). destruct (Hinv _ _ _ Ic Rd) as (pd & Id).
  destruct (Hinv _ _ _ Id Re) as (pe & Ie).
  assert (world_inv boot_stack space (put_globals w (Smp.globals k)) pe) as If.
  { apply world_inv_globals; [done|]. apply smp_ok_grows in Hsmp. eapply grows_mem_inv; [exact Hsmp|].
    apply (ti_mem _ _ (wi_tasks _ _ _ _ Ie)). }
  destruct (Hstay _ _ _ Ia Rb) as (Sb & _). destruct (Hstay _ _ _ Ib Rc) as (Sc & Sc' & _).
  destruct (Hstay _ _ _ Ic Rd) as (Sd & Sd' & Sd'' & _). destruct (Hstay _ _ _ Id Re) as (Se1 & Se2 & Se3 & Se4).
  destruct (Hstay _ _ _ If Rf) as (Sf1 & Sf2 & Sf3 & Sf4).
  destruct (read_backs_globals w (Smp.globals k)) as (G1 & G2 & G3 & G4).
  rewrite G1 in Sf1. rewrite G2 in Sf2. rewrite G3 in Sf3. rewrite G4 in Sf4.
  unfold bsp_state_intact. rewrite Sf1, Sf2, Sf3, Sf4; auto.
Qed.

(** The exit code says which checks passed, of those that can fail. *)
Lemma verdict_of s r results seq :
  s_page_fault s = true → s_unmap s = true → self_test (checks_of s r) = Ret (results, seq) →
  verdict results = exit_qemu Success ↔
  s_security s = true ∧ acpi_topology_ok (s_topology s) = true ∧ s_phys_alloc s = true ∧ s_space s = true ∧
  s_syscall s = true ∧ both_tasks_made_real_progress (r_progress r) = true ∧ task_c_really_exited (r_exit r) = true ∧
  task_reused_a_guarded_slot (r_reuse r) = true ∧ task_e_verified_own_address_space (r_space r) = true ∧
  r_smp r = true ∧ bsp_state_intact (M := M) (r_last r) = true.
Proof.
  intros Hf Hu. remember (checks_of s r) as c eqn:Ec. rewrite self_test_ret. intros Hself.
  assert (results = mkResults 22 (8 + count_true (machine_results c))) as -> by congruence.
  rewrite verdict_success, Ec. clear Ec. unfold checks_of, machine_results.
  cbn [c_cpu_security c_acpi c_phys_alloc c_heap c_page_fault c_unmap c_address_space c_syscall c_scheduler c_task_exit
       c_task_reuse c_task_space c_smp c_bsp_intact forallb id].
  rewrite heap_ok_true, Hf, Hu, !andb_true_iff. tauto.
Qed.

(** ** Properties *)

Context (b : BootInfo) (hw : AddressSpace.machine) (c : control) (ram_words : gmap Z Z) (k : cpu)
  (stacks : memory) (boot_stack : Z → Prop) (t : Z).

#[local] Abbreviation start :=
  (kernel_start (L := L) (V := V) offset_page_table table_words cpuid acpi_tables user_cs user_ss kernel_rsp clobber
     b hw c ram_words k).
#[local] Abbreviation start_tasks s :=
  (first_world (V := V) table_words task_trampoline code task_a task_b task_c task_e s stacks t).
#[local] Abbreviation space_tables s :=
  (space_words (V := V) table_words task_trampoline task_a task_b task_c s stacks t).
#[local] Abbreviation readings_taken :=
  (taken (M := M) task_trampoline code task_d tr ap_entry64_addr ap_stack ap_ebx other_tables bsp_ebx).
#[local] Abbreviation boots :=
  (kernel_main (L := L) (V := V) offset_page_table table_words cpuid acpi_tables user_cs user_ss kernel_rsp
     clobber task_trampoline code task_a task_b task_c task_d task_e tr ap_entry64_addr ap_stack ap_ebx other_tables bsp_ebx
     b hw c ram_words k stacks boot_stack t).

(** [C21] The exit code of the boot, from the bootloader's state on.  On a machine with
    room for the heap, with nothing mapped where the kernel maps, and on which
    [AddressSpace::new] can make a space for [task_e], with the five task bodies at the
    five entry addresses: every boot that ends writes
    [Success] or the code of a panic.  [Success] is written exactly in the boots in which
    the protections are as CPUID says, ACPI lists a processor, two pages were free, the
    address space and the system calls worked, the four read-backs of the tasks were
    taken when their tasks had run, and the other processor answered; the heap, the page
    fault, the unmapping and the state of the boot processor afterwards cannot fail a
    boot.  In between no step of a task and no tick panics, and no guard page of a stack
    is ever mapped. *)
Theorem boot_exit_code
    (Hboot : bootable offset_page_table b hw) (Ht : 0 <= t <= u64_max)
    (Hwords : entries_ok task_trampoline code [task_a; task_b; task_c; task_d; task_e])
    (Hspace : ∀ s, start = Ret s → space_possible table_words task_trampoline task_a task_b task_c s stacks t) :
  (∀ n, boots n → n = exit_qemu Success ∨ n = panic) ∧
  (boots (exit_qemu Success) ↔
   ∃ s w0 tables r, start = Ret s ∧ start_tasks s = Ret w0 ∧ space_tables s = Ret tables ∧
     readings_taken s tables boot_stack w0 r ∧
     s_security s = true ∧ acpi_topology_ok (s_topology s) = true ∧ s_phys_alloc s = true ∧ s_space s = true ∧
     s_syscall s = true ∧ both_tasks_made_real_progress (r_progress r) = true ∧
     task_c_really_exited (r_exit r) = true ∧ task_reused_a_guarded_slot (r_reuse r) = true ∧
     task_e_verified_own_address_space (r_space r) = true ∧ r_smp r = true) ∧
  (∀ s w0 tables w, start = Ret s → start_tasks s = Ret w0 → space_tables s = Ret tables →
     run (s_nx s) task_trampoline code task_d tables boot_stack w0 w →
     (∃ o, task_step (s_nx s) task_trampoline code task_d tables w = Ret o) ∧
     (∀ rsp, rsp_ok boot_stack (kern w) rsp → Tasks.ticks (kern w) < u64_max → ∃ w', tick_step rsp w = Ret w') ∧
     ∃ m p, Tasks.globals (kern w) = Some (m, p) ∧ ∀ i, (i < 8)%nat → walk m (guard_page i) = None).
Proof.
  assert (∀ s, start = Ret s → mem_inv (s_globals s) (replicate (Z.to_nat MAX_SLOTS) false) ∧
            s_page_fault s = true ∧ s_unmap s = true) as Hstart.
  { intros s Hs. eapply kernel_start_inv; [exact Hboot|exact Hs]. }
  assert (∀ s w0 tables, start = Ret s → start_tasks s = Ret w0 → space_tables s = Ret tables →
            ∃ space, world_inv boot_stack space w0 Running ∧
              ∃ a, translate tables space PRIVATE_REGION_ADDR = Some a ∧ load tables a = PRIVATE_VALUE) as Hfirst.
  { intros s w0 tables Hs Hw Htab. destruct (Hstart s Hs) as (Hm & _).
    eapply first_world_inv; [exact Hwords|exact Hm|done|by apply Hspace|exact Hw|exact Htab]. }
  split; [|split; [split|]].
  - intros n Hrun. destruct Hrun as [| | |s w0 tables r results seq]; try by right.
    unfold verdict. destruct (_ =? _); [by left|by right].
  - intros Hrun. inversion Hrun as [Hp E|s Hs Hp E|s w0 tables w pm sc Hs Hw Htab Hr Hp E
                                   |s w0 tables r results seq Hs Hw Htab Hr Hself E]; subst.
    destruct (Hstart s Hs) as (_ & Hf & Hu). apply (verdict_of s r results seq Hf Hu Hself) in E.
    exists s, w0, tables, r. tauto.
  - intros (s & w0 & tables & r & Hs & Hw & Htab & Hr & Hall). destruct (Hstart s Hs) as (_ & Hf & Hu).
    destruct (Hfirst s w0 tables Hs Hw Htab) as (space & Hi & Hsp).
    pose proof (taken_intact s tables boot_stack space w0 r Hwords Hi Hsp Hr) as Hlast.
    pose proof (self_test_ret (checks_of s r)) as Hself.
    assert (∃ results seq, self_test (checks_of s r) = Ret (results, seq)) as (results & seq & Hres) by eauto.
    replace (exit_qemu Success) with (verdict results); [by eapply verdict_given|].
    apply (verdict_of s r results seq Hf Hu Hres). tauto.
  - intros s w0 tables w Hs Hw Htab Hrun. destruct (Hfirst s w0 tables Hs Hw Htab) as (space & Hi & Hsp).
    destruct (entries_ok_inv _ _ _ _ _ _ _ Hwords) as (_ & _ & _ & Hd & _).
    destruct (run_inv (M := M) _ _ _ _ _ _ _ Hd Hsp _ _ _ Hi Hrun) as (ph & Hi' & _). split; [|split].
    + destruct (task_step_inv (s_nx s) task_trampoline code task_d tables boot_stack space Hd Hsp w ph Hi') as (o & Ho & _).
      by exists o.
    + intros rsp Hr Hk. destruct (tick_step_inv boot_stack space w ph rsp Hi' Hr Hk) as (w' & Hw1 & _). by exists w'.
    + destruct (ti_mem _ _ (wi_tasks _ _ _ _ Hi')) as [_ (m & p & Hg & _ & _ & Hgu)]. by exists m, p.
Qed.
End exit.

(** ** A boot

    A machine with two processors, 16 MiB of usable memory and all three protections;
    the tasks run for some thirty ticks between the readings. *)
Definition demo_info : BootInfo :=
  mkBootInfo (Some 0x10000000000) [mkRegion 0 0x9F000 true; mkRegion 0x1000000 0x2000000 true; mkRegion 0x2000000 0x8000000 false]
    (Some 0xE0000).

Definition demo_acpi (rsdp : Z) : option (option (Z * list MadtEntry)) :=
  Some (Some (0xFEE00000, [LocalApic 0 0 1; LocalApic 1 1 1])).

(** CPUID with NX, SMEP and SMAP. *)
Definition demo_cpuid (leaf : Z) : Z * Z := if leaf =? 7 then (0x100080, 0) else (0, 0x100000).

Definition demo_control : control := mkControl 0x500 0x20 false.

Abbreviation demo_start :=
  (@kernel_start true radix radix_mapper heap_range range_heap chain_mapper (λ _ _, mkRadix ∅ ∅) (λ _, AddressSpace.demo_words)
     demo_cpuid demo_acpi 0x23 0x1b 0x100 (λ _ _, 77)
     demo_info AddressSpace.demo_machine demo_control ∅ demo_call).

Definition ret_or {A} (d : A) (o : outcome A) : A := if o is Ret a then a else d.

Lemma ret_or_ret {A} (d : A) o : is_ret o = true → o = Ret (ret_or d o).
Proof. by destruct o. Qed.

Definition demo_started : started (M := radix) :=
  ret_or (mkStarted None 0 (0, 0) false (Err tt) false false false false false false) demo_start.

Definition demo_first : outcome (world radix) :=
  @first_world true radix radix_mapper chain_mapper (λ _, AddressSpace.demo_words) 0x7000 demo_code 0x5000 0x5100 0x5200 0x5400
    demo_started (λ _, 0) 3.

Definition demo_first_world : world radix := ret_or demo_world demo_first.

Definition demo_space_words : outcome words :=
  @space_words true radix radix_mapper chain_mapper (λ _, AddressSpace.demo_words) 0x7000 0x5000 0x5100 0x5200
    demo_started (λ _, 0) 3.

Definition demo_tables : words := ret_or ∅ demo_space_words.

Definition demo_run (fuel : nat) (w : world radix) : world radix :=
  @drive true radix radix_mapper (s_nx demo_started) 0x7000 demo_code 0x5300 demo_tables fuel 0x9000 w.

(** Both processors advance evenly. *)
Definition demo_to_come : to_come :=
  mkToCome (replicate 40 [Tick; ApStep]) (replicate 40 [ApStep]) (replicate 44 1%nat).

Definition demo_smp (w : world radix) : outcome (Smp.kernel radix * bool) :=
  @smp_check true radix radix_mapper demo_trampoline 0xFFFF800000001000 0x444444440000 0x1000000 (λ _, false) 0
    demo_started w (λ _, 0) demo_to_come.

Definition demo_settled : world radix := demo_run 120 demo_first_world.

Definition demo_before_smp : world radix := demo_run 4 demo_settled.

Definition demo_smp_kernel : Smp.kernel radix := (ret_or (Smp.demo_kernel 0, false) (demo_smp demo_before_smp)).1.

Definition demo_readings : readings :=
  mkReadings demo_settled demo_settled demo_settled demo_settled true
    (demo_run 5 (put_globals demo_before_smp (Smp.globals demo_smp_kernel))).

Lemma demo_start_ret : demo_start = Ret demo_started.
Proof. apply ret_or_ret. vm_compute. reflexivity. Qed.

Lemma demo_first_ret : demo_first = Ret demo_first_world.
Proof. apply ret_or_ret. vm_compute. reflexivity. Qed.

Lemma demo_tables_ret : demo_space_words = Ret demo_tables.
Proof. apply ret_or_ret. vm_compute. reflexivity. Qed.

Lemma demo_smp_ret : demo_smp demo_before_smp = Ret (demo_smp_kernel, true).
Proof.
  assert (is_ret (demo_smp demo_before_smp) = true) as Hr by (vm_compute; reflexivity).
  apply (ret_or_ret (Smp.demo_kernel 0, false)) in Hr. rewrite Hr. unfold demo_smp_kernel.
  assert ((ret_or (Smp.demo_kernel 0, false) (demo_smp demo_before_smp)).2 = true) as Hb by (vm_compute; reflexivity).
  clear Hr. destruct (ret_or _ _) as [k b]. cbn [fst snd] in *. by subst b.
Qed.

Lemma demo_bootable : @bootable radix radix_mapper true (λ _ _, mkRadix ∅ ∅) demo_info AddressSpace.demo_machine.
Proof.
  split; [|done]. intros r Hr. vm_compute in Hr. injection Hr as <-.
  split_and!; [discriminate|apply Z.mod_divide; [discriminate|reflexivity]|discriminate|reflexivity].
Qed.

Lemma demo_mem_ok : @mem_inv radix radix_mapper (s_globals demo_started) (replicate (Z.to_nat MAX_SLOTS) false).
Proof.
  exact (proj1 (@kernel_start_inv true radix radix_mapper radix_laws heap_range range_heap range_heap_laws chain_mapper
    chain_laws (λ _ _, mkRadix ∅ ∅) (λ _, AddressSpace.demo_words) demo_cpuid demo_acpi 0x23 0x1b 0x100 (λ _ _, 77)
    demo_info AddressSpace.demo_machine demo_control ∅ demo_call demo_started demo_bootable demo_start_ret)).
Qed.

Lemma demo_entries : entries_ok 0x7000 demo_code [0x5000; 0x5100; 0x5200; 0x5300; 0x5400].
Proof. exact demo_words_ok. Qed.

(** The kernel in which the address space of [task_e] is made, and its frames. *)
Definition demo_before : outcome (Tasks.kernel radix * option Z) :=
  @before_space true radix radix_mapper (s_nx demo_started) 0x7000 (at_init demo_started (λ _, 0) 3) 0x5000 0x5100 0x5200.

Lemma ret_inj {A : Type} (a a' : A) : Ret a = Ret a' → a = a'.
Proof. by intros [= ->]. Qed.

Definition demo_at_space : Tasks.kernel radix := (ret_or (Tasks.demo_kernel, None) demo_before).1.

Definition frames_of (g : option (radix * PhysicalAllocator)) : PhysicalAllocator :=
  match g with Some (_, p) => p | None => demo_phys end.

Definition demo_left : PhysicalAllocator := frames_of (Tasks.globals demo_at_space).

Lemma demo_before_ret : ∃ o, demo_before = Ret (demo_at_space, o).
Proof.
  assert (is_ret demo_before = true) as Hr by (vm_compute; reflexivity).
  apply (ret_or_ret (Tasks.demo_kernel, None)) in Hr. rewrite Hr. unfold demo_at_space.
  generalize (ret_or (Tasks.demo_kernel, None) demo_before). intros [k o]. exists o. reflexivity.
Qed.

Lemma demo_left_eq m p : Tasks.globals demo_at_space = Some (m, p) → demo_left = p.
Proof. unfold demo_left. intros ->. reflexivity. Qed.

Lemma demo_left_ok : ∃ m, Tasks.globals demo_at_space = Some (m, demo_left) ∧ phys_wf demo_left.
Proof.
  destruct (entries_ok_inv _ _ _ _ _ _ _ demo_entries) as ([Ha _] & [Hb _] & [Hc _] & _ & [He _]).
  pose proof demo_first_ret as Hinit. unfold demo_first, first_world, init_world in Hinit.
  apply outcome_bind_ret in Hinit as ([k' cp] & Hinit & _).
  destruct (@init_done_intro true radix radix_mapper radix_laws (s_nx demo_started) 0x7000 demo_stack _ _ _ 3 _ _ _ _ _ _ _ demo_mem_ok
    demo_ticks_ok (new_space_keeps (λ _, AddressSpace.demo_words) demo_started) Ha Hb Hc He Hinit)
    as [(k3 & k4 & o & Hbefore & _ & (_ & Hm) & _) _ _].
  destruct demo_before_ret as [o3 Hb3]. unfold demo_before, at_init in Hb3. rewrite Hbefore in Hb3.
  apply ret_pair_inv in Hb3 as [-> _]. destruct Hm as (m & p & Hg & Hp & _).
  exists m. rewrite (demo_left_eq m p Hg). exact (conj Hg Hp).
Qed.

Lemma demo_possible s :
  demo_start = Ret s →
  @space_possible true radix radix_mapper (λ _, AddressSpace.demo_words) 0x7000 0x5000 0x5100 0x5200 s (λ _, 0) 3.
Proof.
  rewrite demo_start_ret. intros Hs%ret_inj k Hk. subst s. destruct demo_before_ret as [o Hb]. unfold demo_before in Hb.
  rewrite Hb in Hk. apply ret_inj in Hk as <-. cbn [fst]. destruct demo_left_ok as (m & Hg & Hp). rewrite Hg.
  assert (Tasks.cr3 demo_at_space = 0x1000) as -> by (vm_compute; reflexivity).
  assert (s_offset demo_started = 0x10000000000) as -> by (vm_compute; reflexivity).
  assert (base demo_left = 0x1040000) as Hbase by (vm_compute; reflexivity).
  exists demo_left. split; cbn [tables_machine AddressSpace.PHYS_MEM_OFFSET AddressSpace.PHYS AddressSpace.cr3 AddressSpace.mem fmap option_fmap option_map snd].
  - split; [reflexivity|discriminate].
  - exact (conj eq_refl Hp).
  - rewrite Hbase. split; [apply Z.mod_divide; [discriminate|reflexivity]|discriminate].
  - rewrite Hbase. vm_compute. discriminate.
  - split; [discriminate|reflexivity].
  - vm_compute. discriminate.
  - intros v a Ha%demo_walk_low [[Hlo _] _]. rewrite Hbase in Hlo. lia.
  - reflexivity.
Qed.

Lemma demo_task_d : entry_ok 0x7000 demo_code TaskD 0x5300.
Proof. exact demo_d_ok. Qed.

Lemma demo_first_inv : ∃ space, world_inv demo_stack space demo_first_world Running ∧
  ∃ a, translate demo_tables space PRIVATE_REGION_ADDR = Some a ∧ load demo_tables a = PRIVATE_VALUE.
Proof.
  exact (@first_world_inv true radix radix_mapper radix_laws chain_mapper chain_laws (λ _, AddressSpace.demo_words)
    0x7000 demo_code 0x5000 0x5100 0x5200 0x5300 0x5400 demo_stack demo_entries demo_started (λ _, 0) 3 demo_first_world demo_tables
    demo_mem_ok demo_ticks_ok (demo_possible demo_started demo_start_ret) demo_first_ret demo_tables_ret).
Qed.

Abbreviation demo_runs := (@run true radix radix_mapper (s_nx demo_started) 0x7000 demo_code 0x5300 demo_tables demo_stack).

Section demo_space.
Context (space : Z).
Context (Hspace : ∃ a, translate demo_tables space PRIVATE_REGION_ADDR = Some a ∧ load demo_tables a = PRIVATE_VALUE).

Lemma demo_run_run fuel (w : world radix) ph :
  world_inv demo_stack space w ph →
  demo_runs w (demo_run fuel w) ∧
  ∃ ph', world_inv demo_stack space (demo_run fuel w) ph'.
Proof.
  intros Hi.
  assert (demo_runs w (demo_run fuel w)) as Hr.
  { exact (@drive_run true radix radix_mapper radix_laws (s_nx demo_started) 0x7000 demo_code 0x5300 demo_tables demo_stack space demo_task_d Hspace
             fuel 0x9000 w ph Hi eq_refl). }
  split; [exact Hr|].
  destruct (@run_inv true radix radix_mapper radix_laws _ _ _ _ _ _ _ demo_task_d Hspace _ _ _ Hi Hr) as (ph' & Hi' & _). by exists ph'.
Qed.
End demo_space.

Lemma demo_taken :
  @taken true radix radix_mapper 0x7000 demo_code 0x5300 demo_trampoline 0xFFFF800000001000 0x444444440000 0x1000000 (λ _, false) 0
    demo_started demo_tables demo_stack demo_first_world demo_readings.
Proof.
  destruct demo_first_inv as (space & Hi0 & Hspace).
  destruct (demo_run_run space Hspace 120 _ _ Hi0) as [R1 [ph1 I1]].
  destruct (demo_run_run space Hspace 4 _ _ I1) as [R2 [ph2 I2]].
  pose proof demo_smp_ret as Hsmp.
  assert (world_inv demo_stack space (put_globals demo_before_smp (Smp.globals demo_smp_kernel)) ph2) as I3.
  { apply world_inv_globals; [exact I2|].
    pose proof (@smp_ok_grows true radix radix_mapper radix_laws _ _ _ _ _ _ _ _ _ _ _ Hsmp) as Hg.
    eapply grows_mem_inv; [exact Hg|].
    apply (ti_mem _ _ (wi_tasks _ _ _ _ I2)). }
  destruct (demo_run_run space Hspace 5 _ _ I3) as [R3 _].
  unfold taken, demo_readings. cbn [r_progress r_exit r_reuse r_space r_smp r_last]. cbv zeta.
  split; [exact R1|]. do 3 (split; [exact (@run_0 true radix radix_mapper _ _ _ _ _ _ demo_settled)|]).
  exists demo_before_smp, (λ _, 0), demo_to_come, demo_smp_kernel.
  split; [exact R2|]. split; [exact Hsmp|exact R3].
Qed.

(** This boot ends with [Success]. *)
Lemma boot_exit_code_witness :
  @kernel_main true radix radix_mapper heap_range range_heap chain_mapper (λ _ _, mkRadix ∅ ∅)
    (λ _, AddressSpace.demo_words) demo_cpuid demo_acpi 0x23 0x1b 0x100 (λ _ _, 77) 0x7000 demo_code 0x5000 0x5100 0x5200 0x5300 0x5400
    demo_trampoline 0xFFFF800000001000 0x444444440000 0x1000000 (λ _, false) 0 demo_info AddressSpace.demo_machine demo_control ∅
    demo_call (λ _, 0) demo_stack 3 (exit_qemu Success).
Proof.
  apply (@boot_exit_code true radix radix_mapper radix_laws heap_range range_heap range_heap_laws chain_mapper chain_laws
    (λ _ _, mkRadix ∅ ∅) (λ _, AddressSpace.demo_words) demo_cpuid demo_acpi 0x23 0x1b 0x100 (λ _ _, 77)
    0x7000 demo_code 0x5000 0x5100 0x5200 0x5300 0x5400 demo_trampoline 0xFFFF800000001000 0x444444440000 0x1000000 (λ _, false) 0
    demo_info AddressSpace.demo_machine demo_control ∅ demo_call (λ _, 0) demo_stack 3
    demo_bootable demo_ticks_ok demo_entries demo_possible).
  exists demo_started, demo_first_world, demo_tables, demo_readings.
  split; [exact demo_start_ret|]. split; [exact demo_first_ret|]. split; [exact demo_tables_ret|].
  split; [exact demo_taken|].
  split_and!; vm_compute; reflexivity.
Defined.
